(** * Class/task adaptation core of the model preparation algorithm (MPA)

    A shallow embedding of the class-name mapper, the class/task set
    refiners ([mpa/cls/stage.py]), the weight re-indexing pre-load hook
    ([mpa/modules/models/detectors/custom_single_stage_detector.py]), the
    segmentation statistics ([mpa/modules/datasets/seg_incr_voc_dataset.py])
    and the task adaptation hook ([mpa/modules/hooks/task_adapt_hook.py]),
    with the properties the specification states about them.

    Python values are embedded as follows: [str] as [string], a list as
    [list], an [int] as [Z] (indices that are known to be non-negative as
    [nat]), a [dict] with string keys as [gmap string _], a configuration
    dictionary with heterogeneous values as a record of optional fields, an
    exception as a constructor of [exc] carried by [result]. *)

From Stdlib Require Import Ascii DecimalString DecimalNat.
From stdpp Require Import base numbers option list strings gmap fin_maps.

Open Scope string_scope.
Open Scope list_scope.
Open Scope Z_scope.

(** ** Exceptions and results *)

(** The Python exceptions raised by the embedded code, with their message. *)
Inductive exc : Type :=
  | ValueError (msg : string)
  | KeyError (msg : string)
  | IndexError
  | TypeError
  | NotImplementedError (msg : string)
  | UnboundLocalError (name : string)
  | RuntimeError.

Inductive result (A : Type) : Type :=
  | Ok (a : A)
  | Raise (e : exc).

Arguments Ok {A} a.
Arguments Raise {A} e.

#[global] Instance result_ret : MRet result := λ A a, Ok a.

#[global] Instance result_bind : MBind result := λ A B k r,
  match r with
  | Ok a => k a
  | Raise e => Raise e
  end.

(** ** Python list indexing *)

(** [l[i]] for a Python list and an [int]: a negative index counts from the
    end, anything out of range raises [IndexError]. *)
Definition py_getitem {A : Type} (l : list A) (i : Z) : result A :=
  let j := if decide (i < 0) then Z.of_nat (length l) + i else i in
  if decide (j < 0) then Raise IndexError
  else match l !! Z.to_nat j with
       | Some x => Ok x
       | None => Raise IndexError
       end.

(** ** The class-name mapper ([mpa/modules/utils/task_adapt.py]) *)

Module TaskAdapt.

(** [names.index(name)], as an option instead of a [ValueError]. *)
Fixpoint index_of (name : string) (names : list string) : option nat :=
  match names with
  | [] => None
  | x :: rest => if decide (x = name) then Some 0%nat
                 else S <$> index_of name rest
  end.

(** The destination entry of one name: its position in the source list,
    or the sentinel [-1]. *)
Definition position (source_list : list string) (name : string) : Z :=
  match index_of name source_list with
  | Some j => Z.of_nat j
  | None => -1
  end.

(** Modelled from the spec: [map_class_names] lives in
    [mpa/modules/utils/task_adapt.py], which is not among the sources; only
    its callers are. The spec (4.1): "For each name in [destination_list],
    find its position in [source_list]; if absent, emit [-1]", for the
    contract [map_class_names(source_list, destination_list)]. *)
Definition map_class_names (source_list destination_list : list string)
  : list Z :=
  position source_list <$> destination_list.

(** The spec's ClassMapping invariant (section 3): one entry per
    destination class, each [-1] when the destination name has no
    counterpart in the source list and otherwise an index of that name in
    the source list. *)
Definition ClassMapping (source_list destination_list : list string)
    (mapping : list Z) : Prop :=
  length mapping = length destination_list ∧
  ∀ (i : nat) (name : string), destination_list !! i = Some name →
    ∃ v, mapping !! i = Some v ∧
         (v = -1 ↔ name ∉ source_list) ∧
         (v ≠ -1 → 0 ≤ v ∧ source_list !! Z.to_nat v = Some name).

End TaskAdapt.

(** ** The weight re-indexing pre-load hook
    ([mpa/modules/models/detectors/custom_single_stage_detector.py]) *)

Module CustomSingleStageDetector.
Section Hook.

(** A parameter tensor is the list of its rows [param[i]]; what a row
  holds (a slice of a convolution weight, a bias scalar) is left open. *)
Context {Row : Type}.

(** [map_class_names], imported from [mpa.modules.utils.task_adapt], is
  not among the sources: the hook is embedded over it. *)
Variable map_class_names : list string → list string → list Z.

(** [dst.copy_(src)] of the tensor framework on two rows: the content of
  [dst] afterwards. The source is broadcast to the shape of the destination
  and cast to its dtype; when its shape cannot be broadcast, the call raises
  a [RuntimeError]. *)
Variable copy_ : Row → Row → result Row.

(** [str(level)] and [pattern.format(level)] for a pattern with one
  replacement field. *)
Definition str (n : nat) : string := NilZero.string_of_uint (Nat.to_uint n).

Fixpoint format (pattern arg : string) : string :=
match pattern with
| String "{"%char (String "}"%char rest) => arg +:+ rest
| String c rest => String c (format rest arg)
| EmptyString => EmptyString
end.

(** [model_param[dst].copy_(chkpt_param[src])]: indexing a tensor out of
  its range raises [IndexError]; the row [model_param[dst]] is a view, so
  that the copy changes [model_param] at that row. *)
Definition copy_row (model_param chkpt_param : list Row) (dst src : nat)
: result (list Row) :=
match model_param !! dst with
| None => Raise IndexError
| Some dst_row =>
    match chkpt_param !! src with
    | None => Raise IndexError
    | Some src_row =>
        row ← copy_ dst_row src_row;
        Ok (<[dst := row]> model_param)
    end
end.

(** [for m, c in enumerate(model2chkpt): if c >= 0: ...], the entries
  from index [m] on. *)
Fixpoint mix_anchor (num_chkpt_classes num_model_classes : nat)
  (chkpt_param : list Row) (anchor_idx m : nat) (model2chkpt : list Z)
  (model_param : list Row) : result (list Row) :=
match model2chkpt with
| [] => Ok model_param
| c :: rest =>
    model_param ←
      (if decide (0 ≤ c)
       then copy_row model_param chkpt_param
              (anchor_idx * num_model_classes + m)%nat
              (anchor_idx * num_chkpt_classes + Z.to_nat c)%nat
       else Ok model_param);
    mix_anchor num_chkpt_classes num_model_classes chkpt_param
      anchor_idx (S m) rest model_param
end.

(** [for anchor_idx in range(num_anchors): ...] *)
Fixpoint mix_anchors (num_chkpt_classes num_model_classes : nat)
  (chkpt_param : list Row) (model2chkpt : list Z) (anchors : list nat)
  (model_param : list Row) : result (list Row) :=
match anchors with
| [] => Ok model_param
| anchor_idx :: rest =>
    model_param ← mix_anchor num_chkpt_classes num_model_classes
                    chkpt_param anchor_idx 0 model2chkpt model_param;
    mix_anchors num_chkpt_classes num_model_classes chkpt_param
      model2chkpt rest model_param
end.

(** Lines 103-118: the mixing of one parameter; [model_param] is the clone
  of the model's freshly initialized parameter. [int(rows / classes)] is
  the floor division of the two non-negative sizes. *)
Definition mix_param (model2chkpt : list Z)
  (num_chkpt_classes num_model_classes : nat)
  (chkpt_param model_param : list Row) : result (list Row) :=
let num_chkpt_anchors := (length chkpt_param / num_chkpt_classes)%nat in
let num_model_anchors := (length model_param / num_model_classes)%nat in
let num_anchors := (num_chkpt_anchors `min` num_model_anchors)%nat in
mix_anchors num_chkpt_classes num_model_classes chkpt_param model2chkpt
  (seq 0 num_anchors) model_param.

(** Lines 79-90: the list of class-relevant parameter name patterns. *)
Definition select_param_names (prefix : string)
  (chkpt_dict : gmap string (list Row)) : list string :=
if decide (is_Some (chkpt_dict !! (prefix +:+ "bbox_head.cls_convs.0.weight")))
then ["bbox_head.cls_convs.{}.weight"; "bbox_head.cls_convs.{}.bias"]
else if decide (is_Some (chkpt_dict !! (prefix +:+ "bbox_head.cls_convs.0.0.weight")))
then ["bbox_head.cls_convs.{}.3.weight"; "bbox_head.cls_convs.{}.3.bias"]
else [].

(** Lines 95-120: the inner loop over the parameter names of one level. It
  yields the checkpoint dict as mutated so far together with
  [level_found], or with the exception that interrupted it. *)
Fixpoint mix_level (model_dict : gmap string (list Row)) (prefix : string)
  (model2chkpt : list Z) (num_chkpt_classes num_model_classes : nat)
  (level : nat) (param_names : list string) (level_found : bool)
  (chkpt_dict : gmap string (list Row))
: gmap string (list Row) * result bool :=
match param_names with
| [] => (chkpt_dict, Ok level_found)
| pattern :: rest =>
    let model_name := format pattern (str level) in
    let chkpt_name := prefix +:+ model_name in
    match model_dict !! model_name, chkpt_dict !! chkpt_name with
    | Some model_param, Some chkpt_param =>
        match mix_param model2chkpt num_chkpt_classes num_model_classes
                chkpt_param model_param with
        | Ok mixed =>
            mix_level model_dict prefix model2chkpt num_chkpt_classes
              num_model_classes level rest true
              (<[chkpt_name := mixed]> chkpt_dict)
        | Raise e => (chkpt_dict, Raise e)
        end
    | _, _ => (chkpt_dict, Ok level_found)
    end
end.

(** Lines 93-122: the loop over the levels, which ends at the first level
  that was not found. *)
Fixpoint mix_levels (model_dict : gmap string (list Row)) (prefix : string)
  (model2chkpt : list Z) (num_chkpt_classes num_model_classes : nat)
  (param_names : list string) (levels : list nat)
  (chkpt_dict : gmap string (list Row))
: gmap string (list Row) * result unit :=
match levels with
| [] => (chkpt_dict, Ok ())
| level :: rest =>
    match mix_level model_dict prefix model2chkpt num_chkpt_classes
            num_model_classes level param_names false chkpt_dict with
    | (chkpt_dict, Ok true) =>
        mix_levels model_dict prefix model2chkpt num_chkpt_classes
          num_model_classes param_names rest chkpt_dict
    | (chkpt_dict, Ok false) => (chkpt_dict, Ok ())
    | (chkpt_dict, Raise e) => (chkpt_dict, Raise e)
    end
end.

(** The hook. [model_dict] is [model.state_dict()]; the result is the
  checkpoint dict after the in-place updates, with the exception if one
  was raised. *)
Definition load_state_dict_pre_hook (model_dict : gmap string (list Row))
  (model_classes chkpt_classes : list string)
  (chkpt_dict : gmap string (list Row)) (prefix : string)
: gmap string (list Row) * result unit :=
let chkpt_classes := chkpt_classes ++ ["__BG__"] in
let model_classes := model_classes ++ ["__BG__"] in
let num_chkpt_classes := length chkpt_classes in
let num_model_classes := length model_classes in
let model2chkpt := map_class_names model_classes chkpt_classes in
let param_names := select_param_names prefix chkpt_dict in
mix_levels model_dict prefix model2chkpt num_chkpt_classes
  num_model_classes param_names (seq 0 10) chkpt_dict.

(** *** Vocabulary for the properties of the hook *)

(** The shape and dtype of a row. *)
Context {Layout : Type}.
Variable layout : Row → Layout.

(** What the properties use of [copy_]: between rows of one shape and
  dtype it raises nothing and leaves the destination equal to the
  source. *)
Definition copies_rows : Prop :=
∀ dst src : Row, layout dst = layout src → copy_ dst src = Ok src.

(** The rows of the two blocks are all of one shape and dtype. *)
Definition one_layout (chkpt_param model_param : list Row) : Prop :=
∀ row row' : Row, row ∈ chkpt_param ++ model_param →
  row' ∈ chkpt_param ++ model_param → layout row = layout row'.

(** So are the rows of the block the checkpoint has under a name and of
  the parameter the model has under it, for every name. *)
Definition layouts_agree (model_dict chkpt_dict : gmap string (list Row))
  (prefix : string) : Prop :=
∀ model_name chkpt_param model_param,
  chkpt_dict !! (prefix +:+ model_name) = Some chkpt_param →
  model_dict !! model_name = Some model_param →
  one_layout chkpt_param model_param.

(** The rows a mixing leaves behind: within the first [num_anchors] anchor
  groups a row whose mapping value is non-negative is the source row of
  that value and a row whose mapping value is negative is kept; the rows
  beyond those groups are kept. *)
Definition Mixed (num_chkpt_classes num_model_classes num_anchors : nat)
  (model2chkpt : list Z) (chkpt_param model_param mixed : list Row)
: Prop :=
length mixed = length model_param ∧
(∀ (a m : nat) (c : Z), (a < num_anchors)%nat →
   model2chkpt !! m = Some c →
   (0 ≤ c →
    mixed !! (a * num_model_classes + m)%nat
    = chkpt_param !! (a * num_chkpt_classes + Z.to_nat c)%nat) ∧
   (c < 0 →
    mixed !! (a * num_model_classes + m)%nat
    = model_param !! (a * num_model_classes + m)%nat)) ∧
(∀ r : nat, (num_anchors * num_model_classes ≤ r)%nat →
   mixed !! r = model_param !! r).

(** The entry under [chkpt_name] was replaced by the mixing of the entry
  the checkpoint had there with the model's parameter of that name. *)
Definition Remixed (model_dict chkpt_dict chkpt_dict' : gmap string (list Row))
  (prefix : string) (model2chkpt : list Z)
  (num_chkpt_classes num_model_classes : nat) (chkpt_name : string)
: Prop :=
∃ model_name chkpt_param model_param mixed,
  chkpt_name = prefix +:+ model_name ∧
  chkpt_dict !! chkpt_name = Some chkpt_param ∧
  model_dict !! model_name = Some model_param ∧
  chkpt_dict' !! chkpt_name = Some mixed ∧
  mix_param model2chkpt num_chkpt_classes num_model_classes
    chkpt_param model_param = Ok mixed.

(** The state of the loops: the entries outside [done] are those of
  [chkpt_dict], every other one is that of [chkpt_dict] or a mixing. *)
Definition Entries (model_dict chkpt_dict : gmap string (list Row))
  (prefix : string) (model2chkpt : list Z)
  (num_chkpt_classes num_model_classes : nat) (done : list string)
  (d : gmap string (list Row)) : Prop :=
(∀ k, k ∉ done → d !! k = chkpt_dict !! k) ∧
(∀ k, d !! k = chkpt_dict !! k ∨
      Remixed model_dict chkpt_dict d prefix model2chkpt
        num_chkpt_classes num_model_classes k).

(** An exception of the loops is one that the mixing of an entry of the
  checkpoint with the model's parameter of that name raises. *)
Definition RaisedByMixing {A : Type}
  (model_dict chkpt_dict : gmap string (list Row))
  (prefix : string) (model2chkpt : list Z)
  (num_chkpt_classes num_model_classes : nat) (r : result A) : Prop :=
∀ e, r = Raise e →
  ∃ model_name chkpt_param model_param,
    chkpt_dict !! (prefix +:+ model_name) = Some chkpt_param ∧
    model_dict !! model_name = Some model_param ∧
    mix_param model2chkpt num_chkpt_classes num_model_classes
      chkpt_param model_param = Raise e.

(** The name patterns [select_param_names] chooses from. *)
Definition known_param_names : list (list string) :=
[ ["bbox_head.cls_convs.{}.weight"; "bbox_head.cls_convs.{}.bias"];
  ["bbox_head.cls_convs.{}.3.weight"; "bbox_head.cls_convs.{}.3.bias"];
  [] ].

(** A string without a dot, as the decimal numerals are. *)
Fixpoint no_dot (s : string) : Prop :=
match s with
| EmptyString => True
| String c rest => c ≠ "."%char ∧ no_dot rest
end.

(** The parameter names probed at one level, and at a list of levels. *)
Definition level_names (param_names : list string) (level : nat)
: list string :=
(λ pattern, format pattern (str level)) <$> param_names.

Definition probed_names (param_names : list string) (levels : list nat)
: list string :=
levels ≫= level_names param_names.

(** The two names whose presence in the checkpoint selects the patterns. *)
Definition selector_names : list string :=
["bbox_head.cls_convs.0.weight"; "bbox_head.cls_convs.0.0.weight"].

(** Two state dicts hold the same entries under the given names. *)
Definition agree_on (names : list string) (d1 d2 : gmap string (list Row))
: Prop :=
∀ name, name ∈ names → d1 !! name = d2 !! name.

(** The first name probed at [level] is missing on either side. *)
Definition first_name_missing (model_dict chkpt_dict : gmap string (list Row))
  (prefix : string) (param_names : list string) (level : nat) : Prop :=
∃ pattern rest, param_names = pattern :: rest ∧
  (model_dict !! format pattern (str level) = None ∨
   chkpt_dict !! (prefix +:+ format pattern (str level)) = None).

End Hook.
End CustomSingleStageDetector.

(** ** Python dictionaries that keep their insertion order *)

Module Dict.

Fixpoint get {V : Type} (d : list (string * V)) (key : string) : option V :=
  match d with
  | [] => None
  | (k, v) :: rest => if decide (k = key) then Some v else get rest key
  end.

(** [d[key] = v]: an existing key keeps its place, a new key goes last. *)
Fixpoint set {V : Type} (d : list (string * V)) (key : string) (v : V)
  : list (string * V) :=
  match d with
  | [] => [(key, v)]
  | (k, x) :: rest =>
      if decide (k = key) then (k, v) :: rest else (k, x) :: set rest key v
  end.

End Dict.

(** ** numpy helpers *)

Module Numpy.

Fixpoint insert_unique (x : string) (sorted : list string) : list string :=
  match sorted with
  | [] => [x]
  | y :: rest =>
      if String.ltb x y then x :: y :: rest
      else if String.eqb x y then y :: rest
      else y :: insert_unique x rest
  end.

(** [np.unique] on strings: the distinct values in ascending order. *)
Definition unique (ar : list string) : list string :=
  foldr insert_unique [] ar.

(** [np.setdiff1d(ar1, ar2).tolist()]: the sorted distinct values of [ar1]
    that are not in [ar2]. *)
Definition setdiff1d (ar1 ar2 : list string) : list string :=
  unique (filter (λ x, x ∉ ar2) ar1).

End Numpy.

(** ** The class and task set refiners ([mpa/cls/stage.py]) *)

Module Stage.

(** A task set: task name to class list. *)
Abbreviation TaskSet := (list (string * list string)).

(** The entries of the train data configuration the stage reads or
    writes; [None] is an absent key. *)
Record TrainDataCfg : Type := {
  td_type : string;
  td_new_classes : option (list string);
  td_tasks : option TaskSet;
  td_classes : option (list string);
  td_CLASSES : option (list string);
  td_pre_stage_res : option string;
  td_model_tasks : option (option TaskSet);
  td_dst_classes : option (option (list string));
}.

(** The metadata stored with a checkpoint. *)
Record ModelMeta : Type := {
  meta_CLASSES : option (list string);
  meta_tasks : option TaskSet;
}.

(** [d[key]] for a key that may be absent. *)
Definition getitem {A : Type} (key : string) (entry : option A) : result A :=
  match entry with
  | Some v => Ok v
  | None => Raise (KeyError key)
  end.

(** The double quote character, as a string. *)
Definition dquote : string := String "034"%char EmptyString.

Definition not_supported (adapt_type : string) : exc :=
  KeyError (adapt_type +:+ " is not supported for task_adapt options!").

(** [for task, cls in new_tasks.items(): ...] on [model_tasks]. *)
Fixpoint merge_tasks (new_tasks : TaskSet) (model_tasks : TaskSet) : TaskSet :=
  match new_tasks with
  | [] => model_tasks
  | (task, cls) :: rest =>
      merge_tasks rest
        (match Dict.get model_tasks task with
         | Some (c0 :: cs) =>
             Dict.set model_tasks task
               ((c0 :: cs) ++ filter (λ c, c ∉ c0 :: cs) cls)
         | _ => Dict.set model_tasks task cls
         end)
  end.

Definition refine_tasks (train_cfg : TrainDataCfg) (meta : ModelMeta)
    (adapt_type : string) : result (TaskSet * TaskSet) :=
  new_tasks ← getitem "tasks" (td_tasks train_cfg);
  if decide (adapt_type = "REPLACE") then
    let old_tasks := [] in
    let model_tasks := new_tasks in
    Ok (model_tasks, old_tasks)
  else if decide (adapt_type = "MERGE") then
    old_tasks ← getitem "tasks" (meta_tasks meta);
    let model_tasks := merge_tasks new_tasks old_tasks in
    Ok (model_tasks, old_tasks)
  else Raise (not_supported adapt_type).

Definition refine_cls (train_cfg : TrainDataCfg) (meta : ModelMeta)
    (adapt_type : string) : result (list string * list string) :=
  new_classes ← getitem "new_classes" (td_new_classes train_cfg);
  old_classes ← getitem "CLASSES" (meta_CLASSES meta);
  if decide (adapt_type = "REPLACE") then
    if decide (length new_classes = 0%nat) then
      Raise (ValueError "Data classes should contain at least one class!")
    else
      let dst_classes := new_classes in
      Ok (dst_classes, old_classes)
  else if decide (adapt_type = "MERGE") then
    let dst_classes :=
      old_classes ++ filter (λ cls, cls ∉ old_classes) new_classes in
    Ok (dst_classes, old_classes)
  else Raise (not_supported adapt_type).

(** *** [ClsStage.configure_task] *)

Definition CLASS_INC_DATASET : list string :=
  ["MPAClsDataset"; "ClsDirDataset"; "ClsTVDataset"].
Definition PSEUDO_LABEL_ENABLE_DATASET : list string :=
  ["ClassIncDataset"; "LwfTaskIncDataset"; "ClsTVDataset"].
Definition WEIGHT_MIX_CLASSIFIER : list string := ["SAMImageClassifier"].

(** [cfg.task_adapt] *)
Record TaskAdaptCfg : Type := {
  ta_type : option string;
  ta_op : option string;
  ta_efficient_mode : option bool;
}.

(** [cfg.model.head.loss]; the loss weight is the constant [1.0]. *)
Record LossCfg : Type := {
  loss_type : string;
  loss_weight : Z;
  loss_gamma : Z;
  loss_reduction : string;
}.

(** [cfg.model.head] *)
Record HeadCfg : Type := {
  head_num_classes : option Z;
  head_tasks : option TaskSet;
  head_old_tasks : option TaskSet;
  head_loss : option LossCfg;
  head_num_old_classes : option Z;
}.

(** The configuration of the task adaptation hook (lines 205-212). *)
Record TaskAdaptHookCfg : Type := {
  hook_type : string;
  hook_src_classes : list string;
  hook_dst_classes : list string;
  hook_model_type : string;
  hook_sampler_flag : bool;
  hook_efficient_mode : bool;
}.

Section ConfigureTask.

(** The custom hook section of the configuration and
    [update_or_add_custom_hook] of [mpa.utils.config_utils], neither
    among the sources. *)
Context {CustomHooks : Type}.
Variable update_or_add_custom_hook :
  CustomHooks → TaskAdaptHookCfg → CustomHooks.

Record Cfg : Type := {
  cfg_task_adapt : TaskAdaptCfg;
  cfg_train : TrainDataCfg;
  cfg_model_type : string;
  cfg_head : HeadCfg;
  cfg_model_task_adapt : option (list string * list string);
  cfg_load_from : string;
  cfg_val_dst_classes : option (option (list string));
  cfg_test_dst_classes : option (option (list string));
  cfg_custom_hooks : CustomHooks;
}.

Definition set_train (f : TrainDataCfg → TrainDataCfg) (cfg : Cfg) : Cfg :=
  {| cfg_task_adapt := cfg_task_adapt cfg;
     cfg_train := f (cfg_train cfg);
     cfg_model_type := cfg_model_type cfg;
     cfg_head := cfg_head cfg;
     cfg_model_task_adapt := cfg_model_task_adapt cfg;
     cfg_load_from := cfg_load_from cfg;
     cfg_val_dst_classes := cfg_val_dst_classes cfg;
     cfg_test_dst_classes := cfg_test_dst_classes cfg;
     cfg_custom_hooks := cfg_custom_hooks cfg |}.

Definition set_head (f : HeadCfg → HeadCfg) (cfg : Cfg) : Cfg :=
  {| cfg_task_adapt := cfg_task_adapt cfg;
     cfg_train := cfg_train cfg;
     cfg_model_type := cfg_model_type cfg;
     cfg_head := f (cfg_head cfg);
     cfg_model_task_adapt := cfg_model_task_adapt cfg;
     cfg_load_from := cfg_load_from cfg;
     cfg_val_dst_classes := cfg_val_dst_classes cfg;
     cfg_test_dst_classes := cfg_test_dst_classes cfg;
     cfg_custom_hooks := cfg_custom_hooks cfg |}.

Definition set_model_task_adapt (v : list string * list string)
    (cfg : Cfg) : Cfg :=
  {| cfg_task_adapt := cfg_task_adapt cfg;
     cfg_train := cfg_train cfg;
     cfg_model_type := cfg_model_type cfg;
     cfg_head := cfg_head cfg;
     cfg_model_task_adapt := Some v;
     cfg_load_from := cfg_load_from cfg;
     cfg_val_dst_classes := cfg_val_dst_classes cfg;
     cfg_test_dst_classes := cfg_test_dst_classes cfg;
     cfg_custom_hooks := cfg_custom_hooks cfg |}.

Definition set_eval_dst_classes (v : option (list string)) (cfg : Cfg)
  : Cfg :=
  {| cfg_task_adapt := cfg_task_adapt cfg;
     cfg_train := cfg_train cfg;
     cfg_model_type := cfg_model_type cfg;
     cfg_head := cfg_head cfg;
     cfg_model_task_adapt := cfg_model_task_adapt cfg;
     cfg_load_from := cfg_load_from cfg;
     cfg_val_dst_classes := Some v;
     cfg_test_dst_classes := Some v;
     cfg_custom_hooks := cfg_custom_hooks cfg |}.

Definition set_custom_hooks (f : CustomHooks → CustomHooks) (cfg : Cfg)
  : Cfg :=
  {| cfg_task_adapt := cfg_task_adapt cfg;
     cfg_train := cfg_train cfg;
     cfg_model_type := cfg_model_type cfg;
     cfg_head := cfg_head cfg;
     cfg_model_task_adapt := cfg_model_task_adapt cfg;
     cfg_load_from := cfg_load_from cfg;
     cfg_val_dst_classes := cfg_val_dst_classes cfg;
     cfg_test_dst_classes := cfg_test_dst_classes cfg;
     cfg_custom_hooks := f (cfg_custom_hooks cfg) |}.

Definition with_new_classes (v : list string) (t : TrainDataCfg)
  : TrainDataCfg :=
  {| td_type := td_type t; td_new_classes := Some v;
     td_tasks := td_tasks t; td_classes := td_classes t;
     td_CLASSES := td_CLASSES t; td_pre_stage_res := td_pre_stage_res t;
     td_model_tasks := td_model_tasks t;
     td_dst_classes := td_dst_classes t |}.

Definition with_classes (v : list string) (t : TrainDataCfg)
  : TrainDataCfg :=
  {| td_type := td_type t; td_new_classes := td_new_classes t;
     td_tasks := td_tasks t; td_classes := Some v;
     td_CLASSES := td_CLASSES t; td_pre_stage_res := td_pre_stage_res t;
     td_model_tasks := td_model_tasks t;
     td_dst_classes := td_dst_classes t |}.

Definition with_pre_stage_res (v : string) (t : TrainDataCfg)
  : TrainDataCfg :=
  {| td_type := td_type t; td_new_classes := td_new_classes t;
     td_tasks := td_tasks t; td_classes := td_classes t;
     td_CLASSES := td_CLASSES t; td_pre_stage_res := Some v;
     td_model_tasks := td_model_tasks t;
     td_dst_classes := td_dst_classes t |}.

Definition with_model_tasks (v : option TaskSet) (t : TrainDataCfg)
  : TrainDataCfg :=
  {| td_type := td_type t; td_new_classes := td_new_classes t;
     td_tasks := td_tasks t; td_classes := td_classes t;
     td_CLASSES := td_CLASSES t; td_pre_stage_res := td_pre_stage_res t;
     td_model_tasks := Some v;
     td_dst_classes := td_dst_classes t |}.

Definition with_dst_classes (v : option (list string)) (t : TrainDataCfg)
  : TrainDataCfg :=
  {| td_type := td_type t; td_new_classes := td_new_classes t;
     td_tasks := td_tasks t; td_classes := td_classes t;
     td_CLASSES := td_CLASSES t; td_pre_stage_res := td_pre_stage_res t;
     td_model_tasks := td_model_tasks t;
     td_dst_classes := Some v |}.

Definition with_num_classes (n : Z) (hd : HeadCfg) : HeadCfg :=
  {| head_num_classes := Some n; head_tasks := head_tasks hd;
     head_old_tasks := head_old_tasks hd; head_loss := head_loss hd;
     head_num_old_classes := head_num_old_classes hd |}.

Definition with_head_tasks (v : TaskSet) (hd : HeadCfg) : HeadCfg :=
  {| head_num_classes := head_num_classes hd; head_tasks := Some v;
     head_old_tasks := head_old_tasks hd; head_loss := head_loss hd;
     head_num_old_classes := head_num_old_classes hd |}.

Definition with_old_tasks (v : TaskSet) (hd : HeadCfg) : HeadCfg :=
  {| head_num_classes := head_num_classes hd; head_tasks := head_tasks hd;
     head_old_tasks := Some v; head_loss := head_loss hd;
     head_num_old_classes := head_num_old_classes hd |}.

Definition with_loss (v : LossCfg) (hd : HeadCfg) : HeadCfg :=
  {| head_num_classes := head_num_classes hd; head_tasks := head_tasks hd;
     head_old_tasks := head_old_tasks hd; head_loss := Some v;
     head_num_old_classes := head_num_old_classes hd |}.

Definition with_num_old_classes (n : Z) (hd : HeadCfg) : HeadCfg :=
  {| head_num_classes := head_num_classes hd; head_tasks := head_tasks hd;
     head_old_tasks := head_old_tasks hd; head_loss := head_loss hd;
     head_num_old_classes := Some n |}.

Definition with_meta_CLASSES (v : list string) (meta : ModelMeta)
  : ModelMeta :=
  {| meta_CLASSES := Some v; meta_tasks := meta_tasks meta |}.

(** Truth values of the optional entries, as [d.get(key)] in a
    condition. *)
Definition truthy {A : Type} (entry : option (list A)) : bool :=
  match entry with
  | Some (_ :: _) => true
  | _ => false
  end.

Definition len (l : list string) : Z := Z.of_nat (length l).

(** The local variables of [configure_task] that the branches bind;
    [None] is a name that was never assigned, and [model_tasks] and
    [dst_classes] start as the value [None]. *)
Record Locals : Type := {
  model_tasks : option TaskSet;
  dst_classes : option (list string);
  old_tasks : option TaskSet;
  old_classes : option (list string);
}.

Definition local (name : string) {A : Type} (v : option A) : result A :=
  match v with
  | Some x => Ok x
  | None => Raise (UnboundLocalError name)
  end.

(** [len(dst_classes)] and the use of [dst_classes] as a list, which
    fail on the value [None]. *)
Definition as_list (v : option (list string)) : result (list string) :=
  match v with
  | Some l => Ok l
  | None => Raise TypeError
  end.

(** Lines 141-150. *)
Definition configure_classes (cfg : Cfg) (model_meta : ModelMeta)
    (model_classes data_classes : list string) : Cfg * ModelMeta :=
  let '(cfg, model_meta) :=
    match model_classes, data_classes with
    | _ :: _, _ =>
        (set_head (with_num_classes (len model_classes)) cfg,
         with_meta_CLASSES model_classes model_meta)
    | [], _ :: _ =>
        (set_head (with_num_classes (len data_classes)) cfg,
         with_meta_CLASSES data_classes model_meta)
    | [], [] => (cfg, model_meta)
    end in
  if truthy (td_new_classes (cfg_train cfg)) then (cfg, model_meta)
  else
    let new_classes := Numpy.setdiff1d data_classes model_classes in
    (set_train (with_new_classes new_classes) cfg, model_meta).

(** Lines 154-175: the refinement of the training phase. *)
Definition configure_refine (cfg : Cfg) (model_meta : ModelMeta)
    (adapt_type : string) : result (Cfg * Locals) :=
  let train_data_cfg := cfg_train cfg in
  if truthy (td_tasks train_data_cfg) then
    if truthy (meta_tasks model_meta) then
      '(model_tasks, old_tasks) ←
        refine_tasks train_data_cfg model_meta adapt_type;
      let cfg := set_head (with_old_tasks old_tasks) cfg in
      let cfg :=
        match head_tasks (cfg_head cfg), td_tasks train_data_cfg with
        | None, Some tasks => set_head (with_head_tasks tasks) cfg
        | _, _ => cfg
        end in
      Ok (cfg, {| model_tasks := Some model_tasks; dst_classes := None;
                  old_tasks := Some old_tasks; old_classes := None |})
    else
      Raise (KeyError ("can not find task meta data from "
                       +:+ cfg_load_from cfg +:+ "."))
  else
    match td_new_classes train_data_cfg with
    | Some _ =>
        if truthy (meta_CLASSES model_meta) then
          '(dst_classes, old_classes) ←
            refine_cls train_data_cfg model_meta adapt_type;
          Ok (cfg, {| model_tasks := None;
                      dst_classes := Some dst_classes;
                      old_tasks := None;
                      old_classes := Some old_classes |})
        else
          Raise (KeyError ("can not find CLASSES or classes meta data from "
                           +:+ cfg_load_from cfg +:+ "."))
    | None =>
        Raise (KeyError
          (dquote +:+ "new_classes" +:+ dquote +:+ " or " +:+ dquote
           +:+ "tasks" +:+ dquote
           +:+ " should be defined for incremental learning w/ current model."))
    end.

(** Lines 202-212: the hook configuration for a given delta of new
    classes. *)
Definition task_adapt_hook (cfg : Cfg) (old_classes dst_classes : list string)
    (new_classes : list string) : TaskAdaptHookCfg :=
  let sampler_flag := bool_decide (0 < len new_classes) in
  {| hook_type := "TaskAdaptHook";
     hook_src_classes := old_classes;
     hook_dst_classes := dst_classes;
     hook_model_type := cfg_model_type cfg;
     hook_sampler_flag := sampler_flag;
     hook_efficient_mode :=
       default false (ta_efficient_mode (cfg_task_adapt cfg)) |}.

(** Lines 177-213: the class-incremental set-up for the type ["mpa"]. *)
Definition configure_mpa (cfg : Cfg) (locals : Locals)
    (model_classes data_classes : list string) : result Cfg :=
  if decide (td_type (cfg_train cfg) ∈ CLASS_INC_DATASET) then
    let cfg :=
      if decide (cfg_model_type cfg ∈ WEIGHT_MIX_CLASSIFIER)
      then set_model_task_adapt (model_classes, data_classes) cfg
      else cfg in
    old_classes ← local "old_classes" (old_classes locals);
    dst_classes ← as_list (dst_classes locals);
    let new_classes := Numpy.setdiff1d dst_classes old_classes in
    let cfg := set_train (with_new_classes new_classes) cfg in
    let cfg := set_train (with_classes dst_classes) cfg in
    let cfg := set_head (with_num_classes (len dst_classes)) cfg in
    let gamma :=
      if default false (ta_efficient_mode (cfg_task_adapt cfg))
      then 2 else 3 in
    let cfg :=
      set_head (with_loss {| loss_type := "SoftmaxFocalLoss";
                             loss_weight := 1; loss_gamma := gamma;
                             loss_reduction := "none" |}) cfg in
    let hook := task_adapt_hook cfg old_classes dst_classes new_classes in
    Ok (set_custom_hooks (λ hooks, update_or_add_custom_hook hooks hook) cfg)
  else
    Raise (NotImplementedError
      ("Class Incremental Learning for " +:+ td_type (cfg_train cfg)
       +:+ " is not yet supported!")).

(** Lines 215-226: the evaluation phase. *)
Definition configure_eval (cfg : Cfg) (model_meta : ModelMeta)
    (adapt_type : string) : result (Cfg * Locals) :=
  let train_data_cfg := cfg_train cfg in
  let unbound := {| model_tasks := None; dst_classes := None;
                    old_tasks := None; old_classes := None |} in
  if truthy (td_tasks train_data_cfg) then
    match meta_tasks model_meta with
    | Some (t :: ts) => Ok (set_head (with_head_tasks (t :: ts)) cfg, unbound)
    | _ => Raise (KeyError ("can not find task meta data from "
                            +:+ cfg_load_from cfg +:+ "."))
    end
  else if truthy (td_new_classes train_data_cfg) then
    if truthy (meta_CLASSES model_meta) then
      '(dst_classes, _) ← refine_cls train_data_cfg model_meta adapt_type;
      Ok (set_head (with_num_classes (len dst_classes)) cfg,
          {| model_tasks := None; dst_classes := Some dst_classes;
             old_tasks := None; old_classes := None |})
    else
      Raise (KeyError ("can not find classes meta data from "
                       +:+ cfg_load_from cfg +:+ "."))
  else Ok (cfg, unbound).

(** Lines 228-244: the pseudo label augmentation. *)
Definition configure_pseudo_label (cfg : Cfg) (locals : Locals)
    (pre_stage_res : option string) : result Cfg :=
  match pre_stage_res with
  | Some (String c rest) =>
      if decide (td_type (cfg_train cfg) ∈ PSEUDO_LABEL_ENABLE_DATASET) then
        let cfg := set_train (with_pre_stage_res (String c rest)) cfg in
        if truthy (td_tasks (cfg_train cfg)) then
          let cfg :=
            set_train (with_model_tasks (model_tasks locals)) cfg in
          old_tasks ← local "old_tasks" (old_tasks locals);
          Ok (set_head (with_old_tasks old_tasks) cfg)
        else if truthy (td_CLASSES (cfg_train cfg)) then
          let cfg :=
            set_train (with_dst_classes (dst_classes locals)) cfg in
          let cfg := set_eval_dst_classes (dst_classes locals) cfg in
          dst ← as_list (dst_classes locals);
          let cfg := set_head (with_num_classes (len dst)) cfg in
          old_classes ← local "old_classes" (old_classes locals);
          Ok (set_head (with_num_old_classes (len old_classes)) cfg)
        else Ok cfg
      else
        Raise (NotImplementedError
          ("Pseudo label loading for " +:+ td_type (cfg_train cfg)
           +:+ " is not yet supported!"))
  | _ => Ok cfg
  end.

(** [ClsStage.configure_task]. [model_classes] and [data_classes] are
    what [Stage.get_model_classes(cfg)] and [Stage.get_data_classes(cfg)]
    return and [cfg_train] is what [Stage.get_train_data_cfg(cfg)]
    returns (the three are not among the sources); [pre_stage_res] is the
    keyword argument of that name. The result is the configuration and
    the metadata after the in-place updates, with the returned pair; the
    updates made before an exception are not kept. *)
Definition configure_task (cfg : Cfg) (training : bool)
    (model_meta : ModelMeta) (model_classes data_classes : list string)
    (pre_stage_res : option string)
  : result (Cfg * ModelMeta * (option TaskSet * option (list string))) :=
  let task_adapt_type := ta_type (cfg_task_adapt cfg) in
  let adapt_type := default "REPLACE" (ta_op (cfg_task_adapt cfg)) in
  let '(cfg, model_meta) :=
    configure_classes cfg model_meta model_classes data_classes in
  '(cfg, locals) ←
    (if training then
       '(cfg, locals) ← configure_refine cfg model_meta adapt_type;
       if decide (task_adapt_type = Some "mpa") then
         cfg ← configure_mpa cfg locals model_classes data_classes;
         Ok (cfg, locals)
       else Ok (cfg, locals)
     else configure_eval cfg model_meta adapt_type);
  cfg ← configure_pseudo_label cfg locals pre_stage_res;
  Ok (cfg, model_meta, (model_tasks locals, dst_classes locals)).

End ConfigureTask.

End Stage.

(** ** The refiners on a store of shared objects

    [refine_cls] and [refine_tasks] receive references to lists and
    dictionaries and return references. To speak about what they mutate and
    about what the returned objects share with the arguments, the two
    functions are embedded a second time over an explicit store. *)

Module Store.

Abbreviation loc := nat.

(** A class list, or a dictionary whose values are references (a task
    set, the train configuration, the metadata). *)
Inductive obj : Type :=
  | OList (items : list string)
  | ODict (entries : list (string * loc)).

Abbreviation heap := (gmap loc obj).

(** Computations that mutate the store and may raise; the store is kept
    when an exception interrupts them. *)
Definition M (A : Type) : Type := heap → heap * result A.

#[global] Instance M_ret : MRet M := λ A a h, (h, Ok a).

#[global] Instance M_bind : MBind M := λ A B k m h,
  match m h with
  | (h', Ok a) => k a h'
  | (h', Raise e) => (h', Raise e)
  end.

Definition raise {A : Type} (e : exc) : M A := λ h, (h, Raise e).

(** A new object, at an address not in use. *)
Definition alloc (o : obj) : M loc := λ h,
  let l := fresh (dom h) in (<[l := o]> h, Ok l).

Definition write (l : loc) (o : obj) : M unit := λ h, (<[l := o]> h, Ok ()).

(** Reading an object as a list or as a dictionary; an object of the other
    kind is a [TypeError] (and so is, in the model, an address not in
    use, which no Python reference denotes). *)
Definition read_list (l : loc) : M (list string) := λ h,
  match h !! l with
  | Some (OList items) => (h, Ok items)
  | _ => (h, Raise TypeError)
  end.

Definition read_dict (l : loc) : M (list (string * loc)) := λ h,
  match h !! l with
  | Some (ODict entries) => (h, Ok entries)
  | _ => (h, Raise TypeError)
  end.

(** [d[key]] *)
Definition getitem (d : loc) (key : string) : M loc :=
  entries ← read_dict d;
  match Dict.get entries key with
  | Some l => mret l
  | None => raise (KeyError key)
  end.

Fixpoint memo_get (memo : list (loc * loc)) (l : loc) : option loc :=
  match memo with
  | [] => None
  | (k, v) :: rest => if decide (k = l) then Some v else memo_get rest l
  end.

(** [copy.deepcopy] of the values of a task set: one new list per list
    object, shared where the original shares it. *)
Fixpoint deepcopy_entries (entries : list (string * loc))
    (memo : list (loc * loc)) : M (list (string * loc)) :=
  match entries with
  | [] => mret []
  | (key, l) :: rest =>
      l' ← match memo_get memo l with
            | Some l' => mret l'
            | None => items ← read_list l; alloc (OList items)
            end;
      rest' ← deepcopy_entries rest ((l, l') :: memo);
      mret ((key, l') :: rest')
  end.

(** [copy.deepcopy(old_tasks)] *)
Definition deepcopy (d : loc) : M loc :=
  entries ← read_dict d;
  y ← alloc (ODict []);
  entries' ← deepcopy_entries entries [];
  _ ← write y (ODict entries');
  mret y.

(** The body of the loop [for task, cls in new_tasks.items(): ...]. *)
Definition merge_task (task : string) (cls : loc) (model_tasks : loc)
  : M unit :=
  entries ← read_dict model_tasks;
  current ← match Dict.get entries task with
             | Some l => read_list l
             | None => mret []
             end;
  match current with
  | c0 :: cs =>
      new_items ← read_list cls;
      merged ← alloc (OList ((c0 :: cs)
                             ++ filter (λ c, c ∉ c0 :: cs) new_items));
      write model_tasks (ODict (Dict.set entries task merged))
  | [] => write model_tasks (ODict (Dict.set entries task cls))
  end.

(** [for task, cls in new_tasks.items(): ...] *)
Fixpoint merge_tasks (items : list (string * loc)) (model_tasks : loc)
  : M unit :=
  match items with
  | [] => mret ()
  | (task, cls) :: rest =>
      _ ← merge_task task cls model_tasks;
      merge_tasks rest model_tasks
  end.

Definition refine_tasks (train_cfg meta : loc) (adapt_type : string)
  : M (loc * loc) :=
  new_tasks ← getitem train_cfg "tasks";
  if decide (adapt_type = "REPLACE") then
    old_tasks ← alloc (ODict []);
    let model_tasks := new_tasks in
    mret (model_tasks, old_tasks)
  else if decide (adapt_type = "MERGE") then
    old_tasks ← getitem meta "tasks";
    model_tasks ← deepcopy old_tasks;
    items ← read_dict new_tasks;
    _ ← merge_tasks items model_tasks;
    mret (model_tasks, old_tasks)
  else raise (Stage.not_supported adapt_type).

Definition refine_cls (train_cfg meta : loc) (adapt_type : string)
  : M (loc * loc) :=
  new_classes ← getitem train_cfg "new_classes";
  old_classes ← getitem meta "CLASSES";
  if decide (adapt_type = "REPLACE") then
    new_items ← read_list new_classes;
    if decide (length new_items = 0%nat) then
      raise (ValueError "Data classes should contain at least one class!")
    else
      dst_classes ← alloc (OList new_items);
      mret (dst_classes, old_classes)
  else if decide (adapt_type = "MERGE") then
    old_items ← read_list old_classes;
    new_items ← read_list new_classes;
    dst_classes ←
      alloc (OList (old_items ++ filter (λ cls, cls ∉ old_items) new_items));
    mret (dst_classes, old_classes)
  else raise (Stage.not_supported adapt_type).

(** The class lists of the task set at [d], read through the store. *)
Definition read_entry (h : heap) (entry : string * loc)
  : option (string * list string) :=
  match h !! entry.2 with
  | Some (OList items) => Some (entry.1, items)
  | _ => None
  end.

Definition taskset_value (h : heap) (d : loc) : option Stage.TaskSet :=
  match h !! d with
  | Some (ODict entries) => mapM (read_entry h) entries
  | _ => None
  end.

(** The objects a task set is made of: the dictionary and its lists. *)
Definition taskset_objects (h : heap) (d : loc) : list loc :=
  match h !! d with
  | Some (ODict entries) => d :: entries.*2
  | _ => [d]
  end.

(** *** The store against the values

    What a reference of the store stands for as a value of [Stage]. *)

Definition list_value (h : heap) (entry : option loc)
    (v : option (list string)) : Prop :=
  match entry, v with
  | Some l, Some items => h !! l = Some (OList items)
  | None, None => True
  | _, _ => False
  end.

Definition tasks_value (h : heap) (entry : option loc)
    (v : option Stage.TaskSet) : Prop :=
  match entry, v with
  | Some d, Some tasks => taskset_value h d = Some tasks
  | None, None => True
  | _, _ => False
  end.

(** The dictionary at [train_cfg] holds the entries [new_classes] and
    [tasks] of the train data configuration [c]. *)
Definition train_cfg_value (h : heap) (train_cfg : loc)
    (c : Stage.TrainDataCfg) : Prop :=
  ∃ entries, h !! train_cfg = Some (ODict entries) ∧
    list_value h (Dict.get entries "new_classes") (Stage.td_new_classes c) ∧
    tasks_value h (Dict.get entries "tasks") (Stage.td_tasks c).

Definition meta_value (h : heap) (meta : loc) (m : Stage.ModelMeta) : Prop :=
  ∃ entries, h !! meta = Some (ODict entries) ∧
    list_value h (Dict.get entries "CLASSES") (Stage.meta_CLASSES m) ∧
    tasks_value h (Dict.get entries "tasks") (Stage.meta_tasks m).

(** A computation started in a store that satisfies [P] ends, when it
    returns [a], in a store that satisfies [Q a] and, when it raises, in one
    that satisfies [E]. *)
Definition triple {A : Type} (P : heap → Prop) (m : M A)
    (Q : A → heap → Prop) (E : heap → Prop) : Prop :=
  ∀ h, P h →
    match m h with
    | (h', Ok a) => Q a h'
    | (h', Raise _) => E h'
    end.

(** The references held by the entries [es] are new with respect to the
    store [h0] or among [allowed]. *)
Definition fresh_or (h0 : heap) (allowed : list loc)
    (es : list (string * loc)) : Prop :=
  ∀ l, l ∈ es.*2 → l ∉ dom h0 ∨ l ∈ allowed.

End Store.

(** ** The task adaptation hook ([mpa/modules/hooks/task_adapt_hook.py]) *)

Module TaskAdaptHook.
Section Hook.

(** Datasets, the loader's callables and samplers are the training
  framework's; [ClsIncrSampler] is
  [mpa.modules.datasets.samplers.cls_incr_sampler], not among the
  sources. [wrapped dataset] is [dataset.dataset] when the dataset has
  that attribute. *)
Context {Dataset CollateFn WorkerInitFn Sampler : Type}.
Variable wrapped : Dataset → option Dataset.
Variable ClsIncrSampler : Dataset → Z → bool → Sampler.

Record DataLoader : Type := {
dataset : Dataset;
batch_size : Z;
sampler : option Sampler;
num_workers : Z;
collate_fn : CollateFn;
pin_memory : bool;
worker_init_fn : WorkerInitFn;
}.

Record Runner : Type := { data_loader : DataLoader }.

Record Hook : Type := {
src_classes : list string;
dst_classes : list string;
model_type : string;
efficient_mode : bool;
sampler_flag : bool;
}.

(** [before_epoch]: the runner afterwards and the samplers that were
  constructed. *)
Definition before_epoch (self : Hook) (runner : Runner)
: Runner * list Sampler :=
if sampler_flag self then
  let dataset0 := dataset (data_loader runner) in
  let dataset0 := default dataset0 (wrapped dataset0) in
  let batch_size0 := batch_size (data_loader runner) in
  let num_workers0 := num_workers (data_loader runner) in
  let collate_fn0 := collate_fn (data_loader runner) in
  let worker_init_fn0 := worker_init_fn (data_loader runner) in
  let sampler0 := ClsIncrSampler dataset0 batch_size0 (efficient_mode self) in
  ({| data_loader :=
        {| dataset := dataset0; batch_size := batch_size0;
           sampler := Some sampler0; num_workers := num_workers0;
           collate_fn := collate_fn0; pin_memory := false;
           worker_init_fn := worker_init_fn0 |} |},
   [sampler0])
else (runner, []).

(** The hook that the framework builds from the configuration written by
  [configure_task]: the constructor stores its arguments. *)
Definition build (c : Stage.TaskAdaptHookCfg) : Hook :=
{| src_classes := Stage.hook_src_classes c;
   dst_classes := Stage.hook_dst_classes c;
   model_type := Stage.hook_model_type c;
   efficient_mode := Stage.hook_efficient_mode c;
   sampler_flag := Stage.hook_sampler_flag c |}.

End Hook.
End TaskAdaptHook.

(** ** The segmentation statistics
    ([mpa/modules/datasets/seg_incr_voc_dataset.py]) *)

Module SegIncrVOCDataset.

(** A ground-truth map is an array of pixel values, given by its rows. *)
Abbreviation SegMap := (list (list nat)).

Section Statistics.

(** [map_class_names] of [mpa.modules.utils.task_adapt], not among the
  sources. *)
Variable map_class_names : list string → list string → list Z.

Record ImgIndices : Type := { old : list nat; new : list nat }.

(** [gt_map[np.where(gt_map == 255)] = 0] *)
Definition normalize (gt_map : SegMap) : SegMap :=
map (map (λ v, if decide (v = 255%nat) then 0%nat else v)) gt_map.

Fixpoint insert_unique (x : nat) (sorted : list nat) : list nat :=
match sorted with
| [] => [x]
| y :: rest =>
    if decide (x < y)%nat then x :: y :: rest
    else if decide (x = y) then y :: rest
    else y :: insert_unique x rest
end.

(** [np.unique(gt_map)]: the distinct pixel values in ascending order. *)
Definition unique (gt_map : SegMap) : list nat :=
foldr insert_unique [] (concat gt_map).

(** [for i in gt: label_schema.append(classes[i])] *)
Fixpoint label_schema (classes : list string) (gt : list nat)
: result (list string) :=
match gt with
| [] => Ok []
| i :: rest =>
    name ← py_getitem classes (Z.of_nat i);
    names ← label_schema classes rest;
    Ok (name :: names)
end.

(** [[model2data[idx] for idx in new_class_indices]] *)
Fixpoint new_class_values (model2data new_class_indices : list Z)
: result (list Z) :=
match new_class_indices with
| [] => Ok []
| idx :: rest =>
    value ← py_getitem model2data idx;
    values ← new_class_values model2data rest;
    Ok (value :: values)
end.

(** Lines 36-48: the body of the loop for the sample [idx]; [Ok true] when
  the sample goes to ['new']. *)
Definition has_new_class (classes : list string) (new_class_indices : list Z)
  (gt_map : SegMap) : result bool :=
let gt_map := normalize gt_map in
let gt := unique gt_map in
schema ← label_schema classes gt;
let model2data := map_class_names classes schema in
values ← new_class_values model2data new_class_indices;
Ok (bool_decide (Exists (λ value, value ≠ -1) values)).

(** [for idx in range(len(gt_seg_maps)): ...], the samples from [idx] on:
  the index lists as appended to so far, with the exception if one
  interrupted the loop. *)
Fixpoint statistics_loop (classes : list string) (new_class_indices : list Z)
  (idx : nat) (gt_seg_maps : list SegMap) (img_indices : ImgIndices)
: ImgIndices * result unit :=
match gt_seg_maps with
| [] => (img_indices, Ok ())
| gt_map :: rest =>
    match has_new_class classes new_class_indices gt_map with
    | Ok true =>
        statistics_loop classes new_class_indices (S idx) rest
          {| old := old img_indices; new := new img_indices ++ [idx] |}
    | Ok false =>
        statistics_loop classes new_class_indices (S idx) rest
          {| old := old img_indices ++ [idx]; new := new img_indices |}
    | Raise e => (img_indices, Raise e)
    end
end.

(** [statistics], run by the constructor on
  [img_indices = dict(old=[], new=[])]; [gt_seg_maps] is what
  [self.get_gt_seg_maps(False)] loads. *)
Definition statistics (self_classes self_new_classes : list string)
  (gt_seg_maps : list SegMap) (img_indices : ImgIndices)
: ImgIndices * result unit :=
let classes := "background" :: self_classes in
let new_class_indices := map_class_names self_new_classes classes in
statistics_loop classes new_class_indices 0 gt_seg_maps img_indices.

(** *** Vocabulary for the properties of [statistics] *)

(** After the normalization of 255, the map has a pixel whose class name is
    one of the new classes. *)
Definition has_new_pixel (classes new_classes : list string)
    (gt_map : SegMap) : Prop :=
  ∃ (v : nat) (name : string),
    v ∈ concat (normalize gt_map) ∧
    classes !! v = Some name ∧ name ∈ new_classes.

(** After the normalization of 255, every pixel value is the index of a
    class. *)
Definition labelled (classes : list string) (gt_map : SegMap) : Prop :=
  ∀ v : nat, v ∈ concat (normalize gt_map) → (v < length classes)%nat.

End Statistics.
End SegIncrVOCDataset.

(** ** Sample inputs *)

Module Sample.
Import Stage.

(** A train data configuration with the given [new_classes] and [tasks]
    entries and nothing else. *)
Definition train_cfg (new_classes : option (list string))
    (tasks : option TaskSet) : TrainDataCfg :=
  {| td_type := "MPAClsDataset"; td_new_classes := new_classes;
     td_tasks := tasks; td_classes := None; td_CLASSES := None;
     td_pre_stage_res := None; td_model_tasks := None;
     td_dst_classes := None |}.

Definition meta (CLASSES : option (list string)) (tasks : option TaskSet)
  : ModelMeta :=
  {| meta_CLASSES := CLASSES; meta_tasks := tasks |}.

(** A class-name mapper as the callers use theirs: one entry per name of
    the first list, its position in the second list or [-1]. *)
Definition mapper (first second : list string) : list Z :=
  TaskAdapt.map_class_names second first.

(** A model with two anchors and the classes [a], [b], and a checkpoint
    with two anchors and the class [a]; rows are numbers. *)
Definition model_dict : gmap string (list nat) :=
  {[ "bbox_head.cls_convs.0.weight" := [100; 101; 102; 103; 104; 105]%nat ]}.

Definition chkpt_dict : gmap string (list nat) :=
  {[ "bbox_head.cls_convs.0.weight" := [1; 2; 3; 4]%nat ]}.

(** The rows of these blocks are scalars of one dtype: a copy replaces the
    destination. *)
Definition copy_ (dst src : nat) : result nat := Ok src.

Definition layout (row : nat) : unit := ().

(** A configuration for the type ["mpa"] with the given operation and train
    data configuration; the custom hooks are a list. *)
Definition cfg (op : string) (train : TrainDataCfg)
  : @Cfg (list TaskAdaptHookCfg) :=
  {| cfg_task_adapt := {| ta_type := Some "mpa"; ta_op := Some op;
                          ta_efficient_mode := None |};
     cfg_train := train;
     cfg_model_type := "ImageClassifier";
     cfg_head := {| head_num_classes := None; head_tasks := None;
                    head_old_tasks := None; head_loss := None;
                    head_num_old_classes := None |};
     cfg_model_task_adapt := None;
     cfg_load_from := "model.pth";
     cfg_val_dst_classes := None;
     cfg_test_dst_classes := None;
     cfg_custom_hooks := [] |}.

Definition add_hook (hooks : list TaskAdaptHookCfg) (hook : TaskAdaptHookCfg)
  : list TaskAdaptHookCfg :=
  hooks ++ [hook].

(** A store with a train configuration (at 0) and a metadata (at 1) whose
    task sets (at 2 and 3) hold the task [t] with class lists of their
    own (at 4 and 5). *)
Definition store : gmap nat Store.obj :=
  {[ 0%nat := Store.ODict [("tasks", 2%nat)];
     1%nat := Store.ODict [("tasks", 3%nat)];
     2%nat := Store.ODict [("t", 4%nat)];
     3%nat := Store.ODict [("t", 5%nat)];
     4%nat := Store.OList ["b"; "c"];
     5%nat := Store.OList ["a"; "b"] ]}.

(** The same, but the two task sets hold one and the same, empty, class
    list (at 4). *)
Definition store_shared : gmap nat Store.obj :=
  {[ 0%nat := Store.ODict [("tasks", 2%nat)];
     1%nat := Store.ODict [("tasks", 3%nat)];
     2%nat := Store.ODict [("t", 4%nat)];
     3%nat := Store.ODict [("t", 4%nat)];
     4%nat := Store.OList [] ]}.

(** One sample, whose only pixel is of class 1. *)
Definition gt_seg_maps : list (list (list nat)) := [ [ [1%nat] ] ].

(** One sample with a pixel of class 7. *)
Definition gt_seg_maps_7 : list (list (list nat)) := [ [ [7%nat] ] ].

Definition no_indices : SegIncrVOCDataset.ImgIndices :=
  {| SegIncrVOCDataset.old := []; SegIncrVOCDataset.new := [] |}.

(** A model with two anchors and the class [a] alone. *)
Definition model_dict_a : gmap string (list nat) :=
  {[ "bbox_head.cls_convs.0.weight" := [100; 101; 102; 103]%nat ]}.

End Sample.

(** ** More sample inputs *)

Module Samples.

(** A store with a train configuration (at 0) and a metadata (at 1) that
    hold the class lists [new_classes] (at 2) and [CLASSES] (at 3). *)
Definition store_classes : gmap nat Store.obj :=
  {[ 0%nat := Store.ODict [("new_classes", 2%nat)];
     1%nat := Store.ODict [("CLASSES", 3%nat)];
     2%nat := Store.OList ["b"; "c"];
     3%nat := Store.OList ["a"; "b"] ]}.

End Samples.

Module Samples2.
Import Stage.

(** A train data configuration of the type [ClsTVDataset] with the given
    [new_classes]. *)
Definition train_cfg_tv (new_classes : list string) : TrainDataCfg :=
  {| td_type := "ClsTVDataset"; td_new_classes := Some new_classes;
     td_tasks := None; td_classes := None; td_CLASSES := None;
     td_pre_stage_res := None; td_model_tasks := None;
     td_dst_classes := None |}.

(** A train data configuration with [CLASSES]. *)
Definition train_cfg_CLASSES (CLASSES : list string) : TrainDataCfg :=
  {| td_type := "ClsTVDataset"; td_new_classes := None;
     td_tasks := None; td_classes := None; td_CLASSES := Some CLASSES;
     td_pre_stage_res := None; td_model_tasks := None;
     td_dst_classes := None |}.

End Samples2.

(** ** Vocabulary for the entries that the pre-load hook reaches *)

Module Reach.
Import CustomSingleStageDetector.
Section Reach.
Context {Row : Type}.

(** The parameter of the pattern at the level is in the model's state dict
    and, under the prefix, in the checkpoint dict. *)
Definition present (model_dict chkpt_dict : gmap string (list Row))
    (prefix : string) (level : nat) (pattern : string) : Prop :=
  is_Some (model_dict !! format pattern (str level)) ∧
  is_Some (chkpt_dict !! (prefix +:+ format pattern (str level))).

(** The levels below [level] are found: the first pattern is present at
    each of them. *)
Definition levels_found (model_dict chkpt_dict : gmap string (list Row))
    (prefix : string) (param_names : list string) (level : nat) : Prop :=
  ∀ (l : nat) (first : string), (l < level)%nat →
    head param_names = Some first →
    present model_dict chkpt_dict prefix l first.

End Reach.
End Reach.

(** A model and a checkpoint with the weight and the bias of level 0 and
    the weight of level 1; the model has the classes [a], [b], the
    checkpoint the class [a], each with one anchor. *)
Module HookSample.

Definition model_dict : gmap string (list nat) :=
  {[ "bbox_head.cls_convs.0.weight" := [100; 101; 102]%nat;
     "bbox_head.cls_convs.0.bias" := [110; 111; 112]%nat;
     "bbox_head.cls_convs.1.weight" := [120; 121; 122]%nat ]}.

Definition chkpt_dict : gmap string (list nat) :=
  {[ "bbox_head.cls_convs.0.weight" := [1; 2]%nat;
     "bbox_head.cls_convs.0.bias" := [11; 12]%nat;
     "bbox_head.cls_convs.1.weight" := [21; 22]%nat;
     "bbox_head.cls_convs.1.bias" := [31; 32]%nat ]}.

End HookSample.

(** Rows that are vectors of numbers of one dtype: the shape of a row is
    its length, and [copy_] broadcasts a source of one element. A model
    whose rows have three elements and a checkpoint whose rows have two. *)
Module RowSample.

Definition layout (row : list nat) : nat := length row.

Definition copy_ (dst src : list nat) : result (list nat) :=
  if decide (length src = length dst) then Ok src
  else match src with
       | [x] => Ok (replicate (length dst) x)
       | _ => Raise RuntimeError
       end.

Definition model_dict : gmap string (list (list nat)) :=
  {[ "bbox_head.cls_convs.0.weight"
     := [[100; 100; 100]; [101; 101; 101]]%nat ]}.

Definition chkpt_dict : gmap string (list (list nat)) :=
  {[ "bbox_head.cls_convs.0.weight" := [[1; 1]; [2; 2]]%nat ]}.

End RowSample.

(** ** The task-adaptive dataset wrappers
    ([mpa/modules/datasets/task_adapt_dataset.py]) *)

Module TaskAdaptDataset.
Section Wrappers.

(** [map_class_names] of [mpa.modules.utils.task_adapt], not among the
    sources. *)
Variable map_class_names : list string → list string → list Z.

(** *** [AdaptClassLabels] *)

Record AdaptClassLabels : Type := { src2dst : list Z }.

Definition AdaptClassLabels_init (src_classes dst_classes : list string)
  : AdaptClassLabels :=
  {| src2dst := map_class_names src_classes dst_classes |}.

(** The sample dictionary [data]: its [gt_labels] entry, when it has one,
    and its other entries. *)
Record Data (Other : Type) : Type := {
  gt_labels : option (list Z);
  other : Other;
}.
Arguments gt_labels {Other} _.
Arguments other {Other} _.

(** [for src_label in src_labels: dst_labels.append(self.src2dst[src_label])] *)
Fixpoint adapt_labels (self : AdaptClassLabels) (src_labels : list Z)
  : result (list Z) :=
  match src_labels with
  | [] => Ok []
  | src_label :: rest =>
      dst_label ← py_getitem (src2dst self) src_label;
      dst_labels ← adapt_labels self rest;
      Ok (dst_label :: dst_labels)
  end.

(** [__call__]: the entry is replaced once all labels are mapped. *)
Definition AdaptClassLabels_call {Other : Type} (self : AdaptClassLabels)
    (data : Data Other) : result (Data Other) :=
  src_labels ← Stage.getitem "gt_labels" (gt_labels data);
  dst_labels ← adapt_labels self src_labels;
  Ok {| gt_labels := Some dst_labels; other := other data |}.

(** *** [TaskAdaptEvalDataset] *)

(** The wrapped dataset, the per-class detections of an image and the
    evaluation metrics are the detection framework's; [empty] is
    [np.empty([0, 5])], [dataset_CLASSES] and [dataset_evaluate] are the
    wrapped dataset's attribute and method, [build_dataset] builds it from
    the type and the rest of the configuration, and [coco_reorder] stands
    for the assignment of [cat2label] and [cat_ids] from
    [map_cat_and_cls_as_order], which is not among the sources. *)
Context {Dataset DatasetCfg Det Metrics : Type}.
Variable build_dataset : string → DatasetCfg → Dataset.
Variable dataset_CLASSES : Dataset → list string.
Variable dataset_evaluate : Dataset → list (list Det) → Metrics.
Variable coco_reorder : list string → Dataset → Dataset.
Variable empty : Det.

Record TaskAdaptEvalDataset : Type := {
  dataset : Dataset;
  model_classes : list string;
  CLASSES : list string;
  data2model : list Z;
}.

(** [__init__]: [org_type] is the entry of that name of the keyword
    arguments, which is popped, and [dataset_cfg] the other entries. *)
Definition TaskAdaptEvalDataset_init (model_classes : list string)
    (org_type : option string) (dataset_cfg : DatasetCfg)
  : result TaskAdaptEvalDataset :=
  org_type ← Stage.getitem "org_type" org_type;
  let dataset := build_dataset org_type dataset_cfg in
  let CLASSES := dataset_CLASSES dataset in
  let data2model := map_class_names CLASSES model_classes in
  let dataset :=
    if decide (org_type = "CocoDataset") then coco_reorder CLASSES dataset
    else dataset in
  Ok {| dataset := dataset; model_classes := model_classes;
        CLASSES := CLASSES; data2model := data2model |}.

(** [for model_class_index in self.data2model: ...] for one image, whose
    [result] is [image_result]. *)
Fixpoint adapt_result (data2model : list Z) (image_result : list Det)
  : result (list Det) :=
  match data2model with
  | [] => Ok []
  | model_class_index :: rest =>
      det ← (if decide (0 ≤ model_class_index)
             then py_getitem image_result model_class_index
             else Ok empty);
      dets ← adapt_result rest image_result;
      Ok (det :: dets)
  end.

(** [for result in results: ...] *)
Fixpoint adapt_results (data2model : list Z) (results : list (list Det))
  : result (list (list Det)) :=
  match results with
  | [] => Ok []
  | image_result :: rest =>
      adapted ← adapt_result data2model image_result;
      others ← adapt_results data2model rest;
      Ok (adapted :: others)
  end.

Definition evaluate (self : TaskAdaptEvalDataset) (results : list (list Det))
  : result Metrics :=
  adapted ← adapt_results (data2model self) results;
  Ok (dataset_evaluate (dataset self) adapted).

End Wrappers.

Arguments gt_labels {Other} _.
Arguments other {Other} _.

End TaskAdaptDataset.

(** ** Python string operations *)

Module PyStr.

(** [sub in s] *)
Fixpoint contains (sub s : string) : bool :=
  String.prefix sub s
  || match s with
     | EmptyString => false
     | String _ rest => contains sub rest
     end.

(** [s.replace(old, new)] for a non-empty [old]: the occurrences of [old]
    are replaced from the left, and the search goes on behind each
    occurrence; [skip] counts the characters of an occurrence that are
    still to be passed over. *)
Fixpoint replace_from (old new : string) (skip : nat) (s : string) : string :=
  match s with
  | EmptyString => EmptyString
  | String c rest =>
      match skip with
      | S n => replace_from old new n rest
      | O =>
          if String.prefix old s
          then new +:+ replace_from old new (String.length old - 1) rest
          else String c (replace_from old new 0 rest)
      end
  end.

(** For the empty [old], [new] is put before every character and at the
    end. *)
Fixpoint intersperse (new s : string) : string :=
  match s with
  | EmptyString => new
  | String c rest => new +:+ String c (intersperse new rest)
  end.

Definition replace (s old new : string) : string :=
  match old with
  | EmptyString => intersperse new s
  | String _ _ => replace_from old new 0 s
  end.

End PyStr.

(** ** Removing from a dictionary that keeps its insertion order *)

Module OrderedDict.

Fixpoint remove {V : Type} (d : list (string * V)) (key : string)
  : list (string * V) :=
  match d with
  | [] => []
  | (k, v) :: rest =>
      if decide (k = key) then rest else (k, v) :: remove rest key
  end.

(** [d.pop(key)]: the value and the dictionary without the key. *)
Definition pop {V : Type} (d : list (string * V)) (key : string)
  : result (V * list (string * V)) :=
  match Dict.get d key with
  | Some v => Ok (v, remove d key)
  | None => Raise (KeyError key)
  end.

End OrderedDict.

(** ** The state dict hooks of the unbiased teacher
    ([mpa/modules/models/detectors/unbiased_teacher.py]) *)

Module UnbiasedTeacher.
Section Hooks.

(** A state dict maps parameter names to tensors, in insertion order. *)
Context {Tensor : Type}.

(** The key under which [state_dict_hook] puts an entry. *)
Definition output_key (k : string) : string :=
  if PyStr.contains "model_t." k then PyStr.replace k "model_t." "" else k.

(** [for k, v in state_dict.items(): ...] on [output]. *)
Fixpoint state_dict_hook_loop (items output : list (string * Tensor))
  : list (string * Tensor) :=
  match items with
  | [] => output
  | (k, v) :: rest => state_dict_hook_loop rest (Dict.set output (output_key k) v)
  end.

(** [state_dict_hook]: the returned [OrderedDict]. *)
Definition state_dict_hook (state_dict : list (string * Tensor))
  : list (string * Tensor) :=
  state_dict_hook_loop state_dict [].

(** The key under which [load_state_dict_pre_hook] puts an entry. *)
Definition input_key (k : string) : string :=
  if PyStr.contains "model_s." k then k else "model_t." +:+ k.

(** [for k in list(state_dict.keys()): ...]: the state dict as mutated so
    far, with the exception if one interrupted the loop. *)
Fixpoint load_state_dict_pre_hook_loop (keys : list string)
    (state_dict : list (string * Tensor))
  : list (string * Tensor) * result unit :=
  match keys with
  | [] => (state_dict, Ok ())
  | k :: rest =>
      match OrderedDict.pop state_dict k with
      | Ok (v, popped) =>
          load_state_dict_pre_hook_loop rest (Dict.set popped (input_key k) v)
      | Raise e => (state_dict, Raise e)
      end
  end.

(** [load_state_dict_pre_hook]: the state dict after the in-place
    updates. *)
Definition load_state_dict_pre_hook (state_dict : list (string * Tensor))
  : list (string * Tensor) * result unit :=
  load_state_dict_pre_hook_loop state_dict.*1 state_dict.

End Hooks.

(** *** Vocabulary for the properties of the hooks *)

(** A parameter name of a plain detector: it mentions neither the teacher
    nor the student. *)
Definition plain (k : string) : Prop :=
  PyStr.contains "model_t." k = false ∧ PyStr.contains "model_s." k = false.

(** A parameter name of the student: it mentions the student and not the
    teacher. *)
Definition student (k : string) : Prop :=
  PyStr.contains "model_s." k = true ∧ PyStr.contains "model_t." k = false.

(** A parameter name of the teacher: [model_t.] before a plain name. *)
Definition teacher (k : string) : Prop :=
  ∃ x, k = "model_t." +:+ x ∧ plain x.

End UnbiasedTeacher.

(** ** The no-bias-decay hook
    ([mpa/modules/hooks/no_bias_decay_hook.py]) *)

Module NoBiasDecayHook.
Section Hook.

(** Parameters are the tensor framework's, and so are the numbers of the
    optimizer's options: [zero] is [0.0] and [double lr] is [lr * 2]. A
    value of a list of parameters may be [None]. *)
Context {Param Num Options : Type}.
Variable zero : Num.
Variable double : Num → Num.

(** What the hook observes of a module [m]: whether it is an [nn.Conv2d]
    or an [nn.Linear], its attributes [weight] and [bias] (absent, or
    present with a value that may be [None]), whether it has children,
    and [m.parameters()]. *)
Record Module_ : Type := {
  is_conv_or_linear : bool;
  weight : option (option Param);
  bias : option (option Param);
  has_children : bool;
  parameters : list Param;
}.

(** A parameter group of the optimizer: the entries [params], [lr] and
    [weight_decay], each of which may be absent, and the other options. *)
Record ParamGroup : Type := {
  params : option (list (option Param));
  lr : option Num;
  weight_decay : option Num;
  options : Options;
}.

Record Lists : Type := {
  weight_decay_list : list (option Param);
  bias_no_decay : list (option Param);
  weight_no_decay : list (option Param);
}.

(** [m.weight] and [m.bias] of a module that has no such attribute raise
    an [AttributeError]; the exceptions of the hook are that one and those
    of [runner.optimizer.param_groups[0]] and [bias_group["lr"]]. *)
Inductive error : Type :=
  | AttributeError (name : string)
  | IndexError
  | KeyError (key : string).

Definition attribute (name : string) (a : option (option Param))
  : error + option Param :=
  match a with
  | Some v => inr v
  | None => inl (AttributeError name)
  end.

(** The body of the loop over [runner.model.modules()]. *)
Definition visit (m : Module_) (l : Lists) : error + Lists :=
  if is_conv_or_linear m then
    match attribute "weight" (weight m) with
    | inl e => inl e
    | inr w =>
        let l := {| weight_decay_list := weight_decay_list l ++ [w];
                    bias_no_decay := bias_no_decay l;
                    weight_no_decay := weight_no_decay l |} in
        match attribute "bias" (bias m) with
        | inl e => inl e
        | inr None => inr l
        | inr (Some b) =>
            inr {| weight_decay_list := weight_decay_list l;
                   bias_no_decay := bias_no_decay l ++ [Some b];
                   weight_no_decay := weight_no_decay l |}
        end
    end
  else if bool_decide (is_Some (weight m) ∨ is_Some (bias m)) then
    let l :=
      match weight m with
      | Some w => {| weight_decay_list := weight_decay_list l;
                     bias_no_decay := bias_no_decay l;
                     weight_no_decay := weight_no_decay l ++ [w] |}
      | None => l
      end in
    inr match bias m with
        | Some b => {| weight_decay_list := weight_decay_list l;
                       bias_no_decay := bias_no_decay l ++ [b];
                       weight_no_decay := weight_no_decay l |}
        | None => l
        end
  else if has_children m then inr l
  else
    inr {| weight_decay_list := weight_decay_list l ++ (Some <$> parameters m);
           bias_no_decay := bias_no_decay l;
           weight_no_decay := weight_no_decay l |}.

(** [for m in runner.model.modules(): ...] *)
Fixpoint collect (modules : list Module_) (l : Lists) : error + Lists :=
  match modules with
  | [] => inr l
  | m :: rest =>
      match visit m l with
      | inl e => inl e
      | inr l => collect rest l
      end
  end.

(** [before_run]: [modules] is [runner.model.modules()] and
    [param_groups] is [runner.optimizer.param_groups]; the result is the
    list that is assigned to it. The model is not changed. *)
Definition before_run (modules : list Module_)
    (param_groups : list ParamGroup) : error + list ParamGroup :=
  match collect modules {| weight_decay_list := []; bias_no_decay := [];
                           weight_no_decay := [] |} with
  | inl e => inl e
  | inr l =>
      match param_groups with
      | [] => inl IndexError
      | group :: _ =>
          let weight_decay_group :=
            {| params := Some (weight_decay_list l); lr := lr group;
               weight_decay := weight_decay group;
               options := options group |} in
          match lr group with
          | None => inl (KeyError "lr")
          | Some rate =>
              let bias_group :=
                {| params := Some (bias_no_decay l);
                   lr := Some (double rate);
                   weight_decay := Some zero;
                   options := options group |} in
              let weight_no_decay_group :=
                {| params := Some (weight_no_decay l); lr := lr group;
                   weight_decay := Some zero;
                   options := options group |} in
              inr [weight_decay_group; bias_group; weight_no_decay_group]
          end
      end
  end.

(** *** Vocabulary for the properties of the hook *)

(** The module gives the value [p] to the group with weight decay: it is
    the weight of a convolution or linear layer, or a parameter of a
    module without children that has neither a [weight] nor a [bias]
    attribute. *)
Definition decays (m : Module_) (p : option Param) : Prop :=
  (is_conv_or_linear m = true ∧ weight m = Some p) ∨
  (is_conv_or_linear m = false ∧ weight m = None ∧ bias m = None ∧
   has_children m = false ∧ ∃ q, p = Some q ∧ q ∈ parameters m).

(** The module gives the value [p] to the group of biases: it is the bias
    of a convolution or linear layer, which is not [None], or the [bias]
    attribute of another module. *)
Definition bias_exempt (m : Module_) (p : option Param) : Prop :=
  (is_conv_or_linear m = true ∧ bias m = Some p ∧ is_Some p) ∨
  (is_conv_or_linear m = false ∧ bias m = Some p).

(** The module gives the value [p] to the group of weights without decay:
    it is the [weight] attribute of a module that is neither a convolution
    nor a linear layer. *)
Definition weight_exempt (m : Module_) (p : option Param) : Prop :=
  is_conv_or_linear m = false ∧ weight m = Some p.

(** A convolution or linear layer has its two attributes. *)
Definition layer_attributes (m : Module_) : Prop :=
  is_conv_or_linear m = true → is_Some (weight m) ∧ is_Some (bias m).

End Hook.
End NoBiasDecayHook.

(** ** Vocabulary for the order of the index lists *)

Module IndexOrder.

(** The entries of the list grow strictly from the front to the end. *)
Definition ascending (l : list nat) : Prop :=
  ∀ (i j x y : nat), (i < j)%nat → l !! i = Some x → l !! j = Some y →
    (x < y)%nat.

End IndexOrder.

(** ** The test pipeline for batch inference ([mpa/seg/inferrer.py]) *)

Module Pipeline.
Section Pipeline.

(** The values of the entries of a pipeline step that the function does
    not look at. *)
Context {Value : Type}.

(** A pipeline step is a dictionary: its [type] and [transforms] entries,
    each of which may be absent, and its other entries. *)
#[local] Unset Elimination Schemes.
Inductive step : Type :=
  | Step (type : option string) (transforms : option (list step))
      (others : list (string * Value)).
#[local] Set Elimination Schemes.

(** [pipeline['type']] of a step without that entry raises a [KeyError],
    and the assertion on [transforms] an [AssertionError]. *)
Inductive error : Type :=
  | KeyError (key : string)
  | AssertionError.

(** [replace_ImageToTensor] on one step of the copied list: the step that
    is afterwards at its place. *)
Fixpoint replace_step (pipeline : step) : error + step :=
  match pipeline with
  | Step None _ _ => inl (KeyError "type")
  | Step (Some type) transforms others =>
      if decide (type = "MultiScaleFlipAug") then
        match transforms with
        | None => inl AssertionError
        | Some inner =>
            match (fix replace_all (pipelines : list step)
                     : error + list step :=
                     match pipelines with
                     | [] => inr []
                     | first :: rest =>
                         match replace_step first with
                         | inl e => inl e
                         | inr first' =>
                             match replace_all rest with
                             | inl e => inl e
                             | inr rest' => inr (first' :: rest')
                             end
                         end
                     end) inner with
            | inl e => inl e
            | inr inner' => inr (Step (Some type) (Some inner') others)
            end
        end
      else if decide (type = "ImageToTensor") then
        inr (Step (Some "DefaultFormatBundle") None [])
      else inr pipeline
  end.

(** [replace_ImageToTensor]: the list that is returned; the argument is
    copied and stays as it is. *)
Fixpoint replace_ImageToTensor (pipelines : list step) : error + list step :=
  match pipelines with
  | [] => inr []
  | first :: rest =>
      match replace_step first with
      | inl e => inl e
      | inr first' =>
          match replace_ImageToTensor rest with
          | inl e => inl e
          | inr rest' => inr (first' :: rest')
          end
      end
  end.

(** *** Vocabulary for the properties of the function *)

(** Every step has a type, and a [MultiScaleFlipAug] step has
    [transforms], which are of that kind again. *)
Fixpoint well_formed_step (pipeline : step) : Prop :=
  match pipeline with
  | Step None _ _ => False
  | Step (Some type) transforms _ =>
      type = "MultiScaleFlipAug" →
      match transforms with
      | None => False
      | Some inner =>
          (fix all (pipelines : list step) : Prop :=
             match pipelines with
             | [] => True
             | first :: rest => well_formed_step first ∧ all rest
             end) inner
      end
  end.

Definition well_formed (pipelines : list step) : Prop :=
  Forall well_formed_step pipelines.

(** No step of the list is an [ImageToTensor], and none of the transforms
    of a [MultiScaleFlipAug] step of the list is, nor of a
    [MultiScaleFlipAug] step among those transforms, and so on. The
    transforms of a step of another type are not looked at. *)
Fixpoint batch_ready_step (pipeline : step) : Prop :=
  match pipeline with
  | Step type transforms _ =>
      type ≠ Some "ImageToTensor" ∧
      (type = Some "MultiScaleFlipAug" →
       match transforms with
       | None => True
       | Some inner =>
           (fix all (pipelines : list step) : Prop :=
              match pipelines with
              | [] => True
              | first :: rest => batch_ready_step first ∧ all rest
              end) inner
       end)
  end.

Definition batch_ready (pipelines : list step) : Prop :=
  Forall batch_ready_step pipelines.

(** The type of a step, and the type it has after the replacement. *)
Definition step_type (pipeline : step) : option string :=
  match pipeline with Step type _ _ => type end.

(** The step that takes the place of a step: in the place of an
    [ImageToTensor] step a step with the type [DefaultFormatBundle] and no
    other entry; in the place of a [MultiScaleFlipAug] step the step with
    its other entries, whose transforms are replaced in the same way; a
    step of another type stays as it is, with the transforms it has. *)
#[local] Unset Elimination Schemes.
Inductive replaced : step → step → Prop :=
  | replaced_ImageToTensor transforms others :
      replaced (Step (Some "ImageToTensor") transforms others)
        (Step (Some "DefaultFormatBundle") None [])
  | replaced_MultiScaleFlipAug inner inner' others :
      Forall2 replaced inner inner' →
      replaced (Step (Some "MultiScaleFlipAug") (Some inner) others)
        (Step (Some "MultiScaleFlipAug") (Some inner') others)
  | replaced_other type transforms others :
      type ≠ "ImageToTensor" → type ≠ "MultiScaleFlipAug" →
      replaced (Step (Some type) transforms others)
        (Step (Some type) transforms others).
#[local] Set Elimination Schemes.

Definition replaced_type (type : option string) : option string :=
  if decide (type = Some "ImageToTensor") then Some "DefaultFormatBundle"
  else type.

End Pipeline.

Arguments step : clear implicits.

End Pipeline.

(** ** The normalization values of the exporter ([mpa/cls/exporter.py]) *)

Module ClsExporter.
Section Exporter.

(** The numbers of a configuration; [zero] and [one] are the defaults [0]
    and [1]. *)
Context {Num : Type}.
Variables zero one : Num.

(** A step of [cfg.data.test.pipeline]: its entries [type], [mean] and
    [std], each of which may be absent. *)
Record PipelineStep : Type := {
  type : option string;
  mean : option (list Num);
  std : option (list Num);
}.

(** An attribute of a configuration dictionary that has no such entry
    raises an [AttributeError]. *)
Inductive error : Type := AttributeError (name : string).

Definition attribute {A : Type} (name : string) (entry : option A)
  : error + A :=
  match entry with
  | Some v => inr v
  | None => inl (AttributeError name)
  end.

(** [for pipeline_step in pipeline: ...], with the values that are
    returned when the loop ends. *)
Fixpoint get_norm_values_loop (pipeline : list PipelineStep)
    (mean_values scale_values : list Num) : error + list Num * list Num :=
  match pipeline with
  | [] => inr (mean_values, scale_values)
  | pipeline_step :: rest =>
      match attribute "type" (type pipeline_step) with
      | inl e => inl e
      | inr ty =>
          if decide (ty = "Normalize") then
            match attribute "mean" (mean pipeline_step) with
            | inl e => inl e
            | inr mean_values =>
                match attribute "std" (std pipeline_step) with
                | inl e => inl e
                | inr scale_values => inr (mean_values, scale_values)
                end
            end
          else get_norm_values_loop rest mean_values scale_values
      end
  end.

(** [get_norm_values]; [pipeline] is [cfg.data.test.pipeline]. *)
Definition get_norm_values (pipeline : list PipelineStep)
  : error + list Num * list Num :=
  get_norm_values_loop pipeline [zero; zero; zero] [one; one; one].

(** A step that has a type other than [Normalize]. *)
Definition other_step (pipeline_step : PipelineStep) : Prop :=
  ∃ ty, type pipeline_step = Some ty ∧ ty ≠ "Normalize".

End Exporter.
End ClsExporter.

(** ** The timm backbones ([mpa/modules/models/backbones/efficientnetv2.py]) *)

Module EfficientNetV2.

Definition pretrained_root : string :=
  "https://github.com/rwightman/pytorch-image-models/releases/download/v0.1-effv2-weights/".

Definition pretrained_urls : list (string * string) :=
  [ ("efficientnetv2_s_21k",
     pretrained_root +:+ "tf_efficientnetv2_s_21k-6337ad01.pth");
    ("efficientnetv2_s_1k",
     pretrained_root +:+ "tf_efficientnetv2_s_21ft1k-d7dafa41.pth") ].

Definition NAME_DICT : list (string * string) :=
  [ ("mobilenetv3_large_21k", "mobilenetv3_large_100_miil_in21k");
    ("mobilenetv3_large_1k", "mobilenetv3_large_100_miil");
    ("tresnet", "tresnet_m");
    ("efficientnetv2_s_21k", "tf_efficientnetv2_s_in21k");
    ("efficientnetv2_s_1k", "tf_efficientnetv2_s_in21ft1k");
    ("efficientnetv2_m_21k", "tf_efficientnetv2_m_in21k");
    ("efficientnetv2_m_1k", "tf_efficientnetv2_m_in21ft1k");
    ("efficientnetv2_b0", "tf_efficientnetv2_b0") ].

Section Wrapper.

(** The models of [timm]: [create_model name pretrained num_classes] builds
    one or raises, [detach_classifier] is the assignment
    [model.classifier = None], and the two numbers are [model.num_features]
    and [model.conv_head.in_channels], which not every model has.
    [path_exists] is [os.path.exists]. *)
Context {TimmModel : Type}.
Variable create_model : string → bool → Z → result TimmModel.
Variable detach_classifier : TimmModel → TimmModel.
Variable model_num_features : TimmModel → Z.
Variable conv_head_in_channels : TimmModel → result Z.
Variable path_exists : string → bool.

Record TimmModelsWrapper : Type := {
  model_name : string;
  pretrained : bool;
  is_mobilenet : bool;
  model : TimmModel;
  num_head_features : Z;
  num_features : Z;
  pooling_type : string;
}.

(** [TimmModelsWrapper.__init__] *)
Definition TimmModelsWrapper_init (model_name : string) (pretrained : bool)
    (pooling_type : string) : result TimmModelsWrapper :=
  let is_mobilenet :=
    bool_decide (model_name ∈ ["mobilenetv3_large_100_miil_in21k";
                               "mobilenetv3_large_100_miil"]) in
  timm_name ← Stage.getitem model_name (Dict.get NAME_DICT model_name);
  created ← create_model timm_name pretrained 1000;
  let model := detach_classifier created in
  num_features ← (if is_mobilenet then conv_head_in_channels model
                  else Ok (model_num_features model));
  Ok {| model_name := model_name; pretrained := pretrained;
        is_mobilenet := is_mobilenet; model := model;
        num_head_features := model_num_features model;
        num_features := num_features;
        pooling_type := pooling_type |}.

(** [OTEEfficientNetV2.__init__] *)
Definition OTEEfficientNetV2_init (version : string) (pretrained : bool)
    (pooling_type : string) : result TimmModelsWrapper :=
  TimmModelsWrapper_init ("efficientnetv2_" +:+ version) pretrained
    pooling_type.

(** The argument [pretrained] of [init_weights]: [None], a string, or
    another value. *)
Inductive pretrained_arg : Type :=
  | PretrainedNone
  | PretrainedStr (path : string)
  | PretrainedOther.

(** [OTEEfficientNetV2.init_weights]: the file or address that
    [load_checkpoint] is called with, if it is called. *)
Definition init_weights (self : TimmModelsWrapper)
    (pretrained : pretrained_arg) : result (option string) :=
  let from_url :=
    url ← Stage.getitem (model_name self)
           (Dict.get pretrained_urls (model_name self));
    Ok (Some url) in
  match pretrained with
  | PretrainedStr path =>
      if path_exists path then Ok (Some path) else from_url
  | PretrainedOther => from_url
  | PretrainedNone => Ok None
  end.

End Wrapper.
End EfficientNetV2.

(** * Properties *)

Lemma bind_Ok {A B : Type} (r : result A) (k : A → result B) (b : B) :
  r ≫= k = Ok b → ∃ a, r = Ok a ∧ k a = Ok b.
Proof. destruct r as [a|e]; simpl; [eauto | discriminate]. Qed.

(** ** Facts about the class-name mapper *)

Section MapperFacts.
Import TaskAdapt.

Lemma index_of_None name names :
  index_of name names = None ↔ name ∉ names.
Proof.
  induction names as [|x rest IH]; simpl.
  - split; [intros _; apply not_elem_of_nil | done].
  - case_decide as Hx.
    + subst x. split; [done | intros Hn; exfalso; apply Hn; left].
    + rewrite fmap_None, IH, not_elem_of_cons. split; [by intros ?|by intros [_ ?]].
Qed.

Lemma index_of_Some name names j :
  index_of name names = Some j →
  names !! j = Some name ∧ ∀ k, (k < j)%nat → names !! k ≠ Some name.
Proof.
  revert j. induction names as [|x rest IH]; simpl; intros j Hj; [done|].
  case_decide as Hx.
  - injection Hj as <-. subst x. split; [done | lia].
  - apply fmap_Some in Hj as (j' & Hj' & ->).
    destruct (IH _ Hj') as [Hl Hfirst]. split; [done|].
    intros [|k] Hk; simpl; [congruence | apply Hfirst; lia].
Qed.

Lemma position_absent source_list name :
  position source_list name = -1 ↔ name ∉ source_list.
Proof.
  unfold position. rewrite <- index_of_None.
  destruct (index_of name source_list); split; intros; try done; lia.
Qed.

Lemma position_present source_list name :
  position source_list name ≠ -1 →
  0 ≤ position source_list name ∧
  source_list !! Z.to_nat (position source_list name) = Some name.
Proof.
  unfold position. destruct (index_of name source_list) as [j|] eqn:Hj;
    [|done].
  intros _. split; [lia|]. rewrite Nat2Z.id.
  by apply index_of_Some in Hj as [? _].
Qed.

Lemma position_range source_list name :
  -1 ≤ position source_list name < Z.of_nat (length source_list).
Proof.
  unfold position. destruct (index_of name source_list) as [j|] eqn:Hj;
    [|lia].
  apply index_of_Some in Hj as [Hj _]. apply lookup_lt_Some in Hj. lia.
Qed.

Lemma map_class_names_length source_list destination_list :
  length (map_class_names source_list destination_list)
  = length destination_list.
Proof. unfold map_class_names. by rewrite length_fmap. Qed.

Lemma map_class_names_lookup source_list destination_list i :
  map_class_names source_list destination_list !! i
  = position source_list <$> destination_list !! i.
Proof. unfold map_class_names. by rewrite list_lookup_fmap. Qed.

Lemma map_class_names_ClassMapping source_list destination_list :
  ClassMapping source_list destination_list
    (map_class_names source_list destination_list).
Proof.
  split; [apply map_class_names_length|].
  intros i name Hi. exists (position source_list name).
  rewrite map_class_names_lookup, Hi. split; [done|].
  split; [apply position_absent | apply position_present].
Qed.

End MapperFacts.

(** ** The class-name mapper: correctness *)

Section MapperCorrect.
Import TaskAdapt.

Lemma py_getitem_nonneg {A : Type} (l : list A) (i : Z) (x : A) :
  0 ≤ i → l !! Z.to_nat i = Some x → py_getitem l i = Ok x.
Proof.
  intros Hi Hx. unfold py_getitem.
  destruct (decide (i < 0)) as [?|_]; [lia|].
  destruct (decide (i < 0)) as [?|_]; [lia|]. by rewrite Hx.
Qed.

(** C1. For all class lists [A] (source) and [B] (destination),
    [map_class_names(A, B)] has the length of [B]; its entry at [i] is
    [-1] exactly when [B[i]] is not in [A], and otherwise indexes in [A]
    the name [B[i]]; the entry at [i] depends on [B[i]] alone. The function
    is a pure one: it has no store to act on. *)
Theorem map_class_names_correct (A B : list string) :
  length (map_class_names A B) = length B ∧
  (∀ (i : nat) (name : string), B !! i = Some name →
     ∃ v, map_class_names A B !! i = Some v ∧
          (v = -1 ↔ name ∉ A) ∧
          (v ≠ -1 → py_getitem A v = Ok name)) ∧
  (∀ (B' : list string) (i : nat), B' !! i = B !! i →
     map_class_names A B' !! i = map_class_names A B !! i).
Proof.
  split; [apply map_class_names_length|]. split.
  - intros i name Hi.
    destruct (map_class_names_ClassMapping A B) as [_ Hmap].
    destruct (Hmap i name Hi) as (v & Hv & Habs & Hpres).
    exists v. split; [done|]. split; [done|].
    intros Hne. destruct (Hpres Hne). by apply py_getitem_nonneg.
  - intros B' i Hi. by rewrite !map_class_names_lookup, Hi.
Qed.

Lemma map_class_names_correct_witness :
  map_class_names ["person"; "car"; "tree"] ["tree"; "person"; "sky"; "ball"]
  = [2; 0; -1; -1] ∧
  length (map_class_names ["person"; "car"; "tree"]
            ["tree"; "person"; "sky"; "ball"]) = 4%nat.
Proof.
  split; [reflexivity|].
  apply (map_class_names_correct ["person"; "car"; "tree"]
           ["tree"; "person"; "sky"; "ball"]).
Defined.

End MapperCorrect.

(** ** The class set refiner *)

Section RefineCls.
Import Stage.

(** C3. With [REPLACE], [refine_cls] raises the [ValueError] (the spec's
    ValidationError) exactly when the train configuration's [new_classes]
    is empty; otherwise the destination list is [new_classes] and the
    metadata's class list is returned as [old_classes]. *)
Theorem refine_cls_replace (train_cfg : TrainDataCfg) (meta : ModelMeta)
    (new_classes old_classes : list string) :
  td_new_classes train_cfg = Some new_classes →
  meta_CLASSES meta = Some old_classes →
  ((∃ msg, refine_cls train_cfg meta "REPLACE" = Raise (ValueError msg))
   ↔ new_classes = []) ∧
  (new_classes ≠ [] →
   refine_cls train_cfg meta "REPLACE" = Ok (new_classes, old_classes)).
Proof.
  intros Hnew Hold. unfold refine_cls. rewrite Hnew, Hold. simpl.
  destruct new_classes as [|c cs]; simpl.
  - split; [split; [done | eauto] | done].
  - split; [|done]. split; [intros [msg ?]; discriminate | done].
Qed.

Lemma refine_cls_replace_witness :
  refine_cls (Sample.train_cfg (Some ["x"]) None)
    (Sample.meta (Some ["a"]) None) "REPLACE" = Ok (["x"], ["a"]).
Proof.
  apply (refine_cls_replace (Sample.train_cfg (Some ["x"]) None)
           (Sample.meta (Some ["a"]) None) ["x"] ["a"]);
    [reflexivity | reflexivity | discriminate].
Defined.

(** C4. With [MERGE], the destination list is the old classes, in their
    order, followed by the new classes that are not among the old ones,
    in the order of [new_classes]. *)
Theorem refine_cls_merge (train_cfg : TrainDataCfg) (meta : ModelMeta)
    (new_classes old_classes : list string) :
  td_new_classes train_cfg = Some new_classes →
  meta_CLASSES meta = Some old_classes →
  ∃ appended,
    refine_cls train_cfg meta "MERGE" = Ok (old_classes ++ appended, old_classes) ∧
    appended = filter (λ cls, cls ∉ old_classes) new_classes ∧
    appended `sublist_of` new_classes ∧
    (∀ cls, cls ∈ appended ↔ cls ∈ new_classes ∧ cls ∉ old_classes).
Proof.
  intros Hnew Hold. eexists. split; [|split; [reflexivity|]].
  - unfold refine_cls. by rewrite Hnew, Hold.
  - split; [apply sublist_filter|]. intros cls.
    rewrite list_elem_of_filter. tauto.
Qed.

Lemma refine_cls_merge_witness :
  refine_cls (Sample.train_cfg (Some ["b"; "c"]) None)
    (Sample.meta (Some ["a"; "b"]) None) "MERGE"
  = Ok (["a"; "b"; "c"], ["a"; "b"]).
Proof.
  destruct (refine_cls_merge (Sample.train_cfg (Some ["b"; "c"]) None)
              (Sample.meta (Some ["a"; "b"]) None) ["b"; "c"] ["a"; "b"]
              eq_refl eq_refl) as (appended & Hrun & -> & _).
  exact Hrun.
Defined.

End RefineCls.

(** ** Unsupported adaptation types *)

Section RefineErrors.
Import Stage.

(** C7. For an [adapt_type] other than ["REPLACE"] and ["MERGE"] both
    refiners raise a [KeyError] (the spec's ConfigurationError), which is
    the "not supported" one once the entries they read first are there;
    for ["REPLACE"] and ["MERGE"] they never raise the "not supported"
    error, and raise no [KeyError] at all when the entries they read are
    there. *)
Theorem refine_adapt_type_errors (train_cfg : TrainDataCfg)
    (meta : ModelMeta) (adapt_type : string) :
  (adapt_type ≠ "REPLACE" → adapt_type ≠ "MERGE" →
   (∃ msg, refine_cls train_cfg meta adapt_type = Raise (KeyError msg)) ∧
   (∃ msg, refine_tasks train_cfg meta adapt_type = Raise (KeyError msg)) ∧
   (is_Some (td_new_classes train_cfg) → is_Some (meta_CLASSES meta) →
    refine_cls train_cfg meta adapt_type = Raise (not_supported adapt_type)) ∧
   (is_Some (td_tasks train_cfg) →
    refine_tasks train_cfg meta adapt_type = Raise (not_supported adapt_type))) ∧
  (adapt_type = "REPLACE" ∨ adapt_type = "MERGE" →
   refine_cls train_cfg meta adapt_type ≠ Raise (not_supported adapt_type) ∧
   refine_tasks train_cfg meta adapt_type ≠ Raise (not_supported adapt_type) ∧
   (is_Some (td_new_classes train_cfg) → is_Some (meta_CLASSES meta) →
    ∀ msg, refine_cls train_cfg meta adapt_type ≠ Raise (KeyError msg)) ∧
   (is_Some (td_tasks train_cfg) → is_Some (meta_tasks meta) →
    ∀ msg, refine_tasks train_cfg meta adapt_type ≠ Raise (KeyError msg))).
Proof.
  split.
  - intros Hr Hm. unfold refine_cls, refine_tasks.
    repeat split.
    + destruct (td_new_classes train_cfg); simpl; [|eauto].
      destruct (meta_CLASSES meta); simpl; [|eauto].
      rewrite !decide_False by done. unfold not_supported. eauto.
    + destruct (td_tasks train_cfg); simpl; [|eauto].
      rewrite !decide_False by done. unfold not_supported. eauto.
    + intros [new ->] [old ->]. simpl. by rewrite !decide_False by done.
    + intros [tasks ->]. simpl. by rewrite !decide_False by done.
  - intros Hop. unfold refine_cls, refine_tasks. repeat split.
    + destruct (td_new_classes train_cfg) as [new|]; simpl;
        [|destruct Hop as [-> | ->]; discriminate].
      destruct (meta_CLASSES meta) as [old|]; simpl;
        [|destruct Hop as [-> | ->]; discriminate].
      destruct Hop as [-> | ->]; simpl; [case_decide|]; discriminate.
    + destruct (td_tasks train_cfg) as [tasks|]; simpl;
        [|destruct Hop as [-> | ->]; discriminate].
      destruct Hop as [-> | ->]; simpl; [discriminate|].
      destruct (meta_tasks meta); simpl; discriminate.
    + intros [new ->] [old ->] msg. simpl.
      destruct Hop as [-> | ->]; simpl; [case_decide|]; discriminate.
    + intros [tasks ->] [otasks ->] msg. simpl.
      destruct Hop as [-> | ->]; simpl; discriminate.
Qed.

Lemma refine_adapt_type_errors_witness :
  refine_cls (Sample.train_cfg (Some ["x"]) (Some [("t", ["x"])]))
    (Sample.meta (Some ["a"]) (Some [("t", ["a"])])) "APPEND"
  = Raise (KeyError "APPEND is not supported for task_adapt options!") ∧
  refine_tasks (Sample.train_cfg (Some ["x"]) (Some [("t", ["x"])]))
    (Sample.meta (Some ["a"]) (Some [("t", ["a"])])) "MERGE"
  ≠ Raise (KeyError "MERGE is not supported for task_adapt options!").
Proof.
  pose proof (refine_adapt_type_errors
                (Sample.train_cfg (Some ["x"]) (Some [("t", ["x"])]))
                (Sample.meta (Some ["a"]) (Some [("t", ["a"])]))) as H.
  split.
  - destruct (H "APPEND") as [Hbad _].
    destruct Hbad as (_ & _ & Hcls & _); [discriminate | discriminate |].
    apply Hcls; eexists; reflexivity.
  - destruct (H "MERGE") as [_ Hgood].
    destruct Hgood as (_ & _ & _ & Htasks); [by right|].
    apply Htasks; eexists; reflexivity.
Defined.

End RefineErrors.

(** ** The mixing of one parameter block *)

Section MixParam.
Import CustomSingleStageDetector.
Context {Row Layout : Type}.
Variable copy_ : Row → Row → result Row.
Variable layout : Row → Layout.
Hypothesis copy_layout : copies_rows copy_ layout.
Implicit Types (chkpt_param model_param mixed : list Row).
Implicit Types (model2chkpt : list Z).
Local Open Scope nat_scope.

Lemma copy_row_Ok model_param chkpt_param dst src row :
  one_layout layout chkpt_param model_param →
  dst < length model_param → chkpt_param !! src = Some row →
  copy_row copy_ model_param chkpt_param dst src
  = Ok (<[dst := row]> model_param).
Proof.
  intros Hlayout Hdst Hsrc. unfold copy_row.
  destruct (lookup_lt_is_Some_2 model_param dst Hdst) as [x Hx].
  rewrite Hx, Hsrc, copy_layout; [done|].
  apply Hlayout; apply elem_of_app.
  - right. by eapply list_elem_of_lookup_2.
  - left. by eapply list_elem_of_lookup_2.
Qed.

(** A block that got a row of the source still has rows of one shape and
    dtype with it. *)
Lemma one_layout_insert model_param chkpt_param dst row :
  one_layout layout chkpt_param model_param → row ∈ chkpt_param →
  one_layout layout chkpt_param (<[dst := row]> model_param).
Proof.
  intros Hlayout Hrow.
  assert (∀ x, x ∈ chkpt_param ++ <[dst := row]> model_param →
               x ∈ chkpt_param ++ model_param) as Hsub.
  { intros x Hx. apply elem_of_app in Hx as [Hx|Hx];
      [apply elem_of_app; by left|].
    apply list_elem_of_lookup in Hx as [i Hi].
    apply list_lookup_insert_Some in Hi as [(_ & <- & _)|(_ & Hi)].
    - apply elem_of_app. by left.
    - apply elem_of_app. right. by eapply list_elem_of_lookup_2. }
  intros x y Hx Hy. apply Hlayout; by apply Hsub.
Qed.

(** One anchor group: the rows of the group that have a source row are
    overwritten with it, every other row is kept. *)
Lemma mix_anchor_spec nc nm chkpt_param a model2chkpt :
  ∀ m0 model_param,
  one_layout layout chkpt_param model_param →
  a * nm + m0 + length model2chkpt ≤ length model_param →
  (∀ c, c ∈ model2chkpt → (0 ≤ c)%Z →
        a * nc + Z.to_nat c < length chkpt_param) →
  ∃ mixed,
    mix_anchor copy_ nc nm chkpt_param a m0 model2chkpt model_param
    = Ok mixed ∧
    one_layout layout chkpt_param mixed ∧
    length mixed = length model_param ∧
    (∀ j c, model2chkpt !! j = Some c → (0 ≤ c)%Z →
       mixed !! (a * nm + m0 + j) = chkpt_param !! (a * nc + Z.to_nat c)) ∧
    (∀ j c, model2chkpt !! j = Some c → (c < 0)%Z →
       mixed !! (a * nm + m0 + j) = model_param !! (a * nm + m0 + j)) ∧
    (∀ r, r < a * nm + m0 ∨ a * nm + m0 + length model2chkpt ≤ r →
       mixed !! r = model_param !! r).
Proof.
  induction model2chkpt as [|c rest IH];
    intros m0 model_param Hlayout Hlen Hsrc.
  - exists model_param. simpl. repeat split; done.
  - simpl in Hlen. simpl.
    assert (Hrest : ∀ c', c' ∈ rest → (0 ≤ c')%Z →
              a * nc + Z.to_nat c' < length chkpt_param)
      by (intros c' Hc'; apply Hsrc; by right).
    destruct (decide (0 ≤ c)%Z) as [Hc|Hc].
    + destruct (lookup_lt_is_Some_2 chkpt_param (a * nc + Z.to_nat c))
        as [row Hrow]; [apply Hsrc; [left|done]|].
      rewrite (copy_row_Ok _ _ _ _ row) by (done || lia). simpl.
      destruct (IH (S m0) (<[a * nm + m0 := row]> model_param))
        as (mixed & Hrun & Hlayout' & Hl & Hcopy & Hkeep & Hout);
        [ apply one_layout_insert; [done|by eapply list_elem_of_lookup_2]
        | rewrite length_insert; lia | done |].
      exists mixed. rewrite length_insert in Hl.
      split; [done|]. split; [done|]. split; [done|]. repeat split.
      * intros [|j] c' Hj Hc'; simpl in Hj.
        -- injection Hj as <-. rewrite Hout by lia.
           rewrite Nat.add_0_r, list_lookup_insert_eq by lia. done.
        -- replace (a * nm + m0 + S j) with (a * nm + S m0 + j) by lia.
           by apply Hcopy.
      * intros [|j] c' Hj Hc'; simpl in Hj.
        -- injection Hj as <-. lia.
        -- replace (a * nm + m0 + S j) with (a * nm + S m0 + j) by lia.
           rewrite (Hkeep j c') by done.
           apply list_lookup_insert_ne. lia.
      * intros r Hr. rewrite Hout by lia.
        apply list_lookup_insert_ne. lia.
    + simpl.
      destruct (IH (S m0) model_param)
        as (mixed & Hrun & Hlayout' & Hl & Hcopy & Hkeep & Hout);
        [done | lia | done |].
      exists mixed. split; [done|]. split; [done|]. split; [done|].
      repeat split.
      * intros [|j] c' Hj Hc'; simpl in Hj.
        -- injection Hj as <-. lia.
        -- replace (a * nm + m0 + S j) with (a * nm + S m0 + j) by lia.
           by apply Hcopy.
      * intros [|j] c' Hj Hc'; simpl in Hj.
        -- apply Hout. lia.
        -- replace (a * nm + m0 + S j) with (a * nm + S m0 + j) by lia.
           by apply (Hkeep j c').
      * intros r Hr. apply Hout. lia.
Qed.

Lemma mix_anchors_spec nc nm chkpt_param model2chkpt k :
  length model2chkpt = nm →
  (∀ c, c ∈ model2chkpt → (c < Z.of_nat nc)%Z) →
  ∀ a0 model_param,
  one_layout layout chkpt_param model_param →
  (a0 + k) * nm ≤ length model_param →
  (a0 + k) * nc ≤ length chkpt_param →
  ∃ mixed,
    mix_anchors copy_ nc nm chkpt_param model2chkpt (seq a0 k) model_param
    = Ok mixed ∧
    length mixed = length model_param ∧
    (∀ a m c, a0 ≤ a < a0 + k → model2chkpt !! m = Some c →
       ((0 ≤ c)%Z →
        mixed !! (a * nm + m) = chkpt_param !! (a * nc + Z.to_nat c)) ∧
       ((c < 0)%Z → mixed !! (a * nm + m) = model_param !! (a * nm + m))) ∧
    (∀ r, r < a0 * nm ∨ (a0 + k) * nm ≤ r → mixed !! r = model_param !! r).
Proof.
  intros Hnm Hrange.
  induction k as [|k IH]; intros a0 model_param Hlayout Hmodel Hchkpt.
  - exists model_param. simpl. repeat split; intros; (done || lia).
  - simpl.
    destruct (mix_anchor_spec nc nm chkpt_param a0 model2chkpt 0 model_param)
      as (mixed1 & Hrun1 & Hlayout1 & Hl1 & Hcopy1 & Hkeep1 & Hout1).
    { done. }
    { rewrite Hnm. nia. }
    { intros c Hc Hc0. specialize (Hrange c Hc). nia. }
    rewrite Hrun1. simpl.
    destruct (IH (S a0) mixed1) as (mixed & Hrun & Hl & Hrows & Hout).
    { done. }
    { rewrite Hl1. nia. }
    { nia. }
    exists mixed. split; [done|]. split; [congruence|]. split.
    + intros a m c Ha Hm.
      assert (m < nm) by (rewrite <- Hnm; by eapply lookup_lt_Some).
      destruct (decide (a = a0)) as [->|Hne].
      * rewrite Hout by nia. split; intros Hc.
        -- specialize (Hcopy1 m c Hm Hc).
           by rewrite Nat.add_0_r in Hcopy1.
        -- specialize (Hkeep1 m c Hm Hc).
           by rewrite Nat.add_0_r in Hkeep1.
      * destruct (Hrows a m c) as [Hcopy Hkeep]; [lia | done |].
        split; [done|]. intros Hc. rewrite Hkeep by done.
        apply Hout1. rewrite Hnm. nia.
    + intros r Hr. rewrite Hout by nia. apply Hout1. rewrite Hnm. nia.
Qed.

(** With a mapping that has one entry per model class, each below the
    number of checkpoint classes, the mixing of two blocks whose rows are
    of one shape and dtype raises nothing and leaves the rows described by
    [Mixed]. *)
Lemma mix_param_spec model2chkpt nc nm chkpt_param model_param :
  0 < nc → 0 < nm →
  length model2chkpt = nm →
  (∀ c, c ∈ model2chkpt → (c < Z.of_nat nc)%Z) →
  one_layout layout chkpt_param model_param →
  ∃ mixed,
    mix_param copy_ model2chkpt nc nm chkpt_param model_param = Ok mixed ∧
    Mixed nc nm ((length chkpt_param / nc) `min` (length model_param / nm))
      model2chkpt chkpt_param model_param mixed.
Proof.
  intros Hnc Hnm Hlen Hrange Hlayout. unfold mix_param.
  set (k := (length chkpt_param / nc) `min` (length model_param / nm)).
  assert (Hkm : k * nm ≤ length model_param).
  { etrans; [apply Nat.mul_le_mono_r, Nat.le_min_r|].
    rewrite Nat.mul_comm. apply Nat.Div0.mul_div_le. }
  assert (Hkc : k * nc ≤ length chkpt_param).
  { etrans; [apply Nat.mul_le_mono_r, Nat.le_min_l|].
    rewrite Nat.mul_comm. apply Nat.Div0.mul_div_le. }
  destruct (mix_anchors_spec nc nm chkpt_param model2chkpt k Hlen Hrange
              0 model_param) as (mixed & Hrun & Hl & Hrows & Hout);
    [done | done | done |].
  exists mixed. split; [done|]. split; [done|]. split.
  - intros a m c Ha. apply Hrows. lia.
  - intros r Hr. apply Hout. right. lia.
Qed.

End MixParam.

(** ** The parameter names of the head levels *)

Section ParamNames.
Import CustomSingleStageDetector.

Lemma string_of_uint_no_dot (d : Decimal.uint) :
  no_dot (NilEmpty.string_of_uint d).
Proof. induction d; simpl; (done || (split; [discriminate | done])). Qed.

Lemma to_uint_nonnil (n : nat) : Nat.to_uint n ≠ Decimal.Nil.
Proof.
  intros Hn. pose proof (DecimalNat.Unsigned.of_to n) as Hof.
  rewrite Hn in Hof. simpl in Hof. subst n. discriminate Hn.
Qed.

Lemma str_no_dot (n : nat) : no_dot (str n).
Proof.
  unfold str, NilZero.string_of_uint.
  destruct (Nat.to_uint n) eqn:Hn; try apply string_of_uint_no_dot.
  by apply to_uint_nonnil in Hn.
Qed.

Lemma str_inj (l l' : nat) : str l = str l' → l = l'.
Proof.
  unfold str. intros Heq. apply DecimalNat.Unsigned.to_uint_inj.
  pose proof (NilZero.usu _ (to_uint_nonnil l)) as H1.
  pose proof (NilZero.usu _ (to_uint_nonnil l')) as H2.
  rewrite Heq in H1. congruence.
Qed.

Lemma no_dot_app_inj (s1 s2 t1 t2 : string) :
  no_dot s1 → no_dot s2 →
  s1 +:+ String "."%char t1 = s2 +:+ String "."%char t2 →
  s1 = s2 ∧ t1 = t2.
Proof.
  revert s2. induction s1 as [|c s1 IH]; intros [|c' s2]; simpl.
  - intros _ _ [= ->]. done.
  - intros _ [Hc _] [= <- _]. done.
  - intros [Hc _] _ [= -> _]. done.
  - intros [_ H1] [_ H2] [= -> Heq]. destruct (IH _ H1 H2 Heq) as [-> ->].
    done.
Qed.

Lemma select_param_names_known {Row : Type} (prefix : string)
    (chkpt_dict : gmap string (list Row)) :
  select_param_names prefix chkpt_dict ∈ known_param_names.
Proof.
  unfold select_param_names, known_param_names.
  repeat case_decide; set_solver.
Qed.

(** Within one choice of patterns, a probed name determines its pattern
    and its level. *)
Lemma format_level_inj (param_names : list string) (p p' : string)
    (l l' : nat) :
  param_names ∈ known_param_names →
  p ∈ param_names → p' ∈ param_names →
  format p (str l) = format p' (str l') → p = p' ∧ l = l'.
Proof.
  unfold known_param_names. intros Hknown Hp Hp'.
  pose proof (str_no_dot l) as Hl. pose proof (str_no_dot l') as Hl'.
  assert (Hinj : ∀ t t', str l +:+ String "."%char t
                         = str l' +:+ String "."%char t' → l = l' ∧ t = t').
  { intros t t' Heq. destruct (no_dot_app_inj _ _ _ _ Hl Hl' Heq) as [Hs ->].
    split; [by apply str_inj | done]. }
  generalize dependent (str l'). generalize dependent (str l).
  intros sl _ sl' _ Hinj.
  repeat (apply elem_of_cons in Hknown as [-> | Hknown]);
    [| | by apply elem_of_nil in Hp | by apply elem_of_nil in Hknown].
  all: repeat (apply elem_of_cons in Hp as [-> | Hp]);
       try (by apply elem_of_nil in Hp).
  all: repeat (apply elem_of_cons in Hp' as [-> | Hp']);
       try (by apply elem_of_nil in Hp').
  all: simpl; intros [= Heq]; apply Hinj in Heq as [-> Ht];
       (done || discriminate Ht).
Qed.

Lemma probed_names_cons (param_names : list string) (l : nat)
    (levels : list nat) :
  probed_names param_names (l :: levels)
  = level_names param_names l ++ probed_names param_names levels.
Proof. reflexivity. Qed.

Lemma elem_of_probed_names (param_names : list string) (levels : list nat)
    (name : string) :
  name ∈ probed_names param_names levels ↔
  ∃ p l, p ∈ param_names ∧ l ∈ levels ∧ name = format p (str l).
Proof.
  unfold probed_names, level_names. rewrite list_elem_of_bind. split.
  - intros (l & Hn & Hl). apply list_elem_of_fmap in Hn as (p & -> & Hp).
    eauto.
  - intros (p & l & Hp & Hl & ->). exists l. split; [|done].
    apply list_elem_of_fmap. eauto.
Qed.

Lemma level_names_NoDup (param_names : list string) (level : nat) :
  param_names ∈ known_param_names →
  NoDup (level_names param_names level).
Proof.
  intros Hknown. unfold level_names.
  apply NoDup_fmap_2_strong.
  - intros p p' Hp Hp' Heq.
    by destruct (format_level_inj _ _ _ _ _ Hknown Hp Hp' Heq).
  - unfold known_param_names in Hknown.
    repeat (apply elem_of_cons in Hknown as [-> | Hknown]);
      [| | | by apply elem_of_nil in Hknown].
    + by apply (bool_decide_unpack _); vm_compute.
    + by apply (bool_decide_unpack _); vm_compute.
    + constructor.
Qed.

Lemma probed_names_NoDup (param_names : list string) (levels : list nat) :
  param_names ∈ known_param_names → NoDup levels →
  NoDup (probed_names param_names levels).
Proof.
  intros Hknown Hlevels. unfold probed_names. apply NoDup_bind; [| |done].
  - intros l l' name _ _ Hn Hn'. unfold level_names in Hn, Hn'.
    apply list_elem_of_fmap in Hn as (p & -> & Hp).
    apply list_elem_of_fmap in Hn' as (p' & Heq & Hp').
    by destruct (format_level_inj _ _ _ _ _ Hknown Hp Hp' Heq).
  - intros l _. by apply level_names_NoDup.
Qed.

End ParamNames.

(** ** The loops of the hook *)

Section HookLoops.
Import CustomSingleStageDetector.
Context {Row : Type}.
Implicit Types (d chkpt_dict model_dict : gmap string (list Row)).

Variable copy_ : Row → Row → result Row.
Variable model_dict : gmap string (list Row).
Variable prefix : string.
Variable model2chkpt : list Z.
Variables num_chkpt_classes num_model_classes : nat.

Local Abbreviation run_level :=
  (mix_level copy_ model_dict prefix model2chkpt num_chkpt_classes
     num_model_classes).
Local Abbreviation run_levels :=
  (mix_levels copy_ model_dict prefix model2chkpt num_chkpt_classes
     num_model_classes).
Local Abbreviation keys names := (String.append prefix <$> names).

(** Only entries under the names probed at the level are written. *)
Lemma mix_level_frame level param_names :
  ∀ level_found d d' r,
  run_level level param_names level_found d = (d', r) →
  ∀ k, k ∉ keys (level_names param_names level) → d' !! k = d !! k.
Proof.
  induction param_names as [|pattern rest IH];
    intros level_found d d' r Hrun k Hk; simpl in Hrun.
  - by injection Hrun as <- _.
  - simpl in Hk. apply not_elem_of_cons in Hk as [Hne Hk].
    destruct (model_dict !! format pattern (str level)) as [model_param|];
      [|by injection Hrun as <- _].
    destruct (d !! (prefix +:+ format pattern (str level)))
      as [chkpt_param|]; [|by injection Hrun as <- _].
    destruct (mix_param copy_ model2chkpt num_chkpt_classes num_model_classes
                chkpt_param model_param) as [mixed|e];
      [|by injection Hrun as <- _].
    rewrite (IH _ _ _ _ Hrun k Hk). by apply lookup_insert_ne.
Qed.

Lemma mix_levels_frame param_names levels :
  ∀ d d' r,
  run_levels param_names levels d = (d', r) →
  ∀ k, k ∉ keys (probed_names param_names levels) → d' !! k = d !! k.
Proof.
  induction levels as [|level rest IH]; intros d d' r Hrun k Hk;
    simpl in Hrun.
  - by injection Hrun as <- _.
  - rewrite probed_names_cons, fmap_app in Hk.
    apply not_elem_of_app in Hk as [Hk1 Hk2].
    destruct (run_level level param_names false d) as [d1 [[|]|e]] eqn:Hlevel.
    + rewrite (IH _ _ _ Hrun k Hk2). by eapply mix_level_frame.
    + injection Hrun as <- _. by eapply mix_level_frame.
    + injection Hrun as <- _. by eapply mix_level_frame.
Qed.

(** At a level whose first name is missing nothing is done and the level
    is not found. *)
Lemma mix_level_first_missing level param_names d :
  first_name_missing model_dict d prefix param_names level →
  run_level level param_names false d = (d, Ok false).
Proof.
  intros (pattern & rest & -> & Hmiss). simpl.
  destruct Hmiss as [-> | Hmiss]; [done|].
  rewrite Hmiss. by destruct (model_dict !! _).
Qed.

(** The loop over the levels ends at a level whose first name is
    missing. *)
Lemma mix_levels_truncate param_names before level after :
  ∀ d,
  first_name_missing model_dict d prefix param_names level →
  (∀ name, name ∈ level_names param_names level →
           prefix +:+ name ∉ keys (probed_names param_names before)) →
  run_levels param_names (before ++ level :: after) d
  = run_levels param_names before d.
Proof.
  induction before as [|l before IH]; intros d Hmiss Hfresh; simpl.
  - by rewrite (mix_level_first_missing _ _ _ Hmiss).
  - destruct (run_level l param_names false d) as [d1 [[|]|e]] eqn:Hlevel;
      [|done|done].
    apply IH.
    + destruct Hmiss as (pattern & rest & -> & Hmiss).
      exists pattern, rest. split; [done|].
      destruct Hmiss as [Hmiss | Hmiss]; [by left | right].
      rewrite <- Hmiss. eapply mix_level_frame; [done|].
      intros Hin. eapply (Hfresh (format pattern (str level))).
      * unfold level_names. rewrite fmap_cons. left.
      * rewrite probed_names_cons, fmap_app.
        apply elem_of_app. by left.
    + intros name Hname Hin. apply (Hfresh name Hname).
      rewrite probed_names_cons, fmap_app.
      apply elem_of_app. by right.
Qed.

(** A name of a level that is not among the given ones is not probed at
    them. *)
Lemma key_not_probed param_names levels pattern level :
  param_names ∈ known_param_names → pattern ∈ param_names →
  level ∉ levels →
  prefix +:+ format pattern (str level)
  ∉ keys (probed_names param_names levels).
Proof.
  intros Hknown Hp Hl Hin.
  apply list_elem_of_fmap in Hin as (name & Heq & Hname).
  apply (inj (String.append prefix)) in Heq. subst name.
  apply elem_of_probed_names in Hname as (p' & l' & Hp' & Hl' & Heq).
  destruct (format_level_inj _ _ _ _ _ Hknown Hp Hp' Heq) as [_ ->].
  done.
Qed.

(** Two runs that start from state dicts holding the same entries under
    the probed names do the same. *)
Lemma mix_level_agree (names : list string) model_dict2 level param_names :
  (∀ name, name ∈ level_names param_names level →
     model_dict !! name = model_dict2 !! name ∧ prefix +:+ name ∈ names) →
  ∀ level_found d1 d2,
  agree_on names d1 d2 →
  (run_level level param_names level_found d1).2
  = (mix_level copy_ model_dict2 prefix model2chkpt num_chkpt_classes
       num_model_classes level param_names level_found d2).2 ∧
  agree_on names
    (run_level level param_names level_found d1).1
    (mix_level copy_ model_dict2 prefix model2chkpt num_chkpt_classes
       num_model_classes level param_names level_found d2).1.
Proof.
  induction param_names as [|pattern rest IH];
    intros Hnames level_found d1 d2 Hagree; simpl; [done|].
  destruct (Hnames (format pattern (str level))) as [Hmd Hin];
    [unfold level_names; rewrite fmap_cons; left|].
  rewrite <- Hmd, <- (Hagree _ Hin).
  destruct (model_dict !! format pattern (str level)) as [model_param|];
    [|done].
  destruct (d1 !! (prefix +:+ format pattern (str level)))
    as [chkpt_param|]; [|done].
  destruct (mix_param copy_ model2chkpt num_chkpt_classes num_model_classes
              chkpt_param model_param) as [mixed|e]; [|done].
  apply IH.
  - intros name Hname. apply Hnames. unfold level_names.
    rewrite fmap_cons. by right.
  - intros k Hk.
    destruct (decide (prefix +:+ format pattern (str level) = k)) as [->|Hne].
    + by rewrite !lookup_insert_eq.
    + rewrite !lookup_insert_ne by done. by apply Hagree.
Qed.

Lemma mix_levels_agree (names : list string) model_dict2 param_names levels :
  (∀ name, name ∈ probed_names param_names levels →
     model_dict !! name = model_dict2 !! name ∧ prefix +:+ name ∈ names) →
  ∀ d1 d2,
  agree_on names d1 d2 →
  (run_levels param_names levels d1).2
  = (mix_levels copy_ model_dict2 prefix model2chkpt num_chkpt_classes
       num_model_classes param_names levels d2).2 ∧
  agree_on names
    (run_levels param_names levels d1).1
    (mix_levels copy_ model_dict2 prefix model2chkpt num_chkpt_classes
       num_model_classes param_names levels d2).1.
Proof.
  induction levels as [|level rest IH]; intros Hnames d1 d2 Hagree; simpl;
    [done|].
  destruct (mix_level_agree names model_dict2 level param_names) with
    (level_found := false) (d1 := d1) (d2 := d2) as [Hr Hd]; [|done|].
  { intros name Hname. apply Hnames. rewrite probed_names_cons.
    apply elem_of_app. by left. }
  destruct (run_level level param_names false d1) as [d1' r1].
  destruct (mix_level copy_ model_dict2 prefix model2chkpt num_chkpt_classes
              num_model_classes level param_names false d2) as [d2' r2].
  simpl in Hr, Hd. subst r2. destruct r1 as [[|]|e]; [|done|done].
  apply IH; [|done].
  intros name Hname. apply Hnames. rewrite probed_names_cons.
  apply elem_of_app. by right.
Qed.

(** The entries the loops leave are those they found or mixings of
    them, and the loops raise what a mixing raises. *)
Lemma mix_level_entries chkpt_dict level param_names :
  ∀ level_found done d d' r,
  NoDup (level_names param_names level) →
  (∀ name, name ∈ level_names param_names level →
           prefix +:+ name ∉ done) →
  Entries copy_ model_dict chkpt_dict prefix model2chkpt num_chkpt_classes
    num_model_classes done d →
  run_level level param_names level_found d = (d', r) →
  Entries copy_ model_dict chkpt_dict prefix model2chkpt num_chkpt_classes
    num_model_classes (keys (level_names param_names level) ++ done) d' ∧
  RaisedByMixing copy_ model_dict chkpt_dict prefix model2chkpt num_chkpt_classes
    num_model_classes r.
Proof.
  induction param_names as [|pattern rest IH];
    intros level_found done d d' r Hnodup Hfresh [Hout Hin] Hrun;
    simpl in Hrun.
  - injection Hrun as <- <-. done.
  - unfold level_names in Hnodup, Hfresh. rewrite fmap_cons in Hnodup, Hfresh.
    apply NoDup_cons in Hnodup as [Hhead Hnodup].
    set (model_name := format pattern (str level)) in *.
    assert (Hweaken : Entries copy_ model_dict chkpt_dict prefix model2chkpt
              num_chkpt_classes num_model_classes
              (keys (level_names (pattern :: rest) level) ++ done) d).
    { split; [|done]. intros k Hk. apply Hout. intros Hd. apply Hk.
      apply elem_of_app. by right. }
    destruct (model_dict !! model_name) as [model_param|] eqn:Hmodel;
      [|by injection Hrun as <- <-].
    destruct (d !! (prefix +:+ model_name)) as [chkpt_param|] eqn:Hchkpt;
      [|by injection Hrun as <- <-].
    assert (Hd0 : chkpt_dict !! (prefix +:+ model_name) = Some chkpt_param).
    { rewrite <- Hout; [done|]. apply Hfresh. left. }
    destruct (mix_param copy_ model2chkpt num_chkpt_classes num_model_classes
                chkpt_param model_param) as [mixed|e] eqn:Hmix.
    2: { injection Hrun as <- <-. split; [done|].
         intros e' [= <-]. by exists model_name, chkpt_param, model_param. }
    eapply (IH _ ((prefix +:+ model_name) :: done)) in Hrun.
    + destruct Hrun as [[Hout' Hin'] Hraise]. split; [|done].
      split; [|done].
      intros k Hk. apply Hout'. intros Hd. apply Hk.
      unfold level_names. rewrite fmap_cons, fmap_cons.
      apply elem_of_app in Hd as [Hd|Hd].
      * apply elem_of_app. left. by right.
      * apply elem_of_cons in Hd as [-> | Hd].
        -- apply elem_of_app. left. left.
        -- apply elem_of_app. by right.
    + done.
    + intros name Hname Hd. apply elem_of_cons in Hd as [Heq | Hd].
      * apply (inj (String.append prefix)) in Heq. by subst name.
      * apply (Hfresh name); [by right | done].
    + split.
      * intros k Hk. apply not_elem_of_cons in Hk as [Hne Hk].
        rewrite lookup_insert_ne by done. by apply Hout.
      * intros k.
        destruct (decide (prefix +:+ model_name = k)) as [<-|Hne].
        -- right. exists model_name, chkpt_param, model_param, mixed.
           by rewrite lookup_insert_eq.
        -- destruct (Hin k) as [Hk | Hk]; [left|right].
           ++ by rewrite lookup_insert_ne.
           ++ destruct Hk as (n & cp & mp & mx & ? & ? & ? & ? & ?).
              exists n, cp, mp, mx. by rewrite lookup_insert_ne.
Qed.

Lemma mix_levels_entries chkpt_dict param_names levels :
  ∀ done d d' r,
  NoDup (probed_names param_names levels) →
  (∀ name, name ∈ probed_names param_names levels →
           prefix +:+ name ∉ done) →
  Entries copy_ model_dict chkpt_dict prefix model2chkpt num_chkpt_classes
    num_model_classes done d →
  run_levels param_names levels d = (d', r) →
  (∀ k, d' !! k = chkpt_dict !! k ∨
        Remixed copy_ model_dict chkpt_dict d' prefix model2chkpt
          num_chkpt_classes num_model_classes k) ∧
  RaisedByMixing copy_ model_dict chkpt_dict prefix model2chkpt num_chkpt_classes
    num_model_classes r.
Proof.
  induction levels as [|level rest IH];
    intros done d d' r Hnodup Hfresh Hentries Hrun; simpl in Hrun.
  - injection Hrun as <- <-. split; [apply Hentries | done].
  - rewrite probed_names_cons in Hnodup, Hfresh.
    apply NoDup_app in Hnodup as (Hlevel & Hdisj & Hrest).
    destruct (run_level level param_names false d) as [d1 r1] eqn:Hrun1.
    eapply mix_level_entries in Hrun1 as [Hentries1 Hraise1]; [|done| |done].
    2: { intros name Hname. apply Hfresh, elem_of_app. by left. }
    destruct r1 as [[|]|e].
    + eapply IH; [done| |done|done].
      intros name Hname Hd. apply elem_of_app in Hd as [Hd|Hd].
      * apply list_elem_of_fmap in Hd as (name' & Heq & Hname').
        apply (inj (String.append prefix)) in Heq. subst name'.
        by apply (Hdisj name).
      * apply (Hfresh name); [|done]. apply elem_of_app. by right.
    + injection Hrun as <- <-. split; [apply Hentries1 | done].
    + injection Hrun as <- <-. split; [apply Hentries1|].
      intros e' [= <-]. by apply Hraise1.
Qed.

End HookLoops.

(** ** The weight re-indexing hook: the entries it reaches *)

Section HookReach.
Import CustomSingleStageDetector Reach.
Context {Row : Type}.
Implicit Types (d chkpt_dict : gmap string (list Row)).

Variable copy_ : Row → Row → result Row.
Variable model_dict : gmap string (list Row).
Variable prefix : string.
Variable model2chkpt : list Z.
Variables num_chkpt_classes num_model_classes : nat.

Local Abbreviation run_level :=
  (mix_level copy_ model_dict prefix model2chkpt num_chkpt_classes
     num_model_classes).
Local Abbreviation run_levels :=
  (mix_levels copy_ model_dict prefix model2chkpt num_chkpt_classes
     num_model_classes).
Local Abbreviation key level pattern :=
  (prefix +:+ format pattern (str level)).

Lemma key_inj (param_names : list string) (p p' : string) (l l' : nat) :
  param_names ∈ known_param_names →
  p ∈ param_names → p' ∈ param_names →
  key l p = key l' p' → p = p' ∧ l = l'.
Proof.
  intros Hknown Hp Hp' Heq. apply (inj (String.append prefix)) in Heq.
  by eapply format_level_inj.
Qed.

(** The inner loop ends at the first name that is missing: the entries of
    that name and of the names after it are kept. *)
Lemma mix_level_break (param_names pre post : list string) (p : string)
    (level : nat) :
  param_names ∈ known_param_names →
  ∀ found d d' r,
  pre ++ p :: post ⊆ param_names →
  NoDup (pre ++ p :: post) →
  model_dict !! format p (str level) = None ∨ d !! key level p = None →
  run_level level (pre ++ p :: post) found d = (d', r) →
  ∀ q, q ∈ p :: post → d' !! key level q = d !! key level q.
Proof.
  intros Hknown. induction pre as [|a pre IH];
    intros found d d' r Hsub Hnodup Hmiss Hrun q Hq.
  - simpl in Hrun. destruct Hmiss as [Hmiss|Hmiss]; rewrite Hmiss in Hrun.
    + by injection Hrun as <- _.
    + destruct (model_dict !! _); by injection Hrun as <- _.
  - simpl in Hrun, Hnodup. apply NoDup_cons in Hnodup as [Ha Hnodup].
    assert (∀ q, q ∈ p :: post → key level a ≠ key level q) as Hne.
    { intros q' Hq' Heq.
      apply (key_inj param_names) in Heq as [-> _]; [|done|..].
      - apply Ha, elem_of_app. by right.
      - apply Hsub. left.
      - apply Hsub. right. apply elem_of_app. by right. }
    destruct (model_dict !! format a (str level)) as [model_param|];
      [|by injection Hrun as <- _].
    destruct (d !! key level a) as [chkpt_param|];
      [|by injection Hrun as <- _].
    destruct (mix_param copy_ _ _ _ _ _) as [mixed|e];
      [|by injection Hrun as <- _].
    erewrite (IH _ _ _ _ _ Hnodup _ Hrun q Hq).
    + apply lookup_insert_ne. by apply Hne.
    Unshelve.
    * intros x Hx. apply Hsub. by right.
    * destruct Hmiss as [Hmiss|Hmiss]; [by left | right].
      rewrite lookup_insert_ne; [done|]. apply Hne. left.
Qed.

Lemma known_param_names_NoDup (param_names : list string) :
  param_names ∈ known_param_names → NoDup param_names.
Proof.
  unfold known_param_names. intros Hknown.
  repeat (apply elem_of_cons in Hknown as [-> | Hknown]);
    [| | | by apply elem_of_nil in Hknown].
  - by apply (bool_decide_unpack _); vm_compute.
  - by apply (bool_decide_unpack _); vm_compute.
  - constructor.
Qed.

Lemma key_other_level (param_names : list string) (q : string)
    (l level : nat) :
  param_names ∈ known_param_names → q ∈ param_names → l ≠ level →
  key level q ∉ String.append prefix <$> level_names param_names l.
Proof.
  intros Hknown Hq Hne Hin.
  apply list_elem_of_fmap in Hin as (name & Heq & Hname).
  unfold level_names in Hname.
  apply list_elem_of_fmap in Hname as (q' & -> & Hq').
  apply (key_inj param_names) in Heq as [_ ->]; done.
Qed.

Lemma mix_levels_break (param_names pre post : list string) (p : string)
    (level : nat) :
  param_names ∈ known_param_names → param_names = pre ++ p :: post →
  ∀ levels d d' r,
  model_dict !! format p (str level) = None ∨ d !! key level p = None →
  run_levels param_names levels d = (d', r) →
  ∀ q, q ∈ p :: post → d' !! key level q = d !! key level q.
Proof.
  intros Hknown Hsplit.
  pose proof (known_param_names_NoDup _ Hknown) as Hnodup.
  induction levels as [|l rest IH]; intros d d' r Hmiss Hrun q Hq.
  - simpl in Hrun. by injection Hrun as <- _.
  - simpl in Hrun.
    destruct (run_level l param_names false d) as [d1 res] eqn:Hlevel.
    assert (∀ q, q ∈ p :: post → d1 !! key level q = d !! key level q)
      as Hkept.
    { intros q' Hq'. destruct (decide (l = level)) as [->|Hne].
      - subst param_names.
        by eapply (mix_level_break (pre ++ p :: post) pre post p level).
      - eapply mix_level_frame; [exact Hlevel|].
        apply (key_other_level param_names); [done| |done].
        subst param_names. apply elem_of_app. by right. }
    destruct res as [[|]|e].
    + rewrite (IH d1 d' r); [by apply Hkept | | done | done].
      destruct Hmiss as [Hmiss|Hmiss]; [by left | right].
      rewrite Hkept; [done | left].
    + injection Hrun as <- _. by apply Hkept.
    + injection Hrun as <- _. by apply Hkept.
Qed.

(** A run of the inner loop that raises nothing and had found a name
    before has found the level. *)
Lemma mix_level_found (level : nat) (param_names : list string) :
  ∀ d d' found,
  run_level level param_names true d = (d', Ok found) → found = true.
Proof.
  induction param_names as [|a rest IH]; intros d d' found; simpl.
  - by intros [= _ <-].
  - destruct (model_dict !! _) as [model_param|]; [|by intros [= _ <-]].
    destruct (d !! _) as [chkpt_param|]; [|by intros [= _ <-]].
    destruct (mix_param copy_ _ _ _ _ _) as [mixed|e]; [apply IH | done].
Qed.

(** A run of the inner loop that raises nothing has mixed the entry of
    every name up to the first one that is missing. *)
Lemma mix_level_reach (param_names pre post : list string) (p : string)
    (level : nat) :
  param_names ∈ known_param_names →
  ∀ found d d' found',
  pre ++ p :: post ⊆ param_names →
  NoDup (pre ++ p :: post) →
  (∀ q, q ∈ pre ++ [p] → present model_dict d prefix level q) →
  run_level level (pre ++ p :: post) found d = (d', Ok found') →
  found' = true ∧
  ∃ chkpt_param model_param mixed,
    d !! key level p = Some chkpt_param ∧
    model_dict !! format p (str level) = Some model_param ∧
    mix_param copy_ model2chkpt num_chkpt_classes num_model_classes
      chkpt_param model_param = Ok mixed ∧
    d' !! key level p = Some mixed.
Proof.
  intros Hknown. induction pre as [|a pre IH];
    intros found d d' found' Hsub Hnodup Hpresent Hrun.
  - destruct (Hpresent p) as [[model_param Hm] [chkpt_param Hc]]; [left|].
    simpl in Hrun. rewrite Hm, Hc in Hrun.
    destruct (mix_param copy_ model2chkpt num_chkpt_classes
                num_model_classes chkpt_param model_param)
      as [mixed|e] eqn:Hmix; [|done].
    split; [by eapply mix_level_found|].
    exists chkpt_param, model_param, mixed. repeat (split; [done|]).
    erewrite mix_level_frame; [by apply lookup_insert_eq | exact Hrun |].
    simpl in Hnodup. apply NoDup_cons in Hnodup as [Hp _].
    intros Hin. apply list_elem_of_fmap in Hin as (name & Heq & Hname).
    unfold level_names in Hname.
    apply list_elem_of_fmap in Hname as (q & -> & Hq).
    apply (key_inj param_names) in Heq as [-> _]; [done|done|..].
    + apply Hsub. left.
    + apply Hsub. by right.
  - simpl in Hnodup. apply NoDup_cons in Hnodup as [Ha Hnodup].
    destruct (Hpresent a) as [[model_param Hm] [chkpt_param Hc]]; [left|].
    simpl in Hrun. rewrite Hm, Hc in Hrun.
    destruct (mix_param copy_ model2chkpt num_chkpt_classes
                num_model_classes chkpt_param model_param)
      as [mixed|e] eqn:Hmix; [|done].
    assert (key level a ≠ key level p) as Hne.
    { intros Heq. apply (key_inj param_names) in Heq as [-> _]; [|done|..].
      - apply Ha, elem_of_app. right. left.
      - apply Hsub. left.
      - apply Hsub. right. apply elem_of_app. right. left. }
    destruct (IH true (<[key level a := mixed]> d) d' found')
      as (Hfound & cp & mp & mixed' & Hcp & Hmp & Hmix' & Hd');
      [by intros x Hx; apply Hsub; right | done | | done |].
    { intros q Hq. destruct (Hpresent q) as [Hqm Hqc]; [by right|].
      split; [done|]. by apply lookup_insert_is_Some'; right. }
    split; [done|]. exists cp, mp, mixed'. split; [|done].
    by rewrite lookup_insert_ne in Hcp.
Qed.

(** A run of the loop over the levels that raises nothing has mixed the
    entries of a level when it found every level below. *)
Lemma mix_levels_reach (pre post : list string) (p : string) (level : nat) :
  pre ++ p :: post ∈ known_param_names →
  ∀ n start d d',
  (start ≤ level < start + n)%nat →
  (∀ (l : nat) (first : string), (start ≤ l < level)%nat →
     head (pre ++ p :: post) = Some first →
     present model_dict d prefix l first) →
  (∀ q, q ∈ pre ++ [p] → present model_dict d prefix level q) →
  run_levels (pre ++ p :: post) (seq start n) d = (d', Ok ()) →
  ∃ chkpt_param model_param mixed,
    d !! key level p = Some chkpt_param ∧
    model_dict !! format p (str level) = Some model_param ∧
    mix_param copy_ model2chkpt num_chkpt_classes num_model_classes
      chkpt_param model_param = Ok mixed ∧
    d' !! key level p = Some mixed.
Proof.
  intros Hknown.
  pose proof (known_param_names_NoDup _ Hknown) as Hnodup.
  induction n as [|n IH]; intros start d d' Hrange Hfound Hpresent Hrun;
    [lia|].
  simpl in Hrun.
  destruct (run_level start (pre ++ p :: post) false d) as [d1 res]
    eqn:Hlevel.
  destruct res as [found|e]; [|done].
  destruct (decide (start = level)) as [->|Hne].
  - destruct (mix_level_reach _ pre post p level Hknown false d d1 found)
      as (-> & cp & mp & mixed & Hcp & Hmp & Hmix & Hd1); [done..|].
    exists cp, mp, mixed. repeat (split; [done|]).
    erewrite mix_levels_frame; [exact Hd1 | exact Hrun |].
    apply key_not_probed; [done | |].
    + apply elem_of_app. right. left.
    + rewrite elem_of_seq. lia.
  - destruct (pre ++ p :: post) as [|first rest] eqn:Hnames;
      [by destruct pre|].
    destruct (mix_level_reach (first :: rest) [] rest first start Hknown
                false d d1 found)
      as (-> & _); [done | done | | done |].
    { intros q Hq. apply list_elem_of_singleton in Hq as ->.
      apply Hfound; [lia | done]. }
    assert (∀ (l : nat) (q : string), l ≠ start → q ∈ first :: rest →
              d1 !! key l q = d !! key l q) as Hkept.
    { intros l q Hl Hq. eapply mix_level_frame; [exact Hlevel|].
      by apply (key_other_level (first :: rest)). }
    destruct (IH (S start) d1 d')
      as (cp & mp & mixed & Hcp & Hmp & Hmix & Hd'); [lia | | | done |].
    + intros l first' Hl [= <-].
      destruct (Hfound l first) as [Hm Hc]; [lia | done |].
      split; [done|]. rewrite Hkept; [done | lia | left].
    + intros q Hq. destruct (Hpresent q Hq) as [Hm Hc].
      split; [done|]. rewrite Hkept; [done | lia |].
      rewrite <- Hnames. apply elem_of_app in Hq as [Hq|Hq].
      * apply elem_of_app. by left.
      * apply list_elem_of_singleton in Hq as ->.
        apply elem_of_app. right. left.
    + exists cp, mp, mixed. split; [|done].
      rewrite Hkept in Hcp; [done | lia |].
      rewrite <- Hnames. apply elem_of_app. right. left.
Qed.

End HookReach.

(** ** The weight re-indexing hook: mixing *)

Section WeightMixing.
Import CustomSingleStageDetector TaskAdapt Reach.
Context {Row Layout : Type}.
Variable copy_ : Row → Row → result Row.
Variable layout : Row → Layout.
Implicit Types (chkpt_param model_param mixed : list Row).
Implicit Types (chkpt_dict model_dict : gmap string (list Row)).

Lemma ClassMapping_range source_list destination_list mapping c :
  ClassMapping source_list destination_list mapping → c ∈ mapping →
  (c = -1 ∨ 0 ≤ c) ∧ c < Z.of_nat (length source_list).
Proof.
  intros [Hlen Hmap] Hc. apply list_elem_of_lookup in Hc as [i Hi].
  destruct (lookup_lt_is_Some_2 destination_list i) as [name Hname].
  { rewrite <- Hlen. by eapply lookup_lt_Some. }
  destruct (Hmap i name Hname) as (v & Hv & _ & Hpres).
  assert (v = c) as -> by congruence.
  destruct (decide (c = -1)) as [->|Hne]; [split; [by left | lia]|].
  destruct (Hpres Hne) as [Hpos Hsrc]. apply lookup_lt_Some in Hsrc.
  split; [by right | lia].
Qed.

(** A mapping of a duplicate-free list to itself is the identity. *)
Lemma ClassMapping_identity classes mapping (i : nat) :
  NoDup classes → ClassMapping classes classes mapping →
  (i < length classes)%nat → mapping !! i = Some (Z.of_nat i).
Proof.
  intros Hnodup [Hlen Hmap] Hi.
  destruct (lookup_lt_is_Some_2 classes i Hi) as [name Hname].
  destruct (Hmap i name Hname) as (v & Hv & Habs & Hpres).
  destruct (decide (v = -1)) as [->|Hne].
  - exfalso. apply Habs; [done|]. by eapply list_elem_of_lookup_2.
  - destruct (Hpres Hne) as [Hpos Hsrc].
    rewrite Hv. f_equal.
    pose proof (NoDup_lookup _ _ _ _ Hnodup Hsrc Hname). lia.
Qed.

Lemma hook_mix_param_Ok source_list destination_list mapping
    chkpt_param model_param :
  copies_rows copy_ layout →
  ClassMapping (source_list ++ ["__BG__"]) (destination_list ++ ["__BG__"])
    mapping →
  one_layout layout chkpt_param model_param →
  ∃ mixed,
    mix_param copy_ mapping (length (source_list ++ ["__BG__"]))
      (length (destination_list ++ ["__BG__"])) chkpt_param model_param
    = Ok mixed ∧
    Mixed (length (source_list ++ ["__BG__"]))
      (length (destination_list ++ ["__BG__"]))
      ((length chkpt_param / length (source_list ++ ["__BG__"]))
         `min` (length model_param / length (destination_list ++ ["__BG__"])))
      mapping chkpt_param model_param mixed.
Proof.
  intros copy_layout Hmap Hlayout.
  apply (mix_param_spec copy_ layout copy_layout).
  - rewrite length_app. simpl. lia.
  - rewrite length_app. simpl. lia.
  - apply Hmap.
  - intros c Hc. by destruct (ClassMapping_range _ _ _ _ Hmap Hc).
  - done.
Qed.

(** Whatever the mapper and the rows, the hook leaves each entry as it was
    or mixed, and raises only what a mixing raises. *)
Lemma load_state_dict_pre_hook_run
    (map_class_names : list string → list string → list Z)
    model_dict (model_classes chkpt_classes : list string)
    chkpt_dict (prefix : string) :
  ∃ chkpt_dict' r,
    load_state_dict_pre_hook map_class_names copy_ model_dict model_classes
      chkpt_classes chkpt_dict prefix = (chkpt_dict', r) ∧
    (∀ k, chkpt_dict' !! k = chkpt_dict !! k ∨
          Remixed copy_ model_dict chkpt_dict chkpt_dict' prefix
            (map_class_names (model_classes ++ ["__BG__"])
               (chkpt_classes ++ ["__BG__"]))
            (length (chkpt_classes ++ ["__BG__"]))
            (length (model_classes ++ ["__BG__"])) k) ∧
    RaisedByMixing copy_ model_dict chkpt_dict prefix
      (map_class_names (model_classes ++ ["__BG__"])
         (chkpt_classes ++ ["__BG__"]))
      (length (chkpt_classes ++ ["__BG__"]))
      (length (model_classes ++ ["__BG__"])) r.
Proof.
  unfold load_state_dict_pre_hook.
  destruct (mix_levels copy_ _ _ _ _ _ _ _ _) as [d' r] eqn:Hrun.
  exists d', r. split; [done|].
  eapply mix_levels_entries in Hrun; [exact Hrun | | |].
  - apply probed_names_NoDup; [apply select_param_names_known|].
    apply NoDup_seq.
  - intros name _. apply not_elem_of_nil.
  - split; [done | by left].
Qed.

(** With a class mapping and blocks whose rows are of one shape and dtype
    under each name, the hook raises nothing. *)
Lemma load_state_dict_pre_hook_Ok
    (map_class_names : list string → list string → list Z)
    model_dict (model_classes chkpt_classes : list string)
    chkpt_dict (prefix : string) :
  copies_rows copy_ layout →
  ClassMapping (chkpt_classes ++ ["__BG__"]) (model_classes ++ ["__BG__"])
    (map_class_names (model_classes ++ ["__BG__"])
       (chkpt_classes ++ ["__BG__"])) →
  layouts_agree layout model_dict chkpt_dict prefix →
  ∃ chkpt_dict',
    load_state_dict_pre_hook map_class_names copy_ model_dict model_classes
      chkpt_classes chkpt_dict prefix = (chkpt_dict', Ok ()).
Proof.
  intros copy_layout Hmap Hlayouts.
  destruct (load_state_dict_pre_hook_run map_class_names model_dict
              model_classes chkpt_classes chkpt_dict prefix)
    as (chkpt_dict' & r & Hrun & _ & Hraise).
  exists chkpt_dict'. rewrite Hrun. f_equal.
  destruct r as [[]|e]; [done|]. exfalso.
  destruct (Hraise e eq_refl) as (n & cp & mp & Hcp & Hmp & Hmix).
  destruct (hook_mix_param_Ok _ _ _ cp mp copy_layout Hmap
              (Hlayouts n cp mp Hcp Hmp))
    as (mixed & Hok & _).
  congruence.
Qed.

(** C2. When the mapping of the extended class lists is a class mapping
    from the model's classes (destination) to the checkpoint's (source),
    and the rows of the blocks that the checkpoint and the model have under
    one name are of one shape and dtype, so that [copy_] puts the source
    row in the place of the destination row, the hook raises nothing.
    It mixes the entry of a pattern at a level below 10 when every level
    below was found and the patterns up to this one are present at the
    level, and it changes no entry but by mixing it with the model's
    parameter of that name. In a mixed block, for every anchor index
    below the smaller of the two anchor counts, the row
    [a * num_model_classes + m] whose mapping value [c] is non-negative is
    the checkpoint's row [a * num_chkpt_classes + c], the row whose
    mapping value is [-1] is the model's own, and so is every row beyond
    those anchor groups. *)
Theorem load_state_dict_pre_hook_mixes
    (map_class_names : list string → list string → list Z)
    model_dict (model_classes chkpt_classes : list string)
    chkpt_dict (prefix : string) :
  let num_chkpt_classes := length (chkpt_classes ++ ["__BG__"]) in
  let num_model_classes := length (model_classes ++ ["__BG__"]) in
  let model2chkpt :=
    map_class_names (model_classes ++ ["__BG__"])
      (chkpt_classes ++ ["__BG__"]) in
  copies_rows copy_ layout →
  ClassMapping (chkpt_classes ++ ["__BG__"]) (model_classes ++ ["__BG__"])
    model2chkpt →
  layouts_agree layout model_dict chkpt_dict prefix →
  (∀ c, c ∈ model2chkpt → c = -1 ∨ 0 ≤ c) ∧
  ∃ chkpt_dict',
    load_state_dict_pre_hook map_class_names copy_ model_dict model_classes
      chkpt_classes chkpt_dict prefix = (chkpt_dict', Ok ()) ∧
    (∀ (pre post : list string) (pattern : string) (level : nat),
       select_param_names prefix chkpt_dict = pre ++ pattern :: post →
       (level < 10)%nat →
       levels_found model_dict chkpt_dict prefix (pre ++ pattern :: post)
         level →
       (∀ q, q ∈ pre ++ [pattern] →
             present model_dict chkpt_dict prefix level q) →
       ∃ chkpt_param model_param mixed,
         chkpt_dict !! (prefix +:+ format pattern (str level))
         = Some chkpt_param ∧
         model_dict !! format pattern (str level) = Some model_param ∧
         chkpt_dict' !! (prefix +:+ format pattern (str level))
         = Some mixed ∧
         Mixed num_chkpt_classes num_model_classes
           ((length chkpt_param / num_chkpt_classes)
              `min` (length model_param / num_model_classes))%nat
           model2chkpt chkpt_param model_param mixed) ∧
    ∀ chkpt_name,
      chkpt_dict' !! chkpt_name = chkpt_dict !! chkpt_name ∨
      ∃ model_name chkpt_param model_param mixed,
        chkpt_name = prefix +:+ model_name ∧
        chkpt_dict !! chkpt_name = Some chkpt_param ∧
        model_dict !! model_name = Some model_param ∧
        chkpt_dict' !! chkpt_name = Some mixed ∧
        Mixed num_chkpt_classes num_model_classes
          ((length chkpt_param / num_chkpt_classes)
             `min` (length model_param / num_model_classes))%nat
          model2chkpt chkpt_param model_param mixed.
Proof.
  intros nc nm model2chkpt copy_layout Hmap Hlayouts. split.
  { intros c Hc. by destruct (ClassMapping_range _ _ _ _ Hmap Hc). }
  destruct (load_state_dict_pre_hook_Ok map_class_names model_dict
              model_classes chkpt_classes chkpt_dict prefix copy_layout
              Hmap Hlayouts)
    as [chkpt_dict' Hrun].
  exists chkpt_dict'. split; [done|].
  assert (Hmixed : ∀ chkpt_param model_param mixed,
            one_layout layout chkpt_param model_param →
            mix_param copy_ model2chkpt nc nm chkpt_param model_param
            = Ok mixed →
            Mixed nc nm
              ((length chkpt_param / nc) `min` (length model_param / nm))%nat
              model2chkpt chkpt_param model_param mixed).
  { intros cp mp mixed Hlayout Hmix.
    destruct (hook_mix_param_Ok _ _ _ cp mp copy_layout Hmap Hlayout)
      as (mixed' & Hmix' & ?).
    assert (Ok mixed = Ok mixed') as [= ->]
      by (etrans; [symmetry; exact Hmix | exact Hmix']).
    done. }
  split.
  - intros pre post pattern level Hnames Hlevel Hfound Hpresent.
    pose proof (select_param_names_known prefix chkpt_dict) as Hknown.
    rewrite Hnames in Hknown.
    unfold load_state_dict_pre_hook in Hrun. rewrite Hnames in Hrun.
    fold nc nm model2chkpt in Hrun.
    destruct (mix_levels_reach copy_ model_dict prefix model2chkpt nc nm
                pre post pattern level Hknown 10%nat 0%nat chkpt_dict
                chkpt_dict')
      as (cp & mp & mixed & Hcp & Hmp & Hmix & Hd'); [lia | | done | done |].
    { intros l first Hl Hfirst. apply Hfound; [lia | done]. }
    exists cp, mp, mixed. repeat (split; [done|]).
    apply Hmixed; [|done]. by eapply Hlayouts.
  - intros chkpt_name.
    destruct (load_state_dict_pre_hook_run map_class_names model_dict
                model_classes chkpt_classes chkpt_dict prefix)
      as (d' & r & Hrun' & Hentries & _).
    assert (d' = chkpt_dict') as -> by congruence.
    destruct (Hentries chkpt_name) as [Hsame | Hremixed]; [by left | right].
    destruct Hremixed as (n & cp & mp & mixed & -> & Hcp & Hmp & Hd' & Hmix).
    exists n, cp, mp, mixed. repeat (split; [done|]).
    apply Hmixed; [|done]. by eapply Hlayouts.
Qed.

End WeightMixing.

Section WeightMixingSample.
Import CustomSingleStageDetector TaskAdapt Reach.

Lemma copies_rows_sample : copies_rows Sample.copy_ Sample.layout.
Proof. by intros dst src _. Qed.

Lemma layouts_agree_sample (model_dict chkpt_dict : gmap string (list nat))
    (prefix : string) :
  layouts_agree Sample.layout model_dict chkpt_dict prefix.
Proof. by intros name cp mp _ _ row row' _ _. Qed.

Example load_state_dict_pre_hook_sample :
  load_state_dict_pre_hook Sample.mapper Sample.copy_ Sample.model_dict
    ["a"; "b"] ["a"] Sample.chkpt_dict ""
  = ({[ "bbox_head.cls_convs.0.weight" := [1; 101; 2; 3; 104; 4]%nat ]},
     Ok ()).
Proof. by vm_compute. Qed.

Lemma load_state_dict_pre_hook_mixes_witness :
  ClassMapping (["a"] ++ ["__BG__"]) (["a"; "b"] ++ ["__BG__"])
    (Sample.mapper (["a"; "b"] ++ ["__BG__"]) (["a"] ++ ["__BG__"])) ∧
  ∃ chkpt_dict' mixed,
    load_state_dict_pre_hook Sample.mapper Sample.copy_ Sample.model_dict
      ["a"; "b"] ["a"] Sample.chkpt_dict "" = (chkpt_dict', Ok ()) ∧
    chkpt_dict' !! "bbox_head.cls_convs.0.weight" = Some mixed ∧
    Mixed 2 3 2 (Sample.mapper ["a"; "b"; "__BG__"] ["a"; "__BG__"])
      [1; 2; 3; 4]%nat [100; 101; 102; 103; 104; 105]%nat mixed.
Proof.
  assert (Hmap : ClassMapping (["a"] ++ ["__BG__"]) (["a"; "b"] ++ ["__BG__"])
            (Sample.mapper (["a"; "b"] ++ ["__BG__"]) (["a"] ++ ["__BG__"])))
    by apply map_class_names_ClassMapping.
  split; [exact Hmap|].
  destruct (load_state_dict_pre_hook_mixes Sample.copy_ Sample.layout
              Sample.mapper Sample.model_dict ["a"; "b"] ["a"]
              Sample.chkpt_dict "" copies_rows_sample Hmap
              (layouts_agree_sample _ _ _))
    as (_ & chkpt_dict' & Hrun & Hreach & _).
  destruct (Hreach [] ["bbox_head.cls_convs.{}.bias"]
              "bbox_head.cls_convs.{}.weight" 0%nat eq_refl)
    as (cp & mp & mixed & Hcp & Hmp & Hd' & Hmixed).
  - lia.
  - intros l first Hl. lia.
  - intros q Hq. apply list_elem_of_singleton in Hq as ->.
    split; vm_compute; eauto.
  - exists chkpt_dict', mixed. split; [exact Hrun|]. split; [exact Hd'|].
    vm_compute in Hcp, Hmp. injection Hcp as <-. injection Hmp as <-.
    exact Hmixed.
Defined.

End WeightMixingSample.

(** ** The weight re-indexing hook: identical class lists *)

Section WeightMixingIdentity.
Import CustomSingleStageDetector TaskAdapt.
Context {Row Layout : Type}.
Variable copy_ : Row → Row → result Row.
Variable layout : Row → Layout.
Implicit Types (chkpt_param model_param mixed : list Row).
Implicit Types (chkpt_dict model_dict : gmap string (list Row)).

(** With the identity mapping and blocks of one shape, made of whole
    anchor groups, the mixing yields the source block. *)
Lemma mix_param_identity (model2chkpt : list Z) (n : nat)
    chkpt_param model_param :
  copies_rows copy_ layout →
  (0 < n)%nat → length model2chkpt = n →
  (∀ i : nat, (i < n)%nat → model2chkpt !! i = Some (Z.of_nat i)) →
  length model_param = length chkpt_param →
  (n | length chkpt_param)%nat →
  one_layout layout chkpt_param model_param →
  mix_param copy_ model2chkpt n n chkpt_param model_param = Ok chkpt_param.
Proof.
  intros copy_layout Hn Hlen Hid Hshape [k Hk] Hlayout.
  destruct (mix_param_spec copy_ layout copy_layout model2chkpt n n
              chkpt_param model_param)
    as (mixed & Hrun & Hl & Hrows & _); [done | done | done | | done |].
  { intros c Hc. apply list_elem_of_lookup in Hc as [i Hi].
    assert (i < n)%nat by (rewrite <- Hlen; by eapply lookup_lt_Some).
    rewrite Hid in Hi by done. injection Hi as <-. lia. }
  rewrite Hrun. f_equal. apply list_eq. intros r.
  rewrite Hshape, Hk, Nat.div_mul, Nat.min_id in Hrows by lia.
  destruct (decide (r < k * n)%nat) as [Hr|Hr].
  - pose proof (Nat.div_mod_eq r n) as Hdiv.
    pose proof (Nat.mod_upper_bound r n) as Hmod.
    destruct (Hrows (r / n)%nat (r `mod` n)%nat (Z.of_nat (r `mod` n)))
      as [Hcopy _].
    + apply Nat.Div0.div_lt_upper_bound. lia.
    + apply Hid. lia.
    + rewrite Nat2Z.id in Hcopy.
      replace (r / n * n + r `mod` n)%nat with r in Hcopy by lia.
      apply Hcopy. lia.
  - rewrite !lookup_ge_None_2; [done | lia | lia].
Qed.

(** C5. When the checkpoint and the model have the same, duplicate-free
    class list (so that the class mapping is the identity), and the
    blocks of a parameter have the same number of rows on both sides, a
    whole number of anchor groups, of one shape and dtype, then mixing a
    block yields the source block, and the hook leaves the checkpoint dict
    as it was. *)
Theorem load_state_dict_pre_hook_identity
    (map_class_names : list string → list string → list Z)
    model_dict (classes : list string) chkpt_dict (prefix : string) :
  let extended := classes ++ ["__BG__"] in
  let model2chkpt := map_class_names extended extended in
  copies_rows copy_ layout →
  NoDup extended →
  ClassMapping extended extended model2chkpt →
  (∀ chkpt_param model_param,
     length model_param = length chkpt_param →
     (length extended | length chkpt_param)%nat →
     one_layout layout chkpt_param model_param →
     mix_param copy_ model2chkpt (length extended) (length extended)
       chkpt_param model_param = Ok chkpt_param) ∧
  ((∀ model_name chkpt_param model_param,
      chkpt_dict !! (prefix +:+ model_name) = Some chkpt_param →
      model_dict !! model_name = Some model_param →
      length model_param = length chkpt_param ∧
      (length extended | length chkpt_param)%nat ∧
      one_layout layout chkpt_param model_param) →
   load_state_dict_pre_hook map_class_names copy_ model_dict classes classes
     chkpt_dict prefix = (chkpt_dict, Ok ())).
Proof.
  intros extended model2chkpt copy_layout Hnodup Hmap.
  assert (Hblock : ∀ chkpt_param model_param,
            length model_param = length chkpt_param →
            (length extended | length chkpt_param)%nat →
            one_layout layout chkpt_param model_param →
            mix_param copy_ model2chkpt (length extended) (length extended)
              chkpt_param model_param = Ok chkpt_param).
  { intros cp mp Hshape Hdiv Hlayout. apply mix_param_identity; try done.
    - subst extended. rewrite length_app. simpl. lia.
    - apply Hmap.
    - intros i Hi. by apply (ClassMapping_identity extended). }
  split; [exact Hblock|]. intros Hshapes.
  destruct (load_state_dict_pre_hook_run copy_ map_class_names model_dict
              classes classes chkpt_dict prefix)
    as (chkpt_dict' & r & Hrun & Hentries & Hraise).
  assert (Hsame : ∀ k, chkpt_dict' !! k = chkpt_dict !! k).
  { intros k. destruct (Hentries k) as [Hk | Hk]; [done|].
    destruct Hk as (n & cp & mp & mixed & -> & Hcp & Hmp & Hmixed & Hmix).
    destruct (Hshapes n cp mp Hcp Hmp) as (Hshape & Hdiv & Hlayout).
    assert (Ok mixed = Ok cp) as [= ->]
      by (etrans; [symmetry; exact Hmix | by apply Hblock]).
    congruence. }
  apply map_eq in Hsame. subst chkpt_dict'. rewrite Hrun. f_equal.
  destruct r as [[]|e]; [done|]. exfalso.
  destruct (Hraise e eq_refl) as (n & cp & mp & Hcp & Hmp & Hmix).
  destruct (Hshapes n cp mp Hcp Hmp) as (Hshape & Hdiv & Hlayout).
  assert (Raise e = Ok cp) as [=]
    by (etrans; [symmetry; exact Hmix | by apply Hblock]).
Qed.

End WeightMixingIdentity.

(** ** The weight re-indexing hook: the levels it probes *)

Section HookLevels.
Import CustomSingleStageDetector.
Context {Row : Type}.
Variable copy_ : Row → Row → result Row.
Implicit Types (chkpt_dict model_dict : gmap string (list Row)).

Lemma select_param_names_agree (prefix : string) chkpt_dict chkpt_dict2 :
  agree_on (String.append prefix <$> selector_names) chkpt_dict chkpt_dict2 →
  select_param_names prefix chkpt_dict2 = select_param_names prefix chkpt_dict.
Proof.
  intros Hagree. unfold select_param_names.
  rewrite <- !Hagree; [done | |]; unfold selector_names;
    rewrite !fmap_cons; set_solver.
Qed.

(** C9. The hook writes only entries under names of the levels 0 to 9: an
    entry it changes is under such a name, and the entries of a level from
    10 on are left as they were. When the first name probed at a level [L]
    is missing from the model's state dict or from the checkpoint dict, the
    entries of the levels from [L] on are left as they were. And the hook
    reads only what it may write: a second run from state dicts which hold
    the same entries under the names of the levels below a bound, which is
    10 or follows such a level [L], raises the same and leaves the same
    entries under those names. *)
Theorem load_state_dict_pre_hook_levels
    (map_class_names : list string → list string → list Z)
    model_dict (model_classes chkpt_classes : list string)
    chkpt_dict (prefix : string) :
  let param_names := select_param_names prefix chkpt_dict in
  let run :=
    load_state_dict_pre_hook map_class_names copy_ model_dict model_classes
      chkpt_classes chkpt_dict prefix in
  (∀ k, run.1 !! k ≠ chkpt_dict !! k →
     ∃ pattern level, pattern ∈ param_names ∧ (level < 10)%nat ∧
                      k = prefix +:+ format pattern (str level)) ∧
  (∀ pattern level, pattern ∈ param_names → (10 ≤ level)%nat →
     run.1 !! (prefix +:+ format pattern (str level))
     = chkpt_dict !! (prefix +:+ format pattern (str level))) ∧
  (∀ L, (L < 10)%nat →
     first_name_missing model_dict chkpt_dict prefix param_names L →
     ∀ pattern level, pattern ∈ param_names → (L ≤ level)%nat →
       run.1 !! (prefix +:+ format pattern (str level))
       = chkpt_dict !! (prefix +:+ format pattern (str level))) ∧
  (∀ (bound : nat) model_dict2 chkpt_dict2,
     (bound = 10%nat ∨
      ∃ L, (L < 10)%nat ∧ bound = S L ∧
           first_name_missing model_dict chkpt_dict prefix param_names L) →
     agree_on (probed_names param_names (seq 0 bound))
       model_dict model_dict2 →
     agree_on
       (String.append prefix
          <$> (selector_names ++ probed_names param_names (seq 0 bound)))
       chkpt_dict chkpt_dict2 →
     let run2 :=
       load_state_dict_pre_hook map_class_names copy_ model_dict2 model_classes
         chkpt_classes chkpt_dict2 prefix in
     run2.2 = run.2 ∧
     agree_on
       (String.append prefix
          <$> (selector_names ++ probed_names param_names (seq 0 bound)))
       run.1 run2.1).
Proof.
  intros param_names run.
  pose proof (select_param_names_known prefix chkpt_dict) as Hknown.
  fold param_names in Hknown.
  assert (Hframe : ∀ k,
            k ∉ String.append prefix <$> probed_names param_names (seq 0 10) →
            run.1 !! k = chkpt_dict !! k).
  { intros k Hk. subst run. unfold load_state_dict_pre_hook.
    fold param_names.
    destruct (mix_levels copy_ _ _ _ _ _ _ _ _) as [d' r] eqn:Hrun.
    by eapply mix_levels_frame. }
  assert (Hstop : ∀ L, (L < 10)%nat →
            first_name_missing model_dict chkpt_dict prefix param_names L →
            ∀ model2chkpt nc nm,
            mix_levels copy_ model_dict prefix model2chkpt nc nm param_names
              (seq 0 10) chkpt_dict
            = mix_levels copy_ model_dict prefix model2chkpt nc nm param_names
                (seq 0 L) chkpt_dict).
  { intros L HL Hmiss model2chkpt nc nm.
    replace (seq 0 10) with (seq 0 L ++ L :: seq (S L) (9 - L)).
    2: { change (L :: seq (S L) (9 - L)) with (seq L (S (9 - L))).
         rewrite <- seq_app. f_equal. lia. }
    apply mix_levels_truncate; [done|].
    intros name Hname.
    apply list_elem_of_fmap in Hname as (p & -> & Hp).
    apply key_not_probed; [done | done |].
    rewrite elem_of_seq. lia. }
  split; [|split; [|split]].
  - intros k Hk.
    destruct (decide (k ∈ String.append prefix
                          <$> probed_names param_names (seq 0 10)))
      as [Hin | Hout]; [|by apply Hframe in Hout].
    apply list_elem_of_fmap in Hin as (name & -> & Hname).
    apply elem_of_probed_names in Hname as (p & l & Hp & Hl & ->).
    exists p, l. apply elem_of_seq in Hl. split; [done|]. split; [lia|done].
  - intros p l Hp Hl. apply Hframe. apply key_not_probed; [done | done |].
    rewrite elem_of_seq. lia.
  - intros L HL Hmiss p l Hp Hl. subst run.
    unfold load_state_dict_pre_hook. fold param_names.
    rewrite (Hstop L HL Hmiss).
    destruct (mix_levels copy_ _ _ _ _ _ _ _ _) as [d' r] eqn:Hrun. simpl.
    eapply mix_levels_frame; [done|].
    apply key_not_probed; [done | done |]. rewrite elem_of_seq. lia.
  - intros bound model_dict2 chkpt_dict2 Hbound Hmodel Hchkpt run2.
    assert (Hsel : select_param_names prefix chkpt_dict2 = param_names).
    { apply select_param_names_agree. intros k Hk. apply Hchkpt.
      rewrite fmap_app. apply elem_of_app. by left. }
    assert (Hlevels : ∀ model2chkpt nc nm,
              mix_levels copy_ model_dict prefix model2chkpt nc nm param_names
                (seq 0 10) chkpt_dict
              = mix_levels copy_ model_dict prefix model2chkpt nc nm param_names
                  (seq 0 bound) chkpt_dict ∧
              mix_levels copy_ model_dict2 prefix model2chkpt nc nm param_names
                (seq 0 10) chkpt_dict2
              = mix_levels copy_ model_dict2 prefix model2chkpt nc nm param_names
                  (seq 0 bound) chkpt_dict2).
    { intros model2chkpt nc nm.
      destruct Hbound as [-> | (L & HL & -> & Hmiss)]; [done|].
      assert (Hmiss2 : first_name_missing model_dict2 chkpt_dict2 prefix
                param_names L).
      { destruct Hmiss as (p & rest & Hpn & Hmiss).
        exists p, rest. split; [done|].
        assert (Hin : format p (str L)
                      ∈ probed_names param_names (seq 0 (S L))).
        { apply elem_of_probed_names. exists p, L.
          split; [rewrite Hpn; left|]. split; [|done].
          rewrite elem_of_seq. lia. }
        rewrite <- (Hmodel _ Hin), <- (Hchkpt (prefix +:+ format p (str L)));
          [done|].
        rewrite fmap_app. apply elem_of_app. right.
        by apply list_elem_of_fmap_2. }
      assert (Htrunc : ∀ md d : gmap string (list Row),
                first_name_missing md d prefix param_names L →
                mix_levels copy_ md prefix model2chkpt nc nm param_names
                  (seq 0 10) d
                = mix_levels copy_ md prefix model2chkpt nc nm param_names
                    (seq 0 (S L)) d).
      { intros md d Hm.
        replace (seq 0 10) with (seq 0 L ++ L :: seq (S L) (9 - L)).
        2: { change (L :: seq (S L) (9 - L)) with (seq L (S (9 - L))).
             rewrite <- seq_app. f_equal. lia. }
        rewrite seq_S. simpl.
        assert (Hfresh : ∀ name, name ∈ level_names param_names L →
                  prefix +:+ name
                  ∉ String.append prefix
                      <$> probed_names param_names (seq 0 L)).
        { intros name Hname.
          apply list_elem_of_fmap in Hname as (p & -> & Hp).
          apply key_not_probed; [done | done |].
          rewrite elem_of_seq. lia. }
        rewrite (mix_levels_truncate copy_ md prefix model2chkpt nc nm
                   param_names (seq 0 L) L (seq (S L) (9 - L)) d Hm Hfresh).
        by rewrite (mix_levels_truncate copy_ md prefix model2chkpt nc nm
                      param_names (seq 0 L) L [] d Hm Hfresh). }
      split; by apply Htrunc. }
    subst run run2. unfold load_state_dict_pre_hook.
    rewrite Hsel. fold param_names.
    destruct (Hlevels
                (map_class_names (model_classes ++ ["__BG__"])
                   (chkpt_classes ++ ["__BG__"]))
                (length (chkpt_classes ++ ["__BG__"]))
                (length (model_classes ++ ["__BG__"]))) as [-> ->].
    edestruct (mix_levels_agree copy_ model_dict prefix) as [Hr Hd];
      [| exact Hchkpt | split; [symmetry; exact Hr | exact Hd]].
    intros name Hname. split; [by apply Hmodel|].
    rewrite fmap_app. apply elem_of_app. right.
    by apply list_elem_of_fmap_2.
Qed.

End HookLevels.

Section HookSamples.
Import CustomSingleStageDetector TaskAdapt.

Lemma load_state_dict_pre_hook_identity_witness :
  load_state_dict_pre_hook map_class_names Sample.copy_ Sample.model_dict_a
    ["a"] ["a"] Sample.chkpt_dict "" = (Sample.chkpt_dict, Ok ()).
Proof.
  apply (load_state_dict_pre_hook_identity Sample.copy_ Sample.layout
           map_class_names Sample.model_dict_a ["a"] Sample.chkpt_dict "").
  - apply copies_rows_sample.
  - by apply (bool_decide_unpack _); vm_compute.
  - apply map_class_names_ClassMapping.
  - intros model_name chkpt_param model_param Hchkpt Hmodel.
    unfold Sample.chkpt_dict in Hchkpt.
    apply lookup_singleton_Some in Hchkpt as [Hkey <-].
    change ("" +:+ model_name) with model_name in Hkey. subst model_name.
    unfold Sample.model_dict_a in Hmodel.
    rewrite lookup_singleton_eq in Hmodel. injection Hmodel as <-.
    split; [done|]. split; [by exists 2%nat|].
    by intros row row' _ _.
Defined.

Lemma load_state_dict_pre_hook_levels_witness :
  (load_state_dict_pre_hook Sample.mapper Sample.copy_ Sample.model_dict
     ["a"; "b"] ["a"] Sample.chkpt_dict "").1
    !! "bbox_head.cls_convs.10.weight"
  = Sample.chkpt_dict !! "bbox_head.cls_convs.10.weight" ∧
  (load_state_dict_pre_hook Sample.mapper Sample.copy_ Sample.model_dict
     ["a"; "b"] ["a"] Sample.chkpt_dict "").1
    !! "bbox_head.cls_convs.1.bias"
  = Sample.chkpt_dict !! "bbox_head.cls_convs.1.bias".
Proof.
  destruct (load_state_dict_pre_hook_levels Sample.copy_ Sample.mapper
              Sample.model_dict ["a"; "b"] ["a"] Sample.chkpt_dict "")
    as (_ & Hfar & Hstop & _).
  split.
  - apply (Hfar "bbox_head.cls_convs.{}.weight" 10%nat); [|lia].
    vm_compute. left.
  - apply (Hstop 1%nat ltac:(lia)) with
      (pattern := "bbox_head.cls_convs.{}.bias") (level := 1%nat); [| |lia].
    + exists "bbox_head.cls_convs.{}.weight", ["bbox_head.cls_convs.{}.bias"].
      split; [by vm_compute | by left].
    + vm_compute. right. left.
Defined.

End HookSamples.

(** ** The segmentation statistics *)

Section StatisticsFacts.
Import SegIncrVOCDataset TaskAdapt.

Variable map_class_names : list string → list string → list Z.

(** What the callers rely on: the result has one entry per name of the
    first list, its index in the second list or [-1]. In the vocabulary of
    the spec the first list is the destination of the mapping. *)
Hypothesis map_class_names_contract :
  ∀ first second, ClassMapping second first (map_class_names first second).

Lemma elem_of_insert_unique (x y : nat) (sorted : list nat) :
  y ∈ insert_unique x sorted ↔ y = x ∨ y ∈ sorted.
Proof.
  induction sorted as [|z rest IH]; simpl.
  - rewrite list_elem_of_singleton, elem_of_nil. tauto.
  - destruct (decide (x < z)%nat); [by rewrite elem_of_cons|].
    destruct (decide (x = z)) as [->|Hne].
    + rewrite elem_of_cons. tauto.
    + rewrite !elem_of_cons, IH. tauto.
Qed.

Lemma elem_of_unique (gt_map : SegMap) (v : nat) :
  v ∈ unique gt_map ↔ v ∈ concat gt_map.
Proof.
  unfold unique. induction (concat gt_map) as [|x rest IH]; simpl; [done|].
  rewrite elem_of_insert_unique, elem_of_cons, IH. done.
Qed.

Lemma label_schema_Ok (classes : list string) (gt : list nat) :
  (∀ i, i ∈ gt → (i < length classes)%nat) →
  ∃ schema, label_schema classes gt = Ok schema ∧
    ∀ name, name ∈ schema ↔ ∃ i, i ∈ gt ∧ classes !! i = Some name.
Proof.
  induction gt as [|i rest IH]; intros Hvalid; simpl.
  - exists []. split; [done|]. intros name. split.
    + intros Hin. by apply elem_of_nil in Hin.
    + intros (i & Hi & _). by apply elem_of_nil in Hi.
  - destruct (lookup_lt_is_Some_2 classes i) as [name0 Hname0];
      [apply Hvalid; left|].
    rewrite (py_getitem_nonneg classes (Z.of_nat i) name0)
      by (lia || by rewrite Nat2Z.id).
    destruct IH as (schema & -> & Hschema);
      [intros j Hj; apply Hvalid; by right|].
    simpl. exists (name0 :: schema). split; [done|]. intros name.
    rewrite elem_of_cons, Hschema. split.
    + intros [-> | (j & Hj & Hname)]; [exists i | exists j];
        (split; [|done]); [left | by right].
    + intros (j & Hj & Hname). apply elem_of_cons in Hj as [-> | Hj].
      * left. congruence.
      * right. eauto.
Qed.

(** The values read for the new classes: one per new class, [-1] exactly
    for those without a pixel. *)
Lemma new_class_values_Ok (classes schema new_classes : list string)
    (model2data new_class_indices : list Z) :
  ClassMapping schema classes model2data →
  Forall2 (λ name idx, 0 ≤ idx ∧ classes !! Z.to_nat idx = Some name)
    new_classes new_class_indices →
  ∃ values, new_class_values model2data new_class_indices = Ok values ∧
    (Exists (λ value, value ≠ -1) values ↔
     ∃ name, name ∈ new_classes ∧ name ∈ schema).
Proof.
  intros [Hlen Hmap] Hindices.
  induction Hindices as [|name idx names indices [Hidx Hname] _ IH]; simpl.
  - exists []. split; [done|]. rewrite Exists_nil. split; [done|].
    intros (name & Hin & _). by apply elem_of_nil in Hin.
  - destruct (Hmap _ _ Hname) as (v & Hv & Habsent & _).
    rewrite (py_getitem_nonneg model2data idx v) by done.
    destruct IH as (values & -> & Hvalues). simpl.
    exists (v :: values). split; [done|].
    rewrite Exists_cons, Hvalues. split.
    + intros [Hne | (name' & Hin & Hschema)].
      * exists name. split; [left|].
        destruct (decide (name ∈ schema)) as [|Hout]; [done|].
        by apply Habsent in Hout.
      * exists name'. split; [by right | done].
    + intros (name' & Hin & Hschema).
      apply elem_of_cons in Hin as [-> | Hin].
      * left. intros Hv1. by apply Habsent in Hv1.
      * right. eauto.
Qed.

(** The indices of the new classes, when each new class is a class. *)
Lemma new_class_indices_spec (classes new_classes : list string) :
  new_classes ⊆ classes →
  Forall2 (λ name idx, 0 ≤ idx ∧ classes !! Z.to_nat idx = Some name)
    new_classes (map_class_names new_classes classes).
Proof.
  intros Hsub.
  destruct (map_class_names_contract new_classes classes) as [Hlen Hmap].
  apply Forall2_same_length_lookup. split; [done|].
  intros i name idx Hname Hidx.
  destruct (Hmap i name Hname) as (v & Hv & Habsent & Hpresent).
  assert (v = idx) as -> by congruence.
  apply Hpresent. intros ->.
  apply Habsent; [done|]. apply Hsub. by eapply list_elem_of_lookup_2.
Qed.

Lemma has_new_class_spec (classes new_classes : list string)
    (gt_map : SegMap) :
  new_classes ⊆ classes → labelled classes gt_map →
  ∃ b : bool,
    has_new_class map_class_names classes
      (map_class_names new_classes classes) gt_map = Ok b ∧
    (b = true ↔ has_new_pixel classes new_classes gt_map).
Proof.
  intros Hsub Hlabelled. unfold has_new_class.
  destruct (label_schema_Ok classes (unique (normalize gt_map)))
    as (schema & -> & Hschema).
  { intros i Hi. apply Hlabelled. by apply elem_of_unique. }
  simpl.
  destruct (new_class_values_Ok classes schema new_classes
              (map_class_names classes schema)
              (map_class_names new_classes classes))
    as (values & -> & Hvalues).
  { apply map_class_names_contract. }
  { by apply new_class_indices_spec. }
  simpl. eexists. split; [done|].
  rewrite bool_decide_eq_true, Hvalues. unfold has_new_pixel. split.
  - intros (name & Hnew & Hin). apply Hschema in Hin as (v & Hv & Hname).
    exists v, name. by rewrite <- elem_of_unique.
  - intros (v & name & Hv & Hname & Hnew). exists name. split; [done|].
    apply Hschema. exists v. by rewrite elem_of_unique.
Qed.

(** The loop, from sample [idx] on. *)
Lemma statistics_loop_spec (classes new_classes : list string) :
  new_classes ⊆ classes →
  ∀ (gt_seg_maps : list SegMap) (idx : nat) (img_indices : ImgIndices),
  Forall (labelled classes) gt_seg_maps →
  ∃ img_indices',
    statistics_loop map_class_names classes
      (map_class_names new_classes classes) idx gt_seg_maps img_indices
    = (img_indices', Ok ()) ∧
    (∃ added,
       new img_indices' = new img_indices ++ added ∧ NoDup added ∧
       ∀ i, i ∈ added ↔
         ∃ j gt_map, i = (idx + j)%nat ∧ gt_seg_maps !! j = Some gt_map ∧
                     has_new_pixel classes new_classes gt_map) ∧
    (∃ added,
       old img_indices' = old img_indices ++ added ∧ NoDup added ∧
       ∀ i, i ∈ added ↔
         ∃ j gt_map, i = (idx + j)%nat ∧ gt_seg_maps !! j = Some gt_map ∧
                     ¬ has_new_pixel classes new_classes gt_map).
Proof.
  intros Hsub gt_seg_maps.
  induction gt_seg_maps as [|gt_map rest IH];
    intros idx img_indices Hvalid; simpl.
  - exists img_indices. split; [done|].
    split; exists []; rewrite app_nil_r; (split; [done|]);
      (split; [constructor|]); intros i; (split; [intros Hi|]).
    1,3: by apply elem_of_nil in Hi.
    all: by intros (j & m & _ & Hj & _).
  - apply Forall_cons in Hvalid as [Hmap Hvalid].
    destruct (has_new_class_spec classes new_classes gt_map Hsub Hmap)
      as (b & -> & Hb).
    assert (Hshift : ∀ (P : SegMap → Prop) (added : list nat),
      (∀ i, i ∈ added ↔
         ∃ j m, i = (S idx + j)%nat ∧ rest !! j = Some m ∧ P m) →
      (∀ i, i ∈ added → (idx < i)%nat) ∧
      (∀ i, i ∈ added ↔
         ∃ j m, i = (idx + S j)%nat ∧ rest !! j = Some m ∧ P m)).
    { intros P added Hadded. split.
      - intros i Hi. apply Hadded in Hi as (j & m & -> & _). lia.
      - intros i. rewrite Hadded. split; intros (j & m & -> & ?);
          exists j, m; (split; [lia | done]). }
    destruct b.
    + destruct (IH (S idx) {| old := old img_indices;
                              new := new img_indices ++ [idx] |} Hvalid)
        as (img_indices' & -> & (added_new & Hnew & Hnodup_new & Hin_new)
            & (added_old & Hold & Hnodup_old & Hin_old)).
      simpl in Hnew, Hold. exists img_indices'. split; [done|].
      destruct (Hshift _ _ Hin_new) as [Hgt_new Hin_new'].
      destruct (Hshift _ _ Hin_old) as [Hgt_old Hin_old'].
      split.
      * exists (idx :: added_new). rewrite Hnew, <- app_assoc.
        split; [done|]. split.
        { apply NoDup_cons. split; [|done]. intros Hi.
          apply Hgt_new in Hi. lia. }
        intros i. rewrite elem_of_cons, Hin_new'. split.
        -- intros [-> | (j & m & -> & Hj & Hm)].
           ++ exists 0%nat, gt_map. split; [lia|]. split; [done|].
              by apply Hb.
           ++ exists (S j), m. done.
        -- intros ([|j] & m & -> & Hj & Hm); [left; lia | right].
           exists j, m. done.
      * exists added_old. split; [done|]. split; [done|].
        intros i. rewrite Hin_old'. split.
        -- intros (j & m & -> & Hj & Hm). exists (S j), m. done.
        -- intros ([|j] & m & -> & Hj & Hm).
           ++ simpl in Hj. injection Hj as <-. exfalso. by apply Hm, Hb.
           ++ exists j, m. done.
    + destruct (IH (S idx) {| old := old img_indices ++ [idx];
                              new := new img_indices |} Hvalid)
        as (img_indices' & -> & (added_new & Hnew & Hnodup_new & Hin_new)
            & (added_old & Hold & Hnodup_old & Hin_old)).
      simpl in Hnew, Hold. exists img_indices'. split; [done|].
      destruct (Hshift _ _ Hin_new) as [Hgt_new Hin_new'].
      destruct (Hshift _ _ Hin_old) as [Hgt_old Hin_old'].
      assert (Hno : ¬ has_new_pixel classes new_classes gt_map).
      { intros Hp. apply Hb in Hp. discriminate. }
      split.
      * exists added_new. split; [done|]. split; [done|].
        intros i. rewrite Hin_new'. split.
        -- intros (j & m & -> & Hj & Hm). exists (S j), m. done.
        -- intros ([|j] & m & -> & Hj & Hm).
           ++ simpl in Hj. injection Hj as <-. done.
           ++ exists j, m. done.
      * exists (idx :: added_old). rewrite Hold, <- app_assoc.
        split; [done|]. split.
        { apply NoDup_cons. split; [|done]. intros Hi.
          apply Hgt_old in Hi. lia. }
        intros i. rewrite elem_of_cons, Hin_old'. split.
        -- intros [-> | (j & m & -> & Hj & Hm)].
           ++ exists 0%nat, gt_map. split; [lia|]. done.
           ++ exists (S j), m. done.
        -- intros ([|j] & m & -> & Hj & Hm); [left; lia | right].
           exists j, m. done.
Qed.

(** C6 (amended). When every new class is a class of the dataset (or the
    background) and, after the normalization of 255 to 0, every pixel value
    of every map is the index of a class, [statistics] raises nothing and
    places each sample index in exactly one of the two lists, once: in
    ['new'] when the normalized map has a pixel whose class name is a new
    class, in ['old'] otherwise. *)
Theorem statistics_partition (self_classes self_new_classes : list string)
    (gt_seg_maps : list SegMap) :
  let classes := "background" :: self_classes in
  self_new_classes ⊆ classes →
  Forall (labelled classes) gt_seg_maps →
  ∃ img_indices,
    statistics map_class_names self_classes self_new_classes gt_seg_maps
      {| old := []; new := [] |} = (img_indices, Ok ()) ∧
    NoDup (new img_indices) ∧ NoDup (old img_indices) ∧
    (∀ idx, idx ∈ new img_indices ↔
       ∃ gt_map, gt_seg_maps !! idx = Some gt_map ∧
                 has_new_pixel classes self_new_classes gt_map) ∧
    (∀ idx, idx ∈ old img_indices ↔
       ∃ gt_map, gt_seg_maps !! idx = Some gt_map ∧
                 ¬ has_new_pixel classes self_new_classes gt_map) ∧
    (∀ idx, (idx < length gt_seg_maps)%nat →
       (idx ∈ new img_indices ∧ idx ∉ old img_indices) ∨
       (idx ∈ old img_indices ∧ idx ∉ new img_indices)).
Proof.
  intros classes Hsub Hvalid. unfold statistics. fold classes.
  destruct (statistics_loop_spec classes self_new_classes Hsub gt_seg_maps 0
              {| old := []; new := [] |} Hvalid)
    as (img_indices & Hrun & (added_new & Hnew & Hnodup_new & Hin_new)
        & (added_old & Hold & Hnodup_old & Hin_old)).
  simpl in Hnew, Hold. subst added_new added_old.
  exists img_indices. split; [done|]. split; [done|]. split; [done|].
  assert (Hnew : ∀ idx, idx ∈ new img_indices ↔
            ∃ gt_map, gt_seg_maps !! idx = Some gt_map ∧
                      has_new_pixel classes self_new_classes gt_map).
  { intros idx. rewrite Hin_new. split.
    - intros (j & m & -> & ? & ?). by exists m.
    - intros (m & ? & ?). by exists idx, m. }
  assert (Hold : ∀ idx, idx ∈ old img_indices ↔
            ∃ gt_map, gt_seg_maps !! idx = Some gt_map ∧
                      ¬ has_new_pixel classes self_new_classes gt_map).
  { intros idx. rewrite Hin_old. split.
    - intros (j & m & -> & ? & ?). by exists m.
    - intros (m & ? & ?). by exists idx, m. }
  split; [done|]. split; [done|].
  intros idx Hidx.
  destruct (lookup_lt_is_Some_2 gt_seg_maps idx Hidx) as [gt_map Hmap].
  assert (Hlabelled : labelled classes gt_map).
  { eapply Forall_lookup_1; [exact Hvalid | exact Hmap]. }
  destruct (has_new_class_spec classes self_new_classes gt_map Hsub Hlabelled)
    as ([|] & _ & Hb).
  - left. split; [apply Hnew; exists gt_map; split; [done | by apply Hb]|].
    rewrite Hold. intros (m & Hm & Hno).
    assert (m = gt_map) as -> by congruence. by apply Hno, Hb.
  - right.
    assert (Hno : ¬ has_new_pixel classes self_new_classes gt_map).
    { intros Hp. apply Hb in Hp. discriminate. }
    split; [apply Hold; by exists gt_map|].
    rewrite Hnew. intros (m & Hm & Hp).
    assert (m = gt_map) as -> by congruence. done.
Qed.

End StatisticsFacts.

Section StatisticsSamples.
Import SegIncrVOCDataset TaskAdapt.

Lemma mapper_contract (first second : list string) :
  ClassMapping second first (Sample.mapper first second).
Proof. apply map_class_names_ClassMapping. Qed.

Lemma statistics_partition_witness :
  ∃ img_indices,
    statistics Sample.mapper ["cat"] ["cat"] Sample.gt_seg_maps
      Sample.no_indices = (img_indices, Ok ()) ∧
    (0%nat ∈ new img_indices ∧ 0%nat ∉ old img_indices ∨
     0%nat ∈ old img_indices ∧ 0%nat ∉ new img_indices).
Proof.
  destruct (statistics_partition Sample.mapper mapper_contract ["cat"] ["cat"]
              Sample.gt_seg_maps)
    as (img_indices & Hrun & _ & _ & _ & _ & Hpart).
  - intros name Hname. by right.
  - apply Forall_singleton. intros v Hv.
    apply list_elem_of_singleton in Hv. subst v. simpl. lia.
  - exists img_indices. split; [exact Hrun|]. apply Hpart. simpl. lia.
Defined.

(** C6 as stated does not hold. A pixel value that is not the index of a
    class makes [classes[i]] raise: the sample is placed in neither list.
    And a new class that is not a class of the dataset has the index [-1],
    for which [model2data[-1]] reads the entry of the last class: a sample
    with a pixel of that last class is placed in ['new'] although none of
    its pixels is of a new class. *)
Lemma statistics_counterexample :
  statistics Sample.mapper ["cat"] ["cat"] Sample.gt_seg_maps_7
    Sample.no_indices = (Sample.no_indices, Raise IndexError) ∧
  statistics Sample.mapper ["cat"] ["zebra"] Sample.gt_seg_maps
    Sample.no_indices = ({| old := []; new := [0%nat] |}, Ok ()) ∧
  ¬ has_new_pixel ["background"; "cat"] ["zebra"] [ [1%nat] ].
Proof.
  split; [by vm_compute|]. split; [by vm_compute|].
  intros (v & name & Hv & Hname & Hnew).
  apply list_elem_of_singleton in Hnew. subst name.
  simpl in Hv. apply list_elem_of_singleton in Hv. subst v. discriminate.
Qed.

End StatisticsSamples.

(** ** The delta of new classes and the incremental sampler *)

Section SetDiff.
Import Numpy.

Lemma elem_of_insert_unique_str (x y : string) (sorted : list string) :
  y ∈ insert_unique x sorted ↔ y = x ∨ y ∈ sorted.
Proof.
  induction sorted as [|z rest IH]; simpl.
  - rewrite list_elem_of_singleton, elem_of_nil. tauto.
  - destruct (String.ltb x z); [by rewrite elem_of_cons|].
    destruct (String.eqb_spec x z) as [->|Hne].
    + rewrite elem_of_cons. tauto.
    + rewrite !elem_of_cons, IH. tauto.
Qed.

Lemma elem_of_unique_str (ar : list string) (x : string) :
  x ∈ unique ar ↔ x ∈ ar.
Proof.
  unfold unique. induction ar as [|y rest IH]; simpl; [done|].
  by rewrite elem_of_insert_unique_str, elem_of_cons, IH.
Qed.

(** The delta holds the values of the first list that are not in the
    second. *)
Lemma elem_of_setdiff1d (ar1 ar2 : list string) (x : string) :
  x ∈ setdiff1d ar1 ar2 ↔ x ∈ ar1 ∧ x ∉ ar2.
Proof.
  unfold setdiff1d. rewrite elem_of_unique_str, list_elem_of_filter. tauto.
Qed.

(** The delta is in ascending order, not in the order of the first list. *)
Example setdiff1d_sorts : setdiff1d ["b"; "a"; "b"] ["c"] = ["a"; "b"].
Proof. reflexivity. Qed.

End SetDiff.

Section SamplerFlag.
Import Stage.
Context {CustomHooks : Type}.
Variable update_or_add_custom_hook :
  CustomHooks → TaskAdaptHookCfg → CustomHooks.

Lemma configure_classes_hooks (cfg : @Cfg CustomHooks) (model_meta : ModelMeta)
    (model_classes data_classes : list string) :
  cfg_custom_hooks (configure_classes cfg model_meta model_classes
                      data_classes).1 = cfg_custom_hooks cfg ∧
  cfg_task_adapt (configure_classes cfg model_meta model_classes
                    data_classes).1 = cfg_task_adapt cfg.
Proof.
  unfold configure_classes.
  destruct model_classes, data_classes; simpl;
    match goal with |- context [truthy ?x] => destruct (truthy x) end; done.
Qed.

Lemma configure_refine_classes (cfg cfg' : @Cfg CustomHooks)
    (model_meta : ModelMeta) (adapt_type : string) (locals : Locals)
    (old : list string) :
  configure_refine cfg model_meta adapt_type = Ok (cfg', locals) →
  old_classes locals = Some old →
  cfg' = cfg ∧
  ∃ dst, dst_classes locals = Some dst ∧
         refine_cls (cfg_train cfg) model_meta adapt_type = Ok (dst, old).
Proof.
  unfold configure_refine. intros Hrun Hold.
  destruct (truthy (td_tasks (cfg_train cfg))).
  - destruct (truthy (meta_tasks model_meta)); [|discriminate].
    destruct (refine_tasks _ _ _) as [[mt ot]|e]; [|discriminate].
    simpl in Hrun. injection Hrun as _ <-. discriminate.
  - destruct (td_new_classes (cfg_train cfg)); [|discriminate].
    destruct (truthy (meta_CLASSES model_meta)); [|discriminate].
    destruct (refine_cls _ _ _) as [[dst old']|e]; [|discriminate].
    simpl in Hrun. injection Hrun as <- <-. simpl in Hold.
    injection Hold as ->. eauto.
Qed.

Lemma configure_mpa_hook (cfg cfg' : @Cfg CustomHooks) (locals : Locals)
    (model_classes data_classes : list string) :
  configure_mpa update_or_add_custom_hook cfg locals model_classes
    data_classes = Ok cfg' →
  ∃ old dst,
    old_classes locals = Some old ∧ dst_classes locals = Some dst ∧
    td_new_classes (cfg_train cfg') = Some (Numpy.setdiff1d dst old) ∧
    cfg_custom_hooks cfg'
    = update_or_add_custom_hook (cfg_custom_hooks cfg)
        {| hook_type := "TaskAdaptHook";
           hook_src_classes := old;
           hook_dst_classes := dst;
           hook_model_type := cfg_model_type cfg;
           hook_sampler_flag := bool_decide (0 < len (Numpy.setdiff1d dst old));
           hook_efficient_mode :=
             default false (ta_efficient_mode (cfg_task_adapt cfg)) |}.
Proof.
  unfold configure_mpa. intros Hrun.
  destruct (decide (td_type (cfg_train cfg) ∈ CLASS_INC_DATASET));
    [|discriminate].
  destruct (old_classes locals) as [old|]; [|discriminate].
  destruct (dst_classes locals) as [dst|]; [|discriminate].
  simpl in Hrun. injection Hrun as <-. exists old, dst.
  repeat split. by destruct (decide (cfg_model_type cfg ∈ _)).
Qed.

Lemma configure_pseudo_label_keeps (cfg cfg' : @Cfg CustomHooks)
    (locals : Locals) (pre_stage_res : option string) :
  configure_pseudo_label cfg locals pre_stage_res = Ok cfg' →
  cfg_custom_hooks cfg' = cfg_custom_hooks cfg ∧
  td_new_classes (cfg_train cfg') = td_new_classes (cfg_train cfg).
Proof.
  unfold configure_pseudo_label. intros Hrun.
  destruct pre_stage_res as [[|c rest]|]; try by injection Hrun as <-.
  destruct (decide (td_type (cfg_train cfg) ∈ _)); [|discriminate].
  simpl in Hrun.
  destruct (truthy (td_tasks (cfg_train cfg))).
  - destruct (old_tasks locals); [|discriminate].
    by injection Hrun as <-.
  - destruct (truthy (td_CLASSES (cfg_train cfg)));
      [|by injection Hrun as <-].
    destruct (dst_classes locals); [|discriminate].
    destruct (old_classes locals); [|discriminate].
    by injection Hrun as <-.
Qed.

End SamplerFlag.

Section SamplerDisabled.
Import Stage.
Context {CustomHooks Dataset CollateFn WorkerInitFn Sampler : Type}.
Variable update_or_add_custom_hook :
  CustomHooks → TaskAdaptHookCfg → CustomHooks.
Variable wrapped : Dataset → option Dataset.
Variable ClsIncrSampler : Dataset → Z → bool → Sampler.

Lemma before_epoch_without_sampler
    (self : TaskAdaptHook.Hook)
    (runner : @TaskAdaptHook.Runner Dataset CollateFn WorkerInitFn Sampler) :
  TaskAdaptHook.sampler_flag self = false →
  TaskAdaptHook.before_epoch wrapped ClsIncrSampler self runner = (runner, []).
Proof. intros Hflag. unfold TaskAdaptHook.before_epoch. by rewrite Hflag. Qed.

(** C8. In the training phase of the type ["mpa"], [configure_task] sets
    the train configuration's [new_classes] to the delta of the refined
    destination classes over the old ones (the values of the former that
    are not among the latter) and configures the TaskAdaptHook with a
    sampler flag that is false when the delta is empty. A hook built with a
    false sampler flag leaves the runner, and so its data loader, as it is
    in [before_epoch], and constructs no sampler. *)
Theorem sampler_disabled_without_new_classes
    (cfg cfg' : @Cfg CustomHooks) (model_meta meta' : ModelMeta)
    (model_classes data_classes : list string)
    (pre_stage_res : option string)
    (ret : option TaskSet * option (list string)) :
  ta_type (cfg_task_adapt cfg) = Some "mpa" →
  configure_task update_or_add_custom_hook cfg true model_meta model_classes
    data_classes pre_stage_res = Ok (cfg', meta', ret) →
  ∃ (dst old : list string) (hook : TaskAdaptHookCfg),
    refine_cls
      (cfg_train (configure_classes cfg model_meta model_classes
                    data_classes).1)
      (configure_classes cfg model_meta model_classes data_classes).2
      (default "REPLACE" (ta_op (cfg_task_adapt cfg))) = Ok (dst, old) ∧
    td_new_classes (cfg_train cfg') = Some (Numpy.setdiff1d dst old) ∧
    (∀ cls, cls ∈ Numpy.setdiff1d dst old ↔ cls ∈ dst ∧ cls ∉ old) ∧
    cfg_custom_hooks cfg'
    = update_or_add_custom_hook (cfg_custom_hooks cfg) hook ∧
    hook_type hook = "TaskAdaptHook" ∧
    hook_src_classes hook = old ∧ hook_dst_classes hook = dst ∧
    (Numpy.setdiff1d dst old = [] →
     hook_sampler_flag hook = false ∧
     ∀ runner : @TaskAdaptHook.Runner Dataset CollateFn WorkerInitFn Sampler,
       TaskAdaptHook.before_epoch wrapped ClsIncrSampler
         (TaskAdaptHook.build hook) runner = (runner, [])) ∧
    (∀ (self : TaskAdaptHook.Hook)
       (runner : @TaskAdaptHook.Runner Dataset CollateFn WorkerInitFn Sampler),
       TaskAdaptHook.sampler_flag self = false →
       TaskAdaptHook.before_epoch wrapped ClsIncrSampler self runner
       = (runner, [])).
Proof.
  intros Htype Hrun. unfold configure_task in Hrun.
  pose proof (configure_classes_hooks cfg model_meta model_classes
                data_classes) as [Hhooks1 Hadapt1].
  destruct (configure_classes cfg model_meta model_classes data_classes)
    as [cfg1 meta1]. simpl in Hhooks1, Hadapt1. simpl.
  rewrite Htype in Hrun. simpl in Hrun.
  destruct (configure_refine cfg1 meta1 _) as [[cfg2 locals]|e] eqn:Hrefine;
    [|discriminate].
  simpl in Hrun.
  destruct (configure_mpa _ cfg2 locals _ _) as [cfg3|e] eqn:Hmpa;
    [|discriminate].
  simpl in Hrun.
  destruct (configure_pseudo_label cfg3 locals pre_stage_res) as [cfg4|e]
    eqn:Hpseudo; [|discriminate].
  simpl in Hrun. injection Hrun as <- <- <-.
  apply configure_mpa_hook in Hmpa
    as (old & dst & Hold & Hdst & Hdelta & Hhook).
  destruct (configure_refine_classes _ _ _ _ _ _ Hrefine Hold)
    as (-> & dst' & Hdst' & Hcls).
  assert (dst' = dst) as -> by congruence.
  apply configure_pseudo_label_keeps in Hpseudo as [Hhooks4 Hnew4].
  eexists dst, old, _. split; [exact Hcls|].
  split; [by rewrite Hnew4|].
  split; [apply elem_of_setdiff1d|].
  split; [by rewrite Hhooks4, Hhook, Hhooks1|].
  repeat (split; [reflexivity|]).
  split; [|apply before_epoch_without_sampler].
  intros Hempty.
  assert (Hflag : bool_decide (0 < len (Numpy.setdiff1d dst old)) = false)
    by (by rewrite Hempty).
  split; [exact Hflag|]. intros runner.
  apply before_epoch_without_sampler. exact Hflag.
Qed.

End SamplerDisabled.

Section SamplerDisabledSample.
Import Stage.

Lemma sampler_disabled_without_new_classes_witness :
  ∃ cfg' meta' ret hook,
    configure_task Sample.add_hook
      (Sample.cfg "MERGE" (Sample.train_cfg None None)) true
      (Sample.meta None None) ["a"; "b"] ["a"] None = Ok (cfg', meta', ret) ∧
    cfg_custom_hooks cfg' = [hook] ∧ hook_sampler_flag hook = false.
Proof.
  destruct (configure_task Sample.add_hook
              (Sample.cfg "MERGE" (Sample.train_cfg None None)) true
              (Sample.meta None None) ["a"; "b"] ["a"] None)
    as [[[cfg' meta'] ret]|e] eqn:Hrun; [|by vm_compute in Hrun].
  destruct (sampler_disabled_without_new_classes (Dataset := unit)
              (CollateFn := unit) (WorkerInitFn := unit) (Sampler := unit)
              Sample.add_hook (λ _, None) (λ _ _ _, ())
              (Sample.cfg "MERGE" (Sample.train_cfg None None)) cfg'
              (Sample.meta None None) meta' ["a"; "b"] ["a"] None ret
              eq_refl Hrun)
    as (dst & old & hook & Hcls & _ & _ & Hhooks & _ & _ & _ & Hempty & _).
  vm_compute in Hcls. injection Hcls as <- <-.
  exists cfg', meta', ret, hook. split; [done|]. split; [exact Hhooks|].
  by apply Hempty.
Defined.

End SamplerDisabledSample.

(** ** The refiners on the store *)

Section StoreLogic.
Import Store.
Implicit Types (h : gmap nat obj).

Lemma triple_ret {A : Type} (P : gmap nat obj → Prop) (a : A)
    (Q : A → gmap nat obj → Prop) E :
  (∀ h, P h → Q a h) → triple P (mret a) Q E.
Proof. intros HQ h HP. by apply HQ. Qed.

Lemma triple_bind {A B : Type} (P : gmap nat obj → Prop) (m : M A)
    (k : A → M B) (Q' : A → gmap nat obj → Prop)
    (Q : B → gmap nat obj → Prop) E :
  triple P m Q' E → (∀ a, triple (Q' a) (k a) Q E) →
  triple P (m ≫= k) Q E.
Proof.
  intros Hm Hk h HP. specialize (Hm h HP).
  unfold mbind, M_bind. destruct (m h) as [h' [a|e]]; [|done].
  by apply Hk.
Qed.

Lemma triple_raise {A : Type} (P : gmap nat obj → Prop) (e : exc)
    (Q : A → gmap nat obj → Prop) (E : gmap nat obj → Prop) :
  (∀ h, P h → E h) → triple P (raise e) Q E.
Proof. intros HE h HP. by apply HE. Qed.

Lemma triple_alloc (P : gmap nat obj → Prop) (o : obj)
    (Q : nat → gmap nat obj → Prop) E :
  (∀ h l, P h → l ∉ dom h → Q l (<[l := o]> h)) → triple P (alloc o) Q E.
Proof. intros HQ h HP. apply HQ; [done|]. apply is_fresh. Qed.

Lemma triple_write (P : gmap nat obj → Prop) (l : nat) (o : obj)
    (Q : () → gmap nat obj → Prop) E :
  (∀ h, P h → Q () (<[l := o]> h)) → triple P (write l o) Q E.
Proof. intros HQ h HP. by apply HQ. Qed.

Lemma triple_read_list (P : gmap nat obj → Prop) (l : nat)
    (Q : list string → gmap nat obj → Prop) (E : gmap nat obj → Prop) :
  (∀ h items, P h → h !! l = Some (OList items) → Q items h) →
  (∀ h, P h → E h) → triple P (read_list l) Q E.
Proof.
  intros HQ HE h HP. unfold read_list.
  destruct (h !! l) as [[items|entries]|] eqn:Hl; auto.
Qed.

Lemma triple_read_dict (P : gmap nat obj → Prop) (l : nat)
    (Q : list (string * nat) → gmap nat obj → Prop)
    (E : gmap nat obj → Prop) :
  (∀ h entries, P h → h !! l = Some (ODict entries) → Q entries h) →
  (∀ h, P h → E h) → triple P (read_dict l) Q E.
Proof.
  intros HQ HE h HP. unfold read_dict.
  destruct (h !! l) as [[items|entries]|] eqn:Hl; auto.
Qed.

Lemma triple_getitem (P : gmap nat obj → Prop) (d : nat) (key : string)
    (Q : nat → gmap nat obj → Prop) (E : gmap nat obj → Prop) :
  (∀ h entries l, P h → h !! d = Some (ODict entries) →
                  Dict.get entries key = Some l → Q l h) →
  (∀ h, P h → E h) → triple P (getitem d key) Q E.
Proof.
  intros HQ HE. unfold getitem.
  apply triple_bind with (Q' := λ entries h,
    P h ∧ h !! d = Some (ODict entries)).
  - apply triple_read_dict; auto.
  - intros entries. destruct (Dict.get entries key) as [l|] eqn:Hget.
    + apply triple_ret. intros h [HP Hd]. by eapply HQ.
    + apply triple_raise. intros h [HP _]. by apply HE.
Qed.

(** A new cell, or a write to a cell that the base store does not have,
    keeps the base store. *)
Lemma extend_insert h0 h (l : nat) (o : obj) :
  h0 ⊆ h → l ∉ dom h0 → h0 ⊆ <[l := o]> h.
Proof.
  intros Hsub Hl. apply insert_subseteq_r; [|done].
  by apply not_elem_of_dom.
Qed.

Lemma fresh_base h0 h (l : nat) : h0 ⊆ h → l ∉ dom h → l ∉ dom h0.
Proof. intros Hsub Hl Hin. apply Hl. by eapply subseteq_dom. Qed.

Lemma elem_of_memo_get (memo : list (nat * nat)) (l l' : nat) :
  memo_get memo l = Some l' → l' ∈ memo.*2.
Proof.
  induction memo as [|[k v] rest IH]; simpl; [done|].
  case_decide; [intros [= ->]; left | intros Hget; right; by apply IH].
Qed.

Lemma elem_of_dict_set {V : Type} (d : list (string * V)) (key : string)
    (v x : V) :
  x ∈ (Dict.set d key v).*2 → x = v ∨ x ∈ d.*2.
Proof.
  induction d as [|[k y] rest IH]; simpl.
  - intros Hx. apply list_elem_of_singleton in Hx. by left.
  - case_decide; simpl; rewrite !elem_of_cons; [tauto|].
    intros [-> | Hx]; [tauto|]. apply IH in Hx. tauto.
Qed.

(** The copies of the values of a task set are new lists. *)
Lemma deepcopy_entries_triple h0 (entries : list (string * nat)) :
  ∀ memo,
  (∀ l, l ∈ memo.*2 → l ∉ dom h0) →
  triple (λ h, h0 ⊆ h) (deepcopy_entries entries memo)
    (λ es h, h0 ⊆ h ∧ fresh_or h0 [] es) (λ h, h0 ⊆ h).
Proof.
  induction entries as [|[key l] rest IH]; intros memo Hmemo; simpl.
  - apply triple_ret. intros h Hh. split; [done|]. intros l Hl.
    by apply elem_of_nil in Hl.
  - apply triple_bind with (Q' := λ l' h, h0 ⊆ h ∧ l' ∉ dom h0).
    + destruct (memo_get memo l) as [l'|] eqn:Hget.
      * apply triple_ret. intros h Hh. split; [done|].
        by eapply Hmemo, elem_of_memo_get.
      * apply triple_bind with (Q' := λ _ h, h0 ⊆ h).
        -- apply triple_read_list; auto.
        -- intros items. apply triple_alloc. intros h l' Hh Hl'.
           pose proof (fresh_base _ _ _ Hh Hl'). split; [|done].
           by apply extend_insert.
    + intros l'.
      apply triple_bind with
        (Q' := λ es h, (h0 ⊆ h ∧ l' ∉ dom h0) ∧ fresh_or h0 [] es).
      * intros h [Hh Hl'].
        assert (Hmemo' : ∀ x, x ∈ ((l, l') :: memo).*2 → x ∉ dom h0).
        { intros x Hx. simpl in Hx. apply elem_of_cons in Hx as [->|Hx]; auto. }
        specialize (IH _ Hmemo' h Hh).
        destruct (deepcopy_entries rest ((l, l') :: memo) h) as [h' [es|e]].
        -- destruct IH. done.
        -- done.
      * intros es. apply triple_ret. intros h [[Hh Hl'] Hes].
        split; [done|]. intros x Hx. simpl in Hx.
        apply elem_of_cons in Hx as [->|Hx]; [by left | by apply Hes].
Qed.

Lemma deepcopy_triple (h0 : gmap nat obj) (d : nat) :
  triple (λ h, h0 ⊆ h) (deepcopy d)
    (λ y h, h0 ⊆ h ∧ (y ∉ dom h0) ∧
            ∃ es, h !! y = Some (ODict es) ∧ fresh_or h0 [] es)
    (λ h, h0 ⊆ h).
Proof.
  unfold deepcopy.
  apply triple_bind with (Q' := λ _ h, h0 ⊆ h);
    [apply triple_read_dict; auto|].
  intros entries.
  apply triple_bind with (Q' := λ y h, h0 ⊆ h ∧ y ∉ dom h0).
  { apply triple_alloc. intros h y Hh Hy.
    pose proof (fresh_base _ _ _ Hh Hy). split; [|done].
    by apply extend_insert. }
  intros y.
  apply triple_bind with
    (Q' := λ es h, (h0 ⊆ h ∧ y ∉ dom h0) ∧ fresh_or h0 [] es).
  { intros h [Hh Hy].
    pose proof (deepcopy_entries_triple h0 entries []) as Hcopy.
    specialize (Hcopy ltac:(intros l Hl; by apply elem_of_nil in Hl) h Hh).
    destruct (deepcopy_entries entries [] h) as [h' [es|e]]; [|done].
    by destruct Hcopy. }
  intros es.
  apply triple_bind with
    (Q' := λ _ h, h0 ⊆ h ∧ (y ∉ dom h0) ∧ h !! y = Some (ODict es)
                  ∧ fresh_or h0 [] es).
  { apply triple_write. intros h [[Hh Hy] Hes].
    split; [by apply extend_insert|]. split; [done|].
    split; [apply lookup_insert_eq | done]. }
  intros _. apply triple_ret. intros h (Hh & Hy & Hlook & Hes). eauto.
Qed.

(** The merge keeps the base store and puts into the new task set only new
    lists and lists of the new tasks. *)
Lemma merge_task_triple (h0 : gmap nat obj) (allowed : list nat)
    (y cls : nat) (task : string) :
  y ∉ dom h0 → cls ∈ allowed →
  triple
    (λ h, h0 ⊆ h ∧ ∃ es, h !! y = Some (ODict es) ∧ fresh_or h0 allowed es)
    (merge_task task cls y)
    (λ _ h, h0 ⊆ h ∧ ∃ es, h !! y = Some (ODict es) ∧ fresh_or h0 allowed es)
    (λ h, h0 ⊆ h).
Proof.
  intros Hy Hcls. unfold merge_task.
  pose (I := λ (entries : list (string * nat)) (h : gmap nat obj),
      h0 ⊆ h ∧ h !! y = Some (ODict entries)
      ∧ fresh_or h0 allowed entries).
  apply triple_bind with (Q' := I).
  { apply triple_read_dict.
    - intros h entries (Hh & es & Hes & Hfresh) Hlook.
      assert (es = entries) as -> by congruence. done.
    - by intros h [Hh _]. }
  intros entries.
  apply triple_bind with (Q' := λ _, I entries).
  { destruct (Dict.get entries task) as [l|].
    - apply triple_read_list; [done | by intros h [Hh _]].
    - by apply triple_ret. }
  intros [|c0 cs].
  - apply triple_write. intros h (Hh & Hlook & Hfresh).
    split; [by apply extend_insert|]. eexists.
    split; [apply lookup_insert_eq|].
    intros l Hl. apply elem_of_dict_set in Hl as [->|Hl]; [|by apply Hfresh].
    by right.
  - apply triple_bind with (Q' := λ _, I entries).
    { apply triple_read_list; [done | by intros h [Hh _]]. }
    intros new_items.
    apply triple_bind with
      (Q' := λ merged h, I entries h ∧ merged ∉ dom h0).
    { apply triple_alloc. intros h merged (Hh & Hlook & Hfresh) Hmerged.
      pose proof (fresh_base _ _ _ Hh Hmerged).
      split; [|done]. split; [by apply extend_insert|].
      split; [|done]. rewrite lookup_insert_ne; [done|].
      intros ->. apply Hmerged. by eapply elem_of_dom_2. }
    intros merged. apply triple_write.
    intros h [(Hh & Hlook & Hfresh) Hmerged].
    split; [by apply extend_insert|]. eexists.
    split; [apply lookup_insert_eq|].
    intros l Hl. apply elem_of_dict_set in Hl as [->|Hl]; [by left|].
    by apply Hfresh.
Qed.

Lemma merge_tasks_triple (h0 : gmap nat obj) (allowed : list nat) (y : nat) :
  y ∉ dom h0 →
  ∀ items : list (string * nat),
  (∀ l, l ∈ items.*2 → l ∈ allowed) →
  triple
    (λ h, h0 ⊆ h ∧ ∃ es, h !! y = Some (ODict es) ∧ fresh_or h0 allowed es)
    (merge_tasks items y)
    (λ _ h, h0 ⊆ h ∧ ∃ es, h !! y = Some (ODict es) ∧ fresh_or h0 allowed es)
    (λ h, h0 ⊆ h).
Proof.
  intros Hy items.
  induction items as [|[task cls] rest IH]; intros Hitems; simpl.
  - by apply triple_ret.
  - eapply triple_bind.
    + apply merge_task_triple; [done|]. apply Hitems. left.
    + intros []. apply IH. intros l Hl. apply Hitems. by right.
Qed.

(** [refine_cls] keeps every object of the store it is started in. *)
Lemma refine_cls_keeps (h0 : gmap nat obj) (train_cfg meta : nat)
    (adapt_type : string) :
  triple (λ h, h0 ⊆ h) (refine_cls train_cfg meta adapt_type)
    (λ _ h, h0 ⊆ h) (λ h, h0 ⊆ h).
Proof.
  unfold refine_cls.
  apply triple_bind with (Q' := λ _ h, h0 ⊆ h); [by apply triple_getitem|].
  intros new_classes.
  apply triple_bind with (Q' := λ _ h, h0 ⊆ h); [by apply triple_getitem|].
  intros old_classes.
  assert (Halloc : ∀ o, triple (λ h, h0 ⊆ h) (alloc o)
                          (λ _ h, h0 ⊆ h) (λ h, h0 ⊆ h)).
  { intros o. apply triple_alloc. intros h l Hh Hl.
    apply extend_insert; [done|]. by eapply fresh_base. }
  repeat case_decide.
  - apply triple_bind with (Q' := λ _ h, h0 ⊆ h);
      [by apply triple_read_list|].
    intros new_items. case_decide; [by apply triple_raise|].
    apply triple_bind with (Q' := λ _ h, h0 ⊆ h); [apply Halloc|].
    intros dst. by apply triple_ret.
  - apply triple_bind with (Q' := λ _ h, h0 ⊆ h);
      [by apply triple_read_list|].
    intros old_items.
    apply triple_bind with (Q' := λ _ h, h0 ⊆ h);
      [by apply triple_read_list|].
    intros new_items.
    apply triple_bind with (Q' := λ _ h, h0 ⊆ h); [apply Halloc|].
    intros dst. by apply triple_ret.
  - by apply triple_raise.
Qed.

(** [refine_tasks] keeps every object of the store it is started in. With
    [MERGE] it returns the metadata's task set as the old one and a new
    dictionary whose lists are new or lists of the train configuration's
    task set. *)
Lemma refine_tasks_keeps (h0 : gmap nat obj) (train_cfg meta : nat)
    (adapt_type : string) :
  triple (λ h, h = h0) (refine_tasks train_cfg meta adapt_type)
    (λ '(model_tasks, old_tasks) h,
       h0 ⊆ h ∧
       (adapt_type = "MERGE" →
        ∀ cfg_entries new_tasks new_entries meta_entries old_tasks0,
          h0 !! train_cfg = Some (ODict cfg_entries) →
          Dict.get cfg_entries "tasks" = Some new_tasks →
          h0 !! new_tasks = Some (ODict new_entries) →
          h0 !! meta = Some (ODict meta_entries) →
          Dict.get meta_entries "tasks" = Some old_tasks0 →
          old_tasks = old_tasks0 ∧ (model_tasks ∉ dom h0) ∧
          ∃ es, h !! model_tasks = Some (ODict es) ∧
                fresh_or h0 (new_entries.*2) es))
    (λ h, h0 ⊆ h).
Proof.
  unfold refine_tasks.
  apply triple_bind with
    (Q' := λ new_tasks h, h = h0 ∧
       ∃ cfg_entries, h0 !! train_cfg = Some (ODict cfg_entries) ∧
                      Dict.get cfg_entries "tasks" = Some new_tasks).
  { apply triple_getitem; [|by intros h ->].
    intros h entries l -> Hcfg Hget. eauto. }
  intros new_tasks.
  case_decide as Hreplace.
  { apply triple_bind with (Q' := λ _ h, h0 ⊆ h).
    - apply triple_alloc. intros h l [-> _] Hl. by apply extend_insert.
    - intros old_tasks. apply triple_ret. intros h Hh. split; [done|].
      intros ->. discriminate. }
  case_decide as Hmerge; [|by apply triple_raise; intros h [-> _]].
  apply triple_bind with
    (Q' := λ old_tasks h, h = h0 ∧
       (∃ cfg_entries, h0 !! train_cfg = Some (ODict cfg_entries) ∧
                       Dict.get cfg_entries "tasks" = Some new_tasks) ∧
       ∃ meta_entries, h0 !! meta = Some (ODict meta_entries) ∧
                       Dict.get meta_entries "tasks" = Some old_tasks).
  { apply triple_getitem; [|by intros h [-> _]].
    intros h entries l [-> Hcfg] Hmeta Hget. eauto. }
  intros old_tasks.
  apply triple_bind with
    (Q' := λ model_tasks h,
       h0 ⊆ h ∧ (model_tasks ∉ dom h0) ∧
       (∃ es, h !! model_tasks = Some (ODict es) ∧ fresh_or h0 [] es) ∧
       ∀ cfg_entries new_tasks0 meta_entries old_tasks0,
         h0 !! train_cfg = Some (ODict cfg_entries) →
         Dict.get cfg_entries "tasks" = Some new_tasks0 →
         h0 !! meta = Some (ODict meta_entries) →
         Dict.get meta_entries "tasks" = Some old_tasks0 →
         old_tasks = old_tasks0 ∧ new_tasks0 = new_tasks).
  { intros h (-> & (ce & Hce & Hget) & (me & Hme & Hgetm)).
    pose proof (deepcopy_triple h0 old_tasks h0 ltac:(done)) as Hcopy.
    destruct (deepcopy old_tasks h0) as [h' [y|e]]; [|done].
    destruct Hcopy as (Hh & Hy & Hes). repeat (split; [done|]).
    intros ce' nt' me' ot' Hce' Hget' Hme' Hgetm'.
    split; congruence. }
  intros model_tasks.
  apply triple_bind with
    (Q' := λ items h,
       h0 ⊆ h ∧ (model_tasks ∉ dom h0) ∧
       (∃ es, h !! model_tasks = Some (ODict es) ∧ fresh_or h0 (items.*2) es) ∧
       ∀ cfg_entries new_tasks0 new_entries0 meta_entries old_tasks0,
         h0 !! train_cfg = Some (ODict cfg_entries) →
         Dict.get cfg_entries "tasks" = Some new_tasks0 →
         h0 !! new_tasks0 = Some (ODict new_entries0) →
         h0 !! meta = Some (ODict meta_entries) →
         Dict.get meta_entries "tasks" = Some old_tasks0 →
         old_tasks = old_tasks0 ∧ new_entries0 = items).
  { apply triple_read_dict; [|by intros h [Hh _]].
    intros h items (Hh & Hy & (es & Hes & Hfresh) & Hknown) Hitems.
    split; [done|]. split; [done|]. split.
    - exists es. split; [done|]. intros l Hl.
      destruct (Hfresh l Hl) as [?|Hnil]; [by left|].
      by apply elem_of_nil in Hnil.
    - intros ce nt ne me ot Hce Hget Hne Hme Hgetm.
      destruct (Hknown ce nt me ot Hce Hget Hme Hgetm) as [-> ->].
      split; [done|].
      eapply lookup_weaken in Hne; [|exact Hh]. congruence. }
  intros items.
  apply triple_bind with
    (Q' := λ _ h,
       h0 ⊆ h ∧ (model_tasks ∉ dom h0) ∧
       (∃ es, h !! model_tasks = Some (ODict es) ∧ fresh_or h0 (items.*2) es) ∧
       ∀ cfg_entries new_tasks0 new_entries0 meta_entries old_tasks0,
         h0 !! train_cfg = Some (ODict cfg_entries) →
         Dict.get cfg_entries "tasks" = Some new_tasks0 →
         h0 !! new_tasks0 = Some (ODict new_entries0) →
         h0 !! meta = Some (ODict meta_entries) →
         Dict.get meta_entries "tasks" = Some old_tasks0 →
         old_tasks = old_tasks0 ∧ new_entries0 = items).
  { intros h (Hh & Hy & Hes & Hknown).
    pose proof (merge_tasks_triple h0 (items.*2) model_tasks Hy items
                  ltac:(done) h (conj Hh Hes)) as Hmerged.
    destruct (merge_tasks items model_tasks h) as [h' [[]|e]]; [|done].
    destruct Hmerged as [Hh' Hes']. done. }
  intros _. apply triple_ret.
  intros h (Hh & Hy & Hes & Hknown). split; [done|].
  intros _ ce nt ne me ot Hce Hget Hne Hme Hgetm.
  destruct (Hknown ce nt ne me ot Hce Hget Hne Hme Hgetm) as [-> ->].
  done.
Qed.

End StoreLogic.

Section RefineStore.
Import Store.
Implicit Types (h : gmap nat obj).

Lemma read_entry_weaken h h' (entry : string * nat)
    (x : string * list string) :
  h ⊆ h' → read_entry h entry = Some x → read_entry h' entry = Some x.
Proof.
  unfold read_entry. intros Hsub.
  destruct (h !! entry.2) as [o|] eqn:Hentry; [|done].
  by rewrite (lookup_weaken _ _ _ _ Hentry Hsub).
Qed.

Lemma taskset_value_weaken h h' (d : nat) (v : Stage.TaskSet) :
  h ⊆ h' → taskset_value h d = Some v → taskset_value h' d = Some v.
Proof.
  unfold taskset_value. intros Hsub.
  destruct (h !! d) as [o|] eqn:Hd; [|done].
  rewrite (lookup_weaken _ _ _ _ Hd Hsub).
  destruct o as [|entries]; [done|].
  rewrite !mapM_Some. intros Hv. eapply Forall2_impl; [exact Hv|].
  intros entry x. by apply read_entry_weaken.
Qed.

(** A write outside the objects of a task set does not change its value. *)
Lemma taskset_value_insert h (d t : nat) (o : obj) (v : Stage.TaskSet) :
  taskset_value h d = Some v → t ∉ taskset_objects h d →
  taskset_value (<[t := o]> h) d = Some v.
Proof.
  unfold taskset_value, taskset_objects.
  destruct (h !! d) as [[|entries]|] eqn:Hd; try done.
  intros Hv Ht. apply not_elem_of_cons in Ht as [Hne Ht].
  rewrite lookup_insert_ne, Hd by done.
  rewrite mapM_Some in Hv. rewrite mapM_Some.
  clear Hd. induction Hv as [|[k l] x entries v Hx _ IH]; [constructor|].
  simpl in Ht. apply not_elem_of_cons in Ht as [Hl Ht].
  constructor; [|by apply IH].
  unfold read_entry in *. simpl in *. by rewrite lookup_insert_ne.
Qed.

(** The objects of a task set that has a value are in the store. *)
Lemma taskset_objects_dom h (d t : nat) (v : Stage.TaskSet) :
  taskset_value h d = Some v → t ∈ taskset_objects h d → t ∈ dom h.
Proof.
  unfold taskset_value, taskset_objects.
  destruct (h !! d) as [[|entries]|] eqn:Hd; try done.
  intros Hv Ht. apply elem_of_cons in Ht as [-> | Ht];
    [by eapply elem_of_dom_2|].
  rewrite mapM_Some in Hv. clear Hd.
  induction Hv as [|[k l] x entries v Hx _ IH];
    [by apply elem_of_nil in Ht|].
  simpl in Ht. apply elem_of_cons in Ht as [-> | Ht]; [|by apply IH].
  unfold read_entry in Hx. simpl in Hx.
  destruct (h !! l) eqn:Hl; [|done]. by eapply elem_of_dom_2.
Qed.

(** C10 (amended). Neither refiner changes an object of the store it is
    started in, whether it returns or raises: the train configuration, the
    metadata and the lists and task sets they hold are afterwards what they
    were. With [MERGE], [refine_tasks] returns the metadata's task set as
    the old one and a new dictionary; when no class list of the train
    configuration's task set is an object of the metadata's task set, no
    object of the returned task set is one of the metadata's task set, so
    that writing to any of them leaves the value of [meta['tasks']] as it
    was. *)
Theorem refine_keeps_inputs h0 (train_cfg meta : nat) (adapt_type : string) :
  h0 ⊆ (refine_cls train_cfg meta adapt_type h0).1 ∧
  h0 ⊆ (refine_tasks train_cfg meta adapt_type h0).1 ∧
  ∀ cfg_entries new_tasks new_entries meta_entries old_tasks old_value,
    h0 !! train_cfg = Some (ODict cfg_entries) →
    Dict.get cfg_entries "tasks" = Some new_tasks →
    h0 !! new_tasks = Some (ODict new_entries) →
    h0 !! meta = Some (ODict meta_entries) →
    Dict.get meta_entries "tasks" = Some old_tasks →
    taskset_value h0 old_tasks = Some old_value →
    (∀ l, l ∈ new_entries.*2 → l ∉ taskset_objects h0 old_tasks) →
    ∀ h' model_tasks returned,
      refine_tasks train_cfg meta "MERGE" h0
      = (h', Ok (model_tasks, returned)) →
      returned = old_tasks ∧ (model_tasks ∉ dom h0) ∧
      taskset_value h' old_tasks = Some old_value ∧
      ∀ t o, t ∈ taskset_objects h' model_tasks →
             (t ∉ taskset_objects h' old_tasks) ∧
             taskset_value (<[t := o]> h') old_tasks = Some old_value.
Proof.
  split; [|split].
  - pose proof (refine_cls_keeps h0 train_cfg meta adapt_type h0
                  ltac:(done)) as Hkeeps.
    by destruct (refine_cls train_cfg meta adapt_type h0) as [h' [a|e]].
  - pose proof (refine_tasks_keeps h0 train_cfg meta adapt_type h0 eq_refl)
      as Hkeeps.
    destruct (refine_tasks train_cfg meta adapt_type h0)
      as [h' [[mt ot]|e]]; [by destruct Hkeeps | done].
  - intros ce nt ne me ot v Hce Hget Hne Hme Hgetm Hv Hsep h' mt ret Hrun.
    pose proof (refine_tasks_keeps h0 train_cfg meta "MERGE" h0 eq_refl)
      as Hkeeps.
    rewrite Hrun in Hkeeps. destruct Hkeeps as [Hsub Hmerge].
    destruct (Hmerge eq_refl ce nt ne me ot Hce Hget Hne Hme Hgetm)
      as (-> & Hfresh & es & Hes & Hallowed).
    pose proof (taskset_value_weaken _ _ _ _ Hsub Hv) as Hv'.
    assert (Hobjects : taskset_objects h' ot = taskset_objects h0 ot).
    { unfold taskset_objects. unfold taskset_value in Hv.
      destruct (h0 !! ot) as [o|] eqn:Hot; [|done].
      by rewrite (lookup_weaken _ _ _ _ Hot Hsub). }
    repeat (split; [done|]).
    intros t o Ht.
    assert (Hout : t ∉ taskset_objects h' ot).
    { rewrite Hobjects. intros Hin.
      unfold taskset_objects in Ht. rewrite Hes in Ht.
      apply elem_of_cons in Ht as [-> | Ht].
      - apply Hfresh. by eapply taskset_objects_dom.
      - destruct (Hallowed t Ht) as [Hnew | Hold].
        + apply Hnew. by eapply taskset_objects_dom.
        + by apply (Hsep t Hold). }
    split; [done|]. by apply taskset_value_insert.
Qed.

End RefineStore.

Section StoreSamples.
Import Store.

Example refine_tasks_merge_sample :
  ∃ h',
    refine_tasks 0%nat 1%nat "MERGE" Sample.store = (h', Ok (6%nat, 3%nat)) ∧
    taskset_value h' 6%nat = Some [("t", ["a"; "b"; "c"])] ∧
    taskset_value h' 3%nat = Some [("t", ["a"; "b"])] ∧
    taskset_objects h' 6%nat = [6; 8]%nat.
Proof. eexists. split; [by vm_compute|]. by vm_compute. Qed.

Lemma refine_keeps_inputs_witness :
  ∃ h',
    refine_tasks 0%nat 1%nat "MERGE" Sample.store = (h', Ok (6%nat, 3%nat)) ∧
    taskset_value h' 3%nat = Some [("t", ["a"; "b"])] ∧
    taskset_value (<[8%nat := OList ["z"]]> h') 3%nat
    = Some [("t", ["a"; "b"])].
Proof.
  destruct refine_tasks_merge_sample as (h' & Hrun & _ & _ & Hobjects).
  exists h'. split; [exact Hrun|].
  destruct (refine_keeps_inputs Sample.store 0%nat 1%nat "MERGE")
    as (_ & _ & Hmerge).
  destruct (Hmerge [("tasks", 2%nat)] 2%nat [("t", 4%nat)] [("tasks", 3%nat)]
              3%nat [("t", ["a"; "b"])]) with (h' := h')
    (model_tasks := 6%nat) (returned := 3%nat) as (_ & _ & Hvalue & Hwrite);
    try by vm_compute.
  - intros l Hl. simpl in Hl. apply list_elem_of_singleton in Hl. subst l.
    vm_compute. intros Hin.
    repeat (apply elem_of_cons in Hin as [Hin | Hin]; [discriminate|]).
    by apply elem_of_nil in Hin.
  - split; [exact Hvalue|]. apply Hwrite. rewrite Hobjects. right. left.
Defined.

(** C10 as stated does not hold for every train configuration and
    metadata: when the task sets of the two hold one and the same empty
    class list, [model_tasks.update({task: cls})] puts that very list into
    the returned task set, and appending to it through the returned task
    set changes [meta['tasks']]. *)
Lemma refine_tasks_shared_list_counterexample :
  ∃ h',
    refine_tasks 0%nat 1%nat "MERGE" Sample.store_shared
    = (h', Ok (5%nat, 3%nat)) ∧
    4%nat ∈ taskset_objects h' 5%nat ∧
    taskset_value h' 3%nat = Some [("t", [])] ∧
    taskset_value (<[4%nat := OList ["x"]]> h') 3%nat = Some [("t", ["x"])].
Proof.
  eexists. split; [by vm_compute|].
  split; [vm_compute; right; left|]. by vm_compute.
Qed.

End StoreSamples.

(** ** The refiners on the store compute what the refiners on values do *)

Section StoreRefines.
Import Store.
Implicit Types (h : gmap nat obj).

Lemma read_entry_Some h (entry : string * nat) (x : string * list string) :
  read_entry h entry = Some x ↔
  x.1 = entry.1 ∧ h !! entry.2 = Some (OList x.2).
Proof.
  unfold read_entry. destruct entry as [k l], x as [k' items]. simpl.
  destruct (h !! l) as [[items'|]|]; split;
    try (intros [= <- <-]; done); try (intros [_ [=]]; done).
  intros [<- [= <-]]. done.
Qed.

Lemma entries_weaken h h' (es : list (string * nat)) (ts : Stage.TaskSet) :
  h ⊆ h' → Forall2 (λ e x, read_entry h e = Some x) es ts →
  Forall2 (λ e x, read_entry h' e = Some x) es ts.
Proof.
  intros Hsub Hes. eapply Forall2_impl; [exact Hes|].
  intros e x. by apply read_entry_weaken.
Qed.

(** A write to a dictionary does not change what the list entries hold. *)
Lemma entries_insert_dict h (y : nat) (d o : obj)
    (es : list (string * nat)) (ts : Stage.TaskSet) :
  h !! y = Some d → (∀ items, d ≠ OList items) →
  Forall2 (λ e x, read_entry h e = Some x) es ts →
  Forall2 (λ e x, read_entry (<[y := o]> h) e = Some x) es ts.
Proof.
  intros Hy Hd Hes. eapply Forall2_impl; [exact Hes|].
  intros e x. rewrite !read_entry_Some. intros [Hk Hl]. split; [done|].
  rewrite lookup_insert_ne; [done|]. intros ->.
  rewrite Hy in Hl. injection Hl as ->. by eapply Hd.
Qed.

Lemma dict_get_entries h (es : list (string * nat)) (ts : Stage.TaskSet)
    (key : string) :
  Forall2 (λ e x, read_entry h e = Some x) es ts →
  list_value h (Dict.get es key) (Dict.get ts key).
Proof.
  induction 1 as [|[k l] [k' items] es ts Hx _ IH]; simpl; [done|].
  apply read_entry_Some in Hx as [Hk Hl]. simpl in Hk, Hl. subst k'.
  by case_decide.
Qed.

Lemma dict_set_entries h (es : list (string * nat)) (ts : Stage.TaskSet)
    (key : string) (l : nat) (items : list string) :
  h !! l = Some (OList items) →
  Forall2 (λ e x, read_entry h e = Some x) es ts →
  Forall2 (λ e x, read_entry h e = Some x)
    (Dict.set es key l) (Dict.set ts key items).
Proof.
  intros Hl. induction 1 as [|[k l'] [k' items'] es ts Hx Hrest IH]; simpl.
  - constructor; [|constructor]. by apply read_entry_Some.
  - pose proof Hx as Hx'.
    apply read_entry_Some in Hx' as [Hk _]. simpl in Hk. subst k'.
    case_decide.
    + constructor; [|done]. by apply read_entry_Some.
    + by constructor.
Qed.

Lemma deepcopy_entries_value (h0 : gmap nat obj)
    (entries : list (string * nat)) (ts : Stage.TaskSet) :
  Forall2 (λ e x, read_entry h0 e = Some x) entries ts →
  ∀ memo h,
  h0 ⊆ h →
  (∀ l l', memo_get memo l = Some l' →
     ∃ items, h0 !! l = Some (OList items) ∧ h !! l' = Some (OList items)) →
  ∃ h' es,
    deepcopy_entries entries memo h = (h', Ok es) ∧ h ⊆ h' ∧
    Forall2 (λ e x, read_entry h' e = Some x) es ts.
Proof.
  induction 1 as [|[key l] [key' items] entries ts Hx _ IH];
    intros memo h Hsub Hmemo; simpl.
  - exists h, []. split; [done|]. split; [done | constructor].
  - apply read_entry_Some in Hx as [Hk Hl]. simpl in Hk, Hl. subst key'.
    assert (Hstep : ∃ h1 l',
      (match memo_get memo l with
       | Some l' => mret l'
       | None => items ← read_list l; alloc (OList items)
       end) h = (h1, Ok l') ∧ h ⊆ h1 ∧ h1 !! l' = Some (OList items)).
    { destruct (memo_get memo l) as [l'|] eqn:Hget.
      - destruct (Hmemo l l' Hget) as (items' & Hl' & Hcopy).
        exists h, l'. split; [done|]. split; [done|]. congruence.
      - exists (<[fresh (dom h) := OList items]> h), (fresh (dom h)).
        split; [|split].
        + unfold mbind, M_bind, read_list.
          by rewrite (lookup_weaken _ _ _ _ Hl Hsub).
        + apply insert_subseteq, not_elem_of_dom, is_fresh.
        + apply lookup_insert_eq. }
    destruct Hstep as (h1 & l' & Hrun1 & Hsub1 & Hl').
    destruct (IH ((l, l') :: memo) h1) as (h2 & es & Hrun2 & Hsub2 & Hes).
    { by etrans. }
    { intros x x' Hget. simpl in Hget. case_decide as Hx.
      - injection Hget as <-. subst x. eauto.
      - destruct (Hmemo x x' Hget) as (items' & ? & Hcopy).
        exists items'. split; [done|]. by eapply lookup_weaken. }
    exists h2, ((key, l') :: es). split; [|split].
    + unfold mbind at 1, M_bind at 1. rewrite Hrun1.
      unfold mbind, M_bind. by rewrite Hrun2.
    + by etrans.
    + constructor; [|done]. apply read_entry_Some. split; [done|].
      by eapply lookup_weaken.
Qed.

Lemma deepcopy_value h (d : nat) (ts : Stage.TaskSet) :
  taskset_value h d = Some ts →
  ∃ h' y, deepcopy d h = (h', Ok y) ∧ h ⊆ h' ∧ h !! y = None ∧
          taskset_value h' y = Some ts.
Proof.
  unfold taskset_value. intros Hv.
  destruct (h !! d) as [[|entries]|] eqn:Hd; try done.
  apply mapM_Some in Hv.
  set (y := fresh (dom h)).
  assert (Hy : h !! y = None) by apply not_elem_of_dom, is_fresh.
  destruct (deepcopy_entries_value h entries ts Hv [] (<[y := ODict []]> h))
    as (h2 & es & Hrun & Hsub & Hes).
  { by apply insert_subseteq. }
  { intros l l' Hget. discriminate. }
  exists (<[y := ODict es]> h2), y. split; [|split; [|split; [done|]]].
  - unfold deepcopy, mbind, M_bind, read_dict, alloc. rewrite Hd.
    fold y. by rewrite Hrun.
  - apply insert_subseteq_r; [done|]. etrans; [|exact Hsub].
    by apply insert_subseteq.
  - rewrite lookup_insert_eq. apply mapM_Some.
    eapply entries_insert_dict;
      [eapply lookup_weaken; [|exact Hsub]; apply lookup_insert_eq
      |by intros ? | exact Hes].
Qed.

Lemma merge_task_value (y cls : nat) (task : string)
    (cls_items : list string) h (model_tasks : Stage.TaskSet) :
  h !! cls = Some (OList cls_items) →
  taskset_value h y = Some model_tasks →
  ∃ h',
    merge_task task cls y h = (h', Ok ()) ∧
    taskset_value h' y
    = Some (match Dict.get model_tasks task with
            | Some (c0 :: cs) =>
                Dict.set model_tasks task
                  ((c0 :: cs) ++ filter (λ c, c ∉ c0 :: cs) cls_items)
            | _ => Dict.set model_tasks task cls_items
            end) ∧
    (∀ l o, h !! l = Some o → l ≠ y → h' !! l = Some o).
Proof.
  intros Hcls Hy. unfold taskset_value in Hy.
  destruct (h !! y) as [[|entries]|] eqn:Hdict; try done.
  apply mapM_Some in Hy.
  pose proof (dict_get_entries h entries model_tasks task Hy) as Hget.
  assert (Hplain : ∃ h1,
    write y (ODict (Dict.set entries task cls)) h = (h1, Ok ()) ∧
    taskset_value h1 y = Some (Dict.set model_tasks task cls_items) ∧
    (∀ l o, h !! l = Some o → l ≠ y → h1 !! l = Some o)).
  { eexists. split; [reflexivity|]. split.
    - unfold taskset_value. rewrite lookup_insert_eq. apply mapM_Some.
      eapply entries_insert_dict; [exact Hdict | by intros ?|].
      by apply dict_set_entries.
    - intros l o Hl Hne. by rewrite lookup_insert_ne. }
  destruct Hplain as (h1 & Hrun1 & Hv1 & Hkeep1).
  unfold merge_task, mbind, M_bind, read_dict. rewrite Hdict.
  destruct (Dict.get entries task) as [l|],
    (Dict.get model_tasks task) as [current|]; simpl in Hget; try done.
  2: { exists h1. by simpl. }
  unfold read_list at 1. rewrite Hget.
  destruct current as [|c0 cs]; [exists h1; by simpl|].
  unfold read_list. rewrite Hcls. unfold alloc, write.
  set (m := fresh (dom h)).
  assert (Hm : h !! m = None) by apply not_elem_of_dom, is_fresh.
  assert (Hmy : m ≠ y) by (intros ->; congruence).
  eexists. split; [reflexivity|]. split.
  - unfold taskset_value. rewrite lookup_insert_eq. apply mapM_Some.
    eapply entries_insert_dict.
    + rewrite lookup_insert_ne by done. exact Hdict.
    + by intros ?.
    + apply dict_set_entries; [apply lookup_insert_eq|].
      eapply entries_weaken; [|exact Hy]. by apply insert_subseteq.
  - intros x o Hx Hne. rewrite lookup_insert_ne by done.
    rewrite lookup_insert_ne; [done|]. intros <-. congruence.
Qed.

Lemma merge_tasks_value (y : nat) (items : list (string * nat)) :
  ∀ (new_tasks : Stage.TaskSet) h (model_tasks : Stage.TaskSet),
  Forall2 (λ e x, read_entry h e = Some x) items new_tasks →
  taskset_value h y = Some model_tasks →
  ∃ h',
    merge_tasks items y h = (h', Ok ()) ∧
    taskset_value h' y = Some (Stage.merge_tasks new_tasks model_tasks) ∧
    (∀ l o, h !! l = Some o → l ≠ y → h' !! l = Some o).
Proof.
  induction items as [|[task cls] rest IH];
    intros new_tasks h model_tasks Hitems Hy.
  - apply Forall2_nil_inv_l in Hitems as ->. exists h. by simpl.
  - apply Forall2_cons_inv_l in Hitems
      as ([task' cls_items] & new_rest & Hcls & Hrest & ->).
    apply read_entry_Some in Hcls as [Hk Hcls]. simpl in Hk, Hcls.
    subst task'.
    destruct (merge_task_value y cls task cls_items h model_tasks Hcls Hy)
      as (h1 & Hrun1 & Hv1 & Hkeep1).
    assert (Hdict : ∃ entries, h !! y = Some (ODict entries)).
    { unfold taskset_value in Hy.
      destruct (h !! y) as [[|entries]|]; try done. eauto. }
    destruct Hdict as [entries Hdict].
    assert (Hrest1 : Forall2 (λ e x, read_entry h1 e = Some x) rest new_rest).
    { eapply Forall2_impl; [exact Hrest|].
      intros e x. rewrite !read_entry_Some. intros [? Hl]. split; [done|].
      apply Hkeep1; [done|]. intros Heq. rewrite Heq, Hdict in Hl. done. }
    destruct (IH new_rest h1 _ Hrest1 Hv1) as (h' & Hrun & Hv & Hkeep).
    exists h'. split; [|split].
    + simpl. unfold mbind, M_bind. by rewrite Hrun1.
    + exact Hv.
    + intros l o Hl Hne. apply Hkeep; [|done]. by apply Hkeep1.
Qed.

Lemma getitem_Some h (d : nat) (entries : list (string * nat))
    (key : string) (l : nat) :
  h !! d = Some (ODict entries) → Dict.get entries key = Some l →
  getitem d key h = (h, Ok l).
Proof.
  intros Hd Hget. unfold getitem, mbind, M_bind, read_dict.
  by rewrite Hd, Hget.
Qed.

Lemma getitem_None h (d : nat) (entries : list (string * nat))
    (key : string) :
  h !! d = Some (ODict entries) → Dict.get entries key = None →
  getitem d key h = (h, Raise (KeyError key)).
Proof.
  intros Hd Hget. unfold getitem, mbind, M_bind, read_dict.
  by rewrite Hd, Hget.
Qed.

(** On a store that holds the train configuration [c] and the metadata
    [m], the [refine_cls] of the store returns references to the lists that
    the [refine_cls] on values returns, and raises what it raises. *)
Lemma store_refine_cls h (train_cfg meta : nat) (c : Stage.TrainDataCfg)
    (m : Stage.ModelMeta) (adapt_type : string) :
  train_cfg_value h train_cfg c → meta_value h meta m →
  match Stage.refine_cls c m adapt_type with
  | Ok (dst_classes, old_classes) =>
      ∃ h' dst old,
        refine_cls train_cfg meta adapt_type h = (h', Ok (dst, old)) ∧
        h' !! dst = Some (OList dst_classes) ∧
        h' !! old = Some (OList old_classes)
  | Raise e => refine_cls train_cfg meta adapt_type h = (h, Raise e)
  end.
Proof.
  intros (ce & Hce & Hnew & _) (me & Hme & Hold & _).
  unfold Stage.refine_cls, refine_cls, list_value in *.
  destruct (Dict.get ce "new_classes") as [nl|] eqn:Hgetn,
    (Stage.td_new_classes c) as [new_items|]; try done; simpl.
  2: { unfold mbind, M_bind. by rewrite (getitem_None _ _ _ _ Hce Hgetn). }
  destruct (Dict.get me "CLASSES") as [ol|] eqn:Hgeto,
    (Stage.meta_CLASSES m) as [old_items|]; try done; simpl.
  2: { unfold mbind, M_bind. rewrite (getitem_Some _ _ _ _ _ Hce Hgetn).
       by rewrite (getitem_None _ _ _ _ Hme Hgeto). }
  assert (Hfresh : h !! fresh (dom h) = None)
    by apply not_elem_of_dom, is_fresh.
  assert (Hne : fresh (dom h) ≠ ol) by (intros Heq; congruence).
  unfold mbind, M_bind. rewrite (getitem_Some _ _ _ _ _ Hce Hgetn).
  rewrite (getitem_Some _ _ _ _ _ Hme Hgeto).
  destruct (decide (adapt_type = "REPLACE")) as [->|Hreplace];
    [|destruct (decide (adapt_type = "MERGE")) as [->|Hmerge]].
  - simpl. unfold read_list. rewrite Hnew.
    destruct new_items as [|c0 cs]; simpl; [done|].
    unfold alloc. eexists _, _, _.
    split; [reflexivity|]. split; [apply lookup_insert_eq|].
    by rewrite lookup_insert_ne.
  - simpl. unfold read_list. rewrite Hold, Hnew. unfold alloc.
    eexists _, _, _.
    split; [reflexivity|]. split; [apply lookup_insert_eq|].
    by rewrite lookup_insert_ne.
  - done.
Qed.

(** The same for [refine_tasks], for the values of the returned task
    sets. *)
Lemma store_refine_tasks h (train_cfg meta : nat) (c : Stage.TrainDataCfg)
    (m : Stage.ModelMeta) (adapt_type : string) :
  train_cfg_value h train_cfg c → meta_value h meta m →
  match Stage.refine_tasks c m adapt_type with
  | Ok (model_tasks, old_tasks) =>
      ∃ h' model old,
        refine_tasks train_cfg meta adapt_type h = (h', Ok (model, old)) ∧
        taskset_value h' model = Some model_tasks ∧
        taskset_value h' old = Some old_tasks
  | Raise e => refine_tasks train_cfg meta adapt_type h = (h, Raise e)
  end.
Proof.
  intros (ce & Hce & _ & Hnew) (me & Hme & _ & Hold).
  unfold Stage.refine_tasks, refine_tasks, tasks_value in *.
  destruct (Dict.get ce "tasks") as [nl|] eqn:Hgetn,
    (Stage.td_tasks c) as [new_tasks|]; try done; simpl.
  2: { unfold mbind, M_bind. by rewrite (getitem_None _ _ _ _ Hce Hgetn). }
  assert (Hfresh : h !! fresh (dom h) = None)
    by apply not_elem_of_dom, is_fresh.
  case_decide.
  { unfold mbind, M_bind. rewrite (getitem_Some _ _ _ _ _ Hce Hgetn).
    unfold alloc. eexists _, _, _. split; [reflexivity|]. split.
    - eapply taskset_value_weaken; [|exact Hnew]. by apply insert_subseteq.
    - unfold taskset_value. by rewrite lookup_insert_eq. }
  case_decide.
  2: { unfold mbind, M_bind. by rewrite (getitem_Some _ _ _ _ _ Hce Hgetn). }
  destruct (Dict.get me "tasks") as [ol|] eqn:Hgeto,
    (Stage.meta_tasks m) as [old_tasks|]; try done; simpl.
  2: { unfold mbind, M_bind. rewrite (getitem_Some _ _ _ _ _ Hce Hgetn).
       by rewrite (getitem_None _ _ _ _ Hme Hgeto). }
  destruct (deepcopy_value h ol old_tasks Hold)
    as (h1 & y & Hcopy & Hsub1 & Hy & Hvalue1).
  pose proof (taskset_value_weaken _ _ _ _ Hsub1 Hnew) as Hnew1.
  pose proof (taskset_value_weaken _ _ _ _ Hsub1 Hold) as Hold1.
  assert (Hitems : ∃ items, h1 !! nl = Some (ODict items) ∧
            Forall2 (λ e x, read_entry h1 e = Some x) items new_tasks).
  { unfold taskset_value in Hnew1.
    destruct (h1 !! nl) as [[|items]|]; try done.
    exists items. split; [done|]. by apply mapM_Some. }
  destruct Hitems as (items & Hnl & Hitems).
  destruct (merge_tasks_value y items new_tasks h1 old_tasks Hitems Hvalue1)
    as (h2 & Hmerge & Hvalue2 & Hkeep).
  exists h2, y, ol. split; [|split; [done|]].
  - unfold mbind, M_bind. rewrite (getitem_Some _ _ _ _ _ Hce Hgetn).
    rewrite (getitem_Some _ _ _ _ _ Hme Hgeto). rewrite Hcopy.
    unfold read_dict. rewrite Hnl. by rewrite Hmerge.
  - assert (Hdict : ∃ es, h1 !! y = Some (ODict es)).
    { unfold taskset_value in Hvalue1.
      destruct (h1 !! y) as [[|es]|]; try done. eauto. }
    destruct Hdict as [es Hdict].
    unfold taskset_value in Hold1 |- *.
    destruct (h1 !! ol) as [[|old_entries]|] eqn:Hol; try done.
    assert (ol ≠ y).
    { intros ->. unfold taskset_value in Hold.
      by rewrite Hy in Hold. }
    rewrite (Hkeep _ _ Hol) by done.
    apply mapM_Some. apply mapM_Some in Hold1.
    eapply Forall2_impl; [exact Hold1|].
    intros e x. rewrite !read_entry_Some. intros [? Hl]. split; [done|].
    apply Hkeep; [done|]. intros Heq. rewrite Heq, Hdict in Hl. done.
Qed.

End StoreRefines.

(** ** The task set refiner: what [MERGE] computes *)

Section DictFacts.
Context {V : Type}.
Implicit Types (d : list (string * V)) (key : string) (v : V).

Lemma dict_get_set d key key' v :
  Dict.get (Dict.set d key v) key'
  = if decide (key = key') then Some v else Dict.get d key'.
Proof.
  induction d as [|[k x] rest IH]; simpl.
  - destruct (decide (key = key')); done.
  - destruct (decide (k = key)) as [->|Hk]; simpl.
    + destruct (decide (key = key')); done.
    + destruct (decide (k = key')) as [->|Hk'].
      * by rewrite decide_False by done.
      * done.
Qed.

Lemma dict_get_None d key : Dict.get d key = None ↔ key ∉ d.*1.
Proof.
  induction d as [|[k x] rest IH]; simpl.
  - split; [intros _; apply not_elem_of_nil | done].
  - rewrite not_elem_of_cons. destruct (decide (k = key)) as [->|Hk].
    + split; [done | intros [[] _]; done].
    + rewrite IH. split; [intros ?; split; [congruence | done] | tauto].
Qed.

Lemma dict_get_Some_elem d key v : Dict.get d key = Some v → (key, v) ∈ d.
Proof.
  induction d as [|[k x] rest IH]; simpl; [done|].
  destruct (decide (k = key)) as [->|Hk].
  - intros [= ->]. left.
  - intros Hget. right. by apply IH.
Qed.

Lemma dict_get_elem d key v :
  NoDup d.*1 → (key, v) ∈ d → Dict.get d key = Some v.
Proof.
  induction d as [|[k x] rest IH]; simpl; [by intros _ ?%elem_of_nil|].
  rewrite NoDup_cons. intros [Hk Hnodup] Hin.
  apply elem_of_cons in Hin as [[= -> ->] | Hin].
  - by rewrite decide_True.
  - rewrite decide_False; [by apply IH|]. intros ->. apply Hk.
    apply list_elem_of_fmap. by exists (key, v).
Qed.

Lemma dict_set_same d key v : Dict.get d key = Some v → Dict.set d key v = d.
Proof.
  induction d as [|[k x] rest IH]; simpl; [done|].
  destruct (decide (k = key)) as [->|Hk]; [by intros [= ->]|].
  intros Hget. by rewrite IH.
Qed.

Lemma dict_set_keys d key v :
  (Dict.set d key v).*1 = if decide (key ∈ d.*1) then d.*1 else d.*1 ++ [key].
Proof.
  induction d as [|[k x] rest IH].
  - rewrite decide_False; [done | apply not_elem_of_nil].
  - cbn [Dict.set]. rewrite fmap_cons. cbn [fst].
    destruct (decide (k = key)) as [->|Hk].
    + rewrite fmap_cons. cbn [fst]. rewrite decide_True; [done | left].
    + rewrite fmap_cons, IH. cbn [fst].
      destruct (decide (key ∈ rest.*1)) as [Hin|Hin].
      * rewrite decide_True; [done | by right].
      * rewrite decide_False; [done|]. rewrite not_elem_of_cons. split; done.
Qed.

End DictFacts.

Section FilterFacts.
Context {A : Type}.

Lemma filter_ext_in (P Q : A → Prop) `{!∀ x, Decision (P x)}
    `{!∀ x, Decision (Q x)} (l : list A) :
  (∀ x, x ∈ l → P x ↔ Q x) → filter P l = filter Q l.
Proof.
  induction l as [|x l IH]; intros Hext; [done|].
  rewrite !filter_cons.
  rewrite IH by (intros y Hy; apply Hext; by right).
  destruct (decide (P x)) as [HP|HP], (decide (Q x)) as [HQ|HQ]; try done;
    exfalso; apply (Hext x (list_elem_of_here _ _)) in HP || apply HP;
    try done; by apply (Hext x (list_elem_of_here _ _)).
Qed.

Lemma filter_none (P : A → Prop) `{!∀ x, Decision (P x)} (l : list A) :
  (∀ x, x ∈ l → ¬ P x) → filter P l = [].
Proof.
  induction l as [|x l IH]; intros Hnone; [done|].
  rewrite filter_cons_False by (apply Hnone; left).
  apply IH. intros y Hy. apply Hnone. by right.
Qed.

Lemma filter_all (P : A → Prop) `{!∀ x, Decision (P x)} (l : list A) :
  (∀ x, x ∈ l → P x) → filter P l = l.
Proof.
  induction l as [|x l IH]; intros Hall; [done|].
  rewrite filter_cons_True by (apply Hall; left).
  f_equal. apply IH. intros y Hy. apply Hall. by right.
Qed.

End FilterFacts.

Section MergeTasks.
Import Stage.

(** The class list that [MERGE] leaves for a task: the old classes, then
    the new classes that are not among them. *)
Lemma merge_tasks_get (new_tasks model_tasks : TaskSet) (task : string) :
  NoDup new_tasks.*1 →
  Dict.get (merge_tasks new_tasks model_tasks) task
  = match Dict.get new_tasks task, Dict.get model_tasks task with
    | Some cls, Some old => Some (old ++ filter (λ c, c ∉ old) cls)
    | Some cls, None => Some cls
    | None, old => old
    end.
Proof.
  revert model_tasks.
  induction new_tasks as [|[t cls] rest IH]; intros model_tasks Hnodup;
    [done|].
  rewrite fmap_cons in Hnodup. cbn [fst] in Hnodup.
  apply NoDup_cons in Hnodup as [Ht Hnodup].
  cbn [merge_tasks Dict.get]. rewrite IH by done.
  destruct (decide (t = task)) as [->|Hne].
  - apply dict_get_None in Ht. rewrite Ht.
    destruct (Dict.get model_tasks task) as [[|c0 cs]|];
      rewrite dict_get_set, decide_True by done; [|done..].
    simpl. f_equal. symmetry. apply filter_all. intros x _.
    apply not_elem_of_nil.
  - assert (∀ v, Dict.get (Dict.set model_tasks t v) task
                 = Dict.get model_tasks task) as Hget.
    { intros v. by rewrite dict_get_set, decide_False. }
    destruct (Dict.get model_tasks t) as [[|c0 cs]|]; by rewrite Hget.
Qed.

Lemma merge_tasks_keys (new_tasks model_tasks : TaskSet) :
  NoDup new_tasks.*1 →
  (merge_tasks new_tasks model_tasks).*1
  = model_tasks.*1 ++ filter (λ t, t ∉ model_tasks.*1) new_tasks.*1.
Proof.
  revert model_tasks.
  induction new_tasks as [|[t cls] rest IH]; intros model_tasks Hnodup.
  - simpl. by rewrite app_nil_r.
  - rewrite fmap_cons in Hnodup. cbn [fst] in Hnodup.
  apply NoDup_cons in Hnodup as [Ht Hnodup].
    cbn [merge_tasks]. rewrite IH by done. rewrite fmap_cons. cbn [fst].
    assert (∀ v, (Dict.set model_tasks t v).*1
                 = if decide (t ∈ model_tasks.*1) then model_tasks.*1
                   else model_tasks.*1 ++ [t]) as Hkeys
      by (intros v; apply dict_set_keys).
    assert (∀ v,
      (Dict.set model_tasks t v).*1
        ++ filter (λ t0, t0 ∉ (Dict.set model_tasks t v).*1) rest.*1
      = model_tasks.*1
        ++ filter (λ t0, t0 ∉ model_tasks.*1) (t :: rest.*1)) as Hgoal.
    { intros v. rewrite Hkeys.
      destruct (decide (t ∈ model_tasks.*1)) as [Hin|Hin].
      - rewrite filter_cons_False; [done | by intros []].
      - rewrite filter_cons_True by done. rewrite <- app_assoc. simpl.
        do 2 f_equal. apply filter_ext_in. intros x Hx.
        rewrite elem_of_app, list_elem_of_singleton.
        split; [tauto|]. intros Hnot [?| ->]; done. }
    destruct (Dict.get model_tasks t) as [[|c0 cs]|]; apply Hgoal.
Qed.

End MergeTasks.

Section RefineTasksMerge.
Import Stage.

Lemma merge_tasks_absorb (new_tasks model_tasks : TaskSet) :
  (∀ task cls, (task, cls) ∈ new_tasks →
     ∃ classes, Dict.get model_tasks task = Some classes ∧ cls ⊆ classes) →
  merge_tasks new_tasks model_tasks = model_tasks.
Proof.
  induction new_tasks as [|[t cls] rest IH]; intros Hin; [done|].
  cbn [merge_tasks].
  destruct (Hin t cls) as (classes & Hget & Hsub); [left|].
  rewrite Hget.
  assert (∀ task cls0, (task, cls0) ∈ rest →
            ∃ classes0, Dict.get model_tasks task = Some classes0
                        ∧ cls0 ⊆ classes0) as Hrest.
  { intros task cls0 Hel. apply Hin. by right. }
  destruct classes as [|c0 cs].
  - assert (cls = []) as ->.
    { destruct cls as [|c cls]; [done|].
      by destruct (not_elem_of_nil c (Hsub c (list_elem_of_here _ _))). }
    rewrite dict_set_same by done. by apply IH.
  - rewrite filter_none.
    + rewrite app_nil_r, dict_set_same by done. by apply IH.
    + intros c Hc Hnot. apply Hnot, Hsub, Hc.
Qed.

Lemma refine_tasks_merge_run (train_cfg : TrainDataCfg) (meta : ModelMeta)
    (model_tasks old_tasks : TaskSet) :
  refine_tasks train_cfg meta "MERGE" = Ok (model_tasks, old_tasks) ↔
  ∃ new_tasks, td_tasks train_cfg = Some new_tasks ∧
               meta_tasks meta = Some old_tasks ∧
               model_tasks = merge_tasks new_tasks old_tasks.
Proof.
  unfold refine_tasks.
  destruct (td_tasks train_cfg) as [new_tasks|]; simpl.
  - destruct (meta_tasks meta) as [old|]; simpl.
    + split.
      * intros [= <- <-]. eauto.
      * intros (new & [= <-] & [= <-] & ->). done.
    + split; [done | by intros (? & _ & ? & _)].
  - split; [done | by intros (? & ? & _)].
Qed.

(** X1. With [MERGE], [refine_tasks] returns the metadata's task set as the
    old one and a task set whose tasks are the old tasks, in their order,
    followed by the tasks of the train configuration that the metadata does
    not have, in their order. A task of both holds the old classes followed
    by the new classes that are not among them; a task of one of the two
    holds that one's classes. *)
Theorem refine_tasks_merge (train_cfg : TrainDataCfg) (meta : ModelMeta)
    (new_tasks old_tasks : TaskSet) :
  td_tasks train_cfg = Some new_tasks →
  meta_tasks meta = Some old_tasks →
  NoDup new_tasks.*1 →
  ∃ model_tasks,
    refine_tasks train_cfg meta "MERGE" = Ok (model_tasks, old_tasks) ∧
    model_tasks.*1
    = old_tasks.*1 ++ filter (λ task, task ∉ old_tasks.*1) new_tasks.*1 ∧
    ∀ task,
      Dict.get model_tasks task
      = match Dict.get new_tasks task, Dict.get old_tasks task with
        | Some cls, Some old => Some (old ++ filter (λ c, c ∉ old) cls)
        | Some cls, None => Some cls
        | None, old => old
        end.
Proof.
  intros Hnew Hold Hnodup. exists (merge_tasks new_tasks old_tasks).
  split; [apply refine_tasks_merge_run; eauto|].
  split; [by apply merge_tasks_keys|].
  intros task. by apply merge_tasks_get.
Qed.

Lemma refine_tasks_merge_witness :
  ∃ model_tasks,
    refine_tasks (Sample.train_cfg None (Some [("t", ["b"; "c"]); ("u", ["d"])]))
      (Sample.meta None (Some [("t", ["a"; "b"])])) "MERGE"
    = Ok (model_tasks, [("t", ["a"; "b"])]) ∧
    model_tasks.*1 = ["t"; "u"] ∧
    Dict.get model_tasks "t" = Some ["a"; "b"; "c"] ∧
    Dict.get model_tasks "u" = Some ["d"].
Proof.
  destruct (refine_tasks_merge
              (Sample.train_cfg None (Some [("t", ["b"; "c"]); ("u", ["d"])]))
              (Sample.meta None (Some [("t", ["a"; "b"])]))
              [("t", ["b"; "c"]); ("u", ["d"])] [("t", ["a"; "b"])]
              eq_refl eq_refl)
    as (model_tasks & Hrun & Hkeys & Hget).
  { apply (bool_decide_unpack _). by vm_compute. }
  exists model_tasks. split; [exact Hrun|]. split; [exact Hkeys|].
  split; [exact (Hget "t") | exact (Hget "u")].
Defined.

(** X2. Merging is idempotent: when the task set that [MERGE] returned is
    stored as the metadata's and the same train configuration is merged
    again, the task set comes back as it is. *)
Theorem refine_tasks_merge_idempotent (train_cfg : TrainDataCfg)
    (meta : ModelMeta) (new_tasks model_tasks old_tasks : TaskSet) :
  td_tasks train_cfg = Some new_tasks →
  NoDup new_tasks.*1 →
  refine_tasks train_cfg meta "MERGE" = Ok (model_tasks, old_tasks) →
  refine_tasks train_cfg
    {| meta_CLASSES := meta_CLASSES meta; meta_tasks := Some model_tasks |}
    "MERGE"
  = Ok (model_tasks, model_tasks).
Proof.
  intros Hnew Hnodup Hrun.
  apply refine_tasks_merge_run in Hrun as (new & Hnew' & Hold & ->).
  assert (new = new_tasks) as -> by congruence.
  apply refine_tasks_merge_run. exists new_tasks.
  split; [done|]. split; [done|]. symmetry. apply merge_tasks_absorb.
  intros task cls Hin. apply dict_get_elem in Hin; [|done].
  rewrite merge_tasks_get, Hin by done.
  destruct (Dict.get old_tasks task) as [old|].
  - eexists. split; [done|]. intros c Hc.
    destruct (decide (c ∈ old)) as [Hold'|Hold'].
    + apply elem_of_app. by left.
    + apply elem_of_app. right. by apply list_elem_of_filter.
  - by exists cls.
Qed.

Lemma refine_tasks_merge_idempotent_witness :
  refine_tasks (Sample.train_cfg None (Some [("t", ["b"; "c"]); ("u", [])]))
    (Sample.meta None (Some [("t", ["a"; "b"; "c"]); ("u", [])])) "MERGE"
  = Ok ([("t", ["a"; "b"; "c"]); ("u", [])],
        [("t", ["a"; "b"; "c"]); ("u", [])]).
Proof.
  apply (refine_tasks_merge_idempotent
           (Sample.train_cfg None (Some [("t", ["b"; "c"]); ("u", [])]))
           (Sample.meta None (Some [("t", ["a"; "b"])]))
           [("t", ["b"; "c"]); ("u", [])]
           [("t", ["a"; "b"; "c"]); ("u", [])] [("t", ["a"; "b"])]).
  - reflexivity.
  - apply (bool_decide_unpack _). by vm_compute.
  - reflexivity.
Defined.

(** X3. With [MERGE], the classes of a task of the returned task set are
    those of the task in the metadata together with those of the task in
    the train configuration, no other, and they are free of duplicates when
    the class lists of the two are. *)
Theorem refine_tasks_merge_classes (train_cfg : TrainDataCfg)
    (meta : ModelMeta) (new_tasks model_tasks old_tasks : TaskSet)
    (task : string) (classes : list string) :
  td_tasks train_cfg = Some new_tasks →
  NoDup new_tasks.*1 →
  refine_tasks train_cfg meta "MERGE" = Ok (model_tasks, old_tasks) →
  Dict.get model_tasks task = Some classes →
  let old := default [] (Dict.get old_tasks task) in
  let cls := default [] (Dict.get new_tasks task) in
  (∀ c, c ∈ classes ↔ c ∈ old ∨ c ∈ cls) ∧
  (NoDup old → NoDup cls → NoDup classes).
Proof.
  intros Hnew Hnodup Hrun Hget.
  apply refine_tasks_merge_run in Hrun as (new & Hnew' & Hold & ->).
  assert (new = new_tasks) as -> by congruence.
  rewrite merge_tasks_get in Hget by done.
  destruct (Dict.get new_tasks task) as [cls|],
    (Dict.get old_tasks task) as [old|]; simpl; simplify_eq.
  - split.
    + intros c. rewrite elem_of_app, list_elem_of_filter.
      destruct (decide (c ∈ old)); tauto.
    + intros Hold' Hcls. apply NoDup_app. split; [done|].
      split; [|by apply NoDup_filter].
      intros c Hc Hin. apply list_elem_of_filter in Hin as [Hnot _]. done.
  - split; [|done]. intros c. rewrite elem_of_nil. tauto.
  - split; [|done]. intros c. rewrite elem_of_nil. tauto.
Qed.

Lemma refine_tasks_merge_classes_witness :
  (∀ c, c ∈ ["a"; "b"; "c"] ↔ c ∈ ["a"; "b"] ∨ c ∈ ["b"; "c"]) ∧
  (NoDup ["a"; "b"] → NoDup ["b"; "c"] → NoDup ["a"; "b"; "c"]).
Proof.
  apply (refine_tasks_merge_classes
           (Sample.train_cfg None (Some [("t", ["b"; "c"])]))
           (Sample.meta None (Some [("t", ["a"; "b"])]))
           [("t", ["b"; "c"])] [("t", ["a"; "b"; "c"])] [("t", ["a"; "b"])]
           "t" ["a"; "b"; "c"]).
  - reflexivity.
  - apply (bool_decide_unpack _). by vm_compute.
  - reflexivity.
  - reflexivity.
Defined.

End RefineTasksMerge.

Section RefineClsMerge.
Import Stage.

Lemma refine_cls_merge_run (train_cfg : TrainDataCfg) (meta : ModelMeta)
    (dst_classes old_classes : list string) :
  refine_cls train_cfg meta "MERGE" = Ok (dst_classes, old_classes) ↔
  ∃ new_classes, td_new_classes train_cfg = Some new_classes ∧
                 meta_CLASSES meta = Some old_classes ∧
                 dst_classes
                 = old_classes
                   ++ filter (λ cls, cls ∉ old_classes) new_classes.
Proof.
  unfold refine_cls.
  destruct (td_new_classes train_cfg) as [new|]; simpl.
  - destruct (meta_CLASSES meta) as [old|]; simpl.
    + split.
      * intros [= <- <-]. eauto.
      * intros (new' & [= <-] & [= <-] & ->). done.
    + split; [done | by intros (? & _ & ? & _)].
  - split; [done | by intros (? & ? & _)].
Qed.

(** X4. With [MERGE], the destination list of [refine_cls] holds the old
    classes and the new classes and no other, and it is free of duplicates
    when the old and the new class lists are. *)
Theorem refine_cls_merge_classlist (train_cfg : TrainDataCfg)
    (meta : ModelMeta) (new_classes dst_classes old_classes : list string) :
  td_new_classes train_cfg = Some new_classes →
  refine_cls train_cfg meta "MERGE" = Ok (dst_classes, old_classes) →
  (∀ cls, cls ∈ dst_classes ↔ cls ∈ old_classes ∨ cls ∈ new_classes) ∧
  (NoDup old_classes → NoDup new_classes → NoDup dst_classes).
Proof.
  intros Hnew Hrun.
  apply refine_cls_merge_run in Hrun as (new & Hnew' & Hold & ->).
  assert (new = new_classes) as -> by congruence.
  split.
  - intros cls. rewrite elem_of_app, list_elem_of_filter.
    destruct (decide (cls ∈ old_classes)); tauto.
  - intros Hold' Hcls. apply NoDup_app. split; [done|].
    split; [|by apply NoDup_filter].
    intros c Hc Hin. apply list_elem_of_filter in Hin as [Hnot _]. done.
Qed.

Lemma refine_cls_merge_classlist_witness :
  (∀ cls, cls ∈ ["a"; "b"; "c"] ↔ cls ∈ ["a"; "b"] ∨ cls ∈ ["b"; "c"]) ∧
  (NoDup ["a"; "b"] → NoDup ["b"; "c"] → NoDup ["a"; "b"; "c"]).
Proof.
  apply (refine_cls_merge_classlist
           (Sample.train_cfg (Some ["b"; "c"]) None)
           (Sample.meta (Some ["a"; "b"]) None)
           ["b"; "c"] ["a"; "b"; "c"] ["a"; "b"]); reflexivity.
Defined.

(** X5. Merging classes is idempotent: when the destination list that
    [MERGE] returned is stored as the metadata's [CLASSES] and the same
    new classes are merged again, the destination list comes back as it
    is, and the delta of new classes over the old ones, which decides on
    the incremental sampler, is then empty. *)
Theorem refine_cls_merge_idempotent (train_cfg : TrainDataCfg)
    (meta : ModelMeta) (dst_classes old_classes : list string) :
  refine_cls train_cfg meta "MERGE" = Ok (dst_classes, old_classes) →
  refine_cls train_cfg
    {| meta_CLASSES := Some dst_classes; meta_tasks := meta_tasks meta |}
    "MERGE"
  = Ok (dst_classes, dst_classes) ∧
  Numpy.setdiff1d dst_classes dst_classes = [].
Proof.
  intros Hrun.
  apply refine_cls_merge_run in Hrun as (new & Hnew & Hold & ->).
  split.
  - apply refine_cls_merge_run. exists new. split; [done|]. split; [done|].
    rewrite (filter_none (λ cls, cls ∉ old_classes ++ _) new).
    + by rewrite app_nil_r.
    + intros c Hc Hnot. apply Hnot. rewrite elem_of_app, list_elem_of_filter.
      destruct (decide (c ∈ old_classes)); tauto.
  - unfold Numpy.setdiff1d. rewrite filter_none; [done|].
    intros c Hc Hnot. done.
Qed.

Lemma refine_cls_merge_idempotent_witness :
  refine_cls (Sample.train_cfg (Some ["b"; "c"]) None)
    (Sample.meta (Some ["a"; "b"; "c"]) None) "MERGE"
  = Ok (["a"; "b"; "c"], ["a"; "b"; "c"]) ∧
  Numpy.setdiff1d ["a"; "b"; "c"] ["a"; "b"; "c"] = [].
Proof.
  apply (refine_cls_merge_idempotent
           (Sample.train_cfg (Some ["b"; "c"]) None)
           (Sample.meta (Some ["a"; "b"]) None)
           ["a"; "b"; "c"] ["a"; "b"]).
  reflexivity.
Defined.

End RefineClsMerge.

Section RefineSharing.
Import Store.
Implicit Types (h : gmap nat obj).

(** X6. What the results of the refiners share with the arguments. The
    destination list of [refine_cls] is a new list object and the old class
    list it returns is the metadata's own [CLASSES] object. With [REPLACE],
    [refine_tasks] returns the train configuration's own [tasks] object,
    not a copy, with a new empty dictionary as the old task set, and it
    does not read the metadata. *)
Theorem refine_results_sharing h (train_cfg meta : nat) (adapt_type : string)
    (cfg_entries : list (string * nat)) :
  h !! train_cfg = Some (ODict cfg_entries) →
  (∀ h' dst old,
     refine_cls train_cfg meta adapt_type h = (h', Ok (dst, old)) →
     (dst ∉ dom h) ∧ is_Some (h' !! dst) ∧
     ∃ meta_entries, h !! meta = Some (ODict meta_entries) ∧
                     Dict.get meta_entries "CLASSES" = Some old) ∧
  (∀ new_tasks, Dict.get cfg_entries "tasks" = Some new_tasks →
     ∃ old,
       refine_tasks train_cfg meta "REPLACE" h
       = (<[old := ODict []]> h, Ok (new_tasks, old)) ∧
       (old ∉ dom h)).
Proof.
  intros Hcfg. split.
  - intros h' dst old.
    unfold refine_cls, getitem, read_dict, read_list, alloc, raise.
    unfold mbind, M_bind, mret, M_ret. rewrite Hcfg.
    destruct (Dict.get cfg_entries "new_classes") as [new_classes|];
      [|done].
    destruct (h !! meta) as [[|meta_entries]|] eqn:Hmeta; [done| |done].
    destruct (Dict.get meta_entries "CLASSES") as [old_classes|] eqn:Hold;
      [|done].
    destruct (decide (adapt_type = "REPLACE")) as [_|_].
    + destruct (h !! new_classes) as [[new_items|]|]; [|done..].
      destruct (decide (length new_items = 0%nat)); [done|].
      intros [= <- <- <-]. split; [apply is_fresh|].
      split; [by rewrite lookup_insert_eq | eauto].
    + destruct (decide (adapt_type = "MERGE")) as [_|_]; [|done].
      destruct (h !! old_classes) as [[old_items|]|]; [|done..].
      destruct (h !! new_classes) as [[new_items|]|]; [|done..].
      intros [= <- <- <-]. split; [apply is_fresh|].
      split; [by rewrite lookup_insert_eq | eauto].
  - intros new_tasks Hget. exists (fresh (dom h)).
    split; [|apply is_fresh].
    unfold refine_tasks, getitem, read_dict, alloc.
    unfold mbind, M_bind, mret, M_ret. by rewrite Hcfg, Hget.
Qed.

Lemma refine_results_sharing_witness :
  (∃ h' dst,
     refine_cls 0%nat 1%nat "MERGE" Samples.store_classes
     = (h', Ok (dst, 3%nat)) ∧
     (dst ∉ dom Samples.store_classes) ∧
     h' !! dst = Some (OList ["a"; "b"; "c"])) ∧
  ∃ old,
    refine_tasks 0%nat 1%nat "REPLACE" Sample.store
    = (<[old := ODict []]> Sample.store, Ok (2%nat, old)) ∧
    (old ∉ dom Sample.store).
Proof.
  split.
  - eexists _, _. split; [by vm_compute|].
    split; [|by vm_compute].
    eapply (proj1 (refine_results_sharing Samples.store_classes 0%nat 1%nat
                     "MERGE" [("new_classes", 2%nat)] eq_refl)).
    by vm_compute.
  - exact (proj2 (refine_results_sharing Sample.store 0%nat 1%nat "REPLACE"
                    [("tasks", 2%nat)] eq_refl) 2%nat eq_refl).
Defined.

End RefineSharing.

(** ** [ClsStage.configure_task]: the phases and the modes *)

Section ConfigureTaskFacts.
Import Stage.
Context {CustomHooks : Type}.
Variable update_or_add_custom_hook :
  CustomHooks → TaskAdaptHookCfg → CustomHooks.

(** Lines 141-150 write the head's [num_classes], the metadata's [CLASSES]
    and the train data's [new_classes], nothing else. *)
Lemma configure_classes_frame (cfg : @Cfg CustomHooks) (model_meta : ModelMeta)
    (model_classes data_classes : list string) :
  let r := configure_classes cfg model_meta model_classes data_classes in
  td_tasks (cfg_train r.1) = td_tasks (cfg_train cfg) ∧
  td_type (cfg_train r.1) = td_type (cfg_train cfg) ∧
  td_CLASSES (cfg_train r.1) = td_CLASSES (cfg_train cfg) ∧
  td_classes (cfg_train r.1) = td_classes (cfg_train cfg) ∧
  cfg_model_type r.1 = cfg_model_type cfg ∧
  cfg_model_task_adapt r.1 = cfg_model_task_adapt cfg ∧
  head_loss (cfg_head r.1) = head_loss (cfg_head cfg) ∧
  cfg_load_from r.1 = cfg_load_from cfg ∧
  meta_tasks r.2 = meta_tasks model_meta.
Proof.
  unfold configure_classes.
  destruct model_classes, data_classes; simpl;
    match goal with |- context [truthy ?x] => destruct (truthy x) end; done.
Qed.

Lemma configure_classes_new_classes (cfg : @Cfg CustomHooks)
    (model_meta : ModelMeta) (model_classes data_classes : list string) :
  td_new_classes
    (cfg_train (configure_classes cfg model_meta model_classes
                  data_classes).1)
  = Some match td_new_classes (cfg_train cfg) with
         | Some (c :: rest) => c :: rest
         | _ => Numpy.setdiff1d data_classes model_classes
         end.
Proof.
  unfold configure_classes.
  destruct model_classes, data_classes; simpl;
    destruct (td_new_classes (cfg_train cfg)) as [[|c rest]|] eqn:Hnew;
    simpl; rewrite ?Hnew; done.
Qed.

Lemma configure_classes_meta (cfg : @Cfg CustomHooks)
    (model_meta : ModelMeta) (model_classes data_classes : list string) :
  meta_CLASSES (configure_classes cfg model_meta model_classes
                  data_classes).2
  = match model_classes, data_classes with
    | _ :: _, _ => Some model_classes
    | [], _ :: _ => Some data_classes
    | [], [] => meta_CLASSES model_meta
    end.
Proof.
  unfold configure_classes.
  destruct model_classes, data_classes; simpl;
    match goal with |- context [truthy ?x] => destruct (truthy x) end; done.
Qed.

(** In the task mode the training refinement binds neither [dst_classes]
    nor [old_classes]. *)
Lemma configure_refine_tasks (cfg cfg' : @Cfg CustomHooks)
    (model_meta : ModelMeta) (adapt_type : string) (locals : Locals) :
  truthy (td_tasks (cfg_train cfg)) = true →
  configure_refine cfg model_meta adapt_type = Ok (cfg', locals) →
  old_classes locals = None ∧ dst_classes locals = None ∧
  td_type (cfg_train cfg') = td_type (cfg_train cfg) ∧
  is_Some (old_tasks locals) ∧ is_Some (model_tasks locals).
Proof.
  unfold configure_refine. intros -> Hrun.
  destruct (truthy (meta_tasks model_meta)); [|discriminate].
  destruct (refine_tasks _ _ _) as [[mt ot]|e]; [|discriminate].
  simpl in Hrun. injection Hrun as <- <-. simpl.
  repeat split; eauto.
  by destruct (head_tasks (cfg_head cfg)), (td_tasks (cfg_train cfg)).
Qed.

(** X7. Task-incremental learning is not available for the type ["mpa"]:
    in the training phase, with a non-empty task set in the train
    configuration, [configure_task] never returns. It raises the
    [KeyError] of the refinement, the [NotImplementedError] of a dataset
    type that is not supported or, when both pass, an
    [UnboundLocalError]: [old_classes] is read but was never assigned. *)
Theorem configure_task_mpa_tasks_raise (cfg : @Cfg CustomHooks)
    (model_meta : ModelMeta) (model_classes data_classes : list string)
    (pre_stage_res : option string) :
  ta_type (cfg_task_adapt cfg) = Some "mpa" →
  truthy (td_tasks (cfg_train cfg)) = true →
  ∃ e,
    configure_task update_or_add_custom_hook cfg true model_meta model_classes data_classes pre_stage_res
    = Raise e ∧
    ((∃ msg, e = KeyError msg) ∨ (∃ msg, e = NotImplementedError msg) ∨
     e = UnboundLocalError "old_classes") ∧
    (truthy (meta_tasks model_meta) = true →
     default "REPLACE" (ta_op (cfg_task_adapt cfg)) ∈ ["REPLACE"; "MERGE"] →
     td_type (cfg_train cfg) ∈ CLASS_INC_DATASET →
     e = UnboundLocalError "old_classes").
Proof.
  intros Htype Htasks. unfold configure_task. rewrite Htype.
  pose proof (configure_classes_frame cfg model_meta model_classes
                data_classes) as Hframe.
  destruct (configure_classes cfg model_meta model_classes data_classes)
    as [cfg1 meta1]. simpl in Hframe.
  destruct Hframe as (Htasks1 & Htype1 & _ & _ & _ & _ & _ & _ & Hmeta1).
  rewrite <- Htasks1 in Htasks. simpl.
  destruct (configure_refine cfg1 meta1 _) as [[cfg2 locals]|e] eqn:Hrefine.
  - destruct (configure_refine_tasks _ _ _ _ _ Htasks Hrefine)
      as (Hold & Hdst & Htype2 & _ & _).
    simpl. unfold configure_mpa. rewrite Hold, Htype2, Htype1.
    destruct (decide (td_type (cfg_train cfg) ∈ CLASS_INC_DATASET)); simpl.
    + eexists. split; [done|]. split; [by right; right | done].
    + eexists. split; [done|]. split; [right; left; eauto | done].
  - simpl. exists e. split; [done|].
    unfold configure_refine in Hrefine. cbv zeta in Hrefine.
    rewrite Htasks, Hmeta1 in Hrefine.
    destruct (truthy (meta_tasks model_meta)) eqn:Htruthy.
    + unfold refine_tasks in Hrefine.
      destruct (td_tasks (cfg_train cfg1)) as [new_tasks|]; [|done].
      simpl in Hrefine.
      destruct (decide (_ = "REPLACE")) as [Hrep|Hrep]; [done|].
      destruct (decide (_ = "MERGE")) as [Hmer|Hmer].
      * destruct (meta_tasks meta1) as [old|] eqn:Hm; [done|].
        by rewrite <- Hmeta1 in Htruthy.
      * simpl in Hrefine. simplify_eq. split; [left; by eexists|].
        intros _ Hop. repeat (apply elem_of_cons in Hop as [Hop|Hop]; [done|]).
        by apply elem_of_nil in Hop.
    + simplify_eq. split; [left; eauto | done].
Qed.

(** X8. Class-incremental training for the type ["mpa"], with model classes
    in the configuration: the old classes are those model classes, which
    also replace the [CLASSES] of the checkpoint's metadata, whatever it
    held. The new classes are those of the train configuration or, when it
    has none, the data classes that are not model classes. With [REPLACE]
    (the default operation) the destination list is the new classes, with
    [MERGE] it is the model classes followed by the new classes that are
    not among them. [configure_task] returns the destination list, writes
    it to the train configuration as [classes] and its length to the
    head as [num_classes], sets [new_classes] to the delta of the
    destination over the model classes and installs the hook from the
    model classes to the destination list, with the focal loss of
    [gamma] 3, or 2 in the efficient mode. *)
Theorem configure_task_class_incremental (cfg : @Cfg CustomHooks)
    (model_meta : ModelMeta) (model_classes data_classes dst : list string) :
  let adapt_type := default "REPLACE" (ta_op (cfg_task_adapt cfg)) in
  let new_classes :=
    match td_new_classes (cfg_train cfg) with
    | Some (c :: rest) => c :: rest
    | _ => Numpy.setdiff1d data_classes model_classes
    end in
  ta_type (cfg_task_adapt cfg) = Some "mpa" →
  truthy (td_tasks (cfg_train cfg)) = false →
  td_type (cfg_train cfg) ∈ CLASS_INC_DATASET →
  model_classes ≠ [] →
  (adapt_type = "REPLACE" ∧ new_classes ≠ [] ∧ dst = new_classes ∨
   adapt_type = "MERGE" ∧
   dst = model_classes ++ filter (λ cls, cls ∉ model_classes) new_classes) →
  ∃ cfg' hook,
    configure_task update_or_add_custom_hook cfg true model_meta model_classes data_classes None
    = Ok (cfg', with_meta_CLASSES model_classes model_meta, (None, Some dst)) ∧
    td_classes (cfg_train cfg') = Some dst ∧
    td_new_classes (cfg_train cfg')
    = Some (Numpy.setdiff1d dst model_classes) ∧
    head_num_classes (cfg_head cfg') = Some (len dst) ∧
    head_loss (cfg_head cfg')
    = Some {| loss_type := "SoftmaxFocalLoss"; loss_weight := 1;
              loss_gamma :=
                if default false (ta_efficient_mode (cfg_task_adapt cfg))
                then 2 else 3;
              loss_reduction := "none" |} ∧
    cfg_custom_hooks cfg'
    = update_or_add_custom_hook (cfg_custom_hooks cfg) hook ∧
    hook_src_classes hook = model_classes ∧
    hook_dst_classes hook = dst ∧
    hook_sampler_flag hook
    = bool_decide (0 < len (Numpy.setdiff1d dst model_classes)).
Proof.
  intros adapt_type new_classes Htype Htasks Hdataset Hmodel Hop.
  unfold configure_task. rewrite Htype. fold adapt_type.
  pose proof (configure_classes_frame cfg model_meta model_classes
                data_classes) as Hframe.
  pose proof (configure_classes_new_classes cfg model_meta model_classes
                data_classes) as Hnew.
  pose proof (configure_classes_hooks cfg model_meta model_classes
                data_classes) as [Hhooks Hadapt].
  assert ((configure_classes cfg model_meta model_classes data_classes).2
          = with_meta_CLASSES model_classes model_meta) as Hmeta.
  { unfold configure_classes. destruct model_classes; [done|]. simpl.
    match goal with |- context [truthy ?x] => by destruct (truthy x) end. }
  destruct (configure_classes cfg model_meta model_classes data_classes)
    as [cfg1 meta1]. simpl in Hframe, Hnew, Hmeta, Hhooks, Hadapt.
  fold new_classes in Hnew. subst meta1.
  destruct Hframe as (Htasks1 & Htype1 & _ & _ & Hmtype1 & _ & _ & _ & _).
  assert (refine_cls (cfg_train cfg1)
            (with_meta_CLASSES model_classes model_meta) adapt_type
          = Ok (dst, model_classes)) as Hcls.
  { unfold refine_cls. rewrite Hnew. simpl.
    destruct Hop as [(-> & Hne & ->) | (-> & ->)]; simpl; [|done].
    rewrite decide_False; [done|]. by destruct new_classes. }
  assert (configure_refine cfg1 (with_meta_CLASSES model_classes model_meta)
            adapt_type
          = Ok (cfg1, {| model_tasks := None; dst_classes := Some dst;
                         old_tasks := None;
                         old_classes := Some model_classes |})) as ->.
  { unfold configure_refine. cbv zeta. rewrite Htasks1, Htasks, Hnew, Hcls.
    by destruct model_classes. }
  cbn [mbind result_bind]. rewrite decide_True by done.
  unfold configure_mpa. rewrite Htype1, decide_True by done.
  cbn [mbind result_bind local as_list old_classes dst_classes].
  unfold configure_pseudo_label. cbn [mbind result_bind].
  eexists _, _. split; [reflexivity|].
  destruct (decide (cfg_model_type cfg1 ∈ WEIGHT_MIX_CLASSIFIER));
    simpl; rewrite Hhooks, Hadapt; done.
Qed.

(** The fields that only the set-up of the type ["mpa"] writes. *)
Local Abbreviation mpa_fields_kept cfg cfg' :=
  (cfg_custom_hooks cfg' = cfg_custom_hooks cfg ∧
   head_loss (cfg_head cfg') = head_loss (cfg_head cfg) ∧
   td_classes (cfg_train cfg') = td_classes (cfg_train cfg) ∧
   cfg_model_task_adapt cfg' = cfg_model_task_adapt cfg).

Lemma mpa_fields_kept_trans (cfg1 cfg2 cfg3 : @Cfg CustomHooks) :
  mpa_fields_kept cfg1 cfg2 → mpa_fields_kept cfg2 cfg3 →
  mpa_fields_kept cfg1 cfg3.
Proof.
  intros (? & ? & ? & ?) (? & ? & ? & ?). repeat split; congruence.
Qed.

Lemma configure_refine_kept (cfg cfg' : @Cfg CustomHooks)
    (model_meta : ModelMeta) (adapt_type : string) (locals : Locals) :
  configure_refine cfg model_meta adapt_type = Ok (cfg', locals) →
  mpa_fields_kept cfg cfg' ∧
  td_type (cfg_train cfg') = td_type (cfg_train cfg) ∧
  td_tasks (cfg_train cfg') = td_tasks (cfg_train cfg) ∧
  td_CLASSES (cfg_train cfg') = td_CLASSES (cfg_train cfg).
Proof.
  unfold configure_refine. intros Hrun.
  destruct (truthy (td_tasks (cfg_train cfg))).
  - destruct (truthy (meta_tasks model_meta)); [|discriminate].
    destruct (refine_tasks _ _ _) as [[mt ot]|e]; [|discriminate].
    simpl in Hrun. injection Hrun as <- <-.
    destruct (head_tasks (cfg_head cfg)); [done|].
    destruct (td_tasks (cfg_train cfg)) eqn:Ht; simpl; rewrite ?Ht; done.
  - destruct (td_new_classes (cfg_train cfg)); [|discriminate].
    destruct (truthy (meta_CLASSES model_meta)); [|discriminate].
    destruct (refine_cls _ _ _) as [[dst old']|e]; [|discriminate].
    simpl in Hrun. by injection Hrun as <- <-.
Qed.

Lemma configure_eval_kept (cfg cfg' : @Cfg CustomHooks)
    (model_meta : ModelMeta) (adapt_type : string) (locals : Locals) :
  configure_eval cfg model_meta adapt_type = Ok (cfg', locals) →
  mpa_fields_kept cfg cfg' ∧
  td_type (cfg_train cfg') = td_type (cfg_train cfg) ∧
  td_tasks (cfg_train cfg') = td_tasks (cfg_train cfg) ∧
  td_CLASSES (cfg_train cfg') = td_CLASSES (cfg_train cfg) ∧
  old_tasks locals = None ∧ old_classes locals = None ∧
  (truthy (td_tasks (cfg_train cfg)) = false →
   truthy (td_new_classes (cfg_train cfg)) = false →
   dst_classes locals = None).
Proof.
  unfold configure_eval. intros Hrun.
  destruct (truthy (td_tasks (cfg_train cfg))).
  - destruct (meta_tasks model_meta) as [[|t ts]|]; try discriminate.
    by injection Hrun as <- <-.
  - destruct (truthy (td_new_classes (cfg_train cfg))).
    + destruct (truthy (meta_CLASSES model_meta)); [|discriminate].
      destruct (refine_cls _ _ _) as [[dst old']|e]; [|discriminate].
      simpl in Hrun. by injection Hrun as <- <-.
    + by injection Hrun as <- <-.
Qed.

Lemma configure_pseudo_label_kept (cfg cfg' : @Cfg CustomHooks)
    (locals : Locals) (pre_stage_res : option string) :
  configure_pseudo_label cfg locals pre_stage_res = Ok cfg' →
  mpa_fields_kept cfg cfg' ∧
  td_type (cfg_train cfg') = td_type (cfg_train cfg).
Proof.
  unfold configure_pseudo_label. intros Hrun.
  destruct pre_stage_res as [[|c rest]|]; try by injection Hrun as <-.
  destruct (decide (td_type (cfg_train cfg) ∈ _)); [|discriminate].
  simpl in Hrun.
  destruct (truthy (td_tasks (cfg_train cfg))).
  - destruct (old_tasks locals); [|discriminate].
    by injection Hrun as <-.
  - destruct (truthy (td_CLASSES (cfg_train cfg)));
      [|by injection Hrun as <-].
    destruct (dst_classes locals); [|discriminate].
    destruct (old_classes locals); [|discriminate].
    by injection Hrun as <-.
Qed.

(** X9. The task adaptation hook, the focal loss, the train data's
    [classes] and the model's [task_adapt] entry are written for the type
    ["mpa"] in the training phase only: in the evaluation phase, and for
    any other type, [configure_task] leaves the four as they are. *)
Theorem configure_task_mpa_only (cfg cfg' : @Cfg CustomHooks)
    (training : bool) (model_meta meta' : ModelMeta)
    (model_classes data_classes : list string)
    (pre_stage_res : option string)
    (ret : option TaskSet * option (list string)) :
  training = false ∨ ta_type (cfg_task_adapt cfg) ≠ Some "mpa" →
  configure_task update_or_add_custom_hook cfg training model_meta
    model_classes data_classes pre_stage_res
  = Ok (cfg', meta', ret) →
  cfg_custom_hooks cfg' = cfg_custom_hooks cfg ∧
  head_loss (cfg_head cfg') = head_loss (cfg_head cfg) ∧
  td_classes (cfg_train cfg') = td_classes (cfg_train cfg) ∧
  cfg_model_task_adapt cfg' = cfg_model_task_adapt cfg.
Proof.
  intros Hphase Hrun. unfold configure_task in Hrun.
  pose proof (configure_classes_frame cfg model_meta model_classes
                data_classes) as Hframe.
  pose proof (configure_classes_hooks cfg model_meta model_classes
                data_classes) as [Hhooks _].
  destruct (configure_classes cfg model_meta model_classes data_classes)
    as [cfg1 meta1]. simpl in Hframe, Hhooks.
  destruct Hframe as (_ & _ & _ & Hclasses & _ & Hmta & Hloss & _ & _).
  assert (mpa_fields_kept cfg cfg1) as Hkept1 by done.
  change (mpa_fields_kept cfg cfg'). simpl in Hrun.
  apply bind_Ok in Hrun as ([cfg2 locals] & Hstep & Hrun).
  apply bind_Ok in Hrun as (cfg3 & Hpseudo & Hrun).
  injection Hrun as <- <- <-.
  apply configure_pseudo_label_kept in Hpseudo as [Hkept3 _].
  eapply mpa_fields_kept_trans; [|exact Hkept3].
  eapply mpa_fields_kept_trans; [exact Hkept1|].
  destruct training.
  - destruct Hphase as [?|Hne]; [done|].
    apply bind_Ok in Hstep as ([cfg2' locals'] & Hrefine & Hstep).
    rewrite decide_False in Hstep by done. injection Hstep as <- <-.
    by apply configure_refine_kept in Hrefine as [? _].
  - by apply configure_eval_kept in Hstep as [? _].
Qed.

(** X10. The dataset types that the class-incremental set-up of the type
    ["mpa"] supports and those that the pseudo label augmentation supports
    have one type in common: when [configure_task] returns in the training
    phase for the type ["mpa"] with a pre-stage result, the train data is
    a [ClsTVDataset]. *)
Theorem configure_task_mpa_pseudo_label (cfg cfg' : @Cfg CustomHooks)
    (model_meta meta' : ModelMeta)
    (model_classes data_classes : list string)
    (c : ascii) (pre_stage_res : string)
    (ret : option TaskSet * option (list string)) :
  ta_type (cfg_task_adapt cfg) = Some "mpa" →
  configure_task update_or_add_custom_hook cfg true model_meta
    model_classes data_classes (Some (String c pre_stage_res))
  = Ok (cfg', meta', ret) →
  td_type (cfg_train cfg) = "ClsTVDataset" ∧
  td_pre_stage_res (cfg_train cfg') = Some (String c pre_stage_res).
Proof.
  intros Htype Hrun. unfold configure_task in Hrun.
  pose proof (configure_classes_frame cfg model_meta model_classes
                data_classes) as Hframe.
  destruct (configure_classes cfg model_meta model_classes data_classes)
    as [cfg1 meta1]. simpl in Hframe.
  destruct Hframe as (_ & Htype1 & _). rewrite Htype in Hrun.
  simpl in Hrun.
  apply bind_Ok in Hrun as ([cfg2 locals] & Hstep & Hrun).
  apply bind_Ok in Hrun as (cfg3 & Hpseudo & Hrun).
  injection Hrun as <- <- <-.
  apply bind_Ok in Hstep as ([cfg2' locals'] & Hrefine & Hstep).
  apply bind_Ok in Hstep as (cfg2'' & Hmpa & Hstep).
  injection Hstep as -> ->.
  apply configure_refine_kept in Hrefine as (_ & Htype2 & _).
  unfold configure_mpa in Hmpa.
  destruct (decide (td_type (cfg_train cfg2') ∈ CLASS_INC_DATASET))
    as [Hinc|]; [|discriminate].
  assert (td_type (cfg_train cfg2) = td_type (cfg_train cfg2')) as Htype3.
  { apply bind_Ok in Hmpa as (old & _ & Hmpa).
    apply bind_Ok in Hmpa as (dst & _ & Hmpa).
    injection Hmpa as <-.
    by destruct (decide (cfg_model_type cfg2' ∈ WEIGHT_MIX_CLASSIFIER)). }
  assert (td_type (cfg_train cfg2) ∈ PSEUDO_LABEL_ENABLE_DATASET ∧
          td_pre_stage_res (cfg_train cfg3)
          = Some (String c pre_stage_res)) as [Hpl Hres].
  { unfold configure_pseudo_label in Hpseudo.
    destruct (decide (td_type _ ∈ PSEUDO_LABEL_ENABLE_DATASET)) as [Hpl|];
      [|discriminate].
    split; [exact Hpl|].
    cbv zeta in Hpseudo.
    destruct (truthy _).
    - apply bind_Ok in Hpseudo as (ot & _ & Hpseudo).
      by injection Hpseudo as <-.
    - destruct (truthy _); [|by injection Hpseudo as <-].
      apply bind_Ok in Hpseudo as (dst' & _ & Hpseudo).
      apply bind_Ok in Hpseudo as (old' & _ & Hpseudo).
      by injection Hpseudo as <-. }
  split; [|exact Hres].
  rewrite Htype3, Htype2, Htype1 in Hpl. rewrite Htype2, Htype1 in Hinc.
  unfold CLASS_INC_DATASET in Hinc.
  unfold PSEUDO_LABEL_ENABLE_DATASET in Hpl.
  repeat (apply elem_of_cons in Hinc as [Hinc|Hinc];
          [rewrite Hinc in Hpl |- *;
           first [ reflexivity
                 | exfalso;
                   repeat (apply elem_of_cons in Hpl as [Hpl|Hpl];
                           [discriminate|]);
                   by apply elem_of_nil in Hpl ]|]).
  by apply elem_of_nil in Hinc.
Qed.

(** X11. The pseudo label augmentation is for the training phase: in the
    evaluation phase neither [old_tasks] nor [old_classes] is assigned, so
    that with a pre-stage result and a train configuration that has
    [tasks] or [CLASSES], [configure_task] never returns. *)
Theorem configure_task_eval_pseudo_label_raises (cfg : @Cfg CustomHooks)
    (model_meta : ModelMeta) (model_classes data_classes : list string)
    (c : ascii) (pre_stage_res : string) :
  truthy (td_tasks (cfg_train cfg)) = true ∨
  truthy (td_CLASSES (cfg_train cfg)) = true →
  ∃ e,
    configure_task update_or_add_custom_hook cfg false model_meta
      model_classes data_classes (Some (String c pre_stage_res))
    = Raise e.
Proof.
  intros Hmode.
  destruct (configure_task _ _ _ _ _ _ _) as [[[cfg' meta'] ret]|e] eqn:Hrun;
    [exfalso | by exists e].
  unfold configure_task in Hrun.
  pose proof (configure_classes_frame cfg model_meta model_classes
                data_classes) as Hframe.
  destruct (configure_classes cfg model_meta model_classes data_classes)
    as [cfg1 meta1]. simpl in Hframe.
  destruct Hframe as (Htasks1 & _ & HCLASSES1 & _). simpl in Hrun.
  apply bind_Ok in Hrun as ([cfg2 locals] & Heval & Hrun).
  apply bind_Ok in Hrun as (cfg3 & Hpseudo & _).
  apply configure_eval_kept in Heval
    as (_ & _ & Htasks2 & HCLASSES2 & Hold_tasks & Hold_classes & _).
  rewrite <- Htasks1, <- Htasks2, <- HCLASSES1, <- HCLASSES2 in Hmode.
  unfold configure_pseudo_label in Hpseudo.
  destruct (decide (td_type _ ∈ PSEUDO_LABEL_ENABLE_DATASET));
    [|discriminate].
  cbv zeta in Hpseudo.
  change (td_tasks (cfg_train (set_train _ cfg2)))
    with (td_tasks (cfg_train cfg2)) in Hpseudo.
  change (td_CLASSES (cfg_train (set_train _ cfg2)))
    with (td_CLASSES (cfg_train cfg2)) in Hpseudo.
  destruct (truthy (td_tasks (cfg_train cfg2))).
  - by rewrite Hold_tasks in Hpseudo.
  - destruct Hmode as [?|HCLASSES]; [done|]. rewrite HCLASSES in Hpseudo.
    rewrite Hold_classes in Hpseudo.
    destruct (dst_classes locals); discriminate.
Qed.

Local Abbreviation asks_for_new_classes :=
  (KeyError
     (dquote +:+ "new_classes" +:+ dquote +:+ " or " +:+ dquote
      +:+ "tasks" +:+ dquote
      +:+ " should be defined for incremental learning w/ current model.")).

Lemma string_length_append (s1 s2 : string) :
  String.length (s1 +:+ s2) = (String.length s1 + String.length s2)%nat.
Proof. induction s1 as [|c s1 IH]; simpl; [done | by rewrite <- IH]. Qed.

Lemma not_supported_other (adapt_type : string) :
  not_supported adapt_type ≠ asks_for_new_classes.
Proof.
  unfold not_supported. intros [= Heq].
  pose proof (f_equal String.length Heq) as Hlen.
  rewrite string_length_append, Nat.add_comm in Hlen.
  remember (String.length adapt_type) as n eqn:Hn.
  vm_compute in Hlen. assert (n = 44%nat) as -> by lia.
  pose proof (String.append_correct2 adapt_type
                " is not supported for task_adapt options!" 40) as Hget.
  change (String.append adapt_type _)
    with (adapt_type +:+ " is not supported for task_adapt options!")
    in Hget.
  rewrite Heq, <- Hn in Hget. vm_compute in Hget. discriminate.
Qed.

Lemma refine_cls_other (train_cfg : TrainDataCfg) (meta : ModelMeta)
    (adapt_type : string) :
  refine_cls train_cfg meta adapt_type ≠ Raise asks_for_new_classes.
Proof.
  unfold refine_cls.
  destruct (td_new_classes train_cfg); [|by vm_compute].
  destruct (meta_CLASSES meta); [|by vm_compute]. simpl.
  destruct (decide (adapt_type = "REPLACE")).
  - by destruct (decide (_ = 0%nat)).
  - destruct (decide (adapt_type = "MERGE")); [done|].
    intros [= Heq]. apply (not_supported_other adapt_type).
    unfold not_supported. by rewrite Heq.
Qed.

Lemma refine_tasks_other (train_cfg : TrainDataCfg) (meta : ModelMeta)
    (adapt_type : string) :
  refine_tasks train_cfg meta adapt_type ≠ Raise asks_for_new_classes.
Proof.
  unfold refine_tasks.
  destruct (td_tasks train_cfg); [|by vm_compute]. simpl.
  destruct (decide (adapt_type = "REPLACE")); [done|].
  destruct (decide (adapt_type = "MERGE")).
  - by destruct (meta_tasks meta); [|vm_compute].
  - intros [= Heq]. apply (not_supported_other adapt_type).
    unfold not_supported. by rewrite Heq.
Qed.

Lemma bind_Raise {A B : Type} (r : result A) (k : A → result B) (e : exc) :
  r ≫= k = Raise e → r = Raise e ∨ ∃ a, r = Ok a ∧ k a = Raise e.
Proof.
  destruct r as [a|e']; simpl; intros Hk; [eauto|].
  left. by injection Hk as ->.
Qed.

(** X12. [configure_task] never raises the [KeyError] that asks for
    [new_classes] or [tasks] to be defined: the train configuration always
    has [new_classes] by the time the training refinement looks for it,
    since lines 148-150 set it when it is absent or empty. *)
Theorem configure_task_never_asks_for_new_classes (cfg : @Cfg CustomHooks)
    (training : bool) (model_meta : ModelMeta)
    (model_classes data_classes : list string)
    (pre_stage_res : option string) :
  configure_task update_or_add_custom_hook cfg training model_meta
    model_classes data_classes pre_stage_res
  ≠ Raise
      (KeyError
         (dquote +:+ "new_classes" +:+ dquote +:+ " or " +:+ dquote
          +:+ "tasks" +:+ dquote
          +:+ " should be defined for incremental learning w/ current model.")).
Proof.
  unfold configure_task.
  pose proof (configure_classes_new_classes cfg model_meta model_classes
                data_classes) as Hnew.
  destruct (configure_classes cfg model_meta model_classes data_classes)
    as [cfg1 meta1]. simpl in Hnew. intros Hrun. simpl in Hrun.
  apply bind_Raise in Hrun as [Hrun | ([cfg2 locals] & _ & Hrun)].
  - destruct training.
    + apply bind_Raise in Hrun as [Hrun | ([cfg2 locals] & _ & Hrun)].
      * unfold configure_refine in Hrun. cbv zeta in Hrun.
        rewrite Hnew in Hrun.
        destruct (truthy (td_tasks (cfg_train cfg1))).
        -- destruct (truthy (meta_tasks meta1));
             [|by simplify_eq].
           apply bind_Raise in Hrun as [Hrun | ([mt ot] & _ & Hrun)];
             [|done].
           by apply refine_tasks_other in Hrun.
        -- destruct (truthy (meta_CLASSES meta1));
             [|by simplify_eq].
           apply bind_Raise in Hrun as [Hrun | ([dst old] & _ & Hrun)];
             [|done].
           by apply refine_cls_other in Hrun.
      * destruct (decide (_ = Some "mpa")); [|done].
        apply bind_Raise in Hrun as [Hrun | (cfg3 & _ & Hrun)]; [|done].
        unfold configure_mpa in Hrun.
        destruct (decide (_ ∈ CLASS_INC_DATASET)); [|done].
        destruct (old_classes locals); [|done].
        by destruct (dst_classes locals).
    + unfold configure_eval in Hrun. cbv zeta in Hrun.
      destruct (truthy (td_tasks (cfg_train cfg1))).
      * destruct (meta_tasks meta1) as [[|t ts]|]; try done;
          by simplify_eq.
      * destruct (truthy (td_new_classes (cfg_train cfg1))); [|done].
        destruct (truthy (meta_CLASSES meta1));
          [|by simplify_eq].
        apply bind_Raise in Hrun as [Hrun | ([dst old] & _ & Hrun)];
          [|done].
        by apply refine_cls_other in Hrun.
  - apply bind_Raise in Hrun as [Hrun | (cfg3 & _ & Hrun)]; [|done].
    unfold configure_pseudo_label in Hrun.
    destruct pre_stage_res as [[|c rest]|]; try done.
    destruct (decide (_ ∈ PSEUDO_LABEL_ENABLE_DATASET)); [|done].
    cbv zeta in Hrun.
    destruct (truthy _).
    + by destruct (old_tasks locals).
    + destruct (truthy _); [|done].
      destruct (dst_classes locals); [|done].
      by destruct (old_classes locals).
Qed.

End ConfigureTaskFacts.

Section ConfigureTaskSamples.
Import Stage.

Lemma configure_task_mpa_tasks_raise_witness :
  configure_task Sample.add_hook
    (Sample.cfg "MERGE" (Sample.train_cfg None (Some [("t", ["b"])]))) true
    (Sample.meta None (Some [("t", ["a"])])) [] [] None
  = Raise (UnboundLocalError "old_classes").
Proof.
  destruct (configure_task_mpa_tasks_raise Sample.add_hook
              (Sample.cfg "MERGE"
                 (Sample.train_cfg None (Some [("t", ["b"])])))
              (Sample.meta None (Some [("t", ["a"])])) [] [] None
              eq_refl eq_refl)
    as (e & Hrun & _ & He).
  rewrite Hrun. f_equal. apply He.
  - reflexivity.
  - apply (bool_decide_unpack _). by vm_compute.
  - apply (bool_decide_unpack _). by vm_compute.
Defined.

Lemma configure_task_class_incremental_witness :
  ∃ cfg' hook,
    configure_task Sample.add_hook
      (Sample.cfg "MERGE" (Sample.train_cfg (Some ["b"; "c"]) None)) true
      (Sample.meta (Some ["z"]) None) ["a"; "b"] [] None
    = Ok (cfg', Sample.meta (Some ["a"; "b"]) None,
          (None, Some ["a"; "b"; "c"])) ∧
    td_new_classes (cfg_train cfg') = Some ["c"] ∧
    cfg_custom_hooks cfg' = [hook] ∧
    hook_src_classes hook = ["a"; "b"] ∧
    hook_sampler_flag hook = true.
Proof.
  destruct (configure_task_class_incremental Sample.add_hook
              (Sample.cfg "MERGE" (Sample.train_cfg (Some ["b"; "c"]) None))
              (Sample.meta (Some ["z"]) None) ["a"; "b"] []
              ["a"; "b"; "c"] eq_refl eq_refl)
    as (cfg' & hook & Hrun & _ & Hnew & _ & _ & Hhooks & Hsrc & _ & Hflag).
  - apply (bool_decide_unpack _). by vm_compute.
  - done.
  - right. split; reflexivity.
  - exists cfg', hook. split; [exact Hrun|]. split; [exact Hnew|].
    split; [exact Hhooks|]. split; [exact Hsrc | exact Hflag].
Defined.

Lemma configure_task_mpa_only_witness :
  ∃ cfg' meta' ret,
    configure_task Sample.add_hook
      (Sample.cfg "MERGE" (Sample.train_cfg (Some ["b"; "c"]) None)) false
      (Sample.meta (Some ["a"]) None) [] [] None
    = Ok (cfg', meta', ret) ∧
    cfg_custom_hooks cfg' = [] ∧
    head_num_classes (cfg_head cfg') = Some 3.
Proof.
  destruct (configure_task Sample.add_hook
              (Sample.cfg "MERGE" (Sample.train_cfg (Some ["b"; "c"]) None))
              false (Sample.meta (Some ["a"]) None) [] [] None)
    as [[[cfg' meta'] ret]|e] eqn:Hrun; [|by vm_compute in Hrun].
  exists cfg', meta', ret. split; [done|]. split.
  - exact (proj1 (configure_task_mpa_only Sample.add_hook _ _ _ _ _ _ _ _ _
                    (or_introl eq_refl) Hrun)).
  - vm_compute in Hrun. by injection Hrun as <- _ _.
Defined.

Lemma configure_task_mpa_pseudo_label_witness :
  ∃ cfg' meta' ret,
    configure_task Sample.add_hook
      (Sample.cfg "MERGE" (Samples2.train_cfg_tv ["b"])) true
      (Sample.meta (Some ["a"]) None) [] [] (Some "res.npy")
    = Ok (cfg', meta', ret) ∧
    td_pre_stage_res (cfg_train cfg') = Some "res.npy".
Proof.
  destruct (configure_task Sample.add_hook
              (Sample.cfg "MERGE" (Samples2.train_cfg_tv ["b"])) true
              (Sample.meta (Some ["a"]) None) [] [] (Some "res.npy"))
    as [[[cfg' meta'] ret]|e] eqn:Hrun; [|by vm_compute in Hrun].
  exists cfg', meta', ret. split; [done|].
  exact (proj2 (configure_task_mpa_pseudo_label Sample.add_hook
                  (Sample.cfg "MERGE" (Samples2.train_cfg_tv ["b"])) cfg'
                  (Sample.meta (Some ["a"]) None) meta' [] [] "r" "es.npy"
                  ret eq_refl Hrun)).
Defined.

Lemma configure_task_eval_pseudo_label_raises_witness :
  ∃ e,
    configure_task Sample.add_hook
      (Sample.cfg "MERGE" (Samples2.train_cfg_CLASSES ["a"])) false
      (Sample.meta (Some ["a"]) None) [] [] (Some "res.npy")
    = Raise e.
Proof.
  apply (configure_task_eval_pseudo_label_raises Sample.add_hook
           (Sample.cfg "MERGE" (Samples2.train_cfg_CLASSES ["a"]))
           (Sample.meta (Some ["a"]) None) [] [] "r" "es.npy").
  right. reflexivity.
Defined.

End ConfigureTaskSamples.

Section HookReached.
Import CustomSingleStageDetector TaskAdapt Reach.
Context {Row Layout : Type}.
Variable copy_ : Row → Row → result Row.
Variable layout : Row → Layout.

(** X13. Which entries the hook mixes, for a mapping of the extended class
    lists that is a class mapping and blocks whose rows are of one shape
    and dtype under each name. The entry of a pattern at a level below
    10 is the mixing of the checkpoint's entry with the model's parameter
    when the first pattern is present on both sides at every level below
    and the patterns up to this one are present at the level. The entry of
    a pattern that is missing on one of the sides at a level, and the
    entries of the patterns after it at that level, are kept: the inner
    loop leaves the level at the first missing name. *)
Theorem load_state_dict_pre_hook_reach
    (map_class_names : list string → list string → list Z)
    (model_dict : gmap string (list Row))
    (model_classes chkpt_classes : list string)
    (chkpt_dict : gmap string (list Row)) (prefix : string)
    (pre post : list string) (p : string) (level : nat) :
  let num_chkpt_classes := length (chkpt_classes ++ ["__BG__"]) in
  let num_model_classes := length (model_classes ++ ["__BG__"]) in
  let model2chkpt :=
    map_class_names (model_classes ++ ["__BG__"])
      (chkpt_classes ++ ["__BG__"]) in
  let chkpt_dict' :=
    (load_state_dict_pre_hook map_class_names copy_ model_dict model_classes
       chkpt_classes chkpt_dict prefix).1 in
  copies_rows copy_ layout →
  ClassMapping (chkpt_classes ++ ["__BG__"]) (model_classes ++ ["__BG__"])
    model2chkpt →
  layouts_agree layout model_dict chkpt_dict prefix →
  select_param_names prefix chkpt_dict = pre ++ p :: post →
  (levels_found model_dict chkpt_dict prefix (pre ++ p :: post) level →
   (∀ q, q ∈ pre ++ [p] → present model_dict chkpt_dict prefix level q) →
   (level < 10)%nat →
   Remixed copy_ model_dict chkpt_dict chkpt_dict' prefix model2chkpt
     num_chkpt_classes num_model_classes
     (prefix +:+ format p (str level))) ∧
  (model_dict !! format p (str level) = None ∨
   chkpt_dict !! (prefix +:+ format p (str level)) = None →
   ∀ q, q ∈ p :: post →
     chkpt_dict' !! (prefix +:+ format q (str level))
     = chkpt_dict !! (prefix +:+ format q (str level))).
Proof.
  intros ncc nmc model2chkpt chkpt_dict' copy_layout Hmap Hlayouts Hnames.
  pose proof (select_param_names_known prefix chkpt_dict) as Hknown.
  rewrite Hnames in Hknown.
  destruct (load_state_dict_pre_hook_Ok copy_ layout
              map_class_names model_dict model_classes chkpt_classes
              chkpt_dict prefix copy_layout Hmap Hlayouts) as [d' Hrun].
  subst chkpt_dict'. rewrite Hrun. cbn [fst].
  unfold load_state_dict_pre_hook in Hrun. rewrite Hnames in Hrun.
  fold ncc nmc model2chkpt in Hrun. split.
  - intros Hfound Hpresent Hlevel.
    destruct (mix_levels_reach copy_ model_dict prefix model2chkpt ncc nmc
                pre post p level Hknown 10%nat 0%nat chkpt_dict d')
      as (cp & mp & mixed & Hcp & Hmp & Hmix & Hd'); [lia | | done | done |].
    { intros l first Hl Hfirst. apply Hfound; [lia | done]. }
    by exists (format p (str level)), cp, mp, mixed.
  - intros Hmiss q Hq.
    by eapply (mix_levels_break copy_ model_dict prefix model2chkpt ncc nmc
                 (pre ++ p :: post) pre post p level).
Qed.

End HookReached.

Section HookReachedSample.
Import CustomSingleStageDetector TaskAdapt Reach.

Lemma load_state_dict_pre_hook_reach_witness :
  let chkpt_dict' :=
    (load_state_dict_pre_hook Sample.mapper Sample.copy_
       HookSample.model_dict ["a"; "b"] ["a"] HookSample.chkpt_dict "").1 in
  Remixed Sample.copy_ HookSample.model_dict HookSample.chkpt_dict
    chkpt_dict' ""
    (Sample.mapper ["a"; "b"; "__BG__"] ["a"; "__BG__"]) 2 3
    "bbox_head.cls_convs.1.weight" ∧
  chkpt_dict' !! "bbox_head.cls_convs.1.bias" = Some [31; 32]%nat.
Proof.
  split.
  - apply (proj1 (load_state_dict_pre_hook_reach Sample.copy_ Sample.layout
                    Sample.mapper
                    HookSample.model_dict ["a"; "b"] ["a"]
                    HookSample.chkpt_dict ""
                    [] ["bbox_head.cls_convs.{}.bias"]
                    "bbox_head.cls_convs.{}.weight" 1
                    copies_rows_sample
                    (mapper_contract _ _) (layouts_agree_sample _ _ _)
                    eq_refl)).
    + intros l first Hl [= <-]. assert (l = 0%nat) as -> by lia.
      split; vm_compute; eauto.
    + intros q Hq. apply list_elem_of_singleton in Hq as ->.
      split; vm_compute; eauto.
    + lia.
  - apply (proj2 (load_state_dict_pre_hook_reach Sample.copy_ Sample.layout
                    Sample.mapper
                    HookSample.model_dict ["a"; "b"] ["a"]
                    HookSample.chkpt_dict ""
                    ["bbox_head.cls_convs.{}.weight"] []
                    "bbox_head.cls_convs.{}.bias" 1
                    copies_rows_sample
                    (mapper_contract _ _) (layouts_agree_sample _ _ _)
                    eq_refl)
             (or_introl eq_refl) "bbox_head.cls_convs.{}.bias").
    left.
Defined.

End HookReachedSample.

(** ** The weight re-indexing hook: whatever the mapper returns *)

Section HookRobust.
Import CustomSingleStageDetector.
Context {Row : Type}.
Variable copy_ : Row → Row → result Row.

(** An exception of the mixing: the [IndexError] of a row index out of
    range, or what [copy_] raises on two rows. *)
Local Abbreviation raised_by_row e :=
  (e = IndexError ∨ ∃ dst src : Row, copy_ dst src = Raise e).

Lemma copy_row_cases (model_param chkpt_param : list Row) (dst src : nat) :
  match copy_row copy_ model_param chkpt_param dst src with
  | Ok mixed => length mixed = length model_param
  | Raise e => raised_by_row e
  end.
Proof.
  unfold copy_row. destruct (model_param !! dst) as [dst_row|]; [|by left].
  destruct (chkpt_param !! src) as [src_row|]; [|by left].
  destruct (copy_ dst_row src_row) as [row|e] eqn:Hcopy; simpl.
  - apply length_insert.
  - right. by exists dst_row, src_row.
Qed.

Lemma mix_anchor_cases (nc nm : nat) (chkpt_param : list Row) (a : nat)
    (model2chkpt : list Z) :
  ∀ (m : nat) (model_param : list Row),
  match mix_anchor copy_ nc nm chkpt_param a m model2chkpt model_param with
  | Ok mixed => length mixed = length model_param
  | Raise e => raised_by_row e
  end.
Proof.
  induction model2chkpt as [|c rest IH]; intros m model_param; simpl;
    [done|].
  destruct (decide (0 ≤ c)).
  - pose proof (copy_row_cases model_param chkpt_param (a * nm + m)
                  (a * nc + Z.to_nat c)) as Hrow.
    destruct (copy_row copy_ _ _ _ _) as [mixed|e]; simpl; [|done].
    specialize (IH (S m) mixed).
    destruct (mix_anchor copy_ _ _ _ _ _ _ _); [congruence | done].
  - simpl. apply IH.
Qed.

Lemma mix_anchors_cases (nc nm : nat) (chkpt_param : list Row)
    (model2chkpt : list Z) (anchors : list nat) :
  ∀ model_param : list Row,
  match mix_anchors copy_ nc nm chkpt_param model2chkpt anchors
          model_param with
  | Ok mixed => length mixed = length model_param
  | Raise e => raised_by_row e
  end.
Proof.
  induction anchors as [|a rest IH]; intros model_param; simpl; [done|].
  pose proof (mix_anchor_cases nc nm chkpt_param a model2chkpt 0
                model_param) as Hanchor.
  destruct (mix_anchor copy_ _ _ _ _ _ _ _) as [mixed|e]; simpl; [|done].
  specialize (IH mixed).
  destruct (mix_anchors copy_ _ _ _ _ _ _); [congruence | done].
Qed.

(** X14. Whatever mapping the class-name mapper returns and whatever the
    rows are, the hook neither adds nor removes an entry of the checkpoint
    dict, and every entry it changes has as many rows as the model's
    parameter of that name. An exception it raises is the [IndexError] of
    a row index out of range or the one that [copy_] raises on a row of the
    model and a row of the checkpoint, the [RuntimeError] of shapes that
    cannot be broadcast. *)
Theorem load_state_dict_pre_hook_robust
    (map_class_names : list string → list string → list Z)
    (model_dict : gmap string (list Row))
    (model_classes chkpt_classes : list string)
    (chkpt_dict : gmap string (list Row)) (prefix : string) :
  let run :=
    load_state_dict_pre_hook map_class_names copy_ model_dict model_classes
      chkpt_classes chkpt_dict prefix in
  dom run.1 = dom chkpt_dict ∧
  (∀ chkpt_name, run.1 !! chkpt_name ≠ chkpt_dict !! chkpt_name →
     ∃ model_name model_param mixed,
       chkpt_name = prefix +:+ model_name ∧
       model_dict !! model_name = Some model_param ∧
       run.1 !! chkpt_name = Some mixed ∧
       length mixed = length model_param) ∧
  (∀ e, run.2 = Raise e →
     e = IndexError ∨ ∃ dst src : Row, copy_ dst src = Raise e).
Proof.
  intros run.
  destruct (load_state_dict_pre_hook_run copy_ map_class_names model_dict
              model_classes chkpt_classes chkpt_dict prefix)
    as (chkpt_dict' & r & Hrun & Hentries & Hraise).
  subst run. rewrite Hrun. simpl. split; [|split].
  - apply set_eq. intros k. rewrite !elem_of_dom.
    destruct (Hentries k) as [-> | Hmixed]; [done|].
    destruct Hmixed as (name & cp & mp & mixed & _ & -> & _ & -> & _).
    split; eauto.
  - intros k Hne. destruct (Hentries k) as [Heq | Hmixed]; [done|].
    destruct Hmixed as (name & cp & mp & mixed & -> & _ & Hmp & Hk & Hmix).
    exists name, mp, mixed. repeat (split; [done|]).
    unfold mix_param in Hmix.
    pose proof (mix_anchors_cases
                  (length (chkpt_classes ++ ["__BG__"]))
                  (length (model_classes ++ ["__BG__"])) cp
                  (map_class_names (model_classes ++ ["__BG__"])
                     (chkpt_classes ++ ["__BG__"]))
                  (seq 0 ((length cp / length (chkpt_classes ++ ["__BG__"]))
                          `min` (length mp
                                 / length (model_classes ++ ["__BG__"]))))
                  mp) as Hcases.
    by rewrite Hmix in Hcases.
  - intros e He. destruct (Hraise e He) as (name & cp & mp & _ & _ & Hmix).
    unfold mix_param in Hmix.
    pose proof (mix_anchors_cases
                  (length (chkpt_classes ++ ["__BG__"]))
                  (length (model_classes ++ ["__BG__"])) cp
                  (map_class_names (model_classes ++ ["__BG__"])
                     (chkpt_classes ++ ["__BG__"]))
                  (seq 0 ((length cp / length (chkpt_classes ++ ["__BG__"]))
                          `min` (length mp
                                 / length (model_classes ++ ["__BG__"]))))
                  mp) as Hcases.
    by rewrite Hmix in Hcases.
Qed.

End HookRobust.

Section HookRobustSample.
Import CustomSingleStageDetector.

Lemma copies_rows_vectors : copies_rows RowSample.copy_ RowSample.layout.
Proof.
  intros dst src Hlayout. unfold RowSample.copy_, RowSample.layout in *.
  by rewrite decide_True.
Qed.

(** Rows of two elements cannot be copied onto rows of three: the hook
    raises the [RuntimeError] of [copy_] and leaves the checkpoint dict as
    it was. *)
Example load_state_dict_pre_hook_shape_mismatch :
  load_state_dict_pre_hook Sample.mapper RowSample.copy_
    RowSample.model_dict ["a"] ["a"] RowSample.chkpt_dict ""
  = (RowSample.chkpt_dict, Raise RuntimeError).
Proof. by vm_compute. Qed.

End HookRobustSample.

(** ** The label adaptation of the detection pipeline *)

Section AdaptLabels.
Import TaskAdaptDataset TaskAdapt.
Context {Other : Type}.

Variable map_class_names : list string → list string → list Z.

(** What the callers rely on: the result has one entry per name of the
    first list, its index in the second list or [-1]. *)
Hypothesis map_class_names_contract :
  ∀ first second, ClassMapping second first (map_class_names first second).

Lemma py_getitem_cases {A : Type} (l : list A) (i : Z) :
  let n := Z.of_nat (length l) in
  (- n ≤ i < n ∧
   ∃ x, py_getitem l i = Ok x ∧
        l !! Z.to_nat (if decide (i < 0) then n + i else i) = Some x) ∨
  (¬ (- n ≤ i < n) ∧ py_getitem l i = Raise IndexError).
Proof.
  intros n. unfold py_getitem. fold n.
  destruct (decide (i < 0)) as [Hneg|Hpos].
  - destruct (decide (n + i < 0)) as [Hlow|Hlow]; [right; split; [lia|done]|].
    destruct (lookup_lt_is_Some_2 l (Z.to_nat (n + i))) as [x Hx];
      [subst n; lia|].
    rewrite Hx. left. split; [lia|]. eauto.
  - destruct (decide (i < 0)) as [?|_]; [done|].
    destruct (l !! Z.to_nat i) as [x|] eqn:Hx.
    + apply lookup_lt_Some in Hx as Hlt. left. split; [subst n; lia|]. eauto.
    + apply lookup_ge_None in Hx. right. split; [subst n; lia | done].
Qed.

Lemma adapt_labels_range (self : AdaptClassLabels) (src_labels : list Z) :
  let n := Z.of_nat (length (src2dst self)) in
  (Forall (λ src_label, - n ≤ src_label < n) src_labels →
   ∃ dst_labels,
     adapt_labels self src_labels = Ok dst_labels ∧
     Forall2 (λ src_label dst_label,
                src2dst self
                  !! Z.to_nat (if decide (src_label < 0)
                               then n + src_label else src_label)
                = Some dst_label)
       src_labels dst_labels) ∧
  (¬ Forall (λ src_label, - n ≤ src_label < n) src_labels →
   adapt_labels self src_labels = Raise IndexError).
Proof.
  intros n. induction src_labels as [|l rest [IHok IHraise]].
  - split; [by exists [] | intros []; constructor].
  - cbn [adapt_labels].
    destruct (py_getitem_cases (src2dst self) l)
      as [(Hl & x & -> & Hx) | [Hl ->]]; fold n in Hl;
      cbn [mbind result_bind].
    + split.
      * intros [_ Hrest]%Forall_cons.
        destruct (IHok Hrest) as (dst_labels & -> & Hall).
        exists (x :: dst_labels). split; [done|]. by constructor.
      * intros Hnot. rewrite IHraise; [done|].
        intros Hrest. apply Hnot. by constructor.
    + split; [|done]. by intros [? _]%Forall_cons.
Qed.

Lemma src2dst_length (src_classes dst_classes : list string) :
  length (src2dst (AdaptClassLabels_init map_class_names src_classes
                     dst_classes))
  = length src_classes.
Proof.
  simpl. by destruct (map_class_names_contract src_classes dst_classes).
Qed.

(** X15. [AdaptClassLabels] maps the labels exactly when each of them is an
    index of the source class list, counted from the front or, when
    negative, from the end; it then replaces the [gt_labels] entry and
    keeps the other entries. A label out of that range raises
    [IndexError], and a sample without [gt_labels] raises [KeyError]; in
    both cases the sample is left as it was. *)
Theorem AdaptClassLabels_call_range (src_classes dst_classes : list string)
    (data : Data Other) :
  let self := AdaptClassLabels_init map_class_names src_classes dst_classes in
  let n := Z.of_nat (length src_classes) in
  match gt_labels data with
  | None => AdaptClassLabels_call self data = Raise (KeyError "gt_labels")
  | Some src_labels =>
      (Forall (λ src_label, - n ≤ src_label < n) src_labels →
       ∃ dst_labels,
         AdaptClassLabels_call self data
         = Ok {| gt_labels := Some dst_labels; other := other data |} ∧
         Forall2 (λ src_label dst_label,
                    src2dst self
                      !! Z.to_nat (if decide (src_label < 0)
                                   then n + src_label else src_label)
                    = Some dst_label)
           src_labels dst_labels) ∧
      (¬ Forall (λ src_label, - n ≤ src_label < n) src_labels →
       AdaptClassLabels_call self data = Raise IndexError)
  end.
Proof.
  intros self n. unfold AdaptClassLabels_call.
  destruct (gt_labels data) as [src_labels|]; [|done]. simpl.
  destruct (adapt_labels_range self src_labels) as [Hok Hraise].
  unfold self in Hok, Hraise. rewrite src2dst_length in Hok, Hraise.
  fold self n in Hok, Hraise. split.
  - intros Hall. destruct (Hok Hall) as (dst_labels & -> & Hall2).
    simpl. eauto.
  - intros Hnot. by rewrite (Hraise Hnot).
Qed.

(** X16. Every label that is an index of the source class list keeps its
    class: the adapted label is [-1] when the destination class list does
    not have the class name of the source label, and otherwise the index
    of that name in the destination list. *)
Theorem AdaptClassLabels_call_names (src_classes dst_classes : list string)
    (data : Data Other) (src_labels : list Z) :
  gt_labels data = Some src_labels →
  Forall (λ src_label, 0 ≤ src_label < Z.of_nat (length src_classes))
    src_labels →
  ∃ dst_labels,
    AdaptClassLabels_call
      (AdaptClassLabels_init map_class_names src_classes dst_classes) data
    = Ok {| gt_labels := Some dst_labels; other := other data |} ∧
    length dst_labels = length src_labels ∧
    ∀ (i : nat) (src_label : Z) (name : string),
      src_labels !! i = Some src_label →
      src_classes !! Z.to_nat src_label = Some name →
      ∃ dst_label,
        dst_labels !! i = Some dst_label ∧
        (dst_label = -1 ↔ name ∉ dst_classes) ∧
        (dst_label ≠ -1 →
         0 ≤ dst_label ∧ dst_classes !! Z.to_nat dst_label = Some name).
Proof.
  intros Hdata Hrange. unfold AdaptClassLabels_call. rewrite Hdata. simpl.
  destruct (adapt_labels_range
              (AdaptClassLabels_init map_class_names src_classes dst_classes)
              src_labels) as [Hok _].
  rewrite src2dst_length in Hok.
  destruct Hok as (dst_labels & -> & Hall).
  { eapply Forall_impl; [exact Hrange|]. simpl. intros l Hl. lia. }
  exists dst_labels. split; [done|].
  split; [symmetry; by eapply Forall2_length|].
  intros i src_label name Hi Hname.
  destruct (Forall2_lookup_l _ _ _ _ _ Hall Hi) as (dst_label & Hdst & Hmap).
  exists dst_label. split; [done|].
  rewrite Forall_lookup in Hrange. specialize (Hrange i src_label Hi).
  rewrite decide_False in Hmap by lia. simpl in Hmap.
  destruct (map_class_names_contract src_classes dst_classes) as [_ Hcontract].
  destruct (Hcontract _ _ Hname) as (v & Hv & Habs & Hpres).
  assert (v = dst_label) as -> by congruence. done.
Qed.

End AdaptLabels.

Section AdaptLabelsSamples.
Import TaskAdaptDataset TaskAdapt.

Lemma AdaptClassLabels_call_range_witness :
  (∃ dst_labels,
     AdaptClassLabels_call
       (AdaptClassLabels_init Sample.mapper ["a"; "b"; "c"] ["c"; "a"])
       {| gt_labels := Some [0; -1]; other := () |}
     = Ok {| gt_labels := Some dst_labels; other := () |}) ∧
  AdaptClassLabels_call
    (AdaptClassLabels_init Sample.mapper ["a"; "b"; "c"] ["c"; "a"])
    {| gt_labels := Some [0; 3]; other := () |}
  = Raise IndexError.
Proof.
  split.
  - destruct (proj1 (AdaptClassLabels_call_range Sample.mapper
                       mapper_contract ["a"; "b"; "c"] ["c"; "a"]
                       {| gt_labels := Some [0; -1]; other := () |}))
      as (dst_labels & Hcall & _).
    + repeat constructor; simpl; lia.
    + by exists dst_labels.
  - apply (proj2 (AdaptClassLabels_call_range Sample.mapper
                    mapper_contract ["a"; "b"; "c"] ["c"; "a"]
                    {| gt_labels := Some [0; 3]; other := () |})).
    intros Hall. apply Forall_cons in Hall as [_ Hall].
    apply Forall_cons in Hall as [Hall _]. simpl in Hall. lia.
Defined.

Lemma AdaptClassLabels_call_names_witness :
  ∃ dst_labels,
    AdaptClassLabels_call
      (AdaptClassLabels_init Sample.mapper ["a"; "b"; "c"] ["c"; "a"])
      {| gt_labels := Some [0; 1; 2]; other := () |}
    = Ok {| gt_labels := Some dst_labels; other := () |} ∧
    length dst_labels = 3%nat.
Proof.
  destruct (AdaptClassLabels_call_names Sample.mapper mapper_contract
              ["a"; "b"; "c"] ["c"; "a"]
              {| gt_labels := Some [0; 1; 2]; other := () |} [0; 1; 2]
              eq_refl)
    as (dst_labels & Hcall & Hlen & _).
  - repeat constructor; simpl; lia.
  - by exists dst_labels.
Defined.

End AdaptLabelsSamples.

(** ** The evaluation wrapper *)

Section Evaluate.
Import TaskAdaptDataset TaskAdapt.
Context {Dataset DatasetCfg Det Metrics : Type}.

Variable map_class_names : list string → list string → list Z.
Variable build_dataset : string → DatasetCfg → Dataset.
Variable dataset_CLASSES : Dataset → list string.
Variable dataset_evaluate : Dataset → list (list Det) → Metrics.
Variable coco_reorder : list string → Dataset → Dataset.
Variable empty : Det.

Hypothesis map_class_names_contract :
  ∀ first second, ClassMapping second first (map_class_names first second).

Lemma adapt_result_spec (data2model : list Z) (image_result : list Det) :
  (∀ v, v ∈ data2model → v < Z.of_nat (length image_result)) →
  ∃ adapted,
    adapt_result empty data2model image_result = Ok adapted ∧
    length adapted = length data2model ∧
    ∀ (c : nat) (v : Z), data2model !! c = Some v →
      (0 ≤ v → adapted !! c = image_result !! Z.to_nat v) ∧
      (v < 0 → adapted !! c = Some empty).
Proof.
  induction data2model as [|v rest IH]; intros Hrange.
  - exists []. by repeat split.
  - destruct IH as (dets & Hrest & Hlen & Hdets).
    { intros v' Hv'. apply Hrange. by right. }
    cbn [adapt_result]. rewrite Hrest.
    assert (∃ det,
              (if decide (0 ≤ v) then py_getitem image_result v
               else Ok empty) = Ok det ∧
              (0 ≤ v → Some det = image_result !! Z.to_nat v) ∧
              (v < 0 → det = empty)) as (det & -> & Hpos & Hneg).
    { destruct (decide (0 ≤ v)) as [Hv|Hv].
      - destruct (lookup_lt_is_Some_2 image_result (Z.to_nat v)) as [x Hx].
        { specialize (Hrange v (list_elem_of_here _ _)). lia. }
        exists x. rewrite (py_getitem_nonneg _ _ _ Hv Hx).
        split; [done|]. split; [done | lia].
      - exists empty. split; [done|]. split; [lia | done]. }
    exists (det :: dets). split; [done|]. split; [simpl; lia|].
    intros [|c] v' Hc; simpl in Hc.
    + injection Hc as <-. simpl. split; [done|]. intros ?. f_equal. auto.
    + simpl. by apply Hdets.
Qed.

Lemma adapt_results_spec (data2model : list Z) (results : list (list Det))
    (n : nat) :
  (∀ v, v ∈ data2model → v < Z.of_nat n) →
  Forall (λ image_result, length image_result = n) results →
  ∃ adapted,
    adapt_results empty data2model results = Ok adapted ∧
    Forall2 (λ image_result adapted_result,
               adapt_result empty data2model image_result = Ok adapted_result)
      results adapted.
Proof.
  intros Hrange. induction results as [|image_result rest IH]; intros Hlen.
  - by exists [].
  - apply Forall_cons in Hlen as [Hn Hlen].
    destruct (IH Hlen) as (others & Hrest & Hall).
    destruct (adapt_result_spec data2model image_result)
      as (adapted & Hadapt & _); [by rewrite Hn|].
    exists (adapted :: others). cbn [adapt_results].
    rewrite Hadapt, Hrest. split; [done|]. by constructor.
Qed.

Local Abbreviation init :=
  (TaskAdaptEvalDataset_init map_class_names build_dataset dataset_CLASSES
     coco_reorder).

Lemma init_data2model (model_classes0 : list string) (org_type : option string)
    (dataset_cfg : DatasetCfg) (self : TaskAdaptEvalDataset) :
  init model_classes0 org_type dataset_cfg = Ok self →
  model_classes self = model_classes0 ∧
  ClassMapping model_classes0 (CLASSES self) (data2model self).
Proof.
  unfold TaskAdaptEvalDataset_init. destruct org_type as [ty|]; [|done].
  simpl. intros [= <-]. simpl. split; [done|].
  apply map_class_names_contract.
Qed.

(** X17. The evaluation wrapper reorders the per-class results of the
    model into the order of the dataset's classes. When every image has
    one result per model class, [evaluate] passes to the wrapped dataset
    one list per image, with one entry per dataset class: the model's
    result for the class of that name, or the empty array when the model
    does not have the class. *)
Theorem evaluate_adapts (model_classes0 : list string)
    (org_type : option string) (dataset_cfg : DatasetCfg)
    (self : TaskAdaptEvalDataset) (results : list (list Det)) :
  TaskAdaptEvalDataset_init map_class_names build_dataset dataset_CLASSES
    coco_reorder model_classes0 org_type dataset_cfg = Ok self →
  Forall (λ image_result, length image_result = length model_classes0)
    results →
  ∃ adapted,
    evaluate dataset_evaluate empty self results
    = Ok (dataset_evaluate (dataset self) adapted) ∧
    length adapted = length results ∧
    ∀ (i : nat) (image_result : list Det),
      results !! i = Some image_result →
      ∃ adapted_result,
        adapted !! i = Some adapted_result ∧
        length adapted_result = length (CLASSES self) ∧
        ∀ (c : nat) (name : string), CLASSES self !! c = Some name →
          (name ∉ model_classes0 → adapted_result !! c = Some empty) ∧
          (name ∈ model_classes0 →
           ∃ m : nat, model_classes0 !! m = Some name ∧
                      adapted_result !! c = image_result !! m).
Proof.
  intros Hinit Hlen.
  apply init_data2model in Hinit as [_ Hmap].
  assert (∀ v, v ∈ data2model self → v < Z.of_nat (length model_classes0))
    as Hrange.
  { intros v Hv. by destruct (ClassMapping_range _ _ _ _ Hmap Hv). }
  destruct (adapt_results_spec (data2model self) results
              (length model_classes0) Hrange Hlen)
    as (adapted & Hrun & Hall).
  exists adapted. unfold evaluate. rewrite Hrun. split; [done|].
  split; [symmetry; by eapply Forall2_length|].
  intros i image_result Hi.
  destruct (Forall2_lookup_l _ _ _ _ _ Hall Hi)
    as (adapted_result & Hadapted & Hadapt).
  exists adapted_result. split; [done|].
  rewrite Forall_lookup in Hlen. specialize (Hlen i image_result Hi).
  destruct (adapt_result_spec (data2model self) image_result)
    as (adapted' & Hadapt' & Hlen' & Hentries); [by rewrite Hlen|].
  assert (adapted' = adapted_result) as -> by congruence.
  destruct Hmap as [Hmaplen Hmap].
  split; [congruence|].
  intros c name Hname.
  destruct (Hmap c name Hname) as (v & Hv & Habs & Hpres).
  destruct (Hentries c v Hv) as [Hpos Hneg]. split.
  - intros Hnot. apply Hneg. apply Habs in Hnot. lia.
  - intros Hin. destruct (decide (v = -1)) as [->|Hne].
    + by destruct (proj1 Habs eq_refl).
    + destruct (Hpres Hne) as [Hv0 Hm]. exists (Z.to_nat v).
      split; [done | by apply Hpos].
Qed.

(** X18. When the classes of the dataset are the model's classes, in the
    same order and free of duplicates, the wrapper evaluates the results
    as they are. *)
Theorem evaluate_same_classes (model_classes0 : list string)
    (org_type : option string) (dataset_cfg : DatasetCfg)
    (self : TaskAdaptEvalDataset) (results : list (list Det)) :
  TaskAdaptEvalDataset_init map_class_names build_dataset dataset_CLASSES
    coco_reorder model_classes0 org_type dataset_cfg = Ok self →
  CLASSES self = model_classes0 →
  NoDup model_classes0 →
  Forall (λ image_result, length image_result = length model_classes0)
    results →
  evaluate dataset_evaluate empty self results
  = Ok (dataset_evaluate (dataset self) results).
Proof.
  intros Hinit Hsame Hnodup Hlen.
  apply init_data2model in Hinit as [_ Hmap]. rewrite Hsame in Hmap.
  assert (∀ v, v ∈ data2model self → v < Z.of_nat (length model_classes0))
    as Hrange.
  { intros v Hv. by destruct (ClassMapping_range _ _ _ _ Hmap Hv). }
  destruct (adapt_results_spec (data2model self) results
              (length model_classes0) Hrange Hlen)
    as (adapted & Hrun & Hall).
  unfold evaluate. rewrite Hrun. simpl. do 2 f_equal.
  clear Hrun. induction Hall as [|image_result adapted_result rest others
                                   Hadapt _ IH]; [done|].
  apply Forall_cons in Hlen as [Hn Hlen]. f_equal; [|by apply IH].
  destruct (adapt_result_spec (data2model self) image_result)
    as (adapted' & Hadapt' & Hlen' & Hentries); [by rewrite Hn|].
  assert (adapted' = adapted_result) as -> by congruence.
  destruct Hmap as [Hmaplen Hmap'].
  apply list_eq. intros c.
  destruct (decide (c < length model_classes0)%nat) as [Hc|Hc].
  - pose proof (ClassMapping_identity model_classes0 (data2model self) c
                  Hnodup (conj Hmaplen Hmap') Hc) as Hid.
    destruct (Hentries c (Z.of_nat c) Hid) as [Hpos _].
    rewrite Hpos by lia. by rewrite Nat2Z.id.
  - rewrite !lookup_ge_None_2; [done | lia | lia].
Qed.

End Evaluate.

Section EvaluateSamples.
Import TaskAdaptDataset TaskAdapt.

(** A wrapped dataset is given by its classes, a detection result by a
    number, and the wrapped evaluation returns the results it is given. *)
Lemma evaluate_adapts_witness :
  ∃ self,
    TaskAdaptEvalDataset_init Sample.mapper (λ _ CLASSES, CLASSES) id
      (λ _ dataset, dataset) ["a"; "b"] (Some "VOCDataset") ["b"; "c"; "a"]
    = Ok self ∧
    evaluate (λ _ adapted, adapted) 0%nat self [[10; 20]; [11; 21]]%nat
    = Ok [[20; 0; 10]; [21; 0; 11]]%nat.
Proof.
  eexists. split; [reflexivity|].
  destruct (evaluate_adapts Sample.mapper (λ _ CLASSES, CLASSES) id
              (λ _ adapted, adapted) (λ _ dataset, dataset) 0%nat
              mapper_contract ["a"; "b"] (Some "VOCDataset") ["b"; "c"; "a"]
              _ [[10; 20]; [11; 21]]%nat eq_refl)
    as (adapted & Hrun & _).
  - repeat constructor.
  - rewrite Hrun. by vm_compute in Hrun.
Defined.

Lemma evaluate_same_classes_witness :
  ∃ self,
    TaskAdaptEvalDataset_init Sample.mapper (λ _ CLASSES, CLASSES) id
      (λ _ dataset, dataset) ["a"; "b"] (Some "VOCDataset") ["a"; "b"]
    = Ok self ∧
    evaluate (λ _ adapted, adapted) 0%nat self [[10; 20]; [11; 21]]%nat
    = Ok [[10; 20]; [11; 21]]%nat.
Proof.
  eexists. split; [reflexivity|].
  apply (evaluate_same_classes Sample.mapper (λ _ CLASSES, CLASSES) id
           (λ _ adapted, adapted) (λ _ dataset, dataset) 0%nat
           mapper_contract ["a"; "b"] (Some "VOCDataset") ["a"; "b"]
           _ [[10; 20]; [11; 21]]%nat eq_refl eq_refl).
  - apply (bool_decide_unpack _). by vm_compute.
  - repeat constructor.
Defined.

End EvaluateSamples.

(** ** Facts about the string operations *)

Section PyStrFacts.
Import PyStr.

Lemma append_cons (c : ascii) (s k : string) :
  String c s +:+ k = String c (s +:+ k).
Proof. reflexivity. Qed.

Lemma prefix_append (s k : string) : String.prefix s (s +:+ k) = true.
Proof.
  induction s as [|c s IH]; [by destruct k|].
  rewrite append_cons. simpl. by destruct (Ascii.ascii_dec c c).
Qed.

Lemma contains_prefix (sub s : string) :
  String.prefix sub s = true → contains sub s = true.
Proof.
  intros Hprefix.
  assert (contains sub s
          = String.prefix sub s
            || match s with
               | EmptyString => false
               | String _ rest => contains sub rest
               end) as -> by (by destruct s).
  by rewrite Hprefix.
Qed.

Lemma contains_append (s k : string) : contains s (s +:+ k) = true.
Proof. apply contains_prefix, prefix_append. Qed.

Lemma replace_from_skip (old new p k : string) :
  replace_from old new (String.length p) (p +:+ k) = replace_from old new 0 k.
Proof. induction p as [|c p IH]; [done|]. by rewrite append_cons. Qed.

Lemma replace_from_absent (old new k : string) :
  contains old k = false → replace_from old new 0 k = k.
Proof.
  induction k as [|c k IH]; [done|]. simpl.
  intros [Hprefix Hrest]%orb_false_elim.
  cbn [String.prefix] in Hprefix. destruct old as [|a old]; [done|].
  simpl in Hprefix |- *. rewrite Hprefix. by rewrite IH.
Qed.

(** Removing an occurrence that was put in front gives the string back. *)
Lemma replace_append (old k : string) :
  old ≠ "" → contains old k = false → replace (old +:+ k) old "" = k.
Proof.
  intros Hold Habsent. destruct old as [|a old]; [done|].
  unfold replace. rewrite append_cons.
  cbn [replace_from]. rewrite <- append_cons, prefix_append.
  replace (String.length (String a old) - 1)%nat with (String.length old)
    by (simpl; lia).
  rewrite replace_from_skip, replace_from_absent by done. reflexivity.
Qed.

End PyStrFacts.

(** ** Facts about removing from a dictionary *)

Section OrderedDictFacts.
Import OrderedDict.
Context {V : Type}.
Implicit Types (d : list (string * V)) (key : string) (v : V).

Lemma dict_set_fresh d key v :
  key ∉ d.*1 → Dict.set d key v = d ++ [(key, v)].
Proof.
  induction d as [|[k x] rest IH]; intros Hfresh; [done|].
  rewrite fmap_cons in Hfresh. cbn [fst] in Hfresh.
  apply not_elem_of_cons in Hfresh as [Hne Hfresh].
  cbn [Dict.set]. rewrite decide_False by done. by rewrite IH.
Qed.

Lemma dict_get_is_Some d key : key ∈ d.*1 → is_Some (Dict.get d key).
Proof.
  intros Hin. destruct (Dict.get d key) eqn:Hget; [done|].
  by apply dict_get_None in Hget.
Qed.

Lemma elem_of_remove d key (x : string * V) :
  x ∈ remove d key → x ∈ d.
Proof.
  induction d as [|[k w] rest IH]; [done|]. cbn [remove].
  destruct (decide (k = key)); [by right|].
  intros [->|Hin]%elem_of_cons; [left | right; by apply IH].
Qed.

Lemma remove_keys d key :
  NoDup d.*1 →
  NoDup (remove d key).*1 ∧
  ∀ k, k ∈ (remove d key).*1 ↔ k ∈ d.*1 ∧ k ≠ key.
Proof.
  induction d as [|[k w] rest IH]; intros Hnodup.
  - split; [constructor|]. intros k. split; [by intros ?%elem_of_nil|].
    by intros [?%elem_of_nil _].
  - rewrite fmap_cons in Hnodup. cbn [fst] in Hnodup.
    apply NoDup_cons in Hnodup as [Hk Hnodup].
    destruct (IH Hnodup) as [IHnodup IHin]. cbn [remove].
    destruct (decide (k = key)) as [->|Hne].
    + split; [done|]. intros k. rewrite fmap_cons. cbn [fst].
      rewrite elem_of_cons. split; [|tauto].
      intros Hin. split; [by right|]. by intros ->.
    + rewrite !fmap_cons. cbn [fst]. split.
      * apply NoDup_cons. split; [|done]. rewrite IHin. tauto.
      * intros k'. rewrite !elem_of_cons, IHin. split; [|tauto].
        intros [->|[? ?]]; tauto.
Qed.

Lemma dict_set_NoDup d key v : NoDup d.*1 → NoDup (Dict.set d key v).*1.
Proof.
  intros Hnodup. rewrite dict_set_keys. case_decide; [done|].
  apply NoDup_app. split; [done|]. split; [|apply NoDup_singleton].
  intros k Hk ->%list_elem_of_singleton. done.
Qed.

Lemma elem_of_dict_set_inv d key v (x : string * V) :
  x ∈ Dict.set d key v → x = (key, v) ∨ x ∈ d.
Proof.
  induction d as [|[k w] rest IH]; cbn [Dict.set].
  - intros ->%list_elem_of_singleton. by left.
  - destruct (decide (k = key)) as [->|Hne].
    + intros [->|Hin]%elem_of_cons; [by left | right; by right].
    + intros [->|Hin]%elem_of_cons; [right; left|].
      destruct (IH Hin) as [->|?]; [by left | right; by right].
Qed.

End OrderedDictFacts.

(** ** The state dict hooks of the unbiased teacher *)

Section TeacherHooks.
Import UnbiasedTeacher OrderedDict.
Context {Tensor : Type}.
Implicit Types (d state_dict : list (string * Tensor)).

Lemma input_key_shape (k : string) :
  PyStr.contains "model_s." (input_key k) = true ∨
  String.prefix "model_t." (input_key k) = true.
Proof.
  unfold input_key. destruct (PyStr.contains "model_s." k) eqn:Hs.
  - by left.
  - right. apply prefix_append.
Qed.

Lemma load_state_dict_pre_hook_loop_total (keys : list string) :
  ∀ d, NoDup d.*1 → NoDup keys → keys ⊆ d.*1 →
  ∃ d',
    load_state_dict_pre_hook_loop keys d = (d', Ok ()) ∧
    NoDup d'.*1 ∧
    ∀ k v, (k, v) ∈ d' →
      ((k ∈ d.*1 ∧ k ∉ keys) ∨ ∃ k0, k0 ∈ keys ∧ k = input_key k0) ∧
      v ∈ d.*2.
Proof.
  induction keys as [|key rest IH]; intros d Hd Hkeys Hsub.
  - exists d. split; [done|]. split; [done|]. intros k v Hin. split.
    + left. split; [|apply not_elem_of_nil].
      apply list_elem_of_fmap. by exists (k, v).
    + apply list_elem_of_fmap. by exists (k, v).
  - apply NoDup_cons in Hkeys as [Hkey Hkeys].
    destruct (dict_get_is_Some d key) as [v Hget]; [apply Hsub; left|].
    cbn [load_state_dict_pre_hook_loop]. unfold pop. rewrite Hget.
    destruct (remove_keys d key Hd) as [Hremoved Hin_removed].
    destruct (IH (Dict.set (remove d key) (input_key key) v))
      as (d' & Hrun & Hd' & Hentries).
    { by apply dict_set_NoDup. }
    { done. }
    { intros k Hk. rewrite dict_set_keys.
      assert (k ∈ (remove d key).*1) as Hin.
      { apply Hin_removed. split; [apply Hsub; by right|]. by intros ->. }
      case_decide; [done|]. apply elem_of_app. by left. }
    exists d'. split; [done|]. split; [done|].
    intros k w Hin. destruct (Hentries k w Hin) as [Hk Hw]. split.
    + destruct Hk as [[Hk Hnot] | (k0 & Hk0 & ->)].
      * rewrite dict_set_keys in Hk.
        assert (k ∈ (remove d key).*1 ∨ k = input_key key) as [Hk'| ->].
        { case_decide; [by left|].
          apply elem_of_app in Hk as [?|?%list_elem_of_singleton]; eauto. }
        -- left. apply Hin_removed in Hk' as [? ?]. split; [done|].
           apply not_elem_of_cons. done.
        -- right. exists key. split; [left | done].
      * right. exists k0. split; [by right | done].
    + apply list_elem_of_fmap in Hw as ([k' w'] & -> & Hin').
      apply elem_of_dict_set_inv in Hin' as [[= -> ->] | Hin'].
      * apply dict_get_Some_elem in Hget.
        apply list_elem_of_fmap. by exists (key, v).
      * apply elem_of_remove in Hin'.
        apply list_elem_of_fmap. by exists (k', w').
Qed.

(** X19. [load_state_dict_pre_hook] of the unbiased teacher never raises:
    every key it pops is still in the state dict. Afterwards every key is
    a student's, which has [model_s.] in it, or begins with [model_t.],
    no two entries share a key, and every tensor is one of the state dict
    that was given. *)
Theorem load_state_dict_pre_hook_total state_dict :
  NoDup state_dict.*1 →
  ∃ state_dict',
    load_state_dict_pre_hook state_dict = (state_dict', Ok ()) ∧
    NoDup state_dict'.*1 ∧
    ∀ k v, (k, v) ∈ state_dict' →
      (PyStr.contains "model_s." k = true ∨
       String.prefix "model_t." k = true) ∧
      v ∈ state_dict.*2.
Proof.
  intros Hnodup.
  destruct (load_state_dict_pre_hook_loop_total state_dict.*1 state_dict)
    as (d' & Hrun & Hd' & Hentries); [done..|].
  exists d'. split; [done|]. split; [done|].
  intros k v Hin. destruct (Hentries k v Hin) as [Hk Hv]. split; [|done].
  destruct Hk as [[Hk Hnot] | (k0 & _ & ->)]; [done|].
  apply input_key_shape.
Qed.

(** When no key that is written meets a key of another entry, each hook
    renames the entries in their order. *)
Lemma state_dict_hook_loop_renames (items : list (string * Tensor)) :
  ∀ output,
  NoDup (output.*1 ++ (output_key <$> items.*1)) →
  state_dict_hook_loop items output
  = output ++ (prod_map output_key id <$> items).
Proof.
  induction items as [|[k v] rest IH]; intros output Hnodup.
  - simpl. by rewrite app_nil_r.
  - rewrite !fmap_cons in Hnodup. cbn [fst] in Hnodup.
    cbn [state_dict_hook_loop]. rewrite dict_set_fresh.
    + rewrite IH.
      * rewrite <- app_assoc. done.
      * rewrite fmap_app, <- app_assoc. done.
    + apply NoDup_app in Hnodup as (_ & Hdisjoint & _).
      intros Hin. apply (Hdisjoint _ Hin). left.
Qed.

Lemma load_state_dict_pre_hook_loop_renames (items : list (string * Tensor)) :
  ∀ acc,
  NoDup items.*1 →
  NoDup (acc.*1 ++ (input_key <$> items.*1)) →
  (∀ k k', k ∈ items.*1 → k' ∈ items.*1 → k ≠ k' → input_key k ≠ k') →
  load_state_dict_pre_hook_loop items.*1 (items ++ acc)
  = (acc ++ (prod_map input_key id <$> items), Ok ()).
Proof.
  induction items as [|[k v] rest IH]; intros acc Hkeys Hnodup Hother.
  - simpl. by rewrite app_nil_r.
  - rewrite !fmap_cons in Hkeys, Hnodup, Hother. cbn [fst] in *.
    apply NoDup_cons in Hkeys as [Hk Hkeys].
    rewrite fmap_cons. cbn [fst load_state_dict_pre_hook_loop].
    unfold pop. cbn [app Dict.get remove]. rewrite !decide_True by done.
    rewrite dict_set_fresh.
    + rewrite <- app_assoc. rewrite IH.
      * rewrite <- app_assoc. done.
      * done.
      * rewrite fmap_app, <- app_assoc. done.
      * intros k1 k2 Hk1 Hk2. apply Hother; by right.
    + rewrite fmap_app. apply NoDup_app in Hnodup as (_ & Hdisjoint & _).
      intros [Hin|Hin]%elem_of_app.
      * apply (Hother k (input_key k)); [left | by right | | done].
        intros Heq. apply Hk. by rewrite Heq.
      * apply (Hdisjoint _ Hin). left.
Qed.

Lemma plain_input_key (k : string) :
  plain k → input_key k = "model_t." +:+ k.
Proof. intros [_ Hs]. unfold input_key. by rewrite Hs. Qed.

Lemma teacher_output_key (x : string) :
  plain x → output_key ("model_t." +:+ x) = x.
Proof.
  intros [Ht _]. unfold output_key. rewrite contains_append.
  by apply replace_append.
Qed.

Lemma student_keys (k : string) :
  student k → output_key k = k ∧ input_key k = k.
Proof.
  intros [Hs Ht]. unfold output_key, input_key. by rewrite Hs, Ht.
Qed.

Lemma fmap_prod_map_keys {A : Type} (f : string → string)
    (items : list (string * A)) :
  (prod_map f id <$> items).*1 = f <$> items.*1.
Proof. induction items as [|[k v] rest IH]; simpl; by f_equal. Qed.

(** X20. Loading and saving a plain checkpoint: when no parameter name of
    the state dict mentions the teacher or the student,
    [load_state_dict_pre_hook] puts every entry under [model_t.] followed
    by its name, in the order of the state dict, and [state_dict_hook]
    gives the state dict back from that. *)
Theorem state_dict_hook_load_state_dict_pre_hook state_dict :
  NoDup state_dict.*1 →
  Forall plain state_dict.*1 →
  load_state_dict_pre_hook state_dict
  = (prod_map (String.append "model_t.") id <$> state_dict, Ok ()) ∧
  state_dict_hook
    (prod_map (String.append "model_t.") id <$> state_dict)
  = state_dict.
Proof.
  intros Hnodup Hplain. rewrite Forall_forall in Hplain.
  assert (prod_map input_key id <$> state_dict
          = prod_map (String.append "model_t.") id <$> state_dict)
    as Hrename.
  { apply Forall_fmap_ext_1, Forall_forall. intros [k v] Hin.
    unfold prod_map. simpl. f_equal. apply plain_input_key, Hplain.
    apply list_elem_of_fmap. by exists (k, v). }
  split.
  - unfold load_state_dict_pre_hook.
    rewrite <- (app_nil_r state_dict) at 2.
    rewrite load_state_dict_pre_hook_loop_renames; [by rewrite Hrename|done| |].
    + simpl. rewrite <- fmap_prod_map_keys, Hrename, fmap_prod_map_keys.
      apply NoDup_fmap_2; [apply _ | done].
    + intros k k' Hk Hk' _ Heq. destruct (Hplain k' Hk') as [Ht _].
      rewrite (plain_input_key k (Hplain k Hk)) in Heq.
      by rewrite <- Heq, contains_append in Ht.
  - unfold state_dict_hook. rewrite state_dict_hook_loop_renames.
    + simpl. rewrite <- list_fmap_compose.
      rewrite <- (list_fmap_id state_dict) at 2.
      apply Forall_fmap_ext_1, Forall_forall. intros [k v] Hin.
      unfold prod_map. simpl. f_equal. apply teacher_output_key, Hplain.
      apply list_elem_of_fmap. by exists (k, v).
    + simpl. rewrite fmap_prod_map_keys, <- list_fmap_compose.
      assert (output_key ∘ String.append "model_t." <$> state_dict.*1
              = state_dict.*1) as ->; [|done].
      rewrite <- (list_fmap_id state_dict.*1) at 2.
      apply Forall_fmap_ext_1, Forall_forall. intros k Hk.
      simpl. by apply teacher_output_key, Hplain.
Qed.

(** X21. Saving and loading the state dict of the unbiased teacher: when
    every parameter name is a teacher's ([model_t.] before a plain name)
    or a student's, [state_dict_hook] gives the teacher's entries under
    their plain names and the student's as they are, in the order of the
    state dict, and [load_state_dict_pre_hook] gives the state dict back
    from that. *)
Theorem load_state_dict_pre_hook_state_dict_hook state_dict :
  NoDup state_dict.*1 →
  Forall (λ k, teacher k ∨ student k) state_dict.*1 →
  state_dict_hook state_dict = prod_map output_key id <$> state_dict ∧
  Forall (λ k, plain k ∨ student k) (state_dict_hook state_dict).*1 ∧
  load_state_dict_pre_hook (state_dict_hook state_dict)
  = (state_dict, Ok ()).
Proof.
  intros Hnodup Hkeys. rewrite Forall_forall in Hkeys.
  assert (∀ k, k ∈ state_dict.*1 →
            input_key (output_key k) = k ∧
            (plain (output_key k) ∨ student (output_key k))) as Hback.
  { intros k Hk. destruct (Hkeys k Hk) as [(x & -> & Hx) | Hs].
    - rewrite (teacher_output_key x Hx).
      split; [by apply plain_input_key | by left].
    - destruct (student_keys k Hs) as [-> ->]. split; [done | by right]. }
  assert (NoDup (output_key <$> state_dict.*1)) as Hout.
  { apply NoDup_fmap_2_strong; [|done]. intros k k' Hk Hk' Heq.
    destruct (Hback k Hk) as [<- _], (Hback k' Hk') as [<- _].
    by rewrite Heq. }
  assert (state_dict_hook state_dict
          = prod_map output_key id <$> state_dict) as Hsave.
  { unfold state_dict_hook. by rewrite state_dict_hook_loop_renames. }
  split; [exact Hsave|]. rewrite Hsave. split.
  - rewrite fmap_prod_map_keys. apply Forall_fmap, Forall_forall.
    intros k Hk. by destruct (Hback k Hk).
  - unfold load_state_dict_pre_hook.
    rewrite <- (app_nil_r (prod_map output_key id <$> state_dict)) at 2.
    rewrite load_state_dict_pre_hook_loop_renames.
    + simpl. rewrite <- list_fmap_compose. f_equal.
      rewrite <- (list_fmap_id state_dict) at 2.
      apply Forall_fmap_ext_1, Forall_forall. intros [k v] Hin.
      unfold prod_map. simpl. f_equal. apply Hback.
      apply list_elem_of_fmap. by exists (k, v).
    + by rewrite fmap_prod_map_keys.
    + simpl. rewrite fmap_prod_map_keys, <- list_fmap_compose.
      assert (input_key ∘ output_key <$> state_dict.*1 = state_dict.*1)
        as ->; [|done].
      rewrite <- (list_fmap_id state_dict.*1) at 2.
      apply Forall_fmap_ext_1, Forall_forall. intros k Hk.
      simpl. by apply Hback.
    + rewrite fmap_prod_map_keys.
      intros k1 k2 (k & -> & Hk)%list_elem_of_fmap
        (k' & -> & Hk')%list_elem_of_fmap Hne Heq.
      destruct (Hback k Hk) as [Hk_back Hk_shape].
      rewrite Hk_back in Heq.
      destruct (Hkeys k Hk) as [(x & -> & Hx) | Hs].
      * destruct (Hback k' Hk') as [_ [[Ht _] | [_ Ht]]];
          by rewrite <- Heq, contains_append in Ht.
      * destruct (student_keys k Hs) as [Hout_k _].
        apply Hne. by rewrite Hout_k.
Qed.

End TeacherHooks.

Section TeacherHooksSamples.
Import UnbiasedTeacher.

Lemma load_state_dict_pre_hook_total_witness :
  ∃ state_dict',
    load_state_dict_pre_hook [("w", 1%nat); ("model_s.w", 2%nat)]
    = (state_dict', Ok ()) ∧
    NoDup state_dict'.*1.
Proof.
  destruct (load_state_dict_pre_hook_total
              [("w", 1%nat); ("model_s.w", 2%nat)])
    as (state_dict' & Hrun & Hnodup & _).
  - apply (bool_decide_unpack _). by vm_compute.
  - by exists state_dict'.
Defined.

(** When a state dict holds a name both plain and under [model_t.], the
    entry under [model_t.] is overwritten before it is popped, and one
    tensor is lost. *)
Example load_state_dict_pre_hook_overwrites :
  load_state_dict_pre_hook [("w", 1%nat); ("model_t.w", 2%nat)]
  = ([("model_t.model_t.w", 1%nat)], Ok ()).
Proof. reflexivity. Qed.

Lemma state_dict_hook_load_state_dict_pre_hook_witness :
  load_state_dict_pre_hook [("head.w", 1%nat); ("head.b", 2%nat)]
  = ([("model_t.head.w", 1%nat); ("model_t.head.b", 2%nat)], Ok ()) ∧
  state_dict_hook [("model_t.head.w", 1%nat); ("model_t.head.b", 2%nat)]
  = [("head.w", 1%nat); ("head.b", 2%nat)].
Proof.
  apply (state_dict_hook_load_state_dict_pre_hook
           [("head.w", 1%nat); ("head.b", 2%nat)]).
  - apply (bool_decide_unpack _). by vm_compute.
  - repeat constructor.
Defined.

Lemma load_state_dict_pre_hook_state_dict_hook_witness :
  state_dict_hook [("model_s.w", 1%nat); ("model_t.w", 2%nat)]
  = [("model_s.w", 1%nat); ("w", 2%nat)] ∧
  load_state_dict_pre_hook [("model_s.w", 1%nat); ("w", 2%nat)]
  = ([("model_s.w", 1%nat); ("model_t.w", 2%nat)], Ok ()).
Proof.
  destruct (load_state_dict_pre_hook_state_dict_hook
              [("model_s.w", 1%nat); ("model_t.w", 2%nat)])
    as (Hsave & _ & Hload).
  - apply (bool_decide_unpack _). by vm_compute.
  - simpl. apply Forall_cons. split; [right; by split|].
    apply Forall_cons. split; [|constructor].
    left. exists "w". by repeat split.
  - split; [exact Hsave | exact Hload].
Defined.

End TeacherHooksSamples.

(** ** The no-bias-decay hook *)

Section NoBiasDecay.
Import NoBiasDecayHook.
Context {Param Num Options : Type}.
Variable zero : Num.
Variable double : Num → Num.

Local Abbreviation Module_ := (@Module_ Param).
Local Abbreviation Lists := (@Lists Param).
Local Abbreviation ParamGroup := (@ParamGroup Param Num Options).

Local Ltac break :=
  repeat match goal with
         | H : _ ∨ _ |- _ => destruct H
         | H : _ ∧ _ |- _ => destruct H
         | H : ∃ _, _ |- _ => destruct H
         | H : is_Some _ |- _ => destruct H
         end;
  simplify_eq.

Local Ltac by_cases :=
  split; intros; break; intuition (simplify_eq; eauto).

Local Ltac by_membership :=
  simpl; (split; [|split]); intros ?;
  rewrite ?elem_of_app, ?list_elem_of_singleton, ?list_elem_of_fmap;
  by_cases.

Lemma visit_classifies (m : Module_) (l : Lists) :
  layer_attributes m →
  ∃ l', visit m l = inr l' ∧
    (∀ p, p ∈ weight_decay_list l' ↔ p ∈ weight_decay_list l ∨ decays m p) ∧
    (∀ p, p ∈ bias_no_decay l' ↔ p ∈ bias_no_decay l ∨ bias_exempt m p) ∧
    (∀ p, p ∈ weight_no_decay l' ↔
          p ∈ weight_no_decay l ∨ weight_exempt m p).
Proof.
  unfold layer_attributes, visit, decays, bias_exempt, weight_exempt.
  intros Hattr.
  destruct (is_conv_or_linear m) eqn:Hconv.
  - destruct (Hattr eq_refl) as [[w ->] [b ->]]. simpl.
    destruct b as [b|]; (eexists; split; [done|]); by_membership.
  - destruct (weight m) as [w|], (bias m) as [b|]; simpl;
      try (eexists; split; [done|]; by_membership).
    destruct (has_children m); (eexists; split; [done|]); by_membership.
Qed.

Lemma collect_classifies (modules : list Module_) :
  ∀ l : Lists,
  Forall layer_attributes modules →
  ∃ l', collect modules l = inr l' ∧
    (∀ p, p ∈ weight_decay_list l' ↔
          p ∈ weight_decay_list l ∨ ∃ m, m ∈ modules ∧ decays m p) ∧
    (∀ p, p ∈ bias_no_decay l' ↔
          p ∈ bias_no_decay l ∨ ∃ m, m ∈ modules ∧ bias_exempt m p) ∧
    (∀ p, p ∈ weight_no_decay l' ↔
          p ∈ weight_no_decay l ∨ ∃ m, m ∈ modules ∧ weight_exempt m p).
Proof.
  induction modules as [|m rest IH]; intros l Hattr.
  - exists l. split; [done|].
    (split; [|split]); intros p; (split; [tauto|]);
      intros [?|(m & []%elem_of_nil & _)]; done.
  - apply Forall_cons in Hattr as [Hm Hrest].
    destruct (visit_classifies m l Hm) as (l1 & Hvisit & Hwd & Hb & Hwn).
    destruct (IH l1 Hrest) as (l' & Hrun & Hwd' & Hb' & Hwn').
    exists l'. simpl. rewrite Hvisit. split; [done|].
    (split; [|split]); intros p;
      rewrite ?Hwd', ?Hb', ?Hwn', ?Hwd, ?Hb, ?Hwn;
      setoid_rewrite elem_of_cons; by_cases.
Qed.

(** X22. Which parameters [NoBiasDecayHook.before_run] puts in which
    group. The first group, with weight decay, holds the weights of the
    convolution and linear layers and the parameters of the modules
    without children that have neither a [weight] nor a [bias] attribute.
    The second holds the biases, the third the [weight] attributes of the
    other modules; a module with children and without the two attributes
    gives nothing itself. *)
Theorem before_run_classifies (modules : list Module_) (group : ParamGroup)
    (param_groups : list ParamGroup) (rate : Num) :
  Forall layer_attributes modules →
  lr group = Some rate →
  ∃ with_decay biases weights g1 g2 g3,
    before_run zero double modules (group :: param_groups)
    = inr [g1; g2; g3] ∧
    params g1 = Some with_decay ∧ params g2 = Some biases ∧
    params g3 = Some weights ∧
    (∀ p, p ∈ with_decay ↔ ∃ m, m ∈ modules ∧ decays m p) ∧
    (∀ p, p ∈ biases ↔ ∃ m, m ∈ modules ∧ bias_exempt m p) ∧
    (∀ p, p ∈ weights ↔ ∃ m, m ∈ modules ∧ weight_exempt m p).
Proof.
  intros Hattr Hrate. unfold before_run.
  destruct (collect_classifies modules
              {| weight_decay_list := []; bias_no_decay := [];
                 weight_no_decay := [] |} Hattr)
    as (l & -> & Hwd & Hb & Hwn).
  rewrite Hrate. eexists _, _, _, _, _, _. split; [done|]. simpl.
  repeat (split; [done|]). simpl in Hwd, Hb, Hwn.
  (split; [|split]); intros p; rewrite ?Hwd, ?Hb, ?Hwn, elem_of_nil; tauto.
Qed.

(** X23. [before_run] builds its three groups from the first group of the
    optimizer alone and drops the others. The three keep the other options
    of that group; the group of biases has twice its learning rate and the
    two groups without decay have the weight decay [0.0]. Running the hook
    a second time gives the same three groups: the learning rate of the
    biases is not doubled again. *)
Theorem before_run_groups (modules : list Module_) (group : ParamGroup)
    (param_groups : list ParamGroup) (rate : Num) :
  Forall layer_attributes modules →
  lr group = Some rate →
  ∃ g1 g2 g3,
    before_run zero double modules (group :: param_groups)
    = inr [g1; g2; g3] ∧
    (lr g1, weight_decay g1, options g1)
    = (Some rate, weight_decay group, options group) ∧
    (lr g2, weight_decay g2, options g2)
    = (Some (double rate), Some zero, options group) ∧
    (lr g3, weight_decay g3, options g3)
    = (Some rate, Some zero, options group) ∧
    before_run zero double modules [g1; g2; g3] = inr [g1; g2; g3].
Proof.
  intros Hattr Hrate. unfold before_run.
  destruct (collect_classifies modules
              {| weight_decay_list := []; bias_no_decay := [];
                 weight_no_decay := [] |} Hattr)
    as (l & -> & _).
  rewrite Hrate. eexists _, _, _. split; [done|]. simpl. done.
Qed.

End NoBiasDecay.

Section NoBiasDecaySamples.
Import NoBiasDecayHook.

(** A convolution with a bias, a normalization layer and a container;
    parameters and rates are numbers, and the other options a momentum. *)
Lemma before_run_classifies_witness :
  ∃ g2 g3,
    before_run 0%nat (Nat.mul 2)
      [ {| is_conv_or_linear := true; weight := Some (Some 1%nat);
           bias := Some (Some 2%nat); has_children := false;
           parameters := [1; 2]%nat |};
        {| is_conv_or_linear := false; weight := Some (Some 3%nat);
           bias := Some (Some 4%nat); has_children := false;
           parameters := [3; 4]%nat |};
        {| is_conv_or_linear := false; weight := None; bias := None;
           has_children := true; parameters := [1; 2; 3; 4]%nat |} ]
      [ {| params := None; lr := Some 5%nat; weight_decay := Some 1%nat;
           options := "momentum" |} ]
    = inr [ {| params := Some [Some 1%nat]; lr := Some 5%nat;
               weight_decay := Some 1%nat; options := "momentum" |};
            g2; g3 ].
Proof.
  destruct (before_run_classifies 0%nat (Nat.mul 2)
              [ {| is_conv_or_linear := true; weight := Some (Some 1%nat);
                   bias := Some (Some 2%nat); has_children := false;
                   parameters := [1; 2]%nat |};
                {| is_conv_or_linear := false; weight := Some (Some 3%nat);
                   bias := Some (Some 4%nat); has_children := false;
                   parameters := [3; 4]%nat |};
                {| is_conv_or_linear := false; weight := None; bias := None;
                   has_children := true; parameters := [1; 2; 3; 4]%nat |} ]
              {| params := None; lr := Some 5%nat; weight_decay := Some 1%nat;
                 options := "momentum" |} [] 5%nat)
    as (wd & b & w & g1 & g2 & g3 & Hrun & _).
  - repeat constructor; simpl; intros; by eauto.
  - reflexivity.
  - exists g2, g3. rewrite Hrun. vm_compute in Hrun.
    by injection Hrun as <- _ _.
Defined.

Lemma before_run_groups_witness :
  ∃ g1 g2 g3,
    before_run 0%nat (Nat.mul 2) []
      [ {| params := Some [Some 7%nat]; lr := Some 5%nat;
           weight_decay := Some 1%nat; options := "momentum" |};
        {| params := None; lr := None; weight_decay := None;
           options := "other" |} ]
    = inr [g1; g2; g3] ∧
    lr g2 = Some 10%nat ∧
    before_run 0%nat (Nat.mul 2) [] [g1; g2; g3] = inr [g1; g2; g3].
Proof.
  destruct (before_run_groups 0%nat (Nat.mul 2) (Param := nat) []
              {| params := Some [Some 7%nat]; lr := Some 5%nat;
                 weight_decay := Some 1%nat; options := "momentum" |}
              [ {| params := None; lr := None; weight_decay := None;
                   options := "other" |} ] 5%nat)
    as (g1 & g2 & g3 & Hrun & _ & Hg2 & _ & Hagain).
  - constructor.
  - reflexivity.
  - exists g1, g2, g3. split; [exact Hrun|]. split; [|exact Hagain].
    by injection Hg2 as -> _ _.
Defined.

End NoBiasDecaySamples.

(** ** The segmentation statistics: the order of the index lists *)

Section StatisticsOrder.
Import SegIncrVOCDataset TaskAdapt IndexOrder.

Variable map_class_names : list string → list string → list Z.

Lemma ascending_nil : ascending [].
Proof. intros i j x y _ Hi. by destruct i. Qed.

Lemma ascending_snoc (l : list nat) (idx : nat) :
  ascending l → Forall (λ i, (i < idx)%nat) l → ascending (l ++ [idx]).
Proof.
  intros Hl Hall i j x y Hij Hi Hj.
  assert (i < length l)%nat as Hilt.
  { apply lookup_lt_Some in Hi, Hj. rewrite length_app in Hi, Hj.
    simpl in Hi, Hj. lia. }
  rewrite lookup_app_l in Hi by done.
  destruct (decide (j < length l)%nat) as [Hjlt|Hjge].
  - rewrite lookup_app_l in Hj by done. exact (Hl i j x y Hij Hi Hj).
  - rewrite lookup_app_r in Hj by lia.
    apply list_lookup_singleton_Some in Hj as [_ <-].
    rewrite Forall_lookup in Hall. exact (Hall i x Hi).
Qed.

Lemma statistics_loop_ascending (classes : list string)
    (new_class_indices : list Z) (gt_seg_maps : list SegMap) :
  ∀ (idx : nat) (img_indices : ImgIndices),
  ascending (old img_indices) →
  ascending (new img_indices) →
  Forall (λ i, (i < idx)%nat) (old img_indices ++ new img_indices) →
  let run :=
    statistics_loop map_class_names classes new_class_indices idx
      gt_seg_maps img_indices in
  ascending (old run.1) ∧ ascending (new run.1) ∧
  Forall (λ i, (i < idx + length gt_seg_maps)%nat)
    (old run.1 ++ new run.1) ∧
  (run.2 = Ok () →
   (length (old run.1) + length (new run.1)
    = length (old img_indices) + length (new img_indices)
      + length gt_seg_maps)%nat).
Proof.
  induction gt_seg_maps as [|gt_map rest IH];
    intros idx img_indices Hold Hnew Hbound; simpl.
  - repeat split; [done..| |lia].
    eapply Forall_impl; [exact Hbound|]. simpl. lia.
  - apply Forall_app in Hbound as [Hbound_old Hbound_new].
    assert (∀ l, Forall (λ i, (i < idx)%nat) l →
                 Forall (λ i, (i < S idx)%nat) l) as Hweaken.
    { intros l Hl. eapply Forall_impl; [exact Hl|]. simpl. lia. }
    destruct (has_new_class _ _ _ _) as [[|]|e].
    + destruct (IH (S idx)
                  {| old := old img_indices;
                     new := new img_indices ++ [idx] |})
        as (H1 & H2 & H3 & H4); simpl.
      * done.
      * by apply ascending_snoc.
      * rewrite app_assoc. apply Forall_app. split.
        -- apply Forall_app. split; by apply Hweaken.
        -- repeat constructor.
      * repeat split; [done..| |].
        -- eapply Forall_impl; [exact H3|]. simpl. lia.
        -- intros Hok. specialize (H4 Hok). simpl in H4.
           rewrite length_app in H4. simpl in H4. lia.
    + destruct (IH (S idx)
                  {| old := old img_indices ++ [idx];
                     new := new img_indices |})
        as (H1 & H2 & H3 & H4); simpl.
      * by apply ascending_snoc.
      * done.
      * rewrite <- app_assoc. apply Forall_app. split; [by apply Hweaken|].
        constructor; [lia | by apply Hweaken].
      * repeat split; [done..| |].
        -- eapply Forall_impl; [exact H3|]. simpl. lia.
        -- intros Hok. specialize (H4 Hok). simpl in H4.
           rewrite length_app in H4. simpl in H4. lia.
    + simpl. repeat split; [done..| |done].
      apply Forall_app. split; eapply Forall_impl; eauto; simpl; lia.
Qed.

(** X24. Whatever the ground-truth maps hold, [statistics] leaves both
    index lists in ascending order, with indices of samples of the
    dataset only; when it returns, the two lists together have one entry
    per sample. *)
Theorem statistics_ascending (self_classes self_new_classes : list string)
    (gt_seg_maps : list SegMap) :
  let run :=
    statistics map_class_names self_classes self_new_classes gt_seg_maps
      {| old := []; new := [] |} in
  ascending (old run.1) ∧ ascending (new run.1) ∧
  Forall (λ idx, (idx < length gt_seg_maps)%nat) (old run.1 ++ new run.1) ∧
  (run.2 = Ok () →
   (length (old run.1) + length (new run.1) = length gt_seg_maps)%nat).
Proof.
  intros run. subst run. unfold statistics.
  apply (statistics_loop_ascending _ _ gt_seg_maps 0
           {| old := []; new := [] |});
    [apply ascending_nil | apply ascending_nil | constructor].
Qed.

End StatisticsOrder.

(** ** The segmentation statistics without new classes *)

Section StatisticsNoNewClasses.
Import SegIncrVOCDataset TaskAdapt.

Variable map_class_names : list string → list string → list Z.

Hypothesis map_class_names_contract :
  ∀ first second, ClassMapping second first (map_class_names first second).

Lemma statistics_loop_old (classes : list string) (gt_seg_maps : list SegMap) :
  ∀ (idx : nat) (img_indices : ImgIndices),
  Forall (labelled classes) gt_seg_maps →
  statistics_loop map_class_names classes [] idx gt_seg_maps img_indices
  = ({| old := old img_indices ++ seq idx (length gt_seg_maps);
        new := new img_indices |}, Ok ()).
Proof.
  induction gt_seg_maps as [|gt_map rest IH];
    intros idx img_indices Hlabelled; simpl.
  - rewrite app_nil_r. by destruct img_indices.
  - apply Forall_cons in Hlabelled as [Hmap Hrest].
    unfold has_new_class.
    destruct (label_schema_Ok classes (unique (normalize gt_map)))
      as (schema & -> & _).
    { intros i Hi. apply Hmap. by apply elem_of_unique. }
    simpl. rewrite IH by done. simpl. by rewrite <- app_assoc.
Qed.

(** X25. Without new classes, as the inference stage configures the
    dataset, [statistics] puts every sample in ['old'], in the order of
    the dataset, provided that every pixel value is the index of a
    class. *)
Theorem statistics_no_new_classes (self_classes : list string)
    (gt_seg_maps : list SegMap) :
  Forall (labelled ("background" :: self_classes)) gt_seg_maps →
  statistics map_class_names self_classes [] gt_seg_maps
    {| old := []; new := [] |}
  = ({| old := seq 0 (length gt_seg_maps); new := [] |}, Ok ()).
Proof.
  intros Hlabelled. unfold statistics.
  assert (map_class_names [] ("background" :: self_classes) = []) as ->.
  { destruct (map_class_names_contract [] ("background" :: self_classes))
      as [Hlen _].
    by apply nil_length_inv. }
  by rewrite statistics_loop_old.
Qed.

End StatisticsNoNewClasses.

Section StatisticsOrderSamples.
Import SegIncrVOCDataset.

Lemma statistics_no_new_classes_witness :
  statistics Sample.mapper ["cat"] [] [ [[1%nat]]; [[0%nat; 255%nat]] ]
    {| old := []; new := [] |}
  = ({| old := [0; 1]%nat; new := [] |}, Ok ()).
Proof.
  apply (statistics_no_new_classes Sample.mapper mapper_contract ["cat"]
           [ [[1%nat]]; [[0%nat; 255%nat]] ]).
  assert (∀ gt_map, (∀ v, v ∈ concat (normalize gt_map) → v = 0 ∨ v = 1)%nat →
                    labelled ["background"; "cat"] gt_map) as Hlabelled.
  { intros gt_map Hvalues v Hv. destruct (Hvalues v Hv) as [-> | ->];
      simpl; lia. }
  apply Forall_cons. split; [|apply Forall_cons; split; [|constructor]];
    apply Hlabelled; intros v Hv; vm_compute in Hv;
    repeat (apply elem_of_cons in Hv as [->|Hv]; [lia|]);
    by apply elem_of_nil in Hv.
Defined.

End StatisticsOrderSamples.

(** ** The test pipeline for batch inference *)

Section PipelineFacts.
Import Pipeline.
Context {Value : Type}.

Local Abbreviation step := (Pipeline.step Value).

(** Induction on a step, with the property for the transforms. *)
Lemma step_induction (P : step → Prop) :
  (∀ type transforms others,
     match transforms with
     | Some inner => Forall P inner
     | None => True
     end →
     P (Step type transforms others)) →
  ∀ pipeline, P pipeline.
Proof.
  intros Hstep. fix IH 1. intros [type transforms others].
  apply Hstep. destruct transforms as [inner|]; [|exact I].
  induction inner as [|first rest IHrest]; constructor; [apply IH | done].
Qed.

Lemma replace_step_MultiScaleFlipAug (transforms : option (list step))
    (others : list (string * Value)) :
  replace_step (Step (Some "MultiScaleFlipAug") transforms others)
  = match transforms with
    | None => inl AssertionError
    | Some inner =>
        match replace_ImageToTensor inner with
        | inl e => inl e
        | inr inner' =>
            inr (Step (Some "MultiScaleFlipAug") (Some inner') others)
        end
    end.
Proof.
  destruct transforms as [inner|]; [|done]. simpl.
  assert ((fix replace_all (pipelines : list step) : error + list step :=
             match pipelines with
             | [] => inr []
             | first :: rest =>
                 match replace_step first with
                 | inl e => inl e
                 | inr first' =>
                     match replace_all rest with
                     | inl e => inl e
                     | inr rest' => inr (first' :: rest')
                     end
                 end
             end) inner = replace_ImageToTensor inner) as ->; [|done].
  induction inner as [|first rest IH]; [done|]. simpl. by rewrite IH.
Qed.

Lemma well_formed_step_MultiScaleFlipAug (inner : list step)
    (others : list (string * Value)) :
  well_formed_step (Step (Some "MultiScaleFlipAug") (Some inner) others)
  ↔ well_formed inner.
Proof.
  simpl. unfold well_formed.
  assert ((fix all (pipelines : list step) : Prop :=
             match pipelines with
             | [] => True
             | first :: rest => well_formed_step first ∧ all rest
             end) inner ↔ Forall well_formed_step inner) as ->.
  { induction inner as [|first rest IH]; [by split; [constructor|]|].
    rewrite Forall_cons, IH. done. }
  split; [by intros H; apply H | done].
Qed.

Lemma batch_ready_step_MultiScaleFlipAug (inner : list step)
    (others : list (string * Value)) :
  batch_ready_step (Step (Some "MultiScaleFlipAug") (Some inner) others)
  ↔ batch_ready inner.
Proof.
  simpl. unfold batch_ready.
  assert ((fix all (pipelines : list step) : Prop :=
             match pipelines with
             | [] => True
             | first :: rest => batch_ready_step first ∧ all rest
             end) inner ↔ Forall batch_ready_step inner) as ->.
  { induction inner as [|first rest IH]; [by split; [constructor|]|].
    rewrite Forall_cons, IH. done. }
  split; [by intros [_ H]; apply H | done].
Qed.

(** What the replacement does to one step. *)
Local Abbreviation replaces := (λ pipeline pipeline' : step,
  replaced pipeline pipeline' ∧
  batch_ready_step pipeline' ∧
  step_type pipeline' = replaced_type (step_type pipeline) ∧
  replace_step pipeline' = inr pipeline').

Lemma replace_ImageToTensor_Forall2 (pipelines : list step) :
  Forall (λ pipeline,
            well_formed_step pipeline →
            ∃ pipeline', replace_step pipeline = inr pipeline' ∧
                         replaces pipeline pipeline') pipelines →
  well_formed pipelines →
  ∃ pipelines',
    replace_ImageToTensor pipelines = inr pipelines' ∧
    Forall2 replaces pipelines pipelines' ∧
    replace_ImageToTensor pipelines' = inr pipelines'.
Proof.
  unfold well_formed.
  induction 1 as [|first rest Hfirst _ IH]; intros Hwf.
  - exists []. split; [done|]. split; [constructor | done].
  - apply Forall_cons in Hwf as [Hwf_first Hwf_rest].
    destruct (Hfirst Hwf_first) as (first' & Hrun & Hreplaces).
    destruct (IH Hwf_rest) as (rest' & Hrest & Hall & Hagain).
    exists (first' :: rest'). simpl. rewrite Hrun, Hrest.
    split; [done|]. split; [by constructor|].
    destruct Hreplaces as (_ & _ & _ & ->). by rewrite Hagain.
Qed.

Lemma replace_step_replaces (pipeline : step) :
  well_formed_step pipeline →
  ∃ pipeline', replace_step pipeline = inr pipeline' ∧
               replaces pipeline pipeline'.
Proof.
  induction pipeline as [type transforms others IH] using step_induction.
  destruct type as [type|]; [|done].
  destruct (decide (type = "MultiScaleFlipAug")) as [->|Hne].
  - destruct transforms as [inner|]; [|by intros Hwf; destruct Hwf].
    intros Hwf%well_formed_step_MultiScaleFlipAug.
    destruct (replace_ImageToTensor_Forall2 inner IH Hwf)
      as (inner' & Hrun & Hall & Hagain).
    exists (Step (Some "MultiScaleFlipAug") (Some inner') others).
    rewrite replace_step_MultiScaleFlipAug, Hrun. split; [done|].
    split; [|split; [|split]].
    + constructor. clear -Hall.
      induction Hall as [|? ? ? ? [? _] _ IH']; by constructor.
    + apply batch_ready_step_MultiScaleFlipAug. unfold batch_ready.
      clear -Hall.
      induction Hall as [|? ? ? ? (_ & ? & _) _ IH']; by constructor.
    + done.
    + by rewrite replace_step_MultiScaleFlipAug, Hagain.
  - intros _. simpl. rewrite decide_False by done.
    destruct (decide (type = "ImageToTensor")) as [->|Hne'].
    + eexists. split; [done|]. split; [constructor|]. by repeat split.
    + eexists. split; [done|]. split; [by constructor|]. split; [|split].
      * simpl. split; [congruence|]. intros [= ?]. done.
      * unfold replaced_type. simpl. rewrite decide_False; [done|].
        congruence.
      * simpl. by rewrite !decide_False by done.
Qed.

Lemma replace_step_well_formed (pipeline : step) :
  ∀ pipeline', replace_step pipeline = inr pipeline' →
  well_formed_step pipeline.
Proof.
  induction pipeline as [type transforms others IH] using step_induction.
  intros pipeline'. destruct type as [type|]; [|done].
  destruct (decide (type = "MultiScaleFlipAug")) as [->|Hne].
  - rewrite replace_step_MultiScaleFlipAug.
    destruct transforms as [inner|]; [|done].
    intros Hrun. apply well_formed_step_MultiScaleFlipAug.
    specialize IH. unfold well_formed.
    destruct (replace_ImageToTensor inner) as [e|inner'] eqn:Hinner;
      [done|].
    clear Hrun. revert inner' Hinner.
    induction IH as [|first rest Hfirst _ IHrest]; intros inner' Hinner;
      [constructor|].
    simpl in Hinner.
    destruct (replace_step first) as [e|first'] eqn:Hfirst'; [done|].
    destruct (replace_ImageToTensor rest) as [e|rest'] eqn:Hrest; [done|].
    constructor; [by eapply Hfirst | by eapply IHrest].
  - intros _. simpl. by intros ?.
Qed.

(** X26. [replace_ImageToTensor] returns exactly for the pipelines in
    which every step has a type and every [MultiScaleFlipAug] step has
    [transforms], those transforms included. The list it returns has, for
    each step of the pipeline, the step that takes its place: a
    [DefaultFormatBundle] step with no other entry for an [ImageToTensor]
    step, the step with its transforms replaced in the same way for a
    [MultiScaleFlipAug] step, and the step itself otherwise. No
    [ImageToTensor] step is left in the list or among the transforms of
    [MultiScaleFlipAug] steps, and the function gives the list back when
    it is applied to it again. *)
Theorem replace_ImageToTensor_batch_ready (pipelines : list step) :
  (well_formed pipelines →
   ∃ pipelines',
     replace_ImageToTensor pipelines = inr pipelines' ∧
     Forall2 replaced pipelines pipelines' ∧
     batch_ready pipelines' ∧
     step_type <$> pipelines' = replaced_type ∘ step_type <$> pipelines ∧
     replace_ImageToTensor pipelines' = inr pipelines') ∧
  (∀ pipelines', replace_ImageToTensor pipelines = inr pipelines' →
                 well_formed pipelines).
Proof.
  split.
  - intros Hwf.
    destruct (replace_ImageToTensor_Forall2 pipelines) as
      (pipelines' & Hrun & Hall & Hagain); [|done|].
    { apply Forall_forall. intros pipeline _.
      apply replace_step_replaces. }
    exists pipelines'. split; [done|].
    split; [|split; [|split; [|done]]].
    + clear -Hall. induction Hall as [|? ? ? ? [? _] _ IH]; by constructor.
    + unfold batch_ready. clear -Hall.
      induction Hall as [|? ? ? ? (_ & ? & _) _ IH]; by constructor.
    + clear -Hall.
      induction Hall as [|? ? ? ? (_ & _ & Htype & _) _ IH]; [done|].
      rewrite !fmap_cons, IH. simpl. by rewrite Htype.
  - unfold well_formed.
    induction pipelines as [|first rest IH]; intros pipelines' Hrun;
      [constructor|].
    simpl in Hrun.
    destruct (replace_step first) as [e|first'] eqn:Hfirst; [done|].
    destruct (replace_ImageToTensor rest) as [e|rest'] eqn:Hrest; [done|].
    constructor; [by eapply replace_step_well_formed | by eapply IH].
Qed.

(** The transforms of a step that is not a [MultiScaleFlipAug] are not
    looked at: an [ImageToTensor] among them stays. *)
Example replace_ImageToTensor_other_wrapper :
  let pipelines : list step :=
    [Step (Some "Compose") (Some [Step (Some "ImageToTensor") None []]) []]
  in
  replace_ImageToTensor pipelines = inr pipelines.
Proof. reflexivity. Qed.

End PipelineFacts.

(** ** The normalization values of the exporter *)

Section GetNormValues.
Context {Num : Type}.
Variables zero one : Num.
Import ClsExporter.
Implicit Types (pipeline before after : list (@PipelineStep Num)).

(** X27. [get_norm_values] returns a pair of value lists in exactly two
    cases: the pipeline has a [Normalize] step with a [mean] and a [std],
    every step before it has a type other than [Normalize], and the pair is
    that step's [mean] and [std], whatever comes after it; or every step
    has a type other than [Normalize] and the pair is the defaults
    [[0, 0, 0]] and [[1, 1, 1]]. *)
Theorem get_norm_values_first_Normalize pipeline (mean_values scale_values : list Num) :
  get_norm_values zero one pipeline = inr (mean_values, scale_values) ↔
  (∃ before pipeline_step after,
      pipeline = before ++ pipeline_step :: after ∧
      Forall other_step before ∧
      type pipeline_step = Some "Normalize" ∧
      mean pipeline_step = Some mean_values ∧
      std pipeline_step = Some scale_values) ∨
  (Forall other_step pipeline ∧
   mean_values = [zero; zero; zero] ∧ scale_values = [one; one; one]).
Proof.
  unfold get_norm_values.
  generalize [zero; zero; zero], [one; one; one]. intros m0 s0.
  induction pipeline as [|x rest IH]; cbn [get_norm_values_loop].
  - split.
    + intros [= <- <-]. right. by split; [constructor|].
    + intros [(before & y & after & Heq & _)|(_ & -> & ->)]; [|done].
      by destruct before.
  - destruct (type x) as [ty|] eqn:Hty; cbn [attribute].
    + destruct (decide (ty = "Normalize")) as [->|Hne].
      * split.
        -- destruct (mean x) as [mx|] eqn:Hm; [|done].
           destruct (std x) as [sx|] eqn:Hs; [|done].
           intros [= <- <-]. left. exists [], x, rest. by repeat split.
        -- intros [(before & y & after & Heq & Hbefore & Hy & Hm & Hs)
                  |(Hall & _)].
           ++ destruct before as [|b before]; simplify_eq/=.
              ** by rewrite Hm, Hs.
              ** apply Forall_cons in Hbefore as [(ty & Hb & Hne) _].
                 congruence.
           ++ apply Forall_cons in Hall as [(ty & Hx & Hne) _]. congruence.
      * rewrite IH. split.
        -- intros [(before & y & after & -> & Hbefore & Hy)|(Hall & -> & ->)].
           ++ left. exists (x :: before), y, after. split; [done|].
              split; [|done]. apply Forall_cons. split; [|done].
              by exists ty.
           ++ right. split; [|done]. apply Forall_cons. split; [|done].
              by exists ty.
        -- intros [(before & y & after & Heq & Hbefore & Hy)|(Hall & -> & ->)].
           ++ destruct before as [|b before]; simplify_eq/=.
              ** destruct Hy as (Hy & _). congruence.
              ** apply Forall_cons in Hbefore as [_ Hbefore].
                 left. by exists before, y, after.
           ++ apply Forall_cons in Hall as [_ Hall]. by right.
    + split; [done|].
      intros [(before & y & after & Heq & Hbefore & Hy & _)|(Hall & _)].
      * destruct before as [|b before]; simplify_eq/=.
        apply Forall_cons in Hbefore as [(ty & Hb & _) _]. congruence.
      * apply Forall_cons in Hall as [(ty & Hx & _) _]. congruence.
Qed.

End GetNormValues.

(** ** The timm backbones *)

Section TimmBackbones.
Import EfficientNetV2.
Context {TimmModel : Type}.
Variable create_model : string → bool → Z → result TimmModel.
Variable detach_classifier : TimmModel → TimmModel.
Variable model_num_features : TimmModel → Z.
Variable conv_head_in_channels : TimmModel → result Z.

Local Abbreviation wrapper_init :=
  (TimmModelsWrapper_init create_model detach_classifier model_num_features
     conv_head_in_channels).

Lemma NAME_DICT_not_mobilenet (name : string) :
  name ∈ NAME_DICT.*1 →
  bool_decide (name ∈ ["mobilenetv3_large_100_miil_in21k";
                       "mobilenetv3_large_100_miil"]) = false.
Proof.
  intros Hin. apply bool_decide_eq_false. intros Hmob.
  cbn in Hin. set_unfold. intuition (subst; discriminate).
Qed.

Lemma wrapper_init_Ok name pre pool self :
  wrapper_init name pre pool = Ok self →
  ∃ timm_name created,
    Dict.get NAME_DICT name = Some timm_name ∧
    create_model timm_name pre 1000 = Ok created ∧
    self = {| model_name := name; pretrained := pre; is_mobilenet := false;
              model := detach_classifier created;
              num_head_features :=
                model_num_features (detach_classifier created);
              num_features := model_num_features (detach_classifier created);
              pooling_type := pool |}.
Proof.
  unfold TimmModelsWrapper_init. intros Hinit.
  apply bind_Ok in Hinit as (timm_name & Hname & Hinit).
  apply bind_Ok in Hinit as (created & Hcreated & Hinit).
  assert (Dict.get NAME_DICT name = Some timm_name) as Hget.
  { destruct (Dict.get NAME_DICT name); by simplify_eq/=. }
  assert (name ∈ NAME_DICT.*1) as Hin.
  { apply dict_get_Some_elem in Hget.
    by apply (list_elem_of_fmap_2 fst) in Hget. }
  rewrite (NAME_DICT_not_mobilenet _ Hin) in Hinit.
  exists timm_name, created. repeat split; [done..|].
  cbn in Hinit. by injection Hinit as <-.
Qed.

(** X28. Whenever [TimmModelsWrapper] is constructed, the model name is one
    of the keys of [NAME_DICT], the model is the timm model of the name
    that [NAME_DICT] gives, with its classifier detached, [is_mobilenet] is
    false and [num_features] equals [num_head_features]: the names that
    would set [is_mobilenet] are values of [NAME_DICT], not keys. *)
Theorem TimmModelsWrapper_init_never_mobilenet name pre pool self :
  wrapper_init name pre pool = Ok self →
  name ∈ NAME_DICT.*1 ∧
  is_mobilenet self = false ∧
  num_features self = num_head_features self ∧
  num_features self = model_num_features (model self) ∧
  ∃ timm_name created,
    (name, timm_name) ∈ NAME_DICT ∧
    create_model timm_name pre 1000 = Ok created ∧
    model self = detach_classifier created.
Proof.
  intros (timm_name & created & Hget & Hcreated & ->)%wrapper_init_Ok.
  apply dict_get_Some_elem in Hget.
  split; [by apply (list_elem_of_fmap_2 fst) in Hget|].
  repeat split; eauto.
Qed.

Lemma efficientnetv2_inj (version version' : string) :
  "efficientnetv2_" +:+ version = "efficientnetv2_" +:+ version' →
  version = version'.
Proof. intros Heq. by simplify_eq/=. Qed.

Variable path_exists : string → bool.

(** X29. An [OTEEfficientNetV2] can be constructed for the versions
    [s_21k], [s_1k], [m_21k], [m_1k] and [b0] only. When [init_weights]
    gets something other than [None] or the path of an existing file, the
    two [s] versions load the address of [pretrained_urls], and the
    versions [m_21k], [m_1k] and [b0] raise a [KeyError] for their model
    name. *)
Theorem init_weights_pretrained_urls version pre pool self arg :
  OTEEfficientNetV2_init create_model detach_classifier model_num_features
    conv_head_in_channels version pre pool = Ok self →
  arg = PretrainedOther ∨
    (∃ path, arg = PretrainedStr path ∧ path_exists path = false) →
  (version ∈ ["s_21k"; "s_1k"] ∧
   ∃ url, init_weights path_exists self arg = Ok (Some url) ∧
          ("efficientnetv2_" +:+ version, url) ∈ pretrained_urls ∧
          String.prefix pretrained_root url = true) ∨
  (version ∈ ["m_21k"; "m_1k"; "b0"] ∧
   init_weights path_exists self arg
   = Raise (KeyError ("efficientnetv2_" +:+ version))).
Proof.
  unfold OTEEfficientNetV2_init.
  intros (timm_name & created & Hget & _ & ->)%wrapper_init_Ok Harg.
  assert (init_weights path_exists
            {| model_name := "efficientnetv2_" +:+ version; pretrained := pre;
               is_mobilenet := false; model := detach_classifier created;
               num_head_features :=
                 model_num_features (detach_classifier created);
               num_features :=
                 model_num_features (detach_classifier created);
               pooling_type := pool |} arg
          = url ← Stage.getitem ("efficientnetv2_" +:+ version)
                   (Dict.get pretrained_urls ("efficientnetv2_" +:+ version));
            Ok (Some url)) as ->.
  { destruct Harg as [->|(path & -> & Hpath)]; [done|].
    unfold init_weights. by rewrite Hpath. }
  apply dict_get_Some_elem, (list_elem_of_fmap_2 fst) in Hget.
  cbn [fst] in Hget.
  change (NAME_DICT.*1) with
    ["mobilenetv3_large_21k"; "mobilenetv3_large_1k"; "tresnet";
     "efficientnetv2_" +:+ "s_21k"; "efficientnetv2_" +:+ "s_1k";
     "efficientnetv2_" +:+ "m_21k"; "efficientnetv2_" +:+ "m_1k";
     "efficientnetv2_" +:+ "b0"] in Hget.
  rewrite !elem_of_cons in Hget.
  destruct Hget as [H|[H|[H|[H|[H|[H|[H|[H|H]]]]]]]];
    [by cbn in H..| | | | | |by apply elem_of_nil in H];
    apply efficientnetv2_inj in H as ->.
  - left. split; [by apply (bool_decide_unpack _)|].
    eexists. split; [done|]. split; [|done]. by apply (bool_decide_unpack _).
  - left. split; [by apply (bool_decide_unpack _)|].
    eexists. split; [done|]. split; [|done]. by apply (bool_decide_unpack _).
  - right. by split; [apply (bool_decide_unpack _)|].
  - right. by split; [apply (bool_decide_unpack _)|].
  - right. by split; [apply (bool_decide_unpack _)|].
Qed.

End TimmBackbones.

Section ModelSamples.
Import ClsExporter EfficientNetV2.

(** A sample: timm models are stood for by their names. *)
Lemma TimmModelsWrapper_init_never_mobilenet_witness :
  let create_model := λ (name : string) (_ : bool) (_ : Z), Ok name in
  let self :=
    {| model_name := "tresnet"; pretrained := true; is_mobilenet := false;
       model := "tresnet_m"; num_head_features := 2048;
       num_features := 2048; pooling_type := "avg" |} in
  TimmModelsWrapper_init create_model id (λ _, 2048)
    (λ _, Raise (KeyError "conv_head")) "tresnet" true "avg" = Ok self ∧
  is_mobilenet self = false ∧
  num_features self = num_head_features self.
Proof.
  intros create_model self. split; [reflexivity|].
  pose proof (TimmModelsWrapper_init_never_mobilenet create_model id
                (λ _, 2048) (λ _, Raise (KeyError "conv_head"))
                "tresnet" true "avg" self eq_refl) as (_ & H1 & H2 & _).
  by split.
Defined.

Lemma init_weights_pretrained_urls_witness :
  let create_model := λ (name : string) (_ : bool) (_ : Z), Ok name in
  let self :=
    {| model_name := "efficientnetv2_b0"; pretrained := true;
       is_mobilenet := false; model := "tf_efficientnetv2_b0";
       num_head_features := 1280; num_features := 1280;
       pooling_type := "avg" |} in
  OTEEfficientNetV2_init create_model id (λ _, 1280)
    (λ _, Raise (KeyError "conv_head")) "b0" true "avg" = Ok self ∧
  init_weights (λ _, false) self (PretrainedStr "imagenet")
  = Raise (KeyError "efficientnetv2_b0").
Proof.
  intros create_model self. split; [reflexivity|].
  destruct (init_weights_pretrained_urls create_model id (λ _, 1280)
              (λ _, Raise (KeyError "conv_head")) (λ _, false)
              "b0" true "avg" self (PretrainedStr "imagenet") eq_refl
              (or_intror (ex_intro _ "imagenet" (conj eq_refl eq_refl))))
    as [(Hs & _)|(_ & Hraise)]; [|exact Hraise].
  exfalso. rewrite !elem_of_cons, elem_of_nil in Hs.
  by destruct Hs as [?|[?|?]].
Defined.

End ModelSamples.
